(** * mutable-element: the Span (DynamicRange), the Value Resolver and the
      keyed-list reconciler, embedded over a small model of the DOM tree.

    Sources embedded here:
    - [src/range.ts]           class DynamicRange (module [Span])
    - the other copy of the same class found in the repository, whose
      [firstChild] and [childNodes] differ (module [RangeVariant])
    - [src/mutable.ts]         mutate, mount, text, fragment (module
                               [Mutable])
    - [src/actions.ts]         mutateRange, namedRange, KeyedListRenderer,
                               list and the functions of its closure;
                               prepend, append, empty (module [NodeActions]);
                               the property name [style] computes (module
                               [Style])
    - [src/utils.ts]           Resolver, Reactor and BufferedReactor (module
                               [Utils])

    The DOM.  The DOM is the ambient API the library runs on.  It is
    modelled as a store of nodes, each with a kind, its character data, a
    parent pointer and an ordered child list, with the mutation algorithms
    of the DOM standard (pre-insertion validity, insert, remove, replace,
    string replace all, Range.deleteContents, Range.intersectsNode).  A node
    is its identity, a natural number; a new node takes the next one.

    Exceptions.  A computation answers an outcome and the state it leaves:
    a DOM exception or a TypeError keeps the changes made before it.

    Asynchrony.  [mutate], [mutateRange] and the tasks [namedRange] launches
    are async functions.  A task is run to completion where it is launched:
    [await] is sequencing, an async iterator is the finite sequence it
    yields, a promise is the value it settles to.  What is proved is about
    one task at a time; the interleaving of several tasks is not modelled.
    The tasks of [text] and [fragment] are split where they first hand
    over to the caller ([mutate_now], [launch]): what the caller sees when
    the call answers, and what the task does afterwards.

    Loops that walk the siblings carry a fuel, set from the number of nodes
    of the store; running out of it is the outcome [Diverge]. *)

From Stdlib Require Import String List Arith Lia Bool.
From stdpp Require Import base option list gmap strings.

Import ListNotations.
#[local] Set Warnings "-clear-no-such-hyp".
Open Scope string_scope.
Open Scope list_scope.
Open Scope nat_scope.

(** ** Outcomes and the state-and-exception monad *)

(** The exceptions the modelled code can raise. *)
Inductive exn :=
  | TypeError
  | NotFoundError
  | HierarchyRequestError
  | InvalidNodeTypeError.

(** [Ok] is a normal completion, [Throw] a raised exception.  [Diverge] is
    a computation that never completes (the fuel of a loop ran out), and
    [Unmodelled] marks a DOM situation this model does not cover (a Range
    whose boundary points lie in different containers, a reference to a node
    that was never created). *)
Inductive outcome (A : Type) :=
  | Ok (a : A)
  | Throw (e : exn)
  | Diverge
  | Unmodelled.
Arguments Ok {A} a.
Arguments Throw {A} e.
Arguments Diverge {A}.
Arguments Unmodelled {A}.

(** A computation over a mutable state [S]: the state survives an
    exception, as it does in JavaScript. *)
Definition M (S A : Type) : Type := S -> outcome A * S.

Definition ret {S A} (a : A) : M S A := fun s => (Ok a, s).

Definition bind {S A B} (m : M S A) (k : A -> M S B) : M S B :=
  fun s =>
    match m s with
    | (Ok a, s') => k a s'
    | (Throw e, s') => (Throw e, s')
    | (Diverge, s') => (Diverge, s')
    | (Unmodelled, s') => (Unmodelled, s')
    end.

Definition throw {S A} (e : exn) : M S A := fun s => (Throw e, s).
Definition diverge {S A} : M S A := fun s => (Diverge, s).
Definition unmodelled {S A} : M S A := fun s => (Unmodelled, s).
Definition get {S} : M S S := fun s => (Ok s, s).
Definition modify {S} (f : S -> S) : M S unit := fun s => (Ok tt, f s).

Declare Scope m_scope.
Delimit Scope m_scope with M.
Notation "x <- m ; k" := (bind m (fun x => k))
  (at level 20, m at level 100, k at level 200, only parsing) : m_scope.
Notation "m ;; k" := (bind m (fun _ => k))
  (at level 100, k at level 200, right associativity, only parsing) : m_scope.
Open Scope m_scope.

(** [for (const x of l) body(x)] *)
Section ForEach.
Context {S A : Type} (body : A -> M S unit).

Fixpoint for_each (l : list A) : M S unit :=
  match l with
  | [] => ret tt
  | x :: r => body x ;; for_each r
  end.
End ForEach.
Arguments for_each {S A} body l.

(** ** The DOM store *)

Inductive node_kind := Element | Text | Comment | DocumentFragment.

#[global] Instance node_kind_eq_dec : EqDecision node_kind.
Proof. solve_decision. Defined.

Record node := Node {
  kind : node_kind;
  chardata : string;             (* [data] of a Text or Comment node *)
  parentNode : option nat;
  children : list nat;
}.

(** What [console.error] received. *)
Inductive diagnostic :=
  | InvalidObject
  | InvalidAction
  | Caught (e : exn).

Record dom := Dom {
  nodes : gmap nat node;
  next_id : nat;                 (* identity of the next node created *)
  console : list diagnostic;
}.

Definition set_nodes (f : gmap nat node -> gmap nat node) (d : dom) : dom :=
  Dom (f (nodes d)) (next_id d) (console d).

Definition with_parent (p : option nat) (n : node) : node :=
  Node (kind n) (chardata n) p (children n).
Definition with_children (f : list nat -> list nat) (n : node) : node :=
  Node (kind n) (chardata n) (parentNode n) (f (children n)).
Definition with_data (s : string) (n : node) : node :=
  Node (kind n) s (parentNode n) (children n).

(** Read-only navigation. *)
Definition parent_of (d : dom) (n : nat) : option nat :=
  match nodes d !! n with Some x => parentNode x | None => None end.

Definition kids (d : dom) (n : nat) : list nat :=
  match nodes d !! n with Some x => children x | None => [] end.

Definition kind_of (d : dom) (n : nat) : option node_kind :=
  kind <$> nodes d !! n.

Fixpoint index_of (n : nat) (l : list nat) : option nat :=
  match l with
  | [] => None
  | x :: r => if Nat.eqb x n then Some 0 else S <$> index_of n r
  end.

Fixpoint next_after (n : nat) (l : list nat) : option nat :=
  match l with
  | [] => None
  | x :: r => if Nat.eqb x n then head r else next_after n r
  end.

Definition nextSibling (d : dom) (n : nat) : option nat :=
  match parent_of d n with
  | Some p => next_after n (kids d p)
  | None => None
  end.

(** Child-list surgery. *)
Fixpoint list_del (n : nat) (l : list nat) : list nat :=
  match l with
  | [] => []
  | x :: r => if Nat.eqb x n then r else x :: list_del n r
  end.

(** Insert [n] before the first occurrence of [ref]; at the end when the
    reference is null. *)
Fixpoint list_ins (n : nat) (ref : option nat) (l : list nat) : list nat :=
  match l with
  | [] => [n]
  | x :: r =>
      match ref with
      | Some c => if Nat.eqb x c then n :: x :: r else x :: list_ins n ref r
      | None => x :: list_ins n ref r
      end
  end.

Definition opt_eqb (a b : option nat) : bool :=
  match a, b with
  | Some x, Some y => Nat.eqb x y
  | None, None => true
  | _, _ => false
  end.

(** [a] is an inclusive ancestor of [n]: [n] itself or reached by parent
    pointers.  The walk is bounded by the number of nodes. *)
Fixpoint inclusive_ancestor_fuel (fuel : nat) (d : dom) (a n : nat) : bool :=
  Nat.eqb a n ||
  match fuel with
  | 0 => false
  | S f =>
      match parent_of d n with
      | Some p => inclusive_ancestor_fuel f d a p
      | None => false
      end
  end.

Definition inclusive_ancestor (d : dom) (a n : nat) : bool :=
  inclusive_ancestor_fuel (size (nodes d)) d a n.

(** DOM "remove": unlink [n] from its parent, if it has one. *)
Definition remove_node (n : nat) (d : dom) : dom :=
  match parent_of d n with
  | None => d
  | Some p =>
      set_nodes (fun m => alter (with_parent None) n
                            (alter (with_children (list_del n)) p m)) d
  end.

(** DOM "insert" of one non-fragment node: unlink, then link before [ref]. *)
Definition link_before (parent : nat) (ref : option nat) (n : nat) (d : dom) : dom :=
  set_nodes (fun m => alter (with_parent (Some parent)) n
                        (alter (with_children (list_ins n ref)) parent m))
            (remove_node n d).

Definition is_container (k : node_kind) : bool :=
  match k with
  | Element | DocumentFragment => true
  | Text | Comment => false
  end.

(** DOM "ensure pre-insertion validity" for the node kinds of the model. *)
Definition pre_insert_check (parent node : nat) (child : option nat) : M dom unit :=
  fun d =>
    match kind_of d parent, kind_of d node with
    | Some kp, Some _ =>
        if negb (is_container kp) then (Throw HierarchyRequestError, d)
        else if inclusive_ancestor d node parent then (Throw HierarchyRequestError, d)
        else match child with
             | Some c =>
                 if opt_eqb (parent_of d c) (Some parent) then (Ok tt, d)
                 else (Throw NotFoundError, d)
             | None => (Ok tt, d)
             end
    | _, _ => (Unmodelled, d)
    end.

(** DOM "insert": a DocumentFragment contributes its children, in order. *)
Definition dom_insert (parent node : nat) (ref : option nat) : M dom unit :=
  fun d =>
    match kind_of d node with
    | Some DocumentFragment =>
        (Ok tt, fold_left (fun d' c => link_before parent ref c d') (kids d node) d)
    | _ => (Ok tt, link_before parent ref node d)
    end.

(** [parent.insertBefore(node, child)] *)
Definition Node_insertBefore (parent node : nat) (child : option nat) : M dom unit :=
  pre_insert_check parent node child ;;
  d <- get ;
  let ref := if opt_eqb child (Some node) then nextSibling d node else child in
  dom_insert parent node ref.

(** [parent.appendChild(node)] *)
Definition Node_appendChild (parent node : nat) : M dom unit :=
  Node_insertBefore parent node None.

(** [parent.removeChild(child)] *)
Definition Node_removeChild (parent child : nat) : M dom nat :=
  fun d =>
    if opt_eqb (parent_of d child) (Some parent)
    then (Ok child, remove_node child d)
    else (Throw NotFoundError, d).

(** [parent.replaceChild(node, child)] *)
Definition Node_replaceChild (parent node child : nat) : M dom unit :=
  pre_insert_check parent node (Some child) ;;
  d <- get ;
  let ref0 := nextSibling d child in
  let ref := if opt_eqb ref0 (Some node) then nextSibling d node else ref0 in
  modify (remove_node child) ;;
  dom_insert parent node ref.

(** Node creation. *)
Definition create (k : node_kind) (s : string) : M dom nat :=
  fun d =>
    (Ok (next_id d),
     Dom (<[next_id d := Node k s None []]> (nodes d)) (S (next_id d)) (console d)).

Definition createComment (s : string) : M dom nat := create Comment s.
Definition createTextNode (s : string) : M dom nat := create Text s.
Definition createDocumentFragment : M dom nat := create DocumentFragment "".

(** [node.textContent = s] *)
Definition set_textContent (target : nat) (s : string) : M dom unit :=
  d <- get ;
  match kind_of d target with
  | Some Element | Some DocumentFragment =>
      (* string replace all *)
      t <- (if String.eqb s "" then ret None
            else (x <- createTextNode s ; ret (Some x))) ;
      d' <- get ;
      for_each (fun c => modify (remove_node c)) (kids d' target) ;;
      match t with
      | Some x => dom_insert target x None
      | None => ret tt
      end
  | Some Text | Some Comment =>
      modify (set_nodes (alter (with_data s) target))
  | None => unmodelled
  end.

Definition console_error (x : diagnostic) : M dom unit :=
  modify (fun d => Dom (nodes d) (next_id d) (console d ++ [x])).

(** [task().catch(console.error)]: a task launched and not awaited.  The
    task is run to completion where it is launched, an exception it raises
    is reported on the console and does not reach the launcher. *)
Definition catch_console (task : M dom unit) : M dom unit :=
  fun d =>
    match task d with
    | (Throw e, d') => console_error (Caught e) d'
    | r => r
    end.

(** ** Range: the part of the DOM Range API the Span uses *)

(** A Range both of whose boundary points are in one container: the
    children at offsets [lo <= i < hi]. *)
Record Range := MkRange { container : nat; lo : nat; hi : nat }.

(** [range.deleteContents()] *)
Definition Range_deleteContents (rg : Range) : M dom unit :=
  d <- get ;
  for_each (fun c => modify (remove_node c))
           (take (hi rg - lo rg) (drop (lo rg) (kids d (container rg)))).

(** [range.intersectsNode(node)], for a [node] whose parent is the
    container: (parent, offset) is before the end and (parent, offset + 1)
    is after the start. *)
Definition Range_intersectsNode (rg : Range) (n : nat) : M dom bool :=
  fun d =>
    if opt_eqb (parent_of d n) (Some (container rg)) then
      match index_of n (kids d (container rg)) with
      | Some offset => (Ok (Nat.ltb offset (hi rg) && Nat.ltb (lo rg) (S offset)), d)
      | None => (Unmodelled, d)
      end
    else (Unmodelled, d).

(** ** src/range.ts: class DynamicRange *)

Record DynamicRange := MkDynamicRange { start : nat; end_ : nat }.

Module Span.

(** [get static()]: [setStartAfter(start)] then [setEndBefore(end)]; each
    throws InvalidNodeTypeError on a node without a parent, and an end
    before the start collapses the range onto the end. *)
Definition static (r : DynamicRange) : M dom Range :=
  fun d =>
    match parent_of d (start r) with
    | None => (Throw InvalidNodeTypeError, d)
    | Some ps =>
        match parent_of d (end_ r) with
        | None => (Throw InvalidNodeTypeError, d)
        | Some pe =>
            if Nat.eqb ps pe then
              match index_of (start r) (kids d ps), index_of (end_ r) (kids d ps) with
              | Some i, Some j =>
                  if Nat.ltb j (S i) then (Ok (MkRange ps j j), d)
                  else (Ok (MkRange ps (S i) j), d)
              | _, _ => (Unmodelled, d)
              end
            else (Unmodelled, d)
        end
    end.

(** [get parentNode()] *)
Definition parentNode (r : DynamicRange) (d : dom) : option nat :=
  parent_of d (start r).

(** [get firstChild()] *)
Definition firstChild (r : DynamicRange) (d : dom) : option nat :=
  let first := nextSibling d (start r) in
  if opt_eqb first (Some (end_ r)) then None else first.

(** The loop of [get childNodes()].  [current] is never null on entry;
    when [current.nextSibling] is null the next turn dereferences null. *)
Fixpoint childNodes_loop (fuel : nat) (d : dom) (r : DynamicRange)
         (current : nat) (acc : list nat) : outcome (list nat) :=
  match fuel with
  | 0 => Diverge
  | S f =>
      match nextSibling d current with
      | Some c =>
          if Nat.eqb c (end_ r) then Ok acc
          else childNodes_loop f d r c (acc ++ [c])
      | None => Throw TypeError
      end
  end.

(** [get childNodes()] *)
Definition childNodes (r : DynamicRange) (d : dom) : outcome (list nat) :=
  childNodes_loop (S (size (nodes d))) d r (start r) [].

(** The [do ... while (current !== this.end)] loop of [detach()]. *)
Fixpoint detach_loop (fuel : nat) (r : DynamicRange) (parent : option nat)
         (frag : nat) (current : option nat) : M dom unit :=
  match fuel with
  | 0 => diverge
  | S f =>
      match current with
      | None => throw TypeError          (* null.nextSibling *)
      | Some c =>
          d <- get ;
          let next := nextSibling d c in
          x <- match parent with
               | Some p => Node_removeChild p c
               | None => ret c
               end ;
          Node_appendChild frag x ;;
          if opt_eqb next (Some (end_ r)) then ret tt
          else detach_loop f r parent frag next
      end
  end.

(** [detach()] *)
Definition detach (r : DynamicRange) : M dom nat :=
  d <- get ;
  let parent := parentNode r d in
  frag <- createDocumentFragment ;
  detach_loop (S (size (nodes d))) r parent frag (Some (start r)) ;;
  x <- match parent with
       | Some p => Node_removeChild p (end_ r)
       | None => ret (end_ r)
       end ;
  Node_appendChild frag x ;;
  ret frag.

(** [insertBefore(node, child)] *)
Definition insertBefore (r : DynamicRange) (n : nat) (child : option nat) : M dom unit :=
  d <- get ;
  match parentNode r d with
  | None => ret tt
  | Some parent =>
      match child with
      | Some c =>
          if opt_eqb (parent_of d c) (Some parent) then
            rg <- static r ;
            b <- Range_intersectsNode rg c ;
            if b then Node_insertBefore parent n (Some c) else ret tt
          else ret tt
      | None => Node_insertBefore parent n (Some (end_ r))
      end
  end.

(** [appendChild(node)]: [this.parentNode?.insertBefore?.(node, this.end)] *)
Definition appendChild (r : DynamicRange) (n : nat) : M dom unit :=
  d <- get ;
  match parentNode r d with
  | None => ret tt
  | Some parent => Node_insertBefore parent n (Some (end_ r))
  end.

(** [replace(node)] *)
Definition replace (r : DynamicRange) (n : nat) : M dom unit :=
  d <- get ;
  match parentNode r d with
  | None => ret tt
  | Some parent =>
      rg <- static r ;
      Range_deleteContents rg ;;
      Node_removeChild parent (start r) ;;
      Node_replaceChild parent n (end_ r)
  end.

(** [delete()] *)
Definition delete (r : DynamicRange) : M dom unit :=
  d <- get ;
  match parentNode r d with
  | None => ret tt
  | Some parent =>
      rg <- static r ;
      Range_deleteContents rg ;;
      Node_removeChild parent (start r) ;;
      Node_removeChild parent (end_ r) ;;
      ret tt
  end.

End Span.

(** ** The second copy of the class: [firstChild] and [childNodes]

    The two copies agree, up to type annotations, on [static],
    [parentNode], [detach], [insertBefore], [appendChild], [replace] and
    [delete]; only the two getters below differ. *)

Module RangeVariant.

(** [return first === this.end ? first : null;] *)
Definition firstChild (r : DynamicRange) (d : dom) : option nat :=
  let first := nextSibling d (start r) in
  if opt_eqb first (Some (end_ r)) then first else None.

(** [while (true) { current = current.nextSibling!;
      if (current !== this.end) ret.push(current); break; }]:
    one turn only; a null sibling is pushed as it is. *)
Definition childNodes (r : DynamicRange) (d : dom) : outcome (list (option nat)) :=
  let current := nextSibling d (start r) in
  if opt_eqb current (Some (end_ r)) then Ok [] else Ok [current].

End RangeVariant.

(** ** Renderable values (type MutateAction of src/types.ts)

    A value is what the resolver can observe of it: its [typeof], whether it
    is a Node, and, for an object or function, which of the properties
    [Symbol.iterator], [Symbol.asyncIterator] and [then] it carries and
    whether it is callable.  A number or bigint is carried by its string
    image, the only thing the resolver uses of it.  An iterator is carried
    by the finite sequence it yields, a callable [then] by the value it
    settles to, a function by its result on the target it is called with. *)

Inductive target :=
  | OnNode (n : nat)
  | OnRange (r : DynamicRange).

#[local] Unset Elimination Schemes.
Inductive MutateAction :=
  | VUndefined
  | VNull
  | VBoolean (b : bool)
  | VString (s : string)
  | VNumber (image : string)
  | VBigint (image : string)
  | VNode (n : nat)
  | VObject (call : option (target -> dom -> MutateAction))
            (iterator : option (list MutateAction))
            (asyncIterator : option (list MutateAction))
            (then_ : option then_property)
with then_property :=
  | ThenFunction (settled : MutateAction)
  | ThenOther.
#[local] Set Elimination Schemes.

(** [await v]: a thenable with a callable [then] is unwrapped until the
    settled value is not one; anything else is the value itself. *)
Fixpoint await (v : MutateAction) : MutateAction :=
  match v with
  | VObject _ _ _ (Some (ThenFunction r)) => await r
  | _ => v
  end.

(** ** src/mutable.ts: mutate *)

Fixpoint mutate (fuel : nat) (target : nat) (action : MutateAction) : M dom unit :=
  match fuel with
  | 0 => diverge
  | S f =>
      match action with
      | VUndefined | VNull | VBoolean _ => ret tt
      | VNode n => Node_appendChild target n
      | VString s | VNumber s | VBigint s => set_textContent target s
      | VObject call iter aiter thn =>
          match iter, aiter, thn, call with
          | Some items, _, _, _ => for_each (mutate f target) items
          | None, Some items, _, _ => for_each (mutate f target) items
          | None, None, Some _, _ => mutate f target (await action)
          | None, None, None, Some fn =>
              d <- get ;
              mutate f target (await (fn (OnNode target) d))
          | None, None, None, None => console_error InvalidObject
          end
      end
  end.

(** ** src/actions.ts: mutateRange and namedRange *)

(** [ctx.end.parentNode!.insertBefore(node, ctx.end)] *)
Definition insert_before_end (ctx : DynamicRange) (n : nat) : M dom unit :=
  d <- get ;
  match parent_of d (end_ ctx) with
  | Some p => Node_insertBefore p n (Some (end_ ctx))
  | None => throw TypeError
  end.

Fixpoint mutateRange (fuel : nat) (ctx : DynamicRange) (r : MutateAction) : M dom unit :=
  match fuel with
  | 0 => diverge
  | S f =>
      match r with
      | VUndefined | VNull | VBoolean _ => ret tt
      | VNode n => insert_before_end ctx n
      | VString s | VNumber s | VBigint s =>
          rg <- Span.static ctx ;
          Range_deleteContents rg ;;
          d <- get ;
          match parent_of d (end_ ctx) with
          | Some p =>
              t <- createTextNode s ;
              Node_insertBefore p t (Some (end_ ctx))
          | None => throw TypeError
          end
      | VObject call iter aiter thn =>
          match iter, aiter, thn, call with
          | Some items, _, _, _ => for_each (mutateRange f ctx) items
          | None, Some items, _, _ => for_each (mutateRange f ctx) items
          | None, None, Some (ThenFunction _), _ => mutateRange f ctx (await r)
          | None, None, _, Some fn =>
              d <- get ;
              mutateRange f ctx (await (fn (OnRange ctx) d))
          | None, None, _, None => console_error InvalidObject
          end
      end
  end.

(** [namedRange(name, ...rest)]: the fragment holding the two markers, and
    the range.  The task resolving [rest] is launched and not awaited. *)
Definition namedRange (fuel : nat) (name : string) (rest : list MutateAction)
  : M dom (nat * DynamicRange) :=
  s <- createComment ("range[" +:+ name +:+ "] start") ;
  e <- createComment ("range[" +:+ name +:+ "] end") ;
  let range := MkDynamicRange s e in
  frag <- createDocumentFragment ;
  Node_appendChild frag s ;;
  Node_appendChild frag e ;;
  catch_console (for_each (mutateRange fuel range) rest) ;;
  ret (frag, range).

(** [empty()] applied to a range: [el.static.deleteContents()] *)
Definition empty_range (el : DynamicRange) : M dom unit :=
  rg <- Span.static el ;
  Range_deleteContents rg.

(** ** src/actions.ts: list

    [T] is the item type; Rocq equality on [T] stands for [===] on the
    values (a value is its reference).  The closure of one [list(...)] call
    is the renderer, the name [n], the [root] range and the mutable record
    array [data]; [data] lives in the state next to the DOM.  [arrays] holds
    the [T[]] arrays handed out to the caller, by location. *)

Section KeyedList.
Context {T : Type} `{EqDecision T}.

Record ListRenderer := MkListRenderer {
  name : option string;
  extractKey : T -> string;
  render : T -> MutateAction;
  update : option (DynamicRange -> T -> T -> MutateAction);
}.

(** [type Packed = { range: DynamicRange; value: T }] *)
Record Packed := MkPacked { range : DynamicRange; value : T }.

Record lstate := MkLState {
  world : dom;
  data : list Packed;
  arrays : list (list T);
}.

Definition liftD {A} (m : M dom A) : M lstate A :=
  fun st =>
    let '(o, d) := m (world st) in
    (o, MkLState d (data st) (arrays st)).

Definition set_data (f : list Packed -> list Packed) : M lstate unit :=
  modify (fun st => MkLState (world st) (f (data st)) (arrays st)).

(** [ListBasicAction<T>] *)
Inductive ListBasicAction :=
  | ActAppend (v : list T) (ref : option string)
  | ActPrepend (v : list T) (ref : option string)
  | ActAssign (v : list T)
  | ActRemove (keys : list string)
  | ActClear
  | ActOther.                      (* an object with another [type] *)

Variable fuel : nat.               (* bound on the resolver's recursion *)
Variable renderer : ListRenderer.
Variable n : string.
Variable root : DynamicRange.

(** [arr.splice(i, 0, ...xs)] and [arr.splice(i, 1)] *)
Definition splice_in {A} (i : nat) (xs l : list A) : list A :=
  take i l ++ xs ++ drop i l.
Definition splice_out {A} (i : nat) (l : list A) : list A :=
  take i l ++ drop (S i) l.

(** [data.findIndex((x) => renderer.extractKey(x.value) === key)], from
    index [i] on. *)
Fixpoint find_key_from (key : string) (i : nat) (l : list Packed) : option nat :=
  match l with
  | [] => None
  | x :: r =>
      if String.eqb (extractKey renderer (value x)) key then Some i
      else find_key_from key (S i) r
  end.

Definition findIndex (key : string) (l : list Packed) : option nat :=
  find_key_from key 0 l.

(** [point.parentNode!.insertBefore(node, point)] *)
Definition insert_at_point (node point : nat) : M dom unit :=
  d <- get ;
  match parent_of d point with
  | Some p => Node_insertBefore p node (Some point)
  | None => throw TypeError
  end.

Definition insertAt (item : T) (point : nat) : M dom DynamicRange :=
  let key := extractKey renderer item in
  nrange <- namedRange fuel (n +:+ ":" +:+ key) [render renderer item] ;
  insert_at_point (fst nrange) point ;;
  ret (snd nrange).

(** The two loops of [appendData] and the loops of [prependData]:
    [for (const item of value) { const range = insertAt(item, pivot);
       newlist.push({ value: item, range }); }] *)
Fixpoint render_all (v : list T) (pivot : nat) (newlist : list Packed)
  : M dom (list Packed) :=
  match v with
  | [] => ret newlist
  | item :: r =>
      rg <- insertAt item pivot ;
      render_all r pivot (newlist ++ [MkPacked rg item])
  end.

(** [for (const item of value) { const range = insertAt(item, root.end);
      data.push({ value: item, range }); }] *)
Fixpoint push_all (v : list T) : M lstate unit :=
  match v with
  | [] => ret tt
  | item :: r =>
      rg <- liftD (insertAt item (end_ root)) ;
      set_data (fun l => l ++ [MkPacked rg item]) ;;
      push_all r
  end.

(** [if (ref)]: a string is truthy when it is not empty. *)
Definition truthy (ref : option string) : option string :=
  match ref with
  | Some s => if String.eqb s "" then None else Some s
  | None => None
  end.

Definition anchor (ref : option string) (l : list Packed) : option nat :=
  match truthy ref with
  | Some key => findIndex key l
  | None => None
  end.

Definition appendData (v : list T) (ref : option string) : M lstate unit :=
  st <- get ;
  match anchor ref (data st) with
  | Some idx =>
      let pivot := match data st !! (S idx) with
                   | Some x => start (range x)
                   | None => end_ root
                   end in
      newlist <- liftD (render_all v pivot []) ;
      set_data (splice_in (S idx) newlist)
  | None => push_all v
  end.

Definition prependData (v : list T) (ref : option string) : M lstate unit :=
  st <- get ;
  match anchor ref (data st) with
  | Some idx =>
      match data st !! idx with
      | Some x =>
          newlist <- liftD (render_all v (start (range x)) []) ;
          set_data (splice_in idx newlist)
      | None => throw TypeError
      end
  | None =>
      let pivot := match data st !! 0 with
                   | Some x => start (range x)
                   | None => end_ root
                   end in
      newlist <- liftD (render_all v pivot []) ;
      set_data (fun l => newlist ++ l)
  end.

Fixpoint removeFromData (keys : list string) : M lstate unit :=
  match keys with
  | [] => ret tt
  | key :: r =>
      st <- get ;
      match findIndex key (data st) with
      | Some idx =>
          match data st !! idx with
          | Some x =>
              set_data (splice_out idx) ;;
              liftD (Span.delete (range x))
          | None => throw TypeError
          end
      | None => ret tt
      end ;;
      removeFromData r
  end.

(** [replace(packed, item, point)], for the record [packed] held at index
    [idx] of [data]: the record is updated in place. *)
Definition replace (idx : nat) (packed : Packed) (item : T) (point : nat)
  : M lstate unit :=
  rg <- liftD (insertAt item point) ;
  liftD (Span.delete (range packed)) ;;
  set_data (fun l => <[idx := MkPacked rg item]> l).

(** [inputIdx < data.length ? data[inputIdx].range.start : root.end] *)
Definition pivot_at (i : nat) (l : list Packed) : nat :=
  match l !! i with
  | Some x => start (range x)
  | None => end_ root
  end.

(** The scan of [assignData]: [for (; originIdx < data.length; originIdx++)]
    starting at [originIdx = inputIdx]. *)
Definition scan (item : T) (inputIdx : nat) (l : list Packed) : option nat :=
  find_key_from (extractKey renderer item) inputIdx (drop inputIdx l).

(** [mutateRange(found.range, renderer.update(...)).catch(console.error)] *)
Definition run_update (upd : DynamicRange -> T -> T -> MutateAction)
           (rg : DynamicRange) (item old : T) : M lstate unit :=
  liftD (catch_console (mutateRange fuel rg (upd rg item old))).

(** One turn of the outer loop of [assignData]. *)
Definition assign_step (inputIdx : nat) (item : T) : M lstate unit :=
  st <- get ;
  match scan item inputIdx (data st) with
  | Some originIdx =>
      match data st !! originIdx with
      | Some found =>
          if Nat.eqb originIdx inputIdx then
            if decide (item = value found) then ret tt
            else
              match update renderer with
              | Some upd =>
                  set_data (fun l => <[inputIdx := MkPacked (range found) item]> l) ;;
                  run_update upd (range found) item (value found)
              | None => replace inputIdx found item (start (range found))
              end
          else
            let pivot := pivot_at inputIdx (data st) in
            set_data (splice_out originIdx) ;;
            set_data (splice_in inputIdx [found]) ;;
            let relocate :=
              cached <- liftD (Span.detach (range found)) ;
              liftD (insert_at_point cached pivot) in
            if decide (item = value found) then relocate
            else
              match update renderer with
              | None => replace inputIdx found item pivot
              | Some upd =>
                  set_data (fun l => <[inputIdx := MkPacked (range found) item]> l) ;;
                  run_update upd (range found) item (value found) ;;
                  relocate
              end
      | None => throw TypeError
      end
  | None =>
      let pivot := pivot_at inputIdx (data st) in
      rg <- liftD (insertAt item pivot) ;
      set_data (splice_in inputIdx [MkPacked rg item])
  end.

Fixpoint assign_loop (inputIdx : nat) (v : list T) : M lstate unit :=
  match v with
  | [] => ret tt
  | item :: r => assign_step inputIdx item ;; assign_loop (S inputIdx) r
  end.

Definition assignData (v : list T) : M lstate unit :=
  assign_loop 0 v ;;
  st <- get ;
  let removed := drop (length v) (data st) in
  set_data (take (length v)) ;;
  for_each (fun item => liftD (Span.delete (range item))) removed.

Definition processAction (action : ListBasicAction) : M lstate unit :=
  match action with
  | ActAssign v => assignData v
  | ActAppend v ref => appendData v ref
  | ActPrepend v ref => prependData v ref
  | ActRemove keys => removeFromData keys
  | ActClear =>
      set_data (fun _ => []) ;;
      liftD (rg <- Span.static root ; Range_deleteContents rg)
  | ActOther => liftD (console_error InvalidAction)
  end.

(** The interface returned by [list]. *)

(** [get data() { return data.map((x) => x.value); }]: a new array. *)
Definition get_data : M lstate nat :=
  fun st =>
    (Ok (length (arrays st)),
     MkLState (world st) (data st) (arrays st ++ [map value (data st)])).

Definition keep_unique (v : list T) (l : list Packed) : list T :=
  List.filter
    (fun x => forallb (fun y => negb (String.eqb (extractKey renderer (value y))
                                                 (extractKey renderer x))) l)
    v.

Definition assign (v : list T) : M lstate unit := processAction (ActAssign v).
Definition append (v : list T) : M lstate unit := processAction (ActAppend v None).
Definition appendUnique (v : list T) : M lstate unit :=
  st <- get ;
  processAction (ActAppend (keep_unique v (data st)) None).
Definition prepend (v : list T) : M lstate unit := processAction (ActPrepend v None).
Definition prependUnique (v : list T) : M lstate unit :=
  st <- get ;
  processAction (ActPrepend (keep_unique v (data st)) None).
Definition remove (keys : list string) : M lstate unit := processAction (ActRemove keys).
Definition clear : M lstate unit := processAction ActClear.

(** The action protocol. *)

(** [ListAction<T>], by the case [processList] takes on it. *)
#[local] Unset Elimination Schemes.
Inductive ListAction :=
  | LAbsent
  | LIterable (items : list ListAction)
  | LAsyncIterable (items : list ListAction)
  | LThenable (settled : ListAction)
  | LFunction (fn : list T -> ListAction)
  | LBasic (a : ListBasicAction).
#[local] Set Elimination Schemes.

(** The body of the async generator [processList(action)], run when the
    generator is iterated.  [await processList(x)] only makes a new
    generator object and awaits that object, which is not a thenable: the
    inner body does not run.  The result lists the actions so wrapped.
    In the function case the function is called on a new array of the
    current values. *)
Definition processList (action : ListAction) : M lstate (list ListAction) :=
  match action with
  | LAbsent => ret []
  | LIterable items => ret items
  | LAsyncIterable items => ret items
  | LThenable settled => ret [settled]
  | LFunction fn =>
      loc <- get_data ;
      st <- get ;
      ret [fn (default [] (arrays st !! loc))]
  | LBasic a => processAction a ;; ret []
  end.

(** [eval(...rest)]: [mutateRange(root, processList(rest))]; the generator
    is an async iterable that yields nothing. *)
Definition eval (rest : list ListAction) : M lstate unit :=
  processList (LIterable rest) ;;
  liftD (mutateRange fuel root (VObject None None (Some []) None)).

(** An in-place mutation of the array at [loc] by the caller
    ([reverse()], a swap of two entries, ...). *)
Definition array_update (loc : nat) (g : list T -> list T) : M lstate unit :=
  modify (fun st =>
            MkLState (world st) (data st)
                     (match arrays st !! loc with
                      | Some a => <[loc := g a]> (arrays st)
                      | None => arrays st
                      end)).

End KeyedList.

Arguments ListRenderer T : clear implicits.
Arguments Packed T : clear implicits.
Arguments lstate T : clear implicits.
Arguments ListBasicAction T : clear implicits.
Arguments ListAction T : clear implicits.

(** [class KeyedListRenderer]: the key is a property of the value, the
    name is [render.name || undefined]. *)
Definition KeyedListRenderer {T} (key : T -> string) (render_name : string)
           (render : T -> MutateAction)
           (update : option (DynamicRange -> T -> T -> MutateAction))
  : ListRenderer T :=
  MkListRenderer (if String.eqb render_name "" then None else Some render_name)
                 key render update.

(** [list(renderer, initial)]: the closure starts with an empty [data];
    [rnd] is the string drawn from [Math.random()] for an unnamed renderer.
    The result is the fragment and the root range. *)
Definition list_name {T} (renderer : ListRenderer T) (rnd : string) : string :=
  match name renderer with
  | Some s => s
  | None => "list-" +:+ rnd
  end.

Module Actions.
Definition list {T} `{EqDecision T} (fuel : nat) (renderer : ListRenderer T)
           (rnd : string) (initial : option (list T))
  : dom -> outcome (nat * DynamicRange) * lstate T :=
  fun d =>
    (ret_ <- liftD (namedRange fuel (list_name renderer rnd) []) ;
     match initial with
     | Some v => processAction fuel renderer (list_name renderer rnd) (snd ret_) (ActAssign v)
     | None => ret tt
     end ;;
     ret ret_) (MkLState d [] []).
End Actions.

(** ** src/utils.ts: Resolver, Reactor and BufferedReactor

    A promise is its identity in a store of promises, each pending
    ([None]) or fulfilled with an iterator result.  The store is kept with
    the reactor.  [onExit] is a callback of the creator of the reactor: the
    state records whether there is one and how many times it ran; what it
    calls on the reactor is given to [run_call_with]. *)

Inductive IteratorResult (T : Type) :=
  | Yielded (value : T)            (* { done: false, value } *)
  | Finished.                      (* { done: true, value: undefined } *)
Arguments Yielded {T} value.
Arguments Finished {T}.

Module Utils.
Section Reactors.
Context {T : Type}.

(** [if (value)]: whether a value of the item type is truthy. *)
Variable is_truthy : T -> bool.

Record reactor := MkReactor {
  promises : list (option (IteratorResult T));
  done_flag : bool;
  wait : option nat;               (* the Resolver, by its promise *)
  queue : list T;                  (* BufferedReactor only *)
  onExit : bool;
  exits : nat;                     (* calls of [onExit] so far *)
}.

(** [new Reactor(onExit)] *)
Definition new_reactor (on_exit : bool) : reactor :=
  MkReactor [] false None [] on_exit 0.

Definition set_promises (f : list (option (IteratorResult T)) ->
                             list (option (IteratorResult T))) : M reactor unit :=
  modify (fun s => MkReactor (f (promises s)) (done_flag s) (wait s) (queue s)
                             (onExit s) (exits s)).
Definition set_done_flag (b : bool) : M reactor unit :=
  modify (fun s => MkReactor (promises s) b (wait s) (queue s) (onExit s) (exits s)).
Definition set_wait (w : option nat) : M reactor unit :=
  modify (fun s => MkReactor (promises s) (done_flag s) w (queue s) (onExit s) (exits s)).
Definition set_queue (q : list T) : M reactor unit :=
  modify (fun s => MkReactor (promises s) (done_flag s) (wait s) q (onExit s) (exits s)).
Definition set_onExit (b : bool) : M reactor unit :=
  modify (fun s => MkReactor (promises s) (done_flag s) (wait s) (queue s) b (exits s)).

(** [Promise.resolve(v)]: a new promise, fulfilled. *)
Definition Promise_resolve (v : IteratorResult T) : M reactor nat :=
  s <- get ;
  set_promises (fun ps => ps ++ [Some v]) ;;
  ret (length (promises s)).

(** [new Resolver()]: a new pending promise. *)
Definition new_Resolver : M reactor nat :=
  s <- get ;
  set_promises (fun ps => ps ++ [None]) ;;
  ret (length (promises s)).

(** [resolver.resolve(v)]: a promise is settled once. *)
Definition Resolver_resolve (w : nat) (v : IteratorResult T) : M reactor unit :=
  s <- get ;
  match promises s !! w with
  | Some None => set_promises (fun ps => <[w := Some v]> ps)
  | _ => ret tt
  end.

(** [this.onExit?.()]: the run is counted.  What the callback calls on the
    reactor while it runs is in [run_call_with]. *)
Definition call_onExit : M reactor unit :=
  modify (fun s => MkReactor (promises s) (done_flag s) (wait s) (queue s) (onExit s)
                             (if onExit s then S (exits s) else exits s)).

(** [if (this.wait) { this.wait.resolve(v); this.wait = null; }]; the
    answer tells whether there was a waiter. *)
Definition settle_wait (v : IteratorResult T) : M reactor bool :=
  s <- get ;
  match wait s with
  | Some w => Resolver_resolve w v ;; set_wait None ;; ret true
  | None => ret false
  end.

(** [(this.wait ??= new Resolver()).promise] *)
Definition wait_promise : M reactor nat :=
  s <- get ;
  match wait s with
  | Some w => ret w
  | None => w <- new_Resolver ; set_wait (Some w) ;; ret w
  end.

(** *** class Reactor *)

Definition push (input : T) : M reactor bool :=
  s <- get ;
  if done_flag s then ret false
  else settle_wait (Yielded input).

Definition stop : M reactor unit :=
  s <- get ;
  if done_flag s then ret tt
  else set_done_flag true ;; settle_wait Finished ;; ret tt.

Definition next : M reactor nat :=
  s <- get ;
  if done_flag s then Promise_resolve Finished
  else wait_promise.

(** [return()] and [throw()] have the same body.  Here the callback
    calls nothing on the reactor. *)
Definition return_ : M reactor nat :=
  s <- get ;
  (if done_flag s then ret tt else call_onExit) ;;
  set_done_flag true ;;
  settle_wait Finished ;;
  Promise_resolve Finished.

Definition throw_ : M reactor nat := return_.

(** *** class BufferedReactor extends Reactor *)

Definition buffered_push (input : T) : M reactor bool :=
  s <- get ;
  if done_flag s then ret false
  else
    b <- settle_wait (Yielded input) ;
    if b then ret true
    else set_queue (queue s ++ [input]) ;; ret false.

(** [const value = this.queue.shift(); if (value) ...]: the head is taken
    off the queue before it is tested. *)
Definition buffered_next : M reactor nat :=
  s <- get ;
  set_queue (tail (queue s)) ;;
  let otherwise :=
    if done_flag s then Promise_resolve Finished else wait_promise in
  match head (queue s) with
  | Some value =>
      if is_truthy value then Promise_resolve (Yielded value) else otherwise
  | None => otherwise
  end.

(** What the handler given to [create] and the consumer can call. *)
Inductive call :=
  | CallPush (input : T)
  | CallStop
  | CallNext
  | CallReturn
  | CallThrow.

(** One call on a reactor of either class. *)
Definition run_call (buffered : bool) (c : call) : M reactor unit :=
  match c with
  | CallPush x => (if buffered then buffered_push x else push x) ;; ret tt
  | CallStop => stop
  | CallNext => (if buffered then buffered_next else next) ;; ret tt
  | CallReturn => return_ ;; ret tt
  | CallThrow => throw_ ;; ret tt
  end.

(** [static create(handler)]: the reactor is made without [onExit], the
    handler runs (what it calls at once is [during]), and its result
    becomes [onExit]. *)
Definition create (buffered : bool) (during : list call) (cleanup : bool)
  : M reactor unit :=
  for_each (run_call buffered) during ;;
  set_onExit cleanup.

(** *** A callback that calls back

    [onExit] is a function of the creator of the reactor, and it can use
    the reactor.  [inside k] is what the callback calls on the reactor at
    its run number [k], the runs being counted by [exits].  [return()] and
    [throw()] set [done_flag] after the callback has returned: while it
    runs the reactor is not finished.  [fuel] bounds the nesting of the
    calls. *)
Fixpoint run_call_with (inside : nat -> list call) (fuel : nat)
         (buffered : bool) (c : call) : M reactor unit :=
  match fuel with
  | 0 => diverge
  | S f =>
      match c with
      | CallReturn | CallThrow =>
          s <- get ;
          (if done_flag s then ret tt
           else if onExit s
                then call_onExit ;;
                     for_each (run_call_with inside f buffered) (inside (exits s))
                else ret tt) ;;
          set_done_flag true ;;
          settle_wait Finished ;;
          Promise_resolve Finished ;;
          ret tt
      | _ => run_call buffered c
      end
  end.

(** [n] calls of [next()], with the promises they answer. *)
Fixpoint nexts (buffered : bool) (n : nat) : M reactor (list nat) :=
  match n with
  | 0 => ret []
  | S k =>
      p <- (if buffered then buffered_next else next) ;
      ps <- nexts buffered k ;
      ret (p :: ps)
  end.

End Reactors.
End Utils.
Arguments Utils.reactor T : clear implicits.
Arguments Utils.call T : clear implicits.

(** ** Tasks that are launched and not awaited

    [text], [fragment], and through [fragment] the actions [prepend] and
    [append], answer while the task they launch is under way.  An async
    function runs up to its first [await] when it is called, and every
    [await] hands over to the caller.  [mutate_now] is the part of
    [mutate] that runs before the first [await]; it answers what is left
    of the task, which runs after the caller has gone on.  A function
    value is called in the first part, its result is resolved in the
    second. *)

Fixpoint mutate_now (fuel : nat) (target : nat) (action : MutateAction)
  : M dom (M dom unit) :=
  match fuel with
  | 0 => diverge
  | S f =>
      match action with
      | VUndefined | VNull | VBoolean _ => ret (ret tt)
      | VNode n => Node_appendChild target n ;; ret (ret tt)
      | VString s | VNumber s | VBigint s => set_textContent target s ;; ret (ret tt)
      | VObject call iter aiter thn =>
          match iter, aiter, thn, call with
          | Some [], _, _, _ => ret (ret tt)
          | Some (item :: items), _, _, _ =>
              later <- mutate_now f target item ;
              ret (later ;; for_each (mutate f target) items)
          | None, Some items, _, _ => ret (for_each (mutate f target) items)
          | None, None, Some _, _ => ret (mutate f target (await action))
          | None, None, None, Some fn =>
              d <- get ;
              ret (mutate f target (await (fn (OnNode target) d)))
          | None, None, None, None => console_error InvalidObject ;; ret (ret tt)
          end
      end
  end.

(** [(async () => { for (const p of rest) await mutate(el, p); })().catch(console.error)]:
    the first action is begun at once; an exception it raises at once is
    reported when the task goes on. *)
Definition launch (fuel : nat) (el : nat) (rest : list MutateAction)
  : M dom (M dom unit) :=
  match rest with
  | [] => ret (ret tt)
  | p :: ps =>
      fun d =>
        match mutate_now fuel el p d with
        | (Ok later, d') =>
            (Ok (catch_console (later ;; for_each (mutate fuel el) ps)), d')
        | (Throw e, d') => (Ok (console_error (Caught e)), d')
        | (Diverge, d') => (Diverge, d')
        | (Unmodelled, d') => (Unmodelled, d')
        end
  end.

(** ** src/mutable.ts: mount, text and fragment *)

Module Mutable.

(** [await mutate(host, actions); return host]: the array of the actions is
    an iterable. *)
Definition mount (fuel : nat) (host : nat) (actions : list MutateAction) : M dom nat :=
  mutate fuel host (VObject None (Some actions) None None) ;;
  ret host.

(** [text(...rest)]: the node, and what is left of the task. *)
Definition text (fuel : nat) (rest : list MutateAction) : M dom (nat * M dom unit) :=
  el <- createTextNode "" ;
  later <- launch fuel el rest ;
  ret (el, later).

(** [fragment(...rest)] *)
Definition fragment (fuel : nat) (rest : list MutateAction) : M dom (nat * M dom unit) :=
  el <- createDocumentFragment ;
  later <- launch fuel el rest ;
  ret (el, later).

End Mutable.

(** ** src/actions.ts: prepend, append and empty

    Each answers a function of the element or range; the function is given
    here with its argument.  [prepend] and [append] answer what is left of
    the task of their fragment. *)

Module NodeActions.

(** [el.insertBefore(fragment(...rest), el.firstChild)]: the fragment is
    made before [el.firstChild] is read. *)
Definition prepend (fuel : nat) (rest : list MutateAction) (el : target)
  : M dom (M dom unit) :=
  made <- Mutable.fragment fuel rest ;
  d <- get ;
  match el with
  | OnNode n => Node_insertBefore n (fst made) (head (kids d n))
  | OnRange r => Span.insertBefore r (fst made) (Span.firstChild r d)
  end ;;
  ret (snd made).

(** [el.appendChild(fragment(...rest))] *)
Definition append (fuel : nat) (rest : list MutateAction) (el : target)
  : M dom (M dom unit) :=
  made <- Mutable.fragment fuel rest ;
  match el with
  | OnNode n => Node_appendChild n (fst made)
  | OnRange r => Span.appendChild r (fst made)
  end ;;
  ret (snd made).

(** [while (el.firstChild) el.removeChild(el.firstChild)] *)
Fixpoint empty_loop (fuel : nat) (el : nat) : M dom unit :=
  match fuel with
  | 0 => diverge
  | S f =>
      d <- get ;
      match head (kids d el) with
      | Some c => Node_removeChild el c ;; empty_loop f el
      | None => ret tt
      end
  end.

(** [empty()] *)
Definition empty (el : target) : M dom unit :=
  match el with
  | OnRange r => rg <- Span.static r ; Range_deleteContents rg
  | OnNode n => d <- get ; empty_loop (S (size (nodes d))) n
  end.

End NodeActions.

(** ** src/actions.ts: the property name [style] computes

    [key.replace(/^\$/, "-").replace(/[A-Z]/g, (m) => "-" + m.toLowerCase())]:
    the name given to [setProperty] and [removeProperty].  A string is its
    sequence of bytes; the two patterns match ASCII characters only. *)

Module Style.
Import Stdlib.Strings.Ascii.

(** [/[A-Z]/] *)
Definition is_capital (c : ascii) : bool :=
  (65 <=? nat_of_ascii c) && (nat_of_ascii c <=? 90).

(** [m.toLowerCase()] for a match of [/[A-Z]/] *)
Definition toLowerCase (c : ascii) : ascii :=
  ascii_of_nat (nat_of_ascii c + 32).

(** [.replace(/^\$/, "-")] *)
Definition replace_leading_dollar (key : string) : string :=
  match key with
  | String "$" rest => String "-" rest
  | _ => key
  end.

(** [.replace(/[A-Z]/g, (m) => "-" + m.toLowerCase())] *)
Fixpoint replace_capitals (key : string) : string :=
  match key with
  | EmptyString => EmptyString
  | String c rest =>
      if is_capital c
      then String "-" (String (toLowerCase c) (replace_capitals rest))
      else String c (replace_capitals rest)
  end.

Definition realKey (key : string) : string :=
  replace_capitals (replace_leading_dollar key).

End Style.

(** * The vocabulary of the statements *)

Definition chardata_of (d : dom) (n : nat) : option string :=
  chardata <$> nodes d !! n.

Definition span_nodes (r : DynamicRange) (content : list nat) : list nat :=
  start r :: content ++ [end_ r].

(** ** Spans that are in place

    [attached d r p pre content post]: in [d] the two markers of [r] are
    children of [p], the start before the end, with [content] between them;
    the child list of [p] is duplicate free and its members point back to
    [p]. *)

Record attached (d : dom) (r : DynamicRange) (p : nat)
       (pre content post : list nat) : Prop := MkAttached {
  att_kids : kids d p = pre ++ start r :: content ++ end_ r :: post;
  att_nodup : NoDup (kids d p);
  att_parent : forall x, x ∈ kids d p -> parent_of d x = Some p;
}.

(** ** Moves: states that differ only in where nodes hang *)

Record moved (d d' : dom) : Prop := MkMoved {
  mv_kind : forall x, kind_of d' x = kind_of d x;
  mv_chardata : forall x, chardata_of d' x = chardata_of d x;
  mv_next : next_id d' = next_id d;
  mv_console : console d' = console d;
  mv_size : size (nodes d') = size (nodes d);
}.

(** ** Ancestors and unused identities *)

(** [above d n a]: [a] is an inclusive ancestor of [n] in [d]. *)
Definition above (d : dom) (n a : nat) : Prop :=
  exists fuel, inclusive_ancestor_fuel fuel d a n = true.

(** Every node of the store, and every parent pointer, is below
    [next_id]. *)
Definition ids_below (d : dom) : bool :=
  forallb (fun '(x, nd) =>
             Nat.ltb x (next_id d) &&
             match parentNode nd with
             | Some q => Nat.ltb q (next_id d)
             | None => true
             end)
          (map_to_list (nodes d)).

Definition unused (d : dom) (i : nat) : Prop :=
  nodes d !! i = None /\ forall x, parent_of d x <> Some i.

Definition fresh_from (d : dom) : Prop :=
  forall i, next_id d <= i -> unused d i.

(** ** The resolver's cases, as specified *)

(** The string image of a primitive ([ret + ""]). *)
Definition primitive_image (v : MutateAction) : option string :=
  match v with
  | VString s | VNumber s | VBigint s => Some s
  | _ => None
  end.

(** Following the specification (section 4.2): the shapes a renderable
    value can have, in the order of precedence, and which of them a value
    satisfies structurally. *)
Inductive shape :=
  | AbsentOrBoolean
  | TreeNode
  | Primitive
  | SyncIterable
  | AsyncIterable
  | Thenable
  | Function.

Definition precedence : list shape :=
  [AbsentOrBoolean; TreeNode; Primitive; SyncIterable; AsyncIterable; Thenable; Function].

(** [thenable]: what it takes to be consumed as a thenable. *)
Definition has_shape (thenable : then_property -> bool) (v : MutateAction) (s : shape) : bool :=
  match s, v with
  | AbsentOrBoolean, (VUndefined | VNull | VBoolean _) => true
  | TreeNode, VNode _ => true
  | Primitive, (VString _ | VNumber _ | VBigint _) => true
  | SyncIterable, VObject _ (Some _) _ _ => true
  | AsyncIterable, VObject _ _ (Some _) _ => true
  | Thenable, VObject _ _ _ (Some t) => thenable t
  | Function, VObject (Some _) _ _ _ => true
  | _, _ => false
  end.

(** "Evaluated in order, first match wins". *)
Definition first_match (thenable : then_property -> bool) (v : MutateAction) : option shape :=
  List.find (has_shape thenable v) precedence.

(** The specification reads "thenable" as carrying a [then] property. *)
Definition carries_then (t : then_property) : bool := true.

(** mutateRange asks in addition that [typeof ret.then === "function"]. *)
Definition then_is_function (t : then_property) : bool :=
  match t with ThenFunction _ => true | ThenOther => false end.

(** What each case of section 4.2 does, for a plain target and for a span,
    [resolve] being the recursive call. *)
Definition case_on_node (resolve : MutateAction -> M dom unit) (target : nat)
           (v : MutateAction) (s : option shape) : M dom unit :=
  match s, v with
  | Some AbsentOrBoolean, _ => ret tt
  | Some TreeNode, VNode n => Node_appendChild target n
  | Some Primitive, (VString s | VNumber s | VBigint s) => set_textContent target s
  | Some SyncIterable, VObject _ (Some items) _ _ => for_each resolve items
  | Some AsyncIterable, VObject _ _ (Some items) _ => for_each resolve items
  | Some Thenable, _ => resolve (await v)
  | Some Function, VObject (Some fn) _ _ _ =>
      d <- get ; resolve (await (fn (OnNode target) d))
  | None, _ => console_error InvalidObject
  | _, _ => ret tt
  end.

Definition case_on_range (resolve : MutateAction -> M dom unit) (ctx : DynamicRange)
           (v : MutateAction) (s : option shape) : M dom unit :=
  match s, v with
  | Some AbsentOrBoolean, _ => ret tt
  | Some TreeNode, VNode n => insert_before_end ctx n
  | Some Primitive, (VString s | VNumber s | VBigint s) =>
      empty_range ctx ;;
      d <- get ;
      match parent_of d (end_ ctx) with
      | Some p => t <- createTextNode s ; Node_insertBefore p t (Some (end_ ctx))
      | None => throw TypeError
      end
  | Some SyncIterable, VObject _ (Some items) _ _ => for_each resolve items
  | Some AsyncIterable, VObject _ _ (Some items) _ => for_each resolve items
  | Some Thenable, _ => resolve (await v)
  | Some Function, VObject (Some fn) _ _ _ =>
      d <- get ; resolve (await (fn (OnRange ctx) d))
  | None, _ => console_error InvalidObject
  | _, _ => ret tt
  end.

(** A function that carries a [then] property which is not callable, and
    answers the text "called" when invoked. *)
Definition callable_with_then : MutateAction :=
  VObject (Some (fun _ _ => VString "called")) None None (Some ThenOther).

(** A value that is both iterable and thenable. *)
Definition iterable_and_thenable : MutateAction :=
  VObject None (Some [VString "item"]) None (Some (ThenFunction (VString "settled"))).

(** ** Operations on the content of a span

    What a caller does to the content of a span without deleting or
    replacing the span: [appendChild] and [insertBefore] of a node that
    hangs nowhere, [empty()], the resolution of a primitive, and the removal
    of a node of the content from the parent. *)
Inductive span_op :=
  | OpAppendChild (x : nat)
  | OpInsertBefore (x : nat) (child : option nat)
  | OpEmpty
  | OpText (s : string)
  | OpRemoveChild (c : nat).

Definition run_op (r : DynamicRange) (op : span_op) : M dom unit :=
  match op with
  | OpAppendChild x => Span.appendChild r x
  | OpInsertBefore x child => Span.insertBefore r x child
  | OpEmpty => empty_range r
  | OpText s => mutateRange 1 r (VString s)
  | OpRemoveChild c =>
      d <- get ;
      match Span.parentNode r d with
      | Some p => Node_removeChild p c ;; ret tt
      | None => throw TypeError
      end
  end.

(** A node that can be inserted under [p]: it exists, is not a fragment,
    hangs nowhere and [p] is not below it. *)
Definition loose (d : dom) (p x : nat) : Prop :=
  (exists k, kind_of d x = Some k /\ k <> DocumentFragment) /\
  parent_of d x = None /\ ~ above d p x.

(** The operation makes sense in [d]: an inserted node is loose, a
    reference child or a removed child is in the content of the span, the
    text node of a resolution gets an unused identity. *)
Definition op_ok (d : dom) (r : DynamicRange) (p : nat) (op : span_op) : Prop :=
  match op with
  | OpAppendChild x => loose d p x
  | OpInsertBefore x None => loose d p x
  | OpInsertBefore x (Some c) =>
      loose d p x /\ exists content, Span.childNodes r d = Ok content /\ c ∈ content
  | OpEmpty => True
  | OpText _ => unused d (next_id d)
  | OpRemoveChild c => exists content, Span.childNodes r d = Ok content /\ c ∈ content
  end.

(** Each operation of the sequence makes sense in the state it is applied
    to. *)
Fixpoint ops_ok (r : DynamicRange) (p : nat) (ops : list span_op) (d : dom) : Prop :=
  match ops with
  | [] => True
  | op :: rest =>
      op_ok d r p op /\
      forall d1, run_op r op d = (Ok tt, d1) -> ops_ok r p rest d1
  end.

(** ** Reactors *)

(** What holds of a reactor between two calls: the pending promises are
    exactly the one [wait] holds, a finished reactor has no waiter, and
    [onExit] ran at most once, and only on a reactor that is finished. *)
Record reactor_inv {T} (s : Utils.reactor T) : Prop := MkReactorInv {
  inv_pending : forall i, Utils.promises s !! i = Some None <-> Utils.wait s = Some i;
  inv_done : Utils.done_flag s = true -> Utils.wait s = None;
  inv_exits : Utils.exits s <= 1;
  inv_exit_done : 0 < Utils.exits s -> Utils.done_flag s = true;
}.

(** What the promises [ids] hold in [s]. *)
Definition settled {T} (s : Utils.reactor T) (ids : list nat)
  : list (option (option (IteratorResult T))) :=
  map (fun i => Utils.promises s !! i) ids.

(** A call other than [return()] and [throw()]. *)
Definition no_exit_call {T} (c : Utils.call T) : Prop :=
  c <> Utils.CallReturn /\ c <> Utils.CallThrow.

(** ** Computations that leave the existing nodes as they are

    [keeps m]: whatever the outcome of [m], the identities below [next_id]
    keep their kind and their character data, and [next_id] does not
    decrease. *)
Definition keeps {A} (m : M dom A) : Prop :=
  forall d o d',
    m d = (o, d') ->
    next_id d <= next_id d' /\
    forall x, x < next_id d ->
              kind_of d' x = kind_of d x /\ chardata_of d' x = chardata_of d x.

(** [keeps_but t m]: as [keeps m], but for the character data of [t]. *)
Definition keeps_but {A} (t : nat) (m : M dom A) : Prop :=
  forall d o d',
    m d = (o, d') ->
    next_id d <= next_id d' /\
    forall x, x < next_id d ->
              kind_of d' x = kind_of d x /\
              (x <> t -> chardata_of d' x = chardata_of d x).

(** An array of values: an iterable that is neither callable nor
    thenable. *)
Definition VArray (items : list MutateAction) : MutateAction :=
  VObject None (Some items) None None.

(** ** The layout of a rendered list

    A block is the span of one record with the nodes between its markers.
    [laid_out d root p pre post bs]: the root span is in place among the
    children of [p] and its content is the blocks [bs], one after the
    other; [p] can take children, the identities from [next_id] on are
    unused, and no node of a block is a fragment or an ancestor of [p]. *)

Definition flat (bs : list (DynamicRange * list nat)) : list nat :=
  flat_map (fun b => span_nodes (fst b) (snd b)) bs.

Record laid_out (d : dom) (root : DynamicRange) (p : nat)
       (pre post : list nat) (bs : list (DynamicRange * list nat)) : Prop := MkLaidOut {
  lo_root : attached d root p pre (flat bs) post;
  lo_kind : exists kp, kind_of d p = Some kp /\ is_container kp = true;
  lo_fresh : fresh_from d;
  lo_leaves : forall x, x ∈ flat bs ->
                        kind_of d x <> Some DocumentFragment /\ ~ above d p x;
}.

(** The node a new block is inserted before, for the index [i]: the start
    marker of the block at [i], the end marker of the root when there is
    none. *)
Definition pivot_of (root : DynamicRange) (bs : list (DynamicRange * list nat)) (i : nat) : nat :=
  match bs !! i with
  | Some b => start (fst b)
  | None => end_ root
  end.

(** [rendered root p pre post bs st]: the records of the list have the
    spans of the blocks [bs], in the same order, and the blocks are laid
    out in the document. *)
Definition rendered {T} (root : DynamicRange) (p : nat) (pre post : list nat)
           (bs : list (DynamicRange * list nat)) (st : lstate T) : Prop :=
  map range (data st) = map fst bs /\ laid_out (world st) root p pre post bs.

(** The output of [update] is the output [render] has for the new item. *)
Definition update_agrees {T} (renderer : ListRenderer T) : Prop :=
  forall upd rg x old,
    update renderer = Some upd ->
    primitive_image (upd rg x old) = primitive_image (render renderer x).

(** The block [b] shows the record [x]: its content is one Text node whose
    data is the image of what [render] answers for the value of [x]. *)
Definition shows_item {T} (renderer : ListRenderer T) (d : dom)
           (x : Packed T) (b : DynamicRange * list nat) : Prop :=
  exists t s,
    snd b = [t] /\
    primitive_image (render renderer (value x)) = Some s /\
    kind_of d t = Some Text /\
    chardata_of d t = Some s.

Definition shows {T} (renderer : ListRenderer T) (d : dom)
           (l : list (Packed T)) (bs : list (DynamicRange * list nat)) : Prop :=
  Forall2 (shows_item renderer d) l bs.

(** What one operation of the list keeps: the list is rendered afterwards,
    the arrays handed out are not touched, and, when [update] agrees with
    [render], blocks that showed the records go on showing them. *)
Definition list_step {T} (renderer : ListRenderer T) (root : DynamicRange) (p : nat)
           (pre post : list nat)
           (st : lstate T) (bs : list (DynamicRange * list nat))
           (st' : lstate T) (bs' : list (DynamicRange * list nat)) : Prop :=
  rendered root p pre post bs' st' /\
  arrays st' = arrays st /\
  (update_agrees renderer ->
   shows renderer (world st) (data st) bs ->
   shows renderer (world st') (data st') bs').

(** ** The list as a machine on values *)

Section ListModel.
Context {T : Type}.
Variable renderer : ListRenderer T.

(** The index of the first value with the key. *)
Fixpoint key_index_from (key : string) (i : nat) (vals : list T) : option nat :=
  match vals with
  | [] => None
  | x :: r =>
      if String.eqb (extractKey renderer x) key then Some i
      else key_index_from key (S i) r
  end.

Definition key_anchor (ref : option string) (vals : list T) : option nat :=
  match truthy ref with
  | Some key => key_index_from key 0 vals
  | None => None
  end.

Definition remove_key (vals : list T) (key : string) : list T :=
  match key_index_from key 0 vals with
  | Some idx => splice_out idx vals
  | None => vals
  end.

(** What an action makes of the values held. *)
Definition list_model (action : ListBasicAction T) (vals : list T) : list T :=
  match action with
  | ActAssign v => v
  | ActAppend v ref =>
      match key_anchor ref vals with
      | Some idx => splice_in (S idx) v vals
      | None => vals ++ v
      end
  | ActPrepend v ref =>
      match key_anchor ref vals with
      | Some idx => splice_in idx v vals
      | None => v ++ vals
      end
  | ActRemove keys => fold_left remove_key keys vals
  | ActClear => []
  | ActOther => vals
  end.

End ListModel.

(** The character data the blocks hold, block by block: that of the first
    node of the content. *)
Definition block_texts (d : dom) (bs : list (DynamicRange * list nat))
  : list (option string) :=
  map (fun b => match snd b with
                | t :: _ => chardata_of d t
                | [] => None
                end) bs.

(** ** The values with new keys

    The values of [v] whose key differs from the key of every value of
    [held], in the order of [v]: what [appendUnique] and [prependUnique]
    are to add.  This is written after the words of the specification,
    to be compared with the filter of the code ([keep_unique]). *)
Definition with_new_keys {T} (key : T -> string) (held v : list T) : list T :=
  filter (fun x => Forall (fun y => key y <> key x) held) v.

(** ** Property names *)

(** No character of the string is an ASCII capital. *)
Fixpoint no_capital (s : string) : bool :=
  match s with
  | EmptyString => true
  | String c rest => negb (Style.is_capital c) && no_capital rest
  end.

(** * Example documents *)

(** A scratch document: an element (node 0) holding a span (1 .. 4). *)
Definition demo_dom : dom :=
  Dom (list_to_map
         [(0, Node Element "" None [1; 2; 3; 4]);
          (1, Node Comment "range[r] start" (Some 0) []);
          (2, Node Text "a" (Some 0) []);
          (3, Node Text "b" (Some 0) []);
          (4, Node Comment "range[r] end" (Some 0) [])])
      5 [].
Definition demo_span : DynamicRange := MkDynamicRange 1 4.

(** An element (node 0) holding the empty span 1 .. 2. *)
Definition empty_dom : dom :=
  Dom (list_to_map
         [(0, Node Element "" None [1; 2]);
          (1, Node Comment "range[r] start" (Some 0) []);
          (2, Node Comment "range[r] end" (Some 0) [])])
      3 [].
Definition empty_span : DynamicRange := MkDynamicRange 1 2.

(** The two markers of a span after [delete()]: no parent. *)
Definition deleted_dom : dom :=
  Dom (list_to_map
         [(0, Node Element "" None []);
          (1, Node Comment "range[r] start" None []);
          (2, Node Comment "range[r] end" None []);
          (3, Node Text "x" None [])])
      4 [].

(** ** A todo list, as in the demonstration page *)

Record todo := MkTodo { id : string; text : string }.

#[local] Instance todo_eq_dec : EqDecision todo.
Proof. solve_decision. Defined.

(** [new KeyedListRenderer("id", ...)]: the text of the item is rendered,
    and updated incrementally. *)
Definition todo_renderer : ListRenderer todo :=
  KeyedListRenderer id "todo_item"
                    (fun x => VString (text x))
                    (Some (fun _ x _ => VString (text x))).

(** The name of the list: [renderer.name]. *)
Definition todo_name : string := "todo_item".

Definition item_A : todo := MkTodo "A" "first".
Definition item_B : todo := MkTodo "B" "second".
Definition item_C : todo := MkTodo "C" "third".
(** Another object with the key of [item_A]. *)
Definition item_A' : todo := MkTodo "A" "first, edited".

(** A detached host element. *)
Definition host_dom : dom := Dom {[ 0 := Node Element "" None [] ]} 1 [].

(** [const l = list(renderer, initial); host.appendChild(l())] *)
Definition mounted (initial : list todo) : outcome DynamicRange * lstate todo :=
  match Actions.list 1 todo_renderer "" (Some initial) host_dom with
  | (Ok (frag, root), st) => (frag' <- liftD (Node_appendChild 0 frag) ; ret root) st
  | (_, st) => (Unmodelled, st)
  end.

Definition todo_root : DynamicRange := MkDynamicRange 1 2.

Definition rec_A : Packed todo := MkPacked (MkDynamicRange 4 5) item_A.
Definition rec_B : Packed todo := MkPacked (MkDynamicRange 8 9) item_B.
Definition rec_C : Packed todo := MkPacked (MkDynamicRange 12 13) item_C.

Definition marker (name : string) (which : string) : node :=
  Node Comment ("range[" +:+ name +:+ "] " +:+ which) (Some 0) [].

(** The list rendered from [A; B; C]. *)
Definition abc_dom : dom :=
  Dom (list_to_map
         [(0, Node Element "" None [1; 4; 7; 5; 8; 11; 9; 12; 15; 13; 2]);
          (1, marker "todo_item" "start"); (2, marker "todo_item" "end");
          (3, Node DocumentFragment "" None []);
          (4, marker "todo_item:A" "start"); (5, marker "todo_item:A" "end");
          (6, Node DocumentFragment "" None []);
          (7, Node Text "first" (Some 0) []);
          (8, marker "todo_item:B" "start"); (9, marker "todo_item:B" "end");
          (10, Node DocumentFragment "" None []);
          (11, Node Text "second" (Some 0) []);
          (12, marker "todo_item:C" "start"); (13, marker "todo_item:C" "end");
          (14, Node DocumentFragment "" None []);
          (15, Node Text "third" (Some 0) [])])
      16 [].
Definition abc_state : lstate todo := MkLState abc_dom [rec_A; rec_B; rec_C] [].

(** The list rendered from [A; B]. *)
Definition ab_dom : dom :=
  Dom (list_to_map
         [(0, Node Element "" None [1; 4; 7; 5; 8; 11; 9; 2]);
          (1, marker "todo_item" "start"); (2, marker "todo_item" "end");
          (3, Node DocumentFragment "" None []);
          (4, marker "todo_item:A" "start"); (5, marker "todo_item:A" "end");
          (6, Node DocumentFragment "" None []);
          (7, Node Text "first" (Some 0) []);
          (8, marker "todo_item:B" "start"); (9, marker "todo_item:B" "end");
          (10, Node DocumentFragment "" None []);
          (11, Node Text "second" (Some 0) [])])
      12 [].
Definition ab_state : lstate todo := MkLState ab_dom [rec_A; rec_B] [].

(** ** Further examples *)

(** An element (node 0) holding the span 1 .. 4 with the nodes 2 and 3,
    followed by the text node 5; the text nodes 6 and 7 hang nowhere. *)
Definition page_dom : dom :=
  Dom (list_to_map
         [(0, Node Element "" None [1; 2; 3; 4; 5]);
          (1, Node Comment "range[r] start" (Some 0) []);
          (2, Node Text "a" (Some 0) []);
          (3, Node Text "b" (Some 0) []);
          (4, Node Comment "range[r] end" (Some 0) []);
          (5, Node Text "after" (Some 0) []);
          (6, Node Text "new" None []);
          (7, Node Text "newer" None [])])
      8 [].

(** The blocks of [ab_dom]: the spans of [item_A] and [item_B]. *)
Definition ab_blocks : list (DynamicRange * list nat) :=
  [(MkDynamicRange 4 5, [7]); (MkDynamicRange 8 9, [11])].

(** A reactor of numbers: zero is falsy. *)
Definition number_is_truthy (x : nat) : bool := negb (Nat.eqb x 0).

(** * Properties *)

(** ** Child lists *)

Lemma index_of_app (n : nat) (l1 l2 : list nat) :
  n ∉ l1 -> index_of n (l1 ++ n :: l2) = Some (length l1).
Proof.
  induction l1 as [|x l1 IH]; intros Hn; simpl.
  - by rewrite Nat.eqb_refl.
  - apply not_elem_of_cons in Hn as [Hx Hn].
    destruct (Nat.eqb_spec x n); [congruence|].
    by rewrite IH.
Qed.

Lemma next_after_app (n : nat) (l1 l2 : list nat) :
  n ∉ l1 -> next_after n (l1 ++ n :: l2) = head l2.
Proof.
  induction l1 as [|x l1 IH]; intros Hn; simpl.
  - by rewrite Nat.eqb_refl.
  - apply not_elem_of_cons in Hn as [Hx Hn].
    destruct (Nat.eqb_spec x n); [congruence|]. by apply IH.
Qed.

Lemma list_del_app (n : nat) (l1 l2 : list nat) :
  n ∉ l1 -> list_del n (l1 ++ n :: l2) = l1 ++ l2.
Proof.
  induction l1 as [|x l1 IH]; intros Hn; simpl.
  - by rewrite Nat.eqb_refl.
  - apply not_elem_of_cons in Hn as [Hx Hn].
    destruct (Nat.eqb_spec x n); [congruence|]. by rewrite IH.
Qed.

Lemma list_del_notin (n : nat) (l : list nat) : n ∉ l -> list_del n l = l.
Proof.
  induction l as [|x l IH]; intros Hn; simpl; [done|].
  apply not_elem_of_cons in Hn as [Hx Hn].
  destruct (Nat.eqb_spec x n); [congruence|]. by rewrite IH.
Qed.

Lemma list_ins_app (n c : nat) (l1 l2 : list nat) :
  c ∉ l1 -> list_ins n (Some c) (l1 ++ c :: l2) = l1 ++ n :: c :: l2.
Proof.
  induction l1 as [|x l1 IH]; intros Hn; simpl.
  - by rewrite Nat.eqb_refl.
  - apply not_elem_of_cons in Hn as [Hx Hn].
    destruct (Nat.eqb_spec x c); [congruence|]. by rewrite IH.
Qed.

Lemma list_ins_end (n : nat) (l : list nat) : list_ins n None l = l ++ [n].
Proof. induction l as [|x l IH]; simpl; [done|]. by rewrite IH. Qed.

Lemma opt_eqb_eq (a b : option nat) : opt_eqb a b = true <-> a = b.
Proof.
  destruct a, b; simpl; try (split; [discriminate|congruence]); try done.
  rewrite Nat.eqb_eq. split; congruence.
Qed.

Lemma opt_eqb_refl (a : option nat) : opt_eqb a a = true.
Proof. by apply opt_eqb_eq. Qed.

Lemma opt_eqb_neq (a b : option nat) : a <> b -> opt_eqb a b = false.
Proof.
  intros Hne. destruct (opt_eqb a b) eqn:E; [|done].
  by apply opt_eqb_eq in E.
Qed.

(** ** The DOM primitives, seen through [kids], [parent_of] and [kind_of] *)

Ltac decide_it := apply (bool_decide_unpack _); vm_compute; exact I.

Ltac case_lookup :=
  match goal with
  | |- context [nodes ?m !! ?k] => destruct (nodes m !! k)
  end.

Lemma kind_of_remove_node (c : nat) (d : dom) (x : nat) :
  kind_of (remove_node c d) x = kind_of d x.
Proof.
  unfold remove_node, kind_of. destruct (parent_of d c) as [p|]; [|done]. simpl.
  rewrite !lookup_alter. repeat case_decide; subst; by destruct (nodes d !! x).
Qed.

Lemma chardata_of_remove_node (c : nat) (d : dom) (x : nat) :
  chardata_of (remove_node c d) x = chardata_of d x.
Proof.
  unfold remove_node, chardata_of. destruct (parent_of d c) as [p|]; [|done]. simpl.
  rewrite !lookup_alter. repeat case_decide; subst; by destruct (nodes d !! x).
Qed.

Lemma parent_of_remove_node (c : nat) (d : dom) (x : nat) :
  parent_of (remove_node c d) x = if decide (x = c) then None else parent_of d x.
Proof.
  unfold remove_node. destruct (parent_of d c) as [p|] eqn:Hp.
  - unfold parent_of. simpl. rewrite !lookup_alter.
    repeat case_decide; subst; try done; by destruct (nodes d !! x).
  - case_decide; by subst.
Qed.

Lemma kids_remove_node (c : nat) (d : dom) (q : nat) :
  kids (remove_node c d) q =
  if decide (parent_of d c = Some q) then list_del c (kids d q) else kids d q.
Proof.
  unfold remove_node. destruct (parent_of d c) as [p|] eqn:Hp.
  - unfold kids. simpl. rewrite !lookup_alter.
    repeat case_decide; simplify_eq; try done; by destruct (nodes d !! q).
  - by case_decide.
Qed.

Lemma next_id_remove_node (c : nat) (d : dom) :
  next_id (remove_node c d) = next_id d.
Proof. unfold remove_node. by destruct (parent_of d c). Qed.

Lemma console_remove_node (c : nat) (d : dom) :
  console (remove_node c d) = console d.
Proof. unfold remove_node. by destruct (parent_of d c). Qed.

Lemma size_alter (f : node -> node) (i : nat) (m : gmap nat node) :
  size (alter f i m) = size m.
Proof. by rewrite <- !size_dom, dom_alter_L. Qed.

Lemma size_remove_node (c : nat) (d : dom) :
  size (nodes (remove_node c d)) = size (nodes d).
Proof.
  unfold remove_node. destruct (parent_of d c); [|done].
  simpl. by rewrite !size_alter.
Qed.

Lemma kind_of_link_before (p : nat) (ref : option nat) (n : nat) (d : dom) (x : nat) :
  kind_of (link_before p ref n d) x = kind_of d x.
Proof.
  unfold link_before. rewrite <- (kind_of_remove_node n d x).
  unfold kind_of. simpl. rewrite !lookup_alter.
  repeat case_decide; subst; by case_lookup.
Qed.

Lemma chardata_of_link_before (p : nat) (ref : option nat) (n : nat) (d : dom) (x : nat) :
  chardata_of (link_before p ref n d) x = chardata_of d x.
Proof.
  unfold link_before. rewrite <- (chardata_of_remove_node n d x).
  unfold chardata_of. simpl. rewrite !lookup_alter.
  repeat case_decide; subst; by case_lookup.
Qed.

Lemma parent_of_link_before (p : nat) (ref : option nat) (n : nat) (d : dom) (x : nat) :
  is_Some (kind_of d n) ->
  parent_of (link_before p ref n d) x = if decide (x = n) then Some p else parent_of d x.
Proof.
  intros [k Hk]. rewrite <- (kind_of_remove_node n) in Hk.
  unfold link_before, parent_of, kind_of in *. simpl. rewrite !lookup_alter.
  pose proof (parent_of_remove_node n d x) as Hr. unfold parent_of in Hr.
  repeat case_decide; subst; try done; by case_lookup.
Qed.

Lemma kids_link_before (p : nat) (ref : option nat) (n : nat) (d : dom) (q : nat) :
  is_Some (kind_of d p) ->
  kids (link_before p ref n d) q =
  if decide (q = p) then list_ins n ref (kids (remove_node n d) p)
  else kids (remove_node n d) q.
Proof.
  intros [k Hk]. rewrite <- (kind_of_remove_node n) in Hk.
  unfold link_before, kids, kind_of in *. simpl. rewrite !lookup_alter.
  repeat case_decide; subst; try done; by case_lookup.
Qed.

Lemma next_id_link_before (p : nat) (ref : option nat) (n : nat) (d : dom) :
  next_id (link_before p ref n d) = next_id d.
Proof. unfold link_before. simpl. apply next_id_remove_node. Qed.

Lemma console_link_before (p : nat) (ref : option nat) (n : nat) (d : dom) :
  console (link_before p ref n d) = console d.
Proof. unfold link_before. simpl. apply console_remove_node. Qed.

Lemma size_link_before (p : nat) (ref : option nat) (n : nat) (d : dom) :
  size (nodes (link_before p ref n d)) = size (nodes d).
Proof.
  unfold link_before. simpl. by rewrite !size_alter, size_remove_node.
Qed.

Lemma parent_of_is_Some (d : dom) (x p : nat) :
  parent_of d x = Some p -> is_Some (nodes d !! x).
Proof. unfold parent_of. destruct (nodes d !! x); [eauto|done]. Qed.

Lemma parent_of_kind (d : dom) (x p : nat) :
  parent_of d x = Some p -> is_Some (kind_of d x).
Proof.
  intros Hp. apply parent_of_is_Some in Hp as [nd Hnd].
  unfold kind_of. rewrite Hnd. eauto.
Qed.

Lemma kind_of_None (d : dom) (x : nat) : nodes d !! x = None <-> kind_of d x = None.
Proof. unfold kind_of. by destruct (nodes d !! x). Qed.

Lemma kids_length_size (d : dom) (p : nat) :
  NoDup (kids d p) ->
  (forall x, x ∈ kids d p -> parent_of d x = Some p) ->
  length (kids d p) <= size (nodes d).
Proof.
  intros Hnd Hpar.
  rewrite <- (size_list_to_set (C := gset nat)) by done.
  rewrite <- size_dom. apply subseteq_size.
  intros x Hx. apply elem_of_list_to_set in Hx.
  apply elem_of_dom. eapply parent_of_is_Some. by apply Hpar.
Qed.

Lemma nextSibling_at (d : dom) (p x : nat) (l1 l2 : list nat) :
  kids d p = l1 ++ x :: l2 ->
  NoDup (kids d p) ->
  parent_of d x = Some p ->
  nextSibling d x = head l2.
Proof.
  intros Hk Hnd Hp. unfold nextSibling. rewrite Hp, Hk.
  apply next_after_app. rewrite Hk in Hnd.
  apply NoDup_app in Hnd as (_ & Hnd & _).
  intros Hin. apply (Hnd x Hin). by left.
Qed.

Lemma childNodes_loop_walk (d : dom) (r : DynamicRange) (p : nat)
      (mid : list nat) :
  forall (l1 post : list nat) (cur : nat) (acc : list nat) (fuel : nat),
    kids d p = l1 ++ cur :: mid ++ end_ r :: post ->
    NoDup (kids d p) ->
    (forall x, x ∈ kids d p -> parent_of d x = Some p) ->
    length mid < fuel ->
    Span.childNodes_loop fuel d r cur acc = Ok (acc ++ mid).
Proof.
  induction mid as [|c mid IH]; intros l1 post cur acc fuel Hk Hnd Hpar Hf.
  - destruct fuel as [|f]; [simpl in Hf; lia|]. simpl.
    rewrite (nextSibling_at d p cur l1 (end_ r :: post)); try done.
    + simpl. by rewrite Nat.eqb_refl, app_nil_r.
    + apply Hpar. rewrite Hk. set_solver.
  - destruct fuel as [|f]; [simpl in Hf; lia|]. simpl.
    rewrite (nextSibling_at d p cur l1 ((c :: mid) ++ end_ r :: post)); try done.
    2: { apply Hpar. rewrite Hk. set_solver. }
    simpl. destruct (Nat.eqb_spec c (end_ r)) as [->|Hne].
    + exfalso. rewrite Hk in Hnd.
      apply NoDup_app in Hnd as (_ & _ & Hnd).
      apply NoDup_cons in Hnd as (_ & Hnd).
      apply NoDup_cons in Hnd as (Hnd & _).
      apply Hnd. set_solver.
    + rewrite (IH (l1 ++ [cur]) post c (acc ++ [c]) f); try done.
      * by rewrite <- app_assoc.
      * rewrite Hk. by rewrite <- app_assoc.
      * simpl in Hf. lia.
Qed.

(** In place, [childNodes] of src/range.ts is the content between the
    markers, in order. *)
Lemma childNodes_between (d : dom) (r : DynamicRange) (p : nat)
      (pre content post : list nat) :
  attached d r p pre content post ->
  Span.childNodes r d = Ok content.
Proof.
  intros [Hk Hnd Hpar]. unfold Span.childNodes.
  rewrite (childNodes_loop_walk d r p content pre post (start r) []); try done.
  pose proof (kids_length_size d p Hnd Hpar) as Hs.
  rewrite Hk in Hs. rewrite length_app in Hs. simpl in Hs.
  rewrite length_app in Hs. simpl in Hs. lia.
Qed.

(** In place, [firstChild] of src/range.ts is null exactly when nothing
    lies between the markers, and is the first node after the start marker
    otherwise. *)
Lemma firstChild_in_place (d : dom) (r : DynamicRange) (p : nat)
      (pre content post : list nat) :
  attached d r p pre content post ->
  (Span.firstChild r d = None <-> nextSibling d (start r) = Some (end_ r)) /\
  (nextSibling d (start r) <> Some (end_ r) ->
   Span.firstChild r d = nextSibling d (start r)) /\
  Span.firstChild r d = head content.
Proof.
  intros [Hk Hnd Hpar].
  assert (Hn : nextSibling d (start r) = head (content ++ end_ r :: post)).
  { apply (nextSibling_at d p (start r) pre); try done.
    apply Hpar. rewrite Hk. set_solver. }
  unfold Span.firstChild. rewrite Hn.
  destruct content as [|c content]; simpl.
  - rewrite Nat.eqb_refl. done.
  - destruct (Nat.eqb_spec c (end_ r)) as [->|Hne].
    + exfalso. rewrite Hk in Hnd.
      apply NoDup_app in Hnd as (_ & _ & Hnd).
      apply NoDup_cons in Hnd as (_ & Hnd).
      apply NoDup_cons in Hnd as (Hnd & _).
      apply Hnd. set_solver.
    + repeat split; try done. intros [=]. done.
Qed.

Lemma moved_refl (d : dom) : moved d d.
Proof. by split. Qed.

Lemma moved_trans (d1 d2 d3 : dom) : moved d1 d2 -> moved d2 d3 -> moved d1 d3.
Proof.
  intros [] []. split; intros; congruence.
Qed.

Lemma moved_remove_node (c : nat) (d : dom) : moved d (remove_node c d).
Proof.
  split; intros.
  - apply kind_of_remove_node.
  - apply chardata_of_remove_node.
  - apply next_id_remove_node.
  - apply console_remove_node.
  - apply size_remove_node.
Qed.

Lemma moved_link_before (p : nat) (ref : option nat) (n : nat) (d : dom) :
  moved d (link_before p ref n d).
Proof.
  split; intros.
  - apply kind_of_link_before.
  - apply chardata_of_link_before.
  - apply next_id_link_before.
  - apply console_link_before.
  - apply size_link_before.
Qed.

(** ** Ancestors *)

Lemma above_self (d : dom) (n : nat) : above d n n.
Proof. exists 0. simpl. by rewrite Nat.eqb_refl. Qed.

Lemma above_parent (d : dom) (n q a : nat) :
  parent_of d n = Some q -> above d q a -> above d n a.
Proof.
  intros Hp [fuel Hf]. exists (S fuel). simpl. rewrite Hp, Hf.
  by rewrite orb_true_r.
Qed.

Lemma above_root (d : dom) (n a : nat) :
  parent_of d n = None -> above d n a -> a = n.
Proof.
  intros Hp [fuel Hf]. destruct fuel; simpl in Hf; rewrite ?Hp in Hf;
    rewrite orb_false_r in Hf; by apply Nat.eqb_eq in Hf.
Qed.

(** A node that is no one's parent is above nothing but itself. *)
Lemma above_childless (d : dom) (n a : nat) :
  (forall x, parent_of d x <> Some a) -> above d n a -> a = n.
Proof.
  intros Hno [fuel Hf]. revert n Hf.
  induction fuel as [|f IH]; intros n Hf; simpl in Hf.
  - rewrite orb_false_r in Hf. by apply Nat.eqb_eq in Hf.
  - apply orb_true_iff in Hf as [Hf|Hf]; [by apply Nat.eqb_eq in Hf|].
    destruct (parent_of d n) as [q|] eqn:Hq; [|done].
    specialize (IH q Hf). subst. by destruct (Hno n).
Qed.

Lemma not_above_frame (d d' : dom) (a : nat) (fuel : nat) :
  forall n,
    (forall x, above d n x -> parent_of d' x = parent_of d x) ->
    ~ above d n a ->
    inclusive_ancestor_fuel fuel d' a n = false.
Proof.
  induction fuel as [|f IH]; intros n Hsame Hna; simpl.
  - rewrite orb_false_r. apply Nat.eqb_neq. intros ->.
    apply Hna, above_self.
  - apply orb_false_iff. split.
    + apply Nat.eqb_neq. intros ->. apply Hna, above_self.
    + rewrite (Hsame n (above_self d n)).
      destruct (parent_of d n) as [q|] eqn:Hq; [|done].
      apply IH.
      * intros x Hx. apply Hsame. by eapply above_parent.
      * intros Hx. apply Hna. by eapply above_parent.
Qed.

Lemma not_above_inclusive (d : dom) (a n : nat) :
  ~ above d n a -> inclusive_ancestor d a n = false.
Proof.
  intros Hna. unfold inclusive_ancestor. by apply (not_above_frame d d).
Qed.

(** ** Identities not yet in use *)

Lemma ids_below_unused (d : dom) (i : nat) :
  ids_below d = true -> next_id d <= i -> unused d i.
Proof.
  unfold ids_below. rewrite forallb_forall. intros Hall Hi. split.
  - destruct (nodes d !! i) as [nd|] eqn:Hnd; [|done].
    apply elem_of_map_to_list, list_elem_of_In, Hall in Hnd.
    apply andb_true_iff in Hnd as [Hlt _]. apply Nat.ltb_lt in Hlt. lia.
  - intros x Hx. unfold parent_of in Hx.
    destruct (nodes d !! x) as [nd|] eqn:Hnd; [|done].
    apply elem_of_map_to_list, list_elem_of_In, Hall in Hnd.
    apply andb_true_iff in Hnd as [_ Hlt]. rewrite Hx in Hlt.
    apply Nat.ltb_lt in Hlt. lia.
Qed.

(** ** The checked DOM calls *)

Lemma Node_removeChild_ok (p c : nat) (d : dom) :
  parent_of d c = Some p ->
  Node_removeChild p c d = (Ok c, remove_node c d).
Proof. intros Hp. unfold Node_removeChild. by rewrite Hp, opt_eqb_refl. Qed.

Lemma pre_insert_check_ok (p n : nat) (child : option nat) (d : dom) (kp : node_kind) :
  kind_of d p = Some kp -> is_container kp = true ->
  is_Some (kind_of d n) ->
  inclusive_ancestor d n p = false ->
  (forall c, child = Some c -> parent_of d c = Some p) ->
  pre_insert_check p n child d = (Ok tt, d).
Proof.
  intros Hkp Hc [kn Hkn] Hanc Hchild. unfold pre_insert_check.
  rewrite Hkp, Hkn, Hc, Hanc. simpl.
  destruct child as [c|]; [|done]. by rewrite (Hchild c eq_refl), opt_eqb_refl.
Qed.

(** Inserting one node that is not a fragment, before a reference other
    than itself. *)
Lemma Node_insertBefore_one (p n : nat) (child : option nat) (d : dom)
      (kp kn : node_kind) :
  kind_of d p = Some kp -> is_container kp = true ->
  kind_of d n = Some kn -> kn <> DocumentFragment ->
  inclusive_ancestor d n p = false ->
  (forall c, child = Some c -> parent_of d c = Some p) ->
  child <> Some n ->
  Node_insertBefore p n child d = (Ok tt, link_before p child n d).
Proof.
  intros Hkp Hc Hkn Hnf Hanc Hchild Hne. unfold Node_insertBefore, bind.
  rewrite (pre_insert_check_ok p n child d kp); eauto.
  unfold get. rewrite (opt_eqb_neq child (Some n)) by done.
  unfold dom_insert. rewrite Hkn. by destruct kn.
Qed.

(** Inserting a fragment: its children move, in order. *)
Lemma Node_insertBefore_fragment (p f : nat) (child : option nat) (d : dom)
      (kp : node_kind) :
  kind_of d p = Some kp -> is_container kp = true ->
  kind_of d f = Some DocumentFragment ->
  inclusive_ancestor d f p = false ->
  (forall c, child = Some c -> parent_of d c = Some p) ->
  child <> Some f ->
  Node_insertBefore p f child d =
  (Ok tt, fold_left (fun d' c => link_before p child c d') (kids d f) d).
Proof.
  intros Hkp Hc Hkf Hanc Hchild Hne. unfold Node_insertBefore, bind.
  rewrite (pre_insert_check_ok p f child d kp); eauto.
  unfold get. rewrite (opt_eqb_neq child (Some f)) by done.
  unfold dom_insert. by rewrite Hkf.
Qed.

(** ** The loops of the DOM algorithms *)

(** Removing a run of children of [p], one after the other
    (Range.deleteContents, string replace all). *)
Lemma remove_run (p : nat) (mid : list nat) :
  forall (d : dom) (l1 l2 : list nat),
    kids d p = l1 ++ mid ++ l2 ->
    NoDup (kids d p) ->
    (forall x, x ∈ mid -> parent_of d x = Some p) ->
    exists d',
      for_each (fun c => modify (remove_node c)) mid d = (Ok tt, d') /\
      kids d' p = l1 ++ l2 /\
      (forall q, q <> p -> kids d' q = kids d q) /\
      (forall x, parent_of d' x = if decide (x ∈ mid) then None else parent_of d x) /\
      moved d d'.
Proof.
  induction mid as [|c mid IH]; intros d l1 l2 Hk Hnd Hpar.
  - exists d. simpl. split_and!; try done.
    all: intros x; case_decide; [set_solver|done].
  - assert (Hc : parent_of d c = Some p) by (apply Hpar; set_solver).
    assert (Hc1 : c ∉ l1).
    { rewrite Hk in Hnd. apply NoDup_app in Hnd as (_ & Hnd & _).
      intros Hin. apply (Hnd c Hin). set_solver. }
    assert (Hk2 : kids (remove_node c d) p = l1 ++ mid ++ l2).
    { rewrite kids_remove_node. rewrite decide_True by done.
      rewrite Hk. simpl. by apply list_del_app. }
    destruct (IH (remove_node c d) l1 l2) as (d' & Hrun & Hkp & Hkq & Hp' & Hmv).
    + done.
    + rewrite Hk2. rewrite Hk in Hnd.
      apply NoDup_app in Hnd as (H1 & H2 & H3). simpl in H3.
      apply NoDup_cons in H3 as (H3 & H4).
      apply NoDup_app. repeat split; try done.
      intros x Hx Hx'. apply (H2 x Hx). set_solver.
    + intros x Hx. rewrite parent_of_remove_node.
      rewrite decide_False; [apply Hpar; set_solver|].
      intros ->. rewrite Hk in Hnd. apply NoDup_app in Hnd as (_ & _ & Hnd).
      simpl in Hnd. apply NoDup_cons in Hnd as (Hnd & _). set_solver.
    + exists d'. simpl. unfold bind, modify at 1. split_and!.
      * exact Hrun.
      * exact Hkp.
      * intros q Hq. rewrite (Hkq q Hq), kids_remove_node.
        rewrite decide_False; [done|]. rewrite Hc. congruence.
      * intros x. rewrite Hp', parent_of_remove_node.
        repeat case_decide; try done; set_solver.
      * apply (moved_trans _ (remove_node c d)); [apply moved_remove_node|done].
Qed.

(** Moving the children [xs] of the fragment [f] into [p], before [pv]. *)
Lemma move_children_before (p f pv : nat) (xs : list nat) :
  forall (d : dom) (l1 l2 : list nat),
    p <> f ->
    is_Some (kind_of d p) ->
    kids d p = l1 ++ pv :: l2 -> pv ∉ l1 ->
    kids d f = xs -> NoDup xs ->
    (forall x, x ∈ xs -> parent_of d x = Some f /\ x <> pv) ->
    let d' := fold_left (fun d' c => link_before p (Some pv) c d') xs d in
    kids d' p = l1 ++ xs ++ pv :: l2 /\
    kids d' f = [] /\
    (forall q, q <> p -> q <> f -> kids d' q = kids d q) /\
    (forall x, parent_of d' x = if decide (x ∈ xs) then Some p else parent_of d x) /\
    moved d d'.
Proof.
  induction xs as [|x xs IH]; intros d l1 l2 Hpf Hkp Hk Hpv Hkf Hnd Hpar; simpl.
  - split_and!; try done.
    all: intros x; case_decide; [set_solver|done].
  - destruct (Hpar x) as [Hx Hxpv]; [set_solver|].
    apply NoDup_cons in Hnd as [HxS Hnd].
    set (d2 := link_before p (Some pv) x d).
    assert (Hk2 : kids d2 p = (l1 ++ [x]) ++ pv :: l2).
    { unfold d2. rewrite kids_link_before by done. rewrite decide_True by done.
      rewrite kids_remove_node, decide_False by congruence.
      rewrite Hk, list_ins_app by done. by rewrite <- app_assoc. }
    assert (Hf2 : kids d2 f = xs).
    { unfold d2. rewrite kids_link_before by done.
      rewrite decide_False by congruence.
      rewrite kids_remove_node, decide_True by done.
      rewrite Hkf. simpl. by rewrite Nat.eqb_refl. }
    assert (Hp2 : forall y, parent_of d2 y = if decide (y = x) then Some p else parent_of d y).
    { intros y. unfold d2. apply parent_of_link_before. by eapply parent_of_kind. }
    destruct (IH d2 (l1 ++ [x]) l2) as (H1 & H2 & H3 & H4 & H5); try done.
    + unfold d2. by rewrite kind_of_link_before.
    + set_solver.
    + intros y Hy. rewrite Hp2. rewrite decide_False by set_solver.
      apply Hpar. set_solver.
    + split_and!.
      * rewrite H1. by rewrite <- app_assoc.
      * exact H2.
      * intros q Hq Hqf. rewrite (H3 q Hq Hqf). unfold d2.
        rewrite kids_link_before by done. rewrite decide_False by done.
        rewrite kids_remove_node, decide_False; [done|]. rewrite Hx. congruence.
      * intros y. rewrite H4, Hp2.
        repeat case_decide; try done; set_solver.
      * apply (moved_trans _ d2); [apply moved_link_before|done].
Qed.

(** ** Node creation *)

Section Create.
Variables (k : node_kind) (s : string) (d : dom).
Hypothesis Hfree : nodes d !! next_id d = None.

Let d' := snd (create k s d).

Lemma create_result : create k s d = (Ok (next_id d), d').
Proof. done. Qed.

Lemma kind_of_create (x : nat) :
  kind_of d' x = if decide (x = next_id d) then Some k else kind_of d x.
Proof.
  unfold d', kind_of. simpl. rewrite lookup_insert.
  repeat case_decide; by subst.
Qed.

Lemma chardata_of_create (x : nat) :
  chardata_of d' x = if decide (x = next_id d) then Some s else chardata_of d x.
Proof.
  unfold d', chardata_of. simpl. rewrite lookup_insert.
  repeat case_decide; by subst.
Qed.

Lemma parent_of_create (x : nat) : parent_of d' x = parent_of d x.
Proof.
  unfold d', parent_of. simpl. rewrite lookup_insert.
  case_decide; [subst; by rewrite Hfree|done].
Qed.

Lemma kids_create (x : nat) : kids d' x = kids d x.
Proof.
  unfold d', kids. simpl. rewrite lookup_insert.
  case_decide; [subst; by rewrite Hfree|done].
Qed.

Lemma next_id_create : next_id d' = S (next_id d).
Proof. done. Qed.

Lemma console_create : console d' = console d.
Proof. done. Qed.

Lemma size_create : size (nodes d') = S (size (nodes d)).
Proof. unfold d'. simpl. by apply map_size_insert_None. Qed.
End Create.

(** ** detach *)

Lemma detach_loop_spec (r : DynamicRange) (p f : nat) (todo : list nat) :
  forall (d : dom) (l1 l3 : list nat) (c : nat) (done_ : list nat) (fuel : nat),
    kids d p = l1 ++ c :: todo ++ end_ r :: l3 ->
    NoDup (kids d p) ->
    (forall x, x ∈ kids d p -> parent_of d x = Some p) ->
    (forall x, x ∈ c :: todo -> kind_of d x <> Some DocumentFragment) ->
    kind_of d f = Some DocumentFragment ->
    parent_of d f = None ->
    kids d f = done_ ->
    f <> p ->
    length todo < fuel ->
    exists d',
      Span.detach_loop fuel r (Some p) f (Some c) d = (Ok tt, d') /\
      kids d' p = l1 ++ end_ r :: l3 /\
      kids d' f = done_ ++ c :: todo /\
      (forall q, q <> p -> q <> f -> kids d' q = kids d q) /\
      (forall x, parent_of d' x =
                 if decide (x ∈ c :: todo) then Some f else parent_of d x) /\
      moved d d'.
Proof.
  induction todo as [|c' todo IH];
    intros d l1 l3 c done_ fuel Hk Hnd Hpar Hkind Hkf Hpf Hf Hfp Hfuel;
    (destruct fuel as [|fuel]; [simpl in Hfuel; lia|]).
  all: assert (Hc : parent_of d c = Some p) by (apply Hpar; rewrite Hk; set_solver).
  all: assert (Hcf : c <> f) by (intros ->; congruence).
  all: assert (Hc1 : c ∉ l1)
    by (pose proof Hnd as Hnd'; rewrite Hk in Hnd';
        apply NoDup_app in Hnd' as (_ & Hnd' & _);
        intros Hin; apply (Hnd' c Hin); set_solver).
  all: destruct (parent_of_kind d c p Hc) as [kc Hkc].
  all: assert (Hkcf : kc <> DocumentFragment)
    by (intros ->; apply (Hkind c); [set_solver|done]).
  all: set (d2 := remove_node c d).
  all: set (d3 := link_before f None c d2).
  all: assert (Hins : Node_appendChild f c d2 = (Ok tt, d3)).
  1,3: unfold Node_appendChild;
       apply (Node_insertBefore_one f c None d2 DocumentFragment kc);
       [ unfold d2; by rewrite kind_of_remove_node
       | done
       | unfold d2; by rewrite kind_of_remove_node
       | done
       | apply not_above_inclusive; intros Habove;
         apply above_root in Habove;
         [congruence | unfold d2; rewrite parent_of_remove_node;
                       by rewrite decide_False by congruence]
       | done
       | done ].
  all: assert (Hp3 : forall y, parent_of d3 y =
                               if decide (y = c) then Some f else parent_of d y).
  1,3: intros y; unfold d3;
       rewrite parent_of_link_before
         by (unfold d2; rewrite kind_of_remove_node; eauto);
       unfold d2; rewrite parent_of_remove_node; by case_decide.
  all: assert (Hk3f : kids d3 f = done_ ++ [c]).
  1,3: unfold d3; rewrite kids_link_before
         by (unfold d2; rewrite kind_of_remove_node; eauto);
       rewrite decide_True by done;
       rewrite kids_remove_node;
       rewrite decide_False
         by (unfold d2; rewrite parent_of_remove_node, decide_True; done);
       unfold d2; rewrite kids_remove_node;
       rewrite decide_False by (rewrite Hc; congruence);
       by rewrite Hf, list_ins_end.
  all: assert (Hk3 : forall q, q <> f ->
             kids d3 q = if decide (q = p) then list_del c (kids d q) else kids d q).
  1,3: intros q Hq; unfold d3;
       rewrite kids_link_before
         by (unfold d2; rewrite kind_of_remove_node; eauto);
       rewrite decide_False by done;
       rewrite kids_remove_node;
       rewrite decide_False
         by (unfold d2; rewrite parent_of_remove_node, decide_True; done);
       unfold d2; rewrite kids_remove_node, Hc;
       repeat case_decide; simplify_eq; done.
  all: assert (Hmv : moved d d3)
    by (apply (moved_trans _ d2);
        [apply moved_remove_node | apply moved_link_before]).
  all: assert (Hstep : forall k : M dom unit,
    Span.detach_loop (S fuel) r (Some p) f (Some c) d =
    (if opt_eqb (nextSibling d c) (Some (end_ r)) then ret tt
     else Span.detach_loop fuel r (Some p) f (nextSibling d c)) d3)
    by (intros _; simpl; unfold bind, get;
        rewrite (Node_removeChild_ok p c d Hc); fold d2; by rewrite Hins).
  all: rewrite (Hstep (ret tt)); clear Hstep.
  - rewrite (nextSibling_at d p c l1 (end_ r :: l3)) by done. simpl.
    rewrite Nat.eqb_refl. exists d3. split_and!; try done.
    + rewrite Hk3 by done. rewrite decide_True by done.
      rewrite Hk. simpl. by apply list_del_app.
    + intros q Hq Hqf. rewrite Hk3 by done. by rewrite decide_False.
    + intros y. rewrite Hp3. repeat case_decide; try done; set_solver.
  - rewrite (nextSibling_at d p c l1 ((c' :: todo) ++ end_ r :: l3)) by done.
    simpl.
    assert (Hne : c' <> end_ r).
    { intros ->. pose proof Hnd as Hnd'. rewrite Hk in Hnd'.
      apply NoDup_app in Hnd' as (_ & _ & Hnd').
      apply NoDup_cons in Hnd' as (_ & Hnd').
      apply NoDup_cons in Hnd' as (Hnd' & _). apply Hnd'. set_solver. }
    rewrite (proj2 (Nat.eqb_neq _ _) Hne).
    assert (Hkp3 : kids d3 p = l1 ++ c' :: todo ++ end_ r :: l3).
    { rewrite Hk3 by done. rewrite decide_True by done.
      rewrite Hk. by apply list_del_app. }
    assert (Hsub : forall x, x ∈ kids d3 p -> x ∈ kids d p /\ x <> c).
    { intros x Hx. rewrite Hkp3 in Hx. split; [rewrite Hk; set_solver|].
      intros ->. pose proof Hnd as Hnd'. rewrite Hk in Hnd'.
      apply NoDup_app in Hnd' as (_ & _ & Hnd').
      apply NoDup_cons in Hnd' as (Hnd' & _).
      apply elem_of_app in Hx as [Hx|Hx]; [done|]. by apply Hnd'. }
    destruct (IH d3 l1 l3 c' (done_ ++ [c]) fuel) as (d' & Hrun & H1 & H2 & H3 & H4 & H5).
    + done.
    + rewrite Hkp3. rewrite Hk in Hnd.
      apply NoDup_app in Hnd as (Ha & Hb & Hc').
      apply NoDup_cons in Hc' as (_ & Hc').
      apply NoDup_app. split_and!; try done.
      intros x Hx Hx'. apply (Hb x Hx). set_solver.
    + intros x Hx. destruct (Hsub x Hx) as [Hx1 Hx2].
      rewrite Hp3, decide_False by done. by apply Hpar.
    + intros x Hx. destruct Hmv as [Hmk _ _ _ _]. rewrite Hmk.
      apply Hkind. set_solver.
    + destruct Hmv as [Hmk _ _ _ _]. by rewrite Hmk.
    + rewrite Hp3, decide_False by congruence. done.
    + done.
    + done.
    + simpl in Hfuel. lia.
    + exists d'. split_and!.
      * exact Hrun.
      * exact H1.
      * rewrite H2. by rewrite <- app_assoc.
      * intros q Hq Hqf. rewrite (H3 q Hq Hqf), Hk3 by done.
        by rewrite decide_False.
      * intros y. rewrite H4, Hp3.
        repeat case_decide; try done; set_solver.
      * by apply (moved_trans _ d3).
Qed.

(** [detach()] on a span in place: the markers and the content leave [p]
    for a new fragment, in order. *)
Lemma detach_spec (r : DynamicRange) (p : nat) (l1 content l3 : list nat) (d : dom) :
  attached d r p l1 content l3 ->
  (forall x, x ∈ span_nodes r content -> kind_of d x <> Some DocumentFragment) ->
  unused d (next_id d) ->
  exists d',
    Span.detach r d = (Ok (next_id d), d') /\
    kids d' p = l1 ++ l3 /\
    kids d' (next_id d) = span_nodes r content /\
    (forall q, q <> p -> q <> next_id d -> kids d' q = kids d q) /\
    (forall x, parent_of d' x =
               if decide (x ∈ span_nodes r content) then Some (next_id d)
               else parent_of d x) /\
    (forall x, kind_of d' x =
               if decide (x = next_id d) then Some DocumentFragment else kind_of d x) /\
    (forall x, x <> next_id d -> chardata_of d' x = chardata_of d x) /\
    next_id d' = S (next_id d) /\
    console d' = console d.
Proof.
  intros [Hk Hnd Hpar] Hkind [Hfree Hnopar].
  set (f := next_id d).
  set (d1 := snd (create DocumentFragment "" d)).
  assert (Hfp : f <> p).
  { intros <-. unfold kids in Hk. fold f in Hfree. rewrite Hfree in Hk.
    by destruct l1. }
  assert (Hk1 : forall q, kids d1 q = kids d q) by (intros; by apply kids_create).
  assert (Hp1 : forall x, parent_of d1 x = parent_of d x)
    by (intros; by apply parent_of_create).
  assert (Hkd1 : forall x, kind_of d1 x =
                           if decide (x = f) then Some DocumentFragment else kind_of d x)
    by (intros; by apply kind_of_create).
  assert (Hkf : kids d f = []) by (unfold kids; fold f in Hfree; by rewrite Hfree).
  assert (Hpf : parent_of d f = None)
    by (unfold parent_of; fold f in Hfree; by rewrite Hfree).
  assert (Hnf : forall x, x ∈ kids d p -> x <> f).
  { intros x Hx ->. apply Hpar in Hx. congruence. }
  destruct (detach_loop_spec r p f content d1 l1 l3 (start r) []
              (S (size (nodes d)))) as (d2 & Hrun & H1 & H2 & H3 & H4 & H5).
  { by rewrite Hk1. }
  { by rewrite Hk1. }
  { intros x Hx. rewrite Hk1 in Hx. rewrite Hp1. by apply Hpar. }
  { intros x Hx. rewrite Hkd1. rewrite decide_False.
    - apply Hkind. unfold span_nodes. set_solver.
    - apply Hnf. rewrite Hk. set_solver. }
  { rewrite Hkd1. by rewrite decide_True. }
  { by rewrite Hp1. }
  { by rewrite Hk1. }
  { done. }
  { pose proof (kids_length_size d p Hnd Hpar) as Hs. rewrite Hk in Hs.
    rewrite length_app in Hs. simpl in Hs. rewrite length_app in Hs. lia. }
  assert (He : end_ r ∈ kids d p) by (rewrite Hk; set_solver).
  assert (Hes : end_ r ∉ start r :: content).
  { rewrite Hk in Hnd. apply NoDup_app in Hnd as (_ & _ & Hnd).
    replace (start r :: content ++ end_ r :: l3)
      with ((start r :: content) ++ end_ r :: l3) in Hnd by done.
    apply NoDup_app in Hnd as (_ & Hnd & _). intros Hin. apply (Hnd _ Hin). set_solver. }
  assert (He1 : end_ r ∉ l1).
  { rewrite Hk in Hnd. apply NoDup_app in Hnd as (_ & Hnd & _).
    intros Hin. apply (Hnd _ Hin). set_solver. }
  assert (Hpe2 : parent_of d2 (end_ r) = Some p).
  { rewrite H4, decide_False by done. rewrite Hp1. by apply Hpar. }
  destruct (parent_of_kind d (end_ r) p (Hpar _ He)) as [ke Hke].
  assert (Hkd2 : forall x, kind_of d2 x = kind_of d1 x) by (by destruct H5).
  set (d3 := remove_node (end_ r) d2).
  set (d4 := link_before f None (end_ r) d3).
  assert (Hkd3 : forall x, kind_of d3 x = kind_of d1 x)
    by (intros; unfold d3; by rewrite kind_of_remove_node).
  assert (Hpf3 : parent_of d3 f = None).
  { unfold d3. rewrite parent_of_remove_node, decide_False by (apply not_eq_sym, Hnf, He).
    rewrite H4, decide_False; [by rewrite Hp1|].
    intros Hin. apply (Hnf f); [rewrite Hk; set_solver|done]. }
  assert (Hins : Node_appendChild f (end_ r) d3 = (Ok tt, d4)).
  { unfold Node_appendChild.
    apply (Node_insertBefore_one f (end_ r) None d3 DocumentFragment ke); try done.
    - rewrite Hkd3, Hkd1. by rewrite decide_True.
    - rewrite Hkd3, Hkd1. rewrite decide_False by (apply Hnf, He). done.
    - intros ->. apply (Hkind (end_ r)); [unfold span_nodes; set_solver|done].
    - apply not_above_inclusive. intros Ha. apply above_root in Ha; [|done].
      by apply (Hnf _ He). }
  assert (Hf3 : is_Some (kind_of d3 f))
    by (rewrite Hkd3, Hkd1, decide_True by done; eauto).
  assert (He3 : is_Some (kind_of d3 (end_ r)))
    by (rewrite Hkd3, Hkd1, decide_False by (apply Hnf, He); eauto).
  exists d4. split_and!.
  - unfold Span.detach, bind, get, Span.parentNode, createDocumentFragment.
    rewrite (Hpar (start r)) by (rewrite Hk; set_solver).
    rewrite (create_result DocumentFragment "" d). fold d1 f.
    rewrite Hrun. rewrite (Node_removeChild_ok p (end_ r) d2 Hpe2). fold d3.
    by rewrite Hins.
  - unfold d4. rewrite kids_link_before by done.
    rewrite decide_False by done.
    rewrite kids_remove_node.
    rewrite decide_False
      by (unfold d3; rewrite parent_of_remove_node, decide_True; done).
    unfold d3. rewrite kids_remove_node, decide_True by done.
    rewrite H1. by apply list_del_app.
  - unfold d4. rewrite kids_link_before by done.
    rewrite decide_True by done.
    rewrite kids_remove_node.
    rewrite decide_False
      by (unfold d3; rewrite parent_of_remove_node, decide_True; done).
    unfold d3. rewrite kids_remove_node, decide_False by (rewrite Hpe2; congruence).
    rewrite H2, list_ins_end. done.
  - intros q Hq Hqf. unfold d4.
    rewrite kids_link_before by done.
    rewrite decide_False by done.
    rewrite kids_remove_node.
    rewrite decide_False
      by (unfold d3; rewrite parent_of_remove_node, decide_True; done).
    unfold d3. rewrite kids_remove_node, decide_False by (rewrite Hpe2; congruence).
    rewrite H3 by done. apply Hk1.
  - intros x. unfold d4.
    rewrite parent_of_link_before by done.
    unfold d3. rewrite parent_of_remove_node, H4, Hp1. unfold span_nodes.
    repeat case_decide; try done; set_solver.
  - intros x. unfold d4. by rewrite kind_of_link_before, Hkd3, Hkd1.
  - intros x Hx. unfold d4, d3.
    rewrite chardata_of_link_before, chardata_of_remove_node.
    destruct H5 as [_ Hcd _ _ _]. rewrite Hcd.
    unfold d1. rewrite chardata_of_create by done. by rewrite decide_False.
  - unfold d4, d3. rewrite next_id_link_before, next_id_remove_node.
    destruct H5 as [_ _ Hn _ _]. by rewrite Hn.
  - unfold d4, d3. rewrite console_link_before, console_remove_node.
    destruct H5 as [_ _ _ Hn _]. by rewrite Hn.
Qed.

(** ** Putting a fragment back: [point.parentNode!.insertBefore(frag, point)] *)

Lemma insert_fragment_at_point (p f pv : nat) (xs l1 l2 : list nat) (d : dom)
      (kp : node_kind) :
  kind_of d p = Some kp -> is_container kp = true ->
  kind_of d f = Some DocumentFragment ->
  inclusive_ancestor d f p = false ->
  parent_of d pv = Some p -> pv <> f ->
  kids d p = l1 ++ pv :: l2 -> pv ∉ l1 ->
  kids d f = xs -> NoDup xs ->
  (forall x, x ∈ xs -> parent_of d x = Some f) ->
  exists d',
    insert_at_point f pv d = (Ok tt, d') /\
    kids d' p = l1 ++ xs ++ pv :: l2 /\
    kids d' f = [] /\
    (forall q, q <> p -> q <> f -> kids d' q = kids d q) /\
    (forall x, parent_of d' x = if decide (x ∈ xs) then Some p else parent_of d x) /\
    moved d d'.
Proof.
  intros Hkp Hc Hkf Hanc Hpv Hpvf Hk Hpv1 Hxs Hnd Hpar.
  assert (Hpf : p <> f).
  { intros ->. unfold inclusive_ancestor in Hanc.
    destruct (size (nodes d)); simpl in Hanc; by rewrite Nat.eqb_refl in Hanc. }
  destruct (move_children_before p f pv xs d l1 l2) as (H1 & H2 & H3 & H4 & H5);
    try done; eauto.
  { intros x Hx. split; [by apply Hpar|]. intros ->.
    rewrite (Hpar pv Hx) in Hpv. congruence. }
  eexists. split_and!; try done.
  unfold insert_at_point, bind, get. rewrite Hpv.
  rewrite (Node_insertBefore_fragment p f (Some pv) d kp); try done.
  - by rewrite Hxs.
  - intros c [= <-]. done.
  - congruence.
Qed.

(** The relocation of [assignData]: [found.range.detach()] followed by
    [pivot.parentNode!.insertBefore(cached, pivot)], for a span that lies
    after the pivot among the children of [p]. *)
Lemma relocate_spec (r : DynamicRange) (p pv : nat)
      (l1 l2 content l3 : list nat) (d : dom) (kp : node_kind) :
  attached d r p (l1 ++ pv :: l2) content l3 ->
  kind_of d p = Some kp -> is_container kp = true ->
  (forall x, x ∈ span_nodes r content ->
             kind_of d x <> Some DocumentFragment /\ ~ above d p x) ->
  unused d (next_id d) ->
  exists d',
    (cached <- Span.detach r ; insert_at_point cached pv) d = (Ok tt, d') /\
    kids d' p = l1 ++ span_nodes r content ++ pv :: l2 ++ l3 /\
    (forall q, q <> p -> q <> next_id d -> kids d' q = kids d q) /\
    (forall x, parent_of d' x = parent_of d x) /\
    (forall x, kind_of d' x =
               if decide (x = next_id d) then Some DocumentFragment else kind_of d x) /\
    (forall x, x <> next_id d -> chardata_of d' x = chardata_of d x) /\
    next_id d' = S (next_id d) /\
    console d' = console d.
Proof.
  intros Hatt Hkp Hc Hspan Hun.
  pose proof Hatt as [Hk Hnd Hpar].
  destruct (detach_spec r p (l1 ++ pv :: l2) content l3 d)
    as (d1 & Hdet & H1 & H2 & H3 & H4 & H5 & H6 & H7 & H8); try done.
  { intros x Hx. by apply Hspan. }
  set (f := next_id d) in *.
  assert (Hfp : f <> p).
  { intros Heq. destruct Hun as [Hfree _]. fold f in Hfree.
    unfold kids in Hk. rewrite <- Heq, Hfree in Hk. by destruct l1. }
  assert (Hinspan : forall x, x ∈ span_nodes r content -> x ∈ kids d p).
  { intros x Hx. rewrite Hk. unfold span_nodes in Hx. set_solver. }
  assert (Hpvin : pv ∈ kids d p) by (rewrite Hk; set_solver).
  assert (Hpvspan : pv ∉ span_nodes r content).
  { rewrite Hk in Hnd. rewrite <- app_assoc in Hnd.
    apply NoDup_app in Hnd as (_ & _ & Hnd). simpl in Hnd.
    apply NoDup_cons in Hnd as (Hnd & _). unfold span_nodes. set_solver. }
  assert (Hpv1 : pv ∉ l1).
  { rewrite Hk in Hnd. rewrite <- app_assoc in Hnd.
    apply NoDup_app in Hnd as (_ & Hnd & _).
    intros Hin. apply (Hnd _ Hin). set_solver. }
  assert (Hndspan : NoDup (span_nodes r content)).
  { rewrite Hk in Hnd. apply NoDup_app in Hnd as (_ & _ & Hnd).
    replace (start r :: content ++ end_ r :: l3)
      with (span_nodes r content ++ l3) in Hnd
      by (unfold span_nodes; simpl; by rewrite <- app_assoc).
    by apply NoDup_app in Hnd as (Hnd & _). }
  destruct (insert_fragment_at_point p f pv (span_nodes r content)
              l1 (l2 ++ l3) d1 kp)
    as (d2 & Hins & I1 & I2 & I3 & I4 & I5); try done.
  - rewrite H5. rewrite decide_False by done. done.
  - rewrite H5. by rewrite decide_True.
  - unfold inclusive_ancestor. apply (not_above_frame d d1).
    + intros x Hx. rewrite H4. rewrite decide_False; [done|].
      intros Hin. by apply (Hspan x Hin).
    + intros Ha. apply above_childless in Ha; [done|]. by destruct Hun.
  - rewrite H4. rewrite decide_False by done. by apply Hpar.
  - intros Heq. destruct Hun as [Hfree _]. fold f in Hfree.
    apply Hpar in Hpvin. rewrite Heq in Hpvin.
    unfold parent_of in Hpvin. by rewrite Hfree in Hpvin.
  - rewrite H1. by rewrite <- app_assoc.
  - intros x Hx. rewrite H4. by rewrite decide_True.
  - exists d2. split_and!.
    + unfold bind. by rewrite Hdet.
    + rewrite I1. done.
    + intros q Hq Hqf. rewrite I3, H3 by done. done.
    + intros x. rewrite I4, H4. case_decide; [|done].
      symmetry. apply Hpar. by apply Hinspan.
    + intros x. destruct I5 as [Hmk _ _ _ _]. by rewrite Hmk, H5.
    + intros x Hx. destruct I5 as [_ Hmc _ _ _]. by rewrite Hmc, H6.
    + destruct I5 as [_ _ Hn _ _]. by rewrite Hn.
    + destruct I5 as [_ _ _ Hn _]. by rewrite Hn.
Qed.

(** ** The reconciler *)

Lemma bind_Ok {S A B} (m : M S A) (k : A -> M S B) (s s' : S) (a : A) :
  m s = (Ok a, s') -> bind m k s = k a s'.
Proof. intros Hm. unfold bind. by rewrite Hm. Qed.

Lemma liftD_Ok {T A} (m : M dom A) (st : lstate T) (a : A) (d' : dom) :
  m (world st) = (Ok a, d') ->
  liftD m st = (Ok a, MkLState d' (data st) (arrays st)).
Proof. intros Hm. unfold liftD. by rewrite Hm. Qed.

Ltac list_norm := repeat (progress (simpl; rewrite <- ?app_assoc)).

Lemma liftD_bind {T A B} (m : M dom A) (k : A -> M dom B) (st : lstate T) :
  bind (liftD m) (fun x => liftD (k x)) st = liftD (bind m k) st.
Proof.
  unfold bind, liftD. destruct (m (world st)) as [[a|e| |] d']; simpl; done.
Qed.

Section Reconciler.
Context {T : Type} `{EqDecision T}.
Variables (fuel : nat) (renderer : ListRenderer T) (n : string) (root : DynamicRange).

Local Abbreviation key := (extractKey renderer).

(** A target value found where it already is, with the same reference:
    the turn changes nothing. *)
Lemma assign_step_in_place (i : nat) (item : T) (found : Packed T) (st : lstate T) :
  scan renderer item i (data st) = Some i ->
  data st !! i = Some found ->
  item = value found ->
  assign_step fuel renderer n root i item st = (Ok tt, st).
Proof.
  intros Hscan Hfound Hitem. unfold assign_step, bind, get.
  rewrite Hscan, Hfound, Nat.eqb_refl. by rewrite decide_True.
Qed.

(** C1. A list whose records are [A; B; C], rendered in that order under
    [p]: [assign([C, A, B])] with the same references leaves the records
    [C; A; B], each with the range it had, the span of [C] moved as a
    block in front of the span of [A]; no marker is created, the only
    node created is the fragment that carried the span. *)
Theorem assign_rotation_keeps_spans
        (A B C : T) (ra rb rc : DynamicRange) (p : nat)
        (pre ca cb cc post : list nat) (d : dom) (arrs : list (list T))
        (kp : node_kind) :
  key A <> key C -> key B <> key C ->
  kids d p = pre ++ span_nodes ra ca ++ span_nodes rb cb ++ span_nodes rc cc ++ post ->
  NoDup (kids d p) ->
  (forall x, x ∈ kids d p -> parent_of d x = Some p) ->
  kind_of d p = Some kp -> is_container kp = true ->
  (forall x, x ∈ span_nodes rc cc ->
             kind_of d x <> Some DocumentFragment /\ ~ above d p x) ->
  ids_below d = true ->
  exists d',
    assign fuel renderer n root [C; A; B]
           (MkLState d [MkPacked ra A; MkPacked rb B; MkPacked rc C] arrs)
    = (Ok tt, MkLState d' [MkPacked rc C; MkPacked ra A; MkPacked rb B] arrs) /\
    kids d' p = pre ++ span_nodes rc cc ++ span_nodes ra ca ++ span_nodes rb cb ++ post /\
    (forall x, kind_of d' x = Some Comment <-> kind_of d x = Some Comment) /\
    (forall x, parent_of d' x = parent_of d x) /\
    next_id d' = S (next_id d) /\
    kind_of d' (next_id d) = Some DocumentFragment.
Proof.
  intros HAC HBC Hk Hnd Hpar Hkp Hc Hspan Hids.
  destruct (relocate_spec rc p (start ra) pre (ca ++ [end_ ra] ++ span_nodes rb cb)
                          cc post d kp)
    as (d' & Hrel & H1 & H2 & H3 & H4 & H5 & H6 & H7); try done.
  { split; try done. rewrite Hk. unfold span_nodes. by list_norm. }
  { by apply ids_below_unused. }
  set (st0 := MkLState d [MkPacked ra A; MkPacked rb B; MkPacked rc C] arrs).
  set (st1 := MkLState d' [MkPacked rc C; MkPacked ra A; MkPacked rb B] arrs).
  assert (Hs0 : assign_step fuel renderer n root 0 C st0 = (Ok tt, st1)).
  { unfold assign_step, bind at 1, get. unfold scan. simpl.
    rewrite (proj2 (String.eqb_neq _ _) HAC), (proj2 (String.eqb_neq _ _) HBC).
    rewrite String.eqb_refl. simpl. rewrite decide_True by done.
    erewrite (bind_Ok (set_data _)) by reflexivity.
    erewrite (bind_Ok (set_data _)) by reflexivity.
    rewrite liftD_bind. by erewrite liftD_Ok by exact Hrel. }
  assert (Hs1 : assign_step fuel renderer n root 1 A st1 = (Ok tt, st1)).
  { apply (assign_step_in_place 1 A (MkPacked ra A)); try done.
    unfold scan. simpl. by rewrite String.eqb_refl. }
  assert (Hs2 : assign_step fuel renderer n root 2 B st1 = (Ok tt, st1)).
  { apply (assign_step_in_place 2 B (MkPacked rb B)); try done.
    unfold scan. simpl. by rewrite String.eqb_refl. }
  exists d'. split_and!.
  - unfold assign, processAction, assignData. simpl assign_loop.
    rewrite (bind_Ok _ _ st0 st1 tt).
    2: { rewrite (bind_Ok _ _ _ _ _ Hs0), (bind_Ok _ _ _ _ _ Hs1).
         by rewrite (bind_Ok _ _ _ _ _ Hs2). }
    done.
  - rewrite H1. unfold span_nodes. by list_norm.
  - intros x. rewrite H4. case_decide; [|done]. subst.
    destruct (ids_below_unused d (next_id d) Hids) as [Hfree _]; [done|].
    unfold kind_of. rewrite Hfree. done.
  - done.
  - done.
  - rewrite H4. by rewrite decide_True.
Qed.
End Reconciler.

(** ** The span without a parent *)

(** [detach] never completes normally on a span without a parent. *)
Lemma detach_parentless_fails (r : DynamicRange) (d : dom) :
  Span.parentNode r d = None ->
  forall f d', Span.detach r d <> (Ok f, d').
Proof.
  intros Hp f d'. unfold Span.detach, bind at 1, get. rewrite Hp.
  unfold bind at 1, createDocumentFragment, create.
  set (d1 := Dom _ _ _).
  assert (Hn : nextSibling d1 (start r) = None).
  { unfold nextSibling, parent_of, d1. simpl.
    unfold Span.parentNode, parent_of in Hp.
    rewrite lookup_insert. case_decide; [done|]. by rewrite Hp. }
  unfold bind at 1. simpl Span.detach_loop. unfold bind at 1, get.
  rewrite Hn. unfold bind at 1, ret. unfold bind at 1.
  destruct (Node_appendChild (next_id d) (start r) d1) as [[[]|e| |] d2];
    try discriminate.
  simpl. destruct (size (nodes d)); discriminate.
Qed.

(** C2.  On a span whose [parentNode] is null, [insertBefore],
    [appendChild], [replace] and [delete] return at once and leave the
    whole state as it was, as the claim says.  [detach] does not: its loop
    handles the null parent ([parent ? parent.removeChild(current) :
    current]), hangs the start marker into the new fragment and then reads
    [nextSibling] of null.  It never completes normally on such a span;
    on the span of [deleted_dom] it throws a TypeError after it has moved
    the start marker into the fragment. *)
Theorem parentless_detach_throws_where_the_other_mutators_return :
  (forall (r : DynamicRange) (d : dom) (n : nat) (child : option nat),
      Span.parentNode r d = None ->
      Span.insertBefore r n child d = (Ok tt, d) /\
      Span.appendChild r n d = (Ok tt, d) /\
      Span.replace r n d = (Ok tt, d) /\
      Span.delete r d = (Ok tt, d)) /\
  (forall (r : DynamicRange) (d : dom),
      Span.parentNode r d = None ->
      forall f d', Span.detach r d <> (Ok f, d')) /\
  (Span.parentNode empty_span deleted_dom = None /\
   fst (Span.detach empty_span deleted_dom) = Throw TypeError /\
   parent_of deleted_dom 1 = None /\
   kind_of (snd (Span.detach empty_span deleted_dom)) 4 = Some DocumentFragment /\
   parent_of (snd (Span.detach empty_span deleted_dom)) 1 = Some 4 /\
   kids (snd (Span.detach empty_span deleted_dom)) 4 = [1]).
Proof.
  split_and!.
  - intros r d n child Hp.
    unfold Span.insertBefore, Span.appendChild, Span.replace, Span.delete, bind, get.
    by rewrite Hp.
  - intros r d Hp. by apply detach_parentless_fails.
  - reflexivity.
  - vm_compute. reflexivity.
  - reflexivity.
  - vm_compute. reflexivity.
  - vm_compute. reflexivity.
  - vm_compute. reflexivity.
Qed.

(** ** The second copy of DynamicRange *)

(** In place, its [firstChild] answers the end marker for an empty
    span and null for any other. *)
Lemma variant_firstChild_in_place (d : dom) (r : DynamicRange) (p : nat)
      (pre content post : list nat) :
  attached d r p pre content post ->
  RangeVariant.firstChild r d =
  match content with [] => Some (end_ r) | _ :: _ => None end.
Proof.
  intros [Hk Hnd Hpar]. unfold RangeVariant.firstChild.
  rewrite (nextSibling_at d p (start r) pre (content ++ end_ r :: post)); try done.
  2: { apply Hpar. rewrite Hk. set_solver. }
  destruct content as [|c content]; simpl.
  - by rewrite Nat.eqb_refl.
  - destruct (Nat.eqb_spec c (end_ r)) as [->|Hne]; [|done].
    exfalso. rewrite Hk in Hnd.
    apply NoDup_app in Hnd as (_ & _ & Hnd).
    apply NoDup_cons in Hnd as (_ & Hnd).
    apply NoDup_cons in Hnd as (Hnd & _). apply Hnd. set_solver.
Qed.

(** In place, its [childNodes] holds at most the first node of the
    content. *)
Lemma variant_childNodes_in_place (d : dom) (r : DynamicRange) (p : nat)
      (pre content post : list nat) :
  attached d r p pre content post ->
  RangeVariant.childNodes r d =
  Ok match content with [] => [] | c :: _ => [Some c] end.
Proof.
  intros [Hk Hnd Hpar]. unfold RangeVariant.childNodes.
  rewrite (nextSibling_at d p (start r) pre (content ++ end_ r :: post)); try done.
  2: { apply Hpar. rewrite Hk. set_solver. }
  destruct content as [|c content]; simpl.
  - by rewrite Nat.eqb_refl.
  - destruct (Nat.eqb_spec c (end_ r)) as [->|Hne]; [|done].
    exfalso. rewrite Hk in Hnd.
    apply NoDup_app in Hnd as (_ & _ & Hnd).
    apply NoDup_cons in Hnd as (_ & Hnd).
    apply NoDup_cons in Hnd as (Hnd & _). apply Hnd. set_solver.
Qed.

(** ** The order of the resolver's cases *)

Lemma bind_assoc {S A B C} (m : M S A) (k : A -> M S B) (h : B -> M S C) (s : S) :
  bind (bind m k) h s = bind m (fun x => bind (k x) h) s.
Proof. unfold bind. by destruct (m s) as [[a|e| |] s']. Qed.

(** [mutate] follows the specified order, "thenable" read as carrying a
    [then] property. *)
Lemma mutate_first_match (f : nat) (target : nat) (v : MutateAction) :
  mutate (S f) target v =
  case_on_node (mutate f target) target v (first_match carries_then v).
Proof.
  destruct v as [| | | | | | |call iter aiter thn]; try reflexivity.
  destruct iter, aiter, thn, call; reflexivity.
Qed.

(** [mutateRange] follows the same order with "thenable" read as carrying
    a callable [then]. *)
Lemma mutateRange_first_match (f : nat) (ctx : DynamicRange) (v : MutateAction) (d : dom) :
  mutateRange (S f) ctx v d =
  case_on_range (mutateRange f ctx) ctx v (first_match then_is_function v) d.
Proof.
  destruct v as [| | | | | | |call iter aiter thn]; try reflexivity.
  1-3: simpl; unfold empty_range; by rewrite bind_assoc.
  destruct iter, aiter, thn as [[]|], call; reflexivity.
Qed.

(** C7, as amended. Both resolvers apply the first matching case of the
    order null/boolean, node, primitive, iterable, async iterable, thenable,
    function; a value both iterable and thenable is consumed as a sequence;
    a callable value with a [then] property is consumed as a thenable by
    [mutate], and by [mutateRange] when that property is itself callable,
    while [mutateRange] invokes it as a function otherwise. *)
Theorem resolvers_apply_first_matching_case :
  (forall f target v,
      mutate (S f) target v =
      case_on_node (mutate f target) target v (first_match carries_then v)) /\
  (forall f ctx v d,
      mutateRange (S f) ctx v d =
      case_on_range (mutateRange f ctx) ctx v (first_match then_is_function v) d) /\
  (forall call items aiter t thenable,
      first_match thenable (VObject call (Some items) aiter (Some t)) = Some SyncIterable) /\
  (forall fn t,
      first_match carries_then (VObject (Some fn) None None (Some t)) = Some Thenable) /\
  (forall fn settled,
      first_match then_is_function (VObject (Some fn) None None (Some (ThenFunction settled)))
      = Some Thenable) /\
  (forall fn,
      first_match then_is_function (VObject (Some fn) None None (Some ThenOther))
      = Some Function).
Proof.
  split_and!; try done.
  - apply mutate_first_match.
  - apply mutateRange_first_match.
Qed.

(** C7, as stated, fails for [mutateRange]: the callable value with a
    non-callable [then] property has the thenable shape before the function
    shape, but [mutateRange] invokes it: the text it answers is rendered
    into the span. *)
Lemma mutateRange_invokes_callable_with_then :
  first_match carries_then callable_with_then = Some Thenable /\
  (let '(o, d) := mutateRange 2 empty_span callable_with_then empty_dom in
   o = Ok tt /\ kids d 0 = [1; 3; 2] /\ chardata_of d 3 = Some "called") /\
  mutateRange 2 empty_span callable_with_then empty_dom <>
  case_on_range (mutateRange 1 empty_span) empty_span callable_with_then
                (first_match carries_then callable_with_then) empty_dom.
Proof. vm_compute. split_and!; try reflexivity. discriminate. Qed.

(** ** Resolving a primitive *)

Lemma index_of_app_r (n : nat) (l1 l2 : list nat) (i : nat) :
  n ∉ l1 -> index_of n l2 = Some i -> index_of n (l1 ++ l2) = Some (length l1 + i).
Proof.
  induction l1 as [|x l1 IH]; intros Hn Hi; simpl; [done|].
  apply not_elem_of_cons in Hn as [Hx Hn].
  destruct (Nat.eqb_spec x n); [congruence|]. by rewrite IH.
Qed.

(** [static] on a span in place: the offsets of the content. *)
Lemma static_in_place (d : dom) (r : DynamicRange) (p : nat)
      (pre content post : list nat) :
  attached d r p pre content post ->
  Span.static r d =
  (Ok (MkRange p (S (length pre)) (S (length pre + length content))), d).
Proof.
  intros [Hk Hnd Hpar]. unfold Span.static.
  rewrite (Hpar (start r)) by (rewrite Hk; set_solver).
  rewrite (Hpar (end_ r)) by (rewrite Hk; set_solver).
  rewrite Nat.eqb_refl, Hk.
  assert (H1 : start r ∉ pre).
  { rewrite Hk in Hnd. apply NoDup_app in Hnd as (_ & Hnd & _).
    intros Hin. apply (Hnd _ Hin). set_solver. }
  assert (H2 : end_ r ∉ pre ++ start r :: content).
  { rewrite Hk in Hnd.
    replace (pre ++ start r :: content ++ end_ r :: post)
      with ((pre ++ start r :: content) ++ end_ r :: post) in Hnd
      by (by list_norm).
    apply NoDup_app in Hnd as (_ & Hnd & _).
    intros Hin. apply (Hnd _ Hin). set_solver. }
  rewrite (index_of_app (start r) pre) by done.
  replace (pre ++ start r :: content ++ end_ r :: post)
    with ((pre ++ start r :: content) ++ end_ r :: post) by (by list_norm).
  rewrite (index_of_app (end_ r)) by done.
  rewrite length_app. simpl.
  destruct (Nat.ltb_spec (length pre + S (length content)) (S (length pre))); [lia|].
  do 3 f_equal. lia.
Qed.

(** [static.deleteContents()] on a span in place removes the content and
    nothing else. *)
Lemma deleteContents_in_place (d : dom) (r : DynamicRange) (p : nat)
      (pre content post : list nat) :
  attached d r p pre content post ->
  exists d',
    empty_range r d = (Ok tt, d') /\
    attached d' r p pre [] post /\
    (forall q, q <> p -> kids d' q = kids d q) /\
    (forall x, parent_of d' x = if decide (x ∈ content) then None else parent_of d x) /\
    moved d d'.
Proof.
  intros Hatt. pose proof Hatt as [Hk Hnd Hpar].
  destruct (remove_run p content d (pre ++ [start r]) (end_ r :: post))
    as (d' & Hrun & H1 & H2 & H3 & H4); try done.
  { rewrite Hk. by list_norm. }
  { intros x Hx. apply Hpar. rewrite Hk. set_solver. }
  exists d'. split_and!; try done.
  - unfold empty_range, bind. rewrite (static_in_place d r p pre content post Hatt).
    unfold Range_deleteContents, bind, get. simpl.
    replace (length pre + length content - length pre) with (length content) by lia.
    rewrite Hk.
    replace (pre ++ start r :: content ++ end_ r :: post)
      with ((pre ++ [start r]) ++ content ++ end_ r :: post) by (by list_norm).
    rewrite drop_app_length'; [|rewrite length_app; simpl; lia].
    by rewrite take_app_length.
  - assert (Hk' : kids d' p = pre ++ start r :: [] ++ end_ r :: post)
      by (rewrite H1; by list_norm).
    assert (Hsub : forall x, x ∈ kids d' p -> x ∈ kids d p /\ x ∉ content).
    { intros x Hx. rewrite Hk' in Hx. split; [rewrite Hk; set_solver|].
      intros Hc. rewrite Hk in Hnd.
      apply NoDup_app in Hnd as (_ & Hn1 & Hn2).
      apply NoDup_cons in Hn2 as (Hn2 & Hn3).
      apply NoDup_app in Hn3 as (_ & Hn3 & _).
      apply elem_of_app in Hx as [Hx|Hx].
      - apply (Hn1 x Hx). set_solver.
      - apply elem_of_cons in Hx as [->|Hx]; [set_solver|].
        by apply (Hn3 x Hc). }
    split.
    + done.
    + rewrite Hk'. rewrite Hk in Hnd.
      apply NoDup_app in Hnd as (Hn0 & Hn1 & Hn2).
      apply NoDup_cons in Hn2 as (Hn2 & Hn3).
      apply NoDup_app in Hn3 as (_ & _ & Hn3).
      apply NoDup_app. split_and!; try done.
      * intros x Hx Hx'. apply (Hn1 x Hx). set_solver.
      * apply NoDup_cons. split; [set_solver|done].
    + intros x Hx. destruct (Hsub x Hx) as [Hx1 Hx2].
      rewrite H3, decide_False by done. by apply Hpar.
Qed.

(** Removing a run does not bring an unused identity into use. *)
Lemma unused_after_move (d d' : dom) (i : nat) :
  unused d i ->
  (forall x, is_Some (kind_of d' x) -> is_Some (kind_of d x)) ->
  (forall x, parent_of d' x = parent_of d x \/ parent_of d' x = None) ->
  unused d' i.
Proof.
  intros [Hfree Hno] Hk Hp. split.
  - destruct (nodes d' !! i) as [nd|] eqn:Hnd; [|done].
    destruct (Hk i) as [k Hki]; [unfold kind_of; rewrite Hnd; eauto|].
    unfold kind_of in Hki. by rewrite Hfree in Hki.
  - intros x Hx. destruct (Hp x) as [Hs|Hs]; rewrite Hs in Hx; [|done].
    by apply (Hno x).
Qed.

(** Resolving a primitive against a span in place: the content is removed
    and one new text node, holding the image of the primitive, is the whole
    content. *)
Lemma mutateRange_primitive_in_place (f : nat) (ctx : DynamicRange) (v : MutateAction)
      (s : string) (d : dom) (p : nat) (pre content post : list nat) (kp : node_kind) :
  primitive_image v = Some s ->
  attached d ctx p pre content post ->
  kind_of d p = Some kp -> is_container kp = true ->
  unused d (next_id d) ->
  exists d',
    mutateRange (S f) ctx v d = (Ok tt, d') /\
    attached d' ctx p pre [next_id d] post /\
    (forall q, q <> p -> kids d' q = kids d q) /\
    (forall x, parent_of d' x =
               if decide (x = next_id d) then Some p
               else if decide (x ∈ content) then None else parent_of d x) /\
    (forall x, kind_of d' x =
               if decide (x = next_id d) then Some Text else kind_of d x) /\
    (forall x, chardata_of d' x =
               if decide (x = next_id d) then Some s else chardata_of d x) /\
    next_id d' = S (next_id d) /\
    console d' = console d.
Proof.
  intros Hv Hatt Hkp Hc Hun.
  destruct (deleteContents_in_place d ctx p pre content post Hatt)
    as (d1 & Hdel & Hatt1 & K1 & P1 & M1).
  pose proof Hatt as [Hk Hnd Hpar]. pose proof Hatt1 as [Hk1 Hnd1 Hpar1].
  pose proof M1 as [Mk Mc Mn Mo Ms].
  set (t := next_id d) in *.
  assert (Hun1 : unused d1 t).
  { apply (unused_after_move d d1 t Hun).
    - intros x. by rewrite Mk.
    - intros x. rewrite P1. case_decide; auto. }
  destruct Hun1 as [Hfree1 Hno1].
  assert (Hfree1' : nodes d1 !! next_id d1 = None) by (by rewrite Mn).
  set (d2 := snd (create Text s d1)).
  assert (Hcr : createTextNode s d1 = (Ok t, d2))
    by (unfold createTextNode; rewrite (create_result Text s d1); by rewrite Mn).
  assert (Hk2 : forall q, kids d2 q = kids d1 q) by (intros; by apply kids_create).
  assert (Hp2 : forall x, parent_of d2 x = parent_of d1 x)
    by (intros; by apply parent_of_create).
  assert (Hkd2 : forall x, kind_of d2 x = if decide (x = t) then Some Text else kind_of d1 x)
    by (intros; unfold d2; rewrite kind_of_create by done; by rewrite Mn).
  assert (Hcd2 : chardata_of d2 t = Some s).
  { unfold d2. rewrite chardata_of_create by done. rewrite Mn. by rewrite decide_True. }
  assert (Htp : t <> p).
  { intros Heq. unfold kind_of in Hkp. destruct Hun as [Hfree _].
    fold t in Hfree. by rewrite <- Heq, Hfree in Hkp. }
  assert (Hein : end_ ctx ∈ kids d1 p) by (rewrite Hk1; set_solver).
  assert (Hte : t <> end_ ctx).
  { intros Heq. apply Hpar1 in Hein. rewrite <- Heq in Hein.
    unfold parent_of in Hein. by rewrite Hfree1 in Hein. }
  set (d3 := link_before p (Some (end_ ctx)) t d2).
  assert (Hins : Node_insertBefore p t (Some (end_ ctx)) d2 = (Ok tt, d3)).
  { apply (Node_insertBefore_one p t (Some (end_ ctx)) d2 kp Text); try done.
    - rewrite Hkd2, decide_False by done. by rewrite Mk.
    - rewrite Hkd2. by rewrite decide_True.
    - apply not_above_inclusive. intros Ha.
      apply above_childless in Ha; [done|].
      intros x. rewrite Hp2. apply Hno1.
    - intros c [= <-]. rewrite Hp2. by apply Hpar1.
    - congruence. }
  assert (Ht2 : parent_of d2 t = None).
  { rewrite Hp2. unfold parent_of. by rewrite Hfree1. }
  assert (Hkp2 : is_Some (kind_of d2 p))
    by (rewrite Hkd2, decide_False by done; rewrite Mk; eauto).
  assert (Hkt2 : is_Some (kind_of d2 t))
    by (rewrite Hkd2, decide_True by done; eauto).
  assert (Hk3 : forall q, kids d3 q =
                          if decide (q = p) then list_ins t (Some (end_ ctx)) (kids d1 p)
                          else kids d1 q).
  { intros q. unfold d3. rewrite kids_link_before by done.
    assert (Hrm : forall q', kids (remove_node t d2) q' = kids d1 q').
    { intros q'. rewrite kids_remove_node, Ht2.
      rewrite decide_False by done. apply Hk2. }
    by rewrite !Hrm. }
  assert (Hp3 : forall x, parent_of d3 x = if decide (x = t) then Some p else parent_of d1 x).
  { intros x. unfold d3. rewrite parent_of_link_before by done. by rewrite Hp2. }
  assert (Hkp3 : kids d3 p = pre ++ start ctx :: [t] ++ end_ ctx :: post).
  { rewrite Hk3, decide_True by done. rewrite Hk1.
    replace (pre ++ start ctx :: [] ++ end_ ctx :: post)
      with ((pre ++ [start ctx]) ++ end_ ctx :: post) by (by list_norm).
    rewrite list_ins_app; [by list_norm|].
    rewrite Hk1 in Hnd1.
    replace (pre ++ start ctx :: [] ++ end_ ctx :: post)
      with ((pre ++ [start ctx]) ++ end_ ctx :: post) in Hnd1 by (by list_norm).
    apply NoDup_app in Hnd1 as (_ & Hn & _). intros Hin. apply (Hn _ Hin). set_solver. }
  exists d3. split_and!.
  - destruct v; simpl in Hv; simplify_eq; simpl.
    all: fold (empty_range ctx); rewrite <- bind_assoc.
    all: rewrite (bind_Ok _ _ _ _ _ Hdel); unfold bind at 1, get.
    all: rewrite (Hpar1 _ Hein).
    all: by rewrite (bind_Ok _ _ _ _ _ Hcr).
  - split.
    + done.
    + rewrite Hkp3. rewrite Hk1 in Hnd1.
      apply NoDup_app in Hnd1 as (Hn0 & Hn1 & Hn2).
      apply NoDup_cons in Hn2 as (Hn2 & Hn3). simpl in *.
      assert (Htk : t ∉ kids d1 p).
      { intros Hin. apply Hpar1 in Hin. unfold parent_of in Hin.
        by rewrite Hfree1 in Hin. }
      rewrite Hk1 in Htk.
      apply NoDup_app. split_and!; try done.
      * intros x Hx Hx'. apply elem_of_cons in Hx' as [->|Hx'].
        { apply (Hn1 _ Hx). set_solver. }
        apply elem_of_cons in Hx' as [->|Hx']; [set_solver|].
        apply (Hn1 _ Hx). set_solver.
      * apply NoDup_cons. split; [set_solver|].
        apply NoDup_cons. split; [set_solver|done].
    + intros x Hx. rewrite Hp3. case_decide; [done|].
      apply Hpar1. rewrite Hk1. rewrite Hkp3 in Hx. set_solver.
  - intros q Hq. rewrite Hk3, decide_False by done. by apply K1.
  - intros x. rewrite Hp3. case_decide; [done|]. by rewrite P1.
  - intros x. unfold d3. rewrite kind_of_link_before, Hkd2. by rewrite Mk.
  - intros x. unfold d3. rewrite chardata_of_link_before.
    unfold d2. rewrite chardata_of_create by done. rewrite Mn. fold t.
    by rewrite Mc.
  - unfold d3. rewrite next_id_link_before. unfold d2. simpl. by rewrite Mn.
  - unfold d3. rewrite console_link_before. unfold d2. simpl. done.
Qed.

(** [textContent = s] on an element or fragment: every child is removed,
    and one new text node is the only child unless [s] is empty. *)
Lemma set_textContent_container (target : nat) (s : string) (d : dom) (k : node_kind) :
  kind_of d target = Some k -> is_container k = true ->
  NoDup (kids d target) ->
  (forall x, x ∈ kids d target -> parent_of d x = Some target) ->
  unused d (next_id d) ->
  exists d',
    set_textContent target s d = (Ok tt, d') /\
    kids d' target = (if String.eqb s "" then [] else [next_id d]) /\
    (forall x, x ∈ kids d target -> parent_of d' x = None) /\
    (s <> "" -> kind_of d' (next_id d) = Some Text /\
                chardata_of d' (next_id d) = Some s /\
                parent_of d' (next_id d) = Some target).
Proof.
  intros Hk Hc Hnd Hpar [Hfree Hno].
  unfold set_textContent, bind at 1, get. rewrite Hk.
  assert (Hgoal :
    exists d',
      (t <- (if String.eqb s "" then ret None
             else (x <- createTextNode s ; ret (Some x))) ;
       d' <- get ;
       for_each (fun c => modify (remove_node c)) (kids d' target) ;;
       match t with
       | Some x => dom_insert target x None
       | None => ret tt
       end) d = (Ok tt, d') /\
      kids d' target = (if String.eqb s "" then [] else [next_id d]) /\
      (forall x, x ∈ kids d target -> parent_of d' x = None) /\
      (s <> "" -> kind_of d' (next_id d) = Some Text /\
                  chardata_of d' (next_id d) = Some s /\
                  parent_of d' (next_id d) = Some target));
    [|by destruct k].
  destruct (String.eqb_spec s "") as [->|Hs].
  - destruct (remove_run target (kids d target) d [] []) as (d' & Hrun & H1 & H2 & H3 & H4);
      try done.
    { by rewrite app_nil_r. }
    exists d'. split_and!; try done.
    + unfold bind at 1, ret. unfold bind at 1, get. unfold bind. by rewrite Hrun.
    + intros x Hx. rewrite H3. by rewrite decide_True.
  - set (t := next_id d) in *.
    set (d1 := snd (create Text s d)).
    assert (Hk1 : forall q, kids d1 q = kids d q) by (intros; by apply kids_create).
    assert (Hp1 : forall x, parent_of d1 x = parent_of d x)
      by (intros; by apply parent_of_create).
    assert (Hkd1 : forall x, kind_of d1 x = if decide (x = t) then Some Text else kind_of d x)
      by (intros; by apply kind_of_create).
    destruct (remove_run target (kids d target) d1 [] []) as (d2 & Hrun & H1 & H2 & H3 & H4).
    { by rewrite Hk1, app_nil_r. }
    { by rewrite Hk1. }
    { intros x Hx. rewrite Hp1. by apply Hpar. }
    pose proof H4 as [Mk Mc Mn Mo Ms].
    assert (Htt : t <> target).
    { intros Heq. fold t in Hfree. unfold kind_of in Hk. by rewrite <- Heq, Hfree in Hk. }
    assert (Htk : t ∉ kids d target).
    { intros Hin. apply Hpar in Hin. fold t in Hfree.
      unfold parent_of in Hin. by rewrite Hfree in Hin. }
    assert (Hpt2 : parent_of d2 t = None).
    { rewrite H3, decide_False by done. rewrite Hp1.
      unfold parent_of. fold t in Hfree. by rewrite Hfree. }
    set (d3 := link_before target None t d2).
    exists d3. split_and!.
    + unfold bind at 1. unfold bind at 1, createTextNode.
      rewrite (create_result Text s d). fold d1 t. unfold ret at 1.
      unfold bind at 1, get. rewrite Hk1. unfold bind. rewrite Hrun.
      unfold dom_insert. rewrite Mk, Hkd1. by rewrite decide_True.
    + unfold d3. rewrite kids_link_before
        by (rewrite Mk, Hkd1, decide_False by done; eauto).
      rewrite decide_True by done.
      rewrite kids_remove_node, Hpt2. rewrite decide_False by done.
      by rewrite H1.
    + intros x Hx. unfold d3.
      rewrite parent_of_link_before
        by (rewrite Mk, Hkd1, decide_True by done; eauto).
      rewrite decide_False by (intros ->; done).
      rewrite H3. by rewrite decide_True.
    + intros _. split_and!.
      * unfold d3. rewrite kind_of_link_before, Mk, Hkd1. by rewrite decide_True.
      * unfold d3. rewrite chardata_of_link_before, Mc.
        unfold d1. rewrite chardata_of_create by done. by rewrite decide_True.
      * unfold d3. rewrite parent_of_link_before
          by (rewrite Mk, Hkd1, decide_True by done; eauto).
        by rewrite decide_True.
Qed.

(** [textContent = s] on a Text or Comment node replaces its data. *)
Lemma set_textContent_chardata (target : nat) (s : string) (d : dom) (k : node_kind) :
  kind_of d target = Some k -> is_container k = false ->
  exists d',
    set_textContent target s d = (Ok tt, d') /\
    chardata_of d' target = Some s /\
    (forall q, kids d' q = kids d q) /\
    (forall x, parent_of d' x = parent_of d x) /\
    next_id d' = next_id d.
Proof.
  intros Hk Hc. eexists. split_and!.
  - unfold set_textContent, bind, get. rewrite Hk. destruct k; try done.
  - unfold chardata_of, kind_of in *. simpl. rewrite lookup_alter_eq.
    by destruct (nodes d !! target).
  - intros q. unfold kids. simpl. rewrite lookup_alter.
    case_decide; subst; by case_lookup.
  - intros x. unfold parent_of. simpl. rewrite lookup_alter.
    case_decide; subst; by case_lookup.
  - done.
Qed.

(** C8. A primitive replaces: against a plain node [mutate] assigns
    [textContent], so the former children of a container are all removed
    and its content is the one new text node holding the image, and the
    data of a Text or Comment node becomes the image; against a span in
    place [mutateRange] removes the content between the markers and leaves
    exactly one new text node there, before the end marker. *)
Theorem primitive_replaces_content
        (f : nat) (v : MutateAction) (s : string) (d : dom)
        (Hv : primitive_image v = Some s)
        (Hun : unused d (next_id d)) :
  (forall target, mutate (S f) target v d = set_textContent target s d) /\
  (forall target k,
      kind_of d target = Some k -> is_container k = true ->
      NoDup (kids d target) ->
      (forall x, x ∈ kids d target -> parent_of d x = Some target) ->
      exists d',
        mutate (S f) target v d = (Ok tt, d') /\
        kids d' target = (if String.eqb s "" then [] else [next_id d]) /\
        (forall x, x ∈ kids d target -> parent_of d' x = None) /\
        (s <> "" -> kind_of d' (next_id d) = Some Text /\
                    chardata_of d' (next_id d) = Some s /\
                    parent_of d' (next_id d) = Some target)) /\
  (forall target k,
      kind_of d target = Some k -> is_container k = false ->
      exists d',
        mutate (S f) target v d = (Ok tt, d') /\
        chardata_of d' target = Some s /\
        (forall q, kids d' q = kids d q)) /\
  (forall ctx p pre content post kp,
      attached d ctx p pre content post ->
      kind_of d p = Some kp -> is_container kp = true ->
      exists d',
        mutateRange (S f) ctx v d = (Ok tt, d') /\
        attached d' ctx p pre [next_id d] post /\
        Span.childNodes ctx d' = Ok [next_id d] /\
        kind_of d' (next_id d) = Some Text /\
        chardata_of d' (next_id d) = Some s /\
        (forall x, x ∈ content -> parent_of d' x = None)).
Proof.
  assert (Hm : forall target, mutate (S f) target v d = set_textContent target s d)
    by (intros; destruct v; simpl in Hv; by simplify_eq).
  split_and!.
  - done.
  - intros target k Hk Hc Hnd Hpar. rewrite Hm.
    by apply (set_textContent_container target s d k).
  - intros target k Hk Hc. rewrite Hm.
    destruct (set_textContent_chardata target s d k Hk Hc) as (d' & H1 & H2 & H3 & _).
    eauto.
  - intros ctx p pre content post kp Hatt Hkp Hc.
    destruct (mutateRange_primitive_in_place f ctx v s d p pre content post kp)
      as (d' & H1 & H2 & _ & H3 & H4 & H5 & _); try done.
    exists d'. split_and!; try done.
    + by apply (childNodes_between d' ctx p pre [next_id d] post).
    + rewrite H4. by rewrite decide_True.
    + rewrite H5. by rewrite decide_True.
    + intros x Hx. rewrite H3. rewrite decide_False, decide_True; try done.
      intros ->. destruct Hatt as [Hk _ Hpar].
      assert (Hin : next_id d ∈ kids d p) by (rewrite Hk; set_solver).
      apply Hpar in Hin. destruct Hun as [Hfree _].
      unfold parent_of in Hin. by rewrite Hfree in Hin.
Qed.

(** ** The content of a span under insertions and deletions *)

Lemma insert_loose_before (p x ref : nat) (l1 l2 : list nat) (d : dom) (kp : node_kind) :
  kids d p = l1 ++ ref :: l2 ->
  NoDup (kids d p) ->
  (forall y, y ∈ kids d p -> parent_of d y = Some p) ->
  kind_of d p = Some kp -> is_container kp = true ->
  loose d p x ->
  exists d',
    Node_insertBefore p x (Some ref) d = (Ok tt, d') /\
    kids d' p = l1 ++ x :: ref :: l2 /\
    NoDup (kids d' p) /\
    (forall y, y ∈ kids d' p -> parent_of d' y = Some p) /\
    moved d d'.
Proof.
  intros Hk Hnd Hpar Hkp Hc ((k & Hkx & Hnf) & Hpx & Hab).
  assert (Hxk : x ∉ kids d p).
  { intros Hin. apply Hpar in Hin. congruence. }
  assert (Href : ref ∈ kids d p) by (rewrite Hk; set_solver).
  assert (Hr1 : ref ∉ l1).
  { rewrite Hk in Hnd. apply NoDup_app in Hnd as (_ & Hn & _).
    intros Hin. apply (Hn _ Hin). set_solver. }
  set (d' := link_before p (Some ref) x d).
  assert (Hk' : kids d' p = l1 ++ x :: ref :: l2).
  { unfold d'. rewrite kids_link_before by eauto. rewrite decide_True by done.
    rewrite kids_remove_node, Hpx. rewrite decide_False by done.
    rewrite Hk. by apply list_ins_app. }
  assert (Hp' : forall y, parent_of d' y = if decide (y = x) then Some p else parent_of d y).
  { intros y. unfold d'. apply parent_of_link_before. eauto. }
  exists d'. split_and!.
  - apply (Node_insertBefore_one p x (Some ref) d kp k); try done.
    + by apply not_above_inclusive.
    + intros c [= <-]. by apply Hpar.
    + intros [= ->]. done.
  - done.
  - rewrite Hk'. rewrite Hk in Hnd, Hxk.
    apply NoDup_app in Hnd as (H1 & H2 & H3).
    apply NoDup_app. split_and!; try done.
    + intros y Hy Hy'. apply elem_of_cons in Hy' as [->|Hy']; [set_solver|].
      by apply (H2 y Hy).
    + apply NoDup_cons. split; [set_solver|done].
  - intros y Hy. rewrite Hp'. case_decide; [done|].
    apply Hpar. rewrite Hk. rewrite Hk' in Hy. set_solver.
  - apply moved_link_before.
Qed.

Lemma index_of_content (d : dom) (r : DynamicRange) (p : nat)
      (pre c1 c2 post : list nat) (c : nat) :
  attached d r p pre (c1 ++ c :: c2) post ->
  index_of c (kids d p) = Some (S (length pre + length c1)).
Proof.
  intros [Hk Hnd _]. rewrite Hk.
  replace (pre ++ start r :: (c1 ++ c :: c2) ++ end_ r :: post)
    with ((pre ++ start r :: c1) ++ c :: c2 ++ end_ r :: post) by (by list_norm).
  rewrite index_of_app.
  - rewrite length_app. simpl. f_equal. lia.
  - rewrite Hk in Hnd.
    replace (pre ++ start r :: (c1 ++ c :: c2) ++ end_ r :: post)
      with ((pre ++ start r :: c1) ++ c :: c2 ++ end_ r :: post) in Hnd
      by (by list_norm).
    apply NoDup_app in Hnd as (_ & Hn & _). intros Hin. apply (Hn _ Hin). set_solver.
Qed.

(** One operation keeps the span in place, with the same neighbours. *)
Lemma run_op_in_place (r : DynamicRange) (p : nat) (op : span_op) (d : dom)
      (pre content post : list nat) (kp : node_kind) :
  attached d r p pre content post ->
  kind_of d p = Some kp -> is_container kp = true ->
  op_ok d r p op ->
  exists d' content',
    run_op r op d = (Ok tt, d') /\
    attached d' r p pre content' post /\
    kind_of d' p = Some kp.
Proof.
  intros Hatt Hkp Hc Hok. pose proof Hatt as [Hk Hnd Hpar].
  assert (Hps : Span.parentNode r d = Some p).
  { unfold Span.parentNode. apply Hpar. rewrite Hk. set_solver. }
  assert (Happend : forall x, loose d p x ->
    exists d',
      Node_insertBefore p x (Some (end_ r)) d = (Ok tt, d') /\
      attached d' r p pre (content ++ [x]) post /\ kind_of d' p = Some kp).
  { intros x Hx.
    destruct (insert_loose_before p x (end_ r) (pre ++ start r :: content) post d kp)
      as (d' & Hins & Hk' & Hnd' & Hpar' & Hmv); try done.
    { rewrite Hk. by list_norm. }
    exists d'. split_and!; try done.
    - split; try done. rewrite Hk'. by list_norm.
    - destruct Hmv as [Mk _ _ _ _]. by rewrite Mk. }
  destruct op as [x|x [c|]| |s|c]; simpl in Hok; simpl run_op.
  - destruct (Happend x Hok) as (d' & Hins & Hatt' & Hkp').
    exists d', (content ++ [x]). split_and!; try done.
    unfold Span.appendChild, bind, get. by rewrite Hps.
  - destruct Hok as (Hx & content0 & Hcn & Hcin).
    rewrite (childNodes_between d r p pre content post Hatt) in Hcn.
    injection Hcn as <-.
    apply list_elem_of_split in Hcin as (c1 & c2 & ->).
    assert (Hcp : parent_of d c = Some p) by (apply Hpar; rewrite Hk; set_solver).
    destruct (insert_loose_before p x c (pre ++ start r :: c1) (c2 ++ end_ r :: post) d kp)
      as (d' & Hins & Hk' & Hnd' & Hpar' & Hmv); try done.
    { rewrite Hk. by list_norm. }
    exists d', (c1 ++ x :: c :: c2). split_and!.
    + unfold Span.insertBefore, bind at 1, get. rewrite Hps, Hcp, opt_eqb_refl.
      rewrite (bind_Ok _ _ _ _ _ (static_in_place d r p pre _ post Hatt)).
      unfold bind at 1, Range_intersectsNode. simpl container.
      rewrite Hcp, opt_eqb_refl.
      rewrite (index_of_content d r p pre c1 c2 post c Hatt). simpl.
      rewrite length_app. simpl.
      destruct (Nat.ltb_spec (S (length pre + length c1))
                             (S (length pre + (length c1 + S (length c2))))); [|lia].
      destruct (Nat.ltb_spec (S (length pre)) (S (S (length pre + length c1)))); [|lia].
      done.
    + split; try done. rewrite Hk'. by list_norm.
    + destruct Hmv as [Mk _ _ _ _]. by rewrite Mk.
  - destruct (Happend x Hok) as (d' & Hins & Hatt' & Hkp').
    exists d', (content ++ [x]). split_and!; try done.
    unfold Span.insertBefore, bind, get. by rewrite Hps.
  - destruct (deleteContents_in_place d r p pre content post Hatt)
      as (d' & Hdel & Hatt' & _ & _ & Hmv).
    exists d', []. split_and!; try done.
    destruct Hmv as [Mk _ _ _ _]. by rewrite Mk.
  - destruct (mutateRange_primitive_in_place 0 r (VString s) s d p pre content post kp)
      as (d' & Hmut & Hatt' & _ & _ & Hk' & _); try done.
    exists d', [next_id d]. split_and!; try done.
    rewrite Hk'. rewrite decide_False; [done|].
    intros ->. destruct Hok as [Hfree _]. apply kind_of_None in Hfree. congruence.
  - destruct Hok as (content0 & Hcn & Hcin).
    rewrite (childNodes_between d r p pre content post Hatt) in Hcn.
    injection Hcn as <-.
    apply list_elem_of_split in Hcin as (c1 & c2 & ->).
    assert (Hcp : parent_of d c = Some p) by (apply Hpar; rewrite Hk; set_solver).
    destruct (remove_run p [c] d (pre ++ start r :: c1) (c2 ++ end_ r :: post))
      as (d' & Hrun & Hk' & _ & Hp' & Hmv); try done.
    { rewrite Hk. by list_norm. }
    { intros y Hy. by apply list_elem_of_singleton in Hy as ->. }
    simpl for_each in Hrun. unfold bind, modify, ret in Hrun.
    injection Hrun as Hd'.
    exists d', (c1 ++ c2). split_and!.
    + unfold bind at 1, get. rewrite Hps.
      rewrite (bind_Ok _ _ _ _ _ (Node_removeChild_ok p c d Hcp)). by rewrite Hd'.
    + assert (Hsub : forall y, y ∈ kids d' p -> y ∈ kids d p /\ y <> c).
      { intros y Hy. rewrite Hk' in Hy. split; [rewrite Hk; set_solver|].
        intros ->. rewrite Hk in Hnd.
        replace (pre ++ start r :: (c1 ++ c :: c2) ++ end_ r :: post)
          with ((pre ++ start r :: c1) ++ c :: c2 ++ end_ r :: post) in Hnd
          by (by list_norm).
        apply NoDup_app in Hnd as (_ & Hn1 & Hn2).
        apply NoDup_cons in Hn2 as (Hn2 & _).
        apply elem_of_app in Hy as [Hy|Hy]; [|done].
        apply (Hn1 _ Hy). set_solver. }
      split.
      * rewrite Hk'. by list_norm.
      * rewrite Hk'. rewrite Hk in Hnd.
        replace (pre ++ start r :: (c1 ++ c :: c2) ++ end_ r :: post)
          with ((pre ++ start r :: c1) ++ c :: c2 ++ end_ r :: post) in Hnd
          by (by list_norm).
        apply NoDup_app in Hnd as (Hn0 & Hn1 & Hn2).
        apply NoDup_cons in Hn2 as (_ & Hn2).
        apply NoDup_app. split_and!; try done.
        intros y Hy Hy'. apply (Hn1 y Hy). set_solver.
      * intros y Hy. destruct (Hsub y Hy) as [Hy1 Hy2].
        rewrite Hp'. rewrite decide_False by set_solver. by apply Hpar.
    + destruct Hmv as [Mk _ _ _ _]. by rewrite Mk.
Qed.

(** Whatever sequence of such operations is applied to a span in place, it
    completes, the span stays in place between the same neighbours, and
    [childNodes] of src/range.ts is the list of the nodes between the
    markers. *)
Lemma span_content_invariant (r : DynamicRange) (p : nat) (ops : list span_op) :
  forall (d : dom) (pre content post : list nat) (kp : node_kind),
    attached d r p pre content post ->
    kind_of d p = Some kp -> is_container kp = true ->
    ops_ok r p ops d ->
    exists d' content',
      for_each (run_op r) ops d = (Ok tt, d') /\
      attached d' r p pre content' post /\
      Span.childNodes r d' = Ok content'.
Proof.
  induction ops as [|op ops IH]; intros d pre content post kp Hatt Hkp Hc Hok.
  - exists d, content. split_and!; try done.
    by apply (childNodes_between d r p pre content post).
  - destruct Hok as [Hop Hrest].
    destruct (run_op_in_place r p op d pre content post kp)
      as (d1 & content1 & Hrun & Hatt1 & Hkp1); try done.
    destruct (IH d1 pre content1 post kp Hatt1 Hkp1 Hc (Hrest d1 Hrun))
      as (d' & content' & Hrun' & Hatt' & Hcn).
    exists d', content'. split_and!; try done.
    simpl. by rewrite (bind_Ok _ _ _ _ _ Hrun).
Qed.

Example span_content_invariant_example :
  exists d' content',
    for_each (run_op demo_span) [OpText "t"; OpRemoveChild 5; OpText "u"; OpEmpty; OpText "v"]
             demo_dom = (Ok tt, d') /\
    attached d' demo_span 0 [] content' [] /\
    Span.childNodes demo_span d' = Ok content'.
Proof.
  apply (span_content_invariant demo_span 0 _ demo_dom [] [2; 3] [] Element);
    try reflexivity.
  - split; [reflexivity|decide_it|apply Forall_forall; decide_it].
  - split; [apply ids_below_unused; [reflexivity|simpl; lia]|].
    intros d1 H1. vm_compute in H1. injection H1 as <-.
    split; [exists [5]; split; [reflexivity|set_solver]|].
    intros d2 H2. vm_compute in H2. injection H2 as <-.
    split; [apply ids_below_unused; [reflexivity|simpl; lia]|].
    intros d3 H3. vm_compute in H3. injection H3 as <-.
    split; [done|].
    intros d4 H4. vm_compute in H4. injection H4 as <-.
    split; [apply ids_below_unused; [reflexivity|simpl; lia]|].
    done.
Qed.

(** C4. For src/range.ts: whatever sequence of insertions and deletions
    (none of them [delete()] or [replace()]) is applied to a span in place,
    [childNodes] is the list of the nodes between the two markers, in
    order.  The second copy of the class does not have the property:
    on the span 1 .. 4 of [demo_dom], which holds the nodes 2 and 3, its
    [childNodes] answers the first node only. *)
Theorem childNodes_is_the_content_but_not_in_variant :
  (forall r p ops d pre content post kp,
      attached d r p pre content post ->
      kind_of d p = Some kp -> is_container kp = true ->
      ops_ok r p ops d ->
      exists d' content',
        for_each (run_op r) ops d = (Ok tt, d') /\
        attached d' r p pre content' post /\
        Span.childNodes r d' = Ok content') /\
  (forall d r p pre content post,
      attached d r p pre content post ->
      RangeVariant.childNodes r d =
      Ok match content with [] => [] | c :: _ => [Some c] end) /\
  attached demo_dom demo_span 0 [] [2; 3] [] /\
  Span.childNodes demo_span demo_dom = Ok [2; 3] /\
  RangeVariant.childNodes demo_span demo_dom = Ok [Some 2].
Proof.
  split_and!.
  - intros r p ops d pre content post kp. apply span_content_invariant.
  - apply variant_childNodes_in_place.
  - split; [reflexivity|decide_it|apply Forall_forall; decide_it].
  - reflexivity.
  - reflexivity.
Qed.

(** C5. For src/range.ts: on a span in place [firstChild] is null exactly
    when the start marker is followed by the end marker, and is the node
    after the start marker otherwise.  The second copy of the class has
    the two answers swapped: the end marker on the empty span of
    [empty_dom], null on the span of [demo_dom] whose first node is 2. *)
Theorem firstChild_null_iff_empty_but_not_in_variant :
  (forall d r p pre content post,
      attached d r p pre content post ->
      (Span.firstChild r d = None <-> nextSibling d (start r) = Some (end_ r)) /\
      (nextSibling d (start r) <> Some (end_ r) ->
       Span.firstChild r d = nextSibling d (start r)) /\
      Span.firstChild r d = head content) /\
  (forall d r p pre content post,
      attached d r p pre content post ->
      RangeVariant.firstChild r d =
      match content with [] => Some (end_ r) | _ :: _ => None end) /\
  attached empty_dom empty_span 0 [] [] [] /\
  Span.firstChild empty_span empty_dom = None /\
  RangeVariant.firstChild empty_span empty_dom = Some 2 /\
  attached demo_dom demo_span 0 [] [2; 3] [] /\
  Span.firstChild demo_span demo_dom = Some 2 /\
  RangeVariant.firstChild demo_span demo_dom = None.
Proof.
  split_and!; try reflexivity.
  - apply firstChild_in_place.
  - apply variant_firstChild_in_place.
  - split; [reflexivity|decide_it|apply Forall_forall; decide_it].
  - split; [reflexivity|decide_it|apply Forall_forall; decide_it].
Qed.

(** ** Rendering an item: namedRange and insertAt *)

Lemma ids_below_fresh (d : dom) : ids_below d = true -> fresh_from d.
Proof. intros H i Hi. by apply ids_below_unused. Qed.

(** Appending a parentless node to a parentless container. *)
Lemma appendChild_orphan (F c : nat) (d : dom) (kF kc : node_kind) :
  kind_of d F = Some kF -> is_container kF = true -> parent_of d F = None ->
  kind_of d c = Some kc -> kc <> DocumentFragment -> parent_of d c = None ->
  c <> F ->
  exists d',
    Node_appendChild F c d = (Ok tt, d') /\
    (forall q, kids d' q = if decide (q = F) then kids d F ++ [c] else kids d q) /\
    (forall x, parent_of d' x = if decide (x = c) then Some F else parent_of d x) /\
    moved d d'.
Proof.
  intros HkF Hc HpF Hkc Hnf Hpc Hne.
  exists (link_before F None c d). split_and!.
  - unfold Node_appendChild.
    apply (Node_insertBefore_one F c None d kF kc); try done.
    apply not_above_inclusive. intros Ha. by apply above_root in Ha.
  - intros q. rewrite kids_link_before by eauto.
    assert (Hrm : forall q', kids (remove_node c d) q' = kids d q').
    { intros q'. rewrite kids_remove_node, Hpc. by rewrite decide_False. }
    rewrite !Hrm. by rewrite list_ins_end.
  - intros x. by rewrite parent_of_link_before by eauto.
  - apply moved_link_before.
Qed.

Lemma namedRange_primitive (f : nat) (nm : string) (v : MutateAction) (s : string) (d : dom) :
  primitive_image v = Some s ->
  fresh_from d ->
  exists d',
    namedRange (S f) nm [v] d =
      (Ok (next_id d + 2, MkDynamicRange (next_id d) (next_id d + 1)), d') /\
    kids d' (next_id d + 2) = [next_id d; next_id d + 3; next_id d + 1] /\
    (forall q, q < next_id d -> kids d' q = kids d q) /\
    (forall x, parent_of d' x =
               if decide (x ∈ [next_id d; next_id d + 3; next_id d + 1])
               then Some (next_id d + 2) else parent_of d x) /\
    (forall x, x < next_id d -> kind_of d' x = kind_of d x) /\
    kind_of d' (next_id d) = Some Comment /\
    kind_of d' (next_id d + 1) = Some Comment /\
    kind_of d' (next_id d + 2) = Some DocumentFragment /\
    kind_of d' (next_id d + 3) = Some Text /\
    chardata_of d' (next_id d + 3) = Some s /\
    (forall x, next_id d + 4 <= x -> kind_of d' x = None) /\
    next_id d' = next_id d + 4 /\
    console d' = console d.
Proof.
  intros Hv Hfresh.
  set (a := next_id d).
  assert (Hfree : forall i, a <= i -> nodes d !! i = None)
    by (intros i Hi; by destruct (Hfresh i Hi)).
  assert (Hnopar : forall i x, a <= i -> parent_of d x <> Some i)
    by (intros i x Hi; destruct (Hfresh i Hi) as [_ Hn]; apply Hn).
  assert (Hpnone : forall i, a <= i -> parent_of d i = None)
    by (intros i Hi; unfold parent_of; by rewrite Hfree).
  assert (Hknone : forall i, a <= i -> kids d i = [])
    by (intros i Hi; unfold kids; by rewrite Hfree).
  (* the three nodes *)
  set (d1 := snd (create Comment ("range[" +:+ nm +:+ "] start") d)).
  assert (F1 : nodes d !! next_id d = None) by (apply Hfree; unfold a; lia).
  assert (N1 : next_id d1 = a + 1) by (unfold d1; simpl; unfold a; lia).
  set (d2 := snd (create Comment ("range[" +:+ nm +:+ "] end") d1)).
  assert (F2 : nodes d1 !! next_id d1 = None).
  { rewrite N1. unfold d1. simpl. rewrite lookup_insert_ne by (unfold a; lia).
    apply Hfree. lia. }
  assert (N2 : next_id d2 = a + 2) by (unfold d2; simpl; lia).
  set (d3 := snd (create DocumentFragment "" d2)).
  assert (F3 : nodes d2 !! next_id d2 = None).
  { rewrite N2. unfold d2. simpl. rewrite lookup_insert_ne by (simpl; unfold a; lia).
    rewrite lookup_insert_ne by (unfold a; lia).
    apply Hfree. lia. }
  assert (N3 : next_id d3 = a + 3) by (unfold d3; simpl; lia).
  assert (K3 : forall x, kind_of d3 x =
                 if decide (x = a + 2) then Some DocumentFragment
                 else if decide (x = a + 1) then Some Comment
                 else if decide (x = a) then Some Comment else kind_of d x).
  { intros x. unfold d3. rewrite kind_of_create by done. rewrite N2.
    case_decide; [done|]. unfold d2. rewrite kind_of_create by done. rewrite N1.
    case_decide; [done|]. unfold d1. by rewrite kind_of_create by done. }
  assert (C3 : forall x, x <> a -> x <> a + 1 -> x <> a + 2 ->
                         chardata_of d3 x = chardata_of d x).
  { intros x H0 H1 H2. unfold d3. rewrite chardata_of_create by done. rewrite N2.
    rewrite decide_False by done. unfold d2. rewrite chardata_of_create by done.
    rewrite N1. rewrite decide_False by done. unfold d1.
    rewrite chardata_of_create by done. by rewrite decide_False. }
  assert (P3 : forall x, parent_of d3 x = parent_of d x).
  { intros x. unfold d3. rewrite parent_of_create by done.
    unfold d2. rewrite parent_of_create by done.
    unfold d1. by rewrite parent_of_create by done. }
  assert (Q3 : forall x, kids d3 x = kids d x).
  { intros x. unfold d3. rewrite kids_create by done.
    unfold d2. rewrite kids_create by done.
    unfold d1. by rewrite kids_create by done. }
  (* frag.appendChild(start); frag.appendChild(end) *)
  destruct (appendChild_orphan (a + 2) a d3 DocumentFragment Comment)
    as (d4 & Happ4 & Q4 & P4 & M4); try done.
  { rewrite K3. by rewrite decide_True. }
  { rewrite P3. apply Hpnone. lia. }
  { rewrite K3. rewrite !decide_False by lia. by rewrite decide_True. }
  { rewrite P3. apply Hpnone. lia. }
  { lia. }
  pose proof M4 as [Mk4 Mc4 Mn4 Mo4 _].
  destruct (appendChild_orphan (a + 2) (a + 1) d4 DocumentFragment Comment)
    as (d5 & Happ5 & Q5 & P5 & M5); try done.
  { rewrite Mk4, K3. by rewrite decide_True. }
  { rewrite P4, decide_False by lia. rewrite P3. apply Hpnone. lia. }
  { rewrite Mk4, K3. rewrite decide_False by lia. by rewrite decide_True. }
  { rewrite P4, decide_False by lia. rewrite P3. apply Hpnone. lia. }
  { lia. }
  pose proof M5 as [Mk5 Mc5 Mn5 Mo5 _].
  (* the task resolving the primitive *)
  destruct (mutateRange_primitive_in_place f (MkDynamicRange a (a + 1)) v s d5
              (a + 2) [] [] [] DocumentFragment)
    as (d6 & Hmut & Hatt6 & Q6 & P6 & K6 & C6 & N6 & O6); try done.
  { split; simpl.
    - rewrite Q5, decide_True by done. rewrite Q4, decide_True by done.
      rewrite Q3, Hknone by lia. done.
    - rewrite Q5, decide_True by done. rewrite Q4, decide_True by done.
      rewrite Q3, Hknone by lia. simpl.
      apply NoDup_cons. split; [set_solver by lia|]. apply NoDup_singleton.
    - intros x. rewrite Q5, decide_True by done. rewrite Q4, decide_True by done.
      rewrite Q3, Hknone by lia. simpl. intros Hx.
      rewrite P5, P4. repeat case_decide; try done. set_solver. }
  { rewrite Mk5, Mk4, K3. by rewrite decide_True. }
  { rewrite Mn5, Mn4, N3. split.
    - apply kind_of_None. rewrite Mk5, Mk4, K3. rewrite !decide_False by lia.
      apply kind_of_None, Hfree. lia.
    - intros x. rewrite P5, P4, P3. repeat case_decide; try (intros [=]; lia).
      apply Hnopar. lia. }
  rewrite Mn5, Mn4, N3 in *.
  exists d6. split_and!.
  - unfold namedRange, createComment.
    rewrite (bind_Ok _ _ _ _ _ (create_result Comment _ d)). fold d1 a.
    rewrite (bind_Ok _ _ _ _ _ (create_result Comment _ d1)). fold d2. rewrite N1.
    unfold createDocumentFragment.
    rewrite (bind_Ok _ _ _ _ _ (create_result DocumentFragment _ d2)). fold d3. rewrite N2.
    rewrite (bind_Ok _ _ _ _ _ Happ4), (bind_Ok _ _ _ _ _ Happ5).
    erewrite (bind_Ok (catch_console _)).
    + reflexivity.
    + unfold catch_console. simpl for_each.
      by rewrite (bind_Ok _ _ _ _ _ Hmut).
  - destruct Hatt6 as [Hk6 _ _]. simpl in Hk6. rewrite Hk6. done.
  - intros q Hq. rewrite Q6 by lia. rewrite Q5, decide_False by lia.
    rewrite Q4, decide_False by lia. apply Q3.
  - intros x. rewrite P6, P5, P4, P3.
    repeat case_decide; try done; set_solver by lia.
  - intros x Hx. rewrite K6, decide_False by lia.
    rewrite Mk5, Mk4, K3. by rewrite !decide_False by lia.
  - rewrite K6, decide_False by lia. rewrite Mk5, Mk4, K3.
    rewrite !decide_False by lia. by rewrite decide_True.
  - rewrite K6, decide_False by lia. rewrite Mk5, Mk4, K3.
    rewrite decide_False by lia. by rewrite decide_True.
  - rewrite K6, decide_False by lia. rewrite Mk5, Mk4, K3.
    by rewrite decide_True.
  - rewrite K6. by rewrite decide_True.
  - rewrite C6. by rewrite decide_True.
  - intros x Hx. rewrite K6, decide_False by lia. rewrite Mk5, Mk4, K3.
    rewrite !decide_False by lia. apply kind_of_None, Hfree. lia.
  - rewrite N6. lia.
  - rewrite O6, Mo5, Mo4. done.
Qed.

Lemma fresh_from_lt (d : dom) (x : nat) :
  fresh_from d -> is_Some (kind_of d x) -> x < next_id d.
Proof.
  intros Hf [k Hk]. destruct (Nat.lt_ge_cases x (next_id d)) as [|Hge]; [done|].
  destruct (Hf x Hge) as [Hfree _]. apply kind_of_None in Hfree. congruence.
Qed.

Lemma above_lt (d : dom) (n x : nat) :
  fresh_from d -> n < next_id d -> above d n x -> x < next_id d.
Proof.
  intros Hf Hn Ha. destruct (Nat.lt_ge_cases x (next_id d)) as [|Hge]; [done|].
  destruct (Hf x Hge) as [_ Hno].
  apply above_childless in Ha; [lia|done].
Qed.

Section Rendering.
Context {T : Type} `{EqDecision T}.
Variables (renderer : ListRenderer T) (n : string).

(** [insertAt(item, point)] for an item whose rendering is a primitive,
    [point] being a child of the container [p]: the new span, holding one
    text node, stands immediately before [point]. *)
Lemma insertAt_primitive (f : nat) (item : T) (s : string) (pv p : nat)
      (l1 l2 : list nat) (d : dom) (kp : node_kind) :
  primitive_image (render renderer item) = Some s ->
  kids d p = l1 ++ pv :: l2 ->
  NoDup (kids d p) ->
  (forall x, x ∈ kids d p -> parent_of d x = Some p) ->
  kind_of d p = Some kp -> is_container kp = true ->
  fresh_from d ->
  exists d',
    insertAt (S f) renderer n item pv d =
      (Ok (MkDynamicRange (next_id d) (next_id d + 1)), d') /\
    kids d' p = l1 ++ [next_id d; next_id d + 3; next_id d + 1] ++ pv :: l2 /\
    NoDup (kids d' p) /\
    (forall x, x ∈ kids d' p -> parent_of d' x = Some p) /\
    kind_of d' p = Some kp /\
    fresh_from d' /\
    next_id d' = next_id d + 4 /\
    (forall q, q < next_id d -> q <> p -> kids d' q = kids d q) /\
    (forall x, x < next_id d -> parent_of d' x = parent_of d x) /\
    (forall x, x < next_id d -> kind_of d' x = kind_of d x) /\
    kind_of d' (next_id d) = Some Comment /\
    kind_of d' (next_id d + 1) = Some Comment /\
    kind_of d' (next_id d + 3) = Some Text /\
    chardata_of d' (next_id d + 3) = Some s /\
    console d' = console d.
Proof.
  intros Hv Hk Hnd Hpar Hkp Hc Hfresh.
  destruct (namedRange_primitive f (n +:+ ":" +:+ extractKey renderer item)
              (render renderer item) s d Hv Hfresh)
    as (d1 & Hnr & Q1 & Qo1 & P1 & Ko1 & Ka & Kb & Kf & Kt & Ct & Kn1 & N1 & O1).
  set (a := next_id d) in *.
  assert (Hpa : p < a) by (apply fresh_from_lt; eauto).
  assert (Hold : forall x, x ∈ kids d p -> x < a).
  { intros x Hx. apply fresh_from_lt; [done|].
    eapply parent_of_kind. by apply Hpar. }
  assert (Hpv : pv ∈ kids d p) by (rewrite Hk; set_solver).
  assert (Hpv1 : pv ∉ l1).
  { rewrite Hk in Hnd. apply NoDup_app in Hnd as (_ & Hn & _).
    intros Hin. apply (Hn _ Hin). set_solver. }
  destruct (insert_fragment_at_point p (a + 2) pv [a; a + 3; a + 1] l1 l2 d1 kp)
    as (d2 & Hins & Q2 & Qf2 & Qo2 & P2 & M2); try done.
  { by rewrite Ko1. }
  { unfold inclusive_ancestor. apply (not_above_frame d d1).
    - intros x Hx. rewrite P1. rewrite decide_False; [done|].
      pose proof (above_lt d p x Hfresh Hpa Hx). fold a in H. set_solver by lia.
    - intros Ha. pose proof (above_lt d p (a + 2) Hfresh Hpa Ha). fold a in H. lia. }
  { rewrite P1. rewrite decide_False; [by apply Hpar|].
    pose proof (Hold pv Hpv). set_solver by lia. }
  { pose proof (Hold pv Hpv). lia. }
  { by rewrite Qo1. }
  { apply NoDup_cons. split; [set_solver by lia|].
    apply NoDup_cons. split; [set_solver by lia|]. apply NoDup_singleton. }
  { intros x Hx. rewrite P1. by rewrite decide_True. }
  pose proof M2 as [Mk2 Mc2 Mn2 Mo2 _].
  exists d2. split_and!.
  - unfold insertAt. rewrite (bind_Ok _ _ _ _ _ Hnr). simpl fst. simpl snd.
    by rewrite (bind_Ok _ _ _ _ _ Hins).
  - done.
  - rewrite Q2. rewrite Hk in Hnd.
    apply NoDup_app in Hnd as (Hn0 & Hn1 & Hn2).
    apply NoDup_app. split_and!; try done.
    + intros x Hx Hx'. apply elem_of_app in Hx' as [Hx'|Hx'].
      * assert (x < a) by (apply Hold; rewrite Hk; set_solver).
        set_solver by lia.
      * by apply (Hn1 x Hx).
    + apply NoDup_app. split_and!; try done.
      * apply NoDup_cons. split; [set_solver by lia|].
        apply NoDup_cons. split; [set_solver by lia|]. apply NoDup_singleton.
      * intros x Hx Hx'.
        assert (x < a) by (apply Hold; rewrite Hk; set_solver).
        set_solver by lia.
  - intros x Hx. rewrite P2. case_decide; [done|].
    rewrite P1. rewrite decide_False by done.
    apply Hpar. rewrite Hk. rewrite Q2 in Hx. set_solver.
  - by rewrite Mk2, Ko1.
  - intros i Hi. rewrite Mn2, N1 in Hi. split.
    + apply kind_of_None. rewrite Mk2. apply Kn1. lia.
    + intros x. rewrite P2. case_decide; [intros [=]; lia|].
      rewrite P1. rewrite decide_False by done.
      destruct (Hfresh i) as [_ Hno]; [fold a; lia|]. apply Hno.
  - by rewrite Mn2.
  - intros q Hq Hqp. rewrite Qo2 by lia. by apply Qo1.
  - intros x Hx. rewrite P2, decide_False by (set_solver by lia).
    rewrite P1. by rewrite decide_False by (set_solver by lia).
  - intros x Hx. rewrite Mk2. by apply Ko1.
  - by rewrite Mk2.
  - by rewrite Mk2.
  - by rewrite Mk2.
  - by rewrite Mc2.
  - by rewrite Mo2.
Qed.
End Rendering.

(** ** The turns of assignData *)

Lemma bind_Ok_inv {S A B} (m : M S A) (k : A -> M S B) (s s' : S) (b : B) :
  bind m k s = (Ok b, s') ->
  exists a s1, m s = (Ok a, s1) /\ k a s1 = (Ok b, s').
Proof.
  unfold bind. destruct (m s) as [[a|e| |] s1]; intros Hk; try discriminate.
  eauto.
Qed.

Lemma namedRange_range (fuel : nat) (nm : string) (rest : list MutateAction)
      (d d' : dom) (frag : nat) (r : DynamicRange) :
  namedRange fuel nm rest d = (Ok (frag, r), d') ->
  r = MkDynamicRange (next_id d) (next_id d + 1).
Proof.
  unfold namedRange. intros H.
  apply bind_Ok_inv in H as (s & d1 & Hs & H).
  apply bind_Ok_inv in H as (e & d2 & He & H).
  apply bind_Ok_inv in H as (fr & d3 & Hf & H).
  apply bind_Ok_inv in H as (? & d4 & _ & H).
  apply bind_Ok_inv in H as (? & d5 & _ & H).
  apply bind_Ok_inv in H as (? & d6 & _ & H).
  unfold ret in H. unfold createComment, create in *. simplify_eq. simpl.
  f_equal. lia.
Qed.

Section Turns.
Context {T : Type} `{EqDecision T}.
Variables (fuel : nat) (renderer : ListRenderer T) (n : string) (root : DynamicRange).

Local Abbreviation key := (extractKey renderer).

(** The range [insertAt] answers is made of the next two identities. *)
Lemma insertAt_range (item : T) (point : nat) (d d' : dom) (r : DynamicRange) :
  insertAt fuel renderer n item point d = (Ok r, d') ->
  r = MkDynamicRange (next_id d) (next_id d + 1).
Proof.
  unfold insertAt. intros H.
  apply bind_Ok_inv in H as ([frag r'] & d1 & Hn & H).
  apply bind_Ok_inv in H as (? & d2 & _ & H).
  unfold ret in H. simplify_eq. simpl.
  by apply (namedRange_range _ _ _ _ _ _ _ Hn).
Qed.

Lemma find_key_from_None (k : string) (i : nat) (l : list (Packed T)) :
  find_key_from renderer k i l = None <->
  forall x, x ∈ l -> key (value x) <> k.
Proof.
  revert i. induction l as [|y l IH]; intros i; simpl.
  - split; [|done]. intros _ x Hx. by apply elem_of_nil in Hx.
  - destruct (String.eqb_spec (key (value y)) k) as [Heq|Hne].
    + split; [done|]. intros Hall. destruct (Hall y); [set_solver|done].
    + rewrite IH. split.
      * intros Hall x Hx. apply elem_of_cons in Hx as [->|Hx]; auto.
      * intros Hall x Hx. apply Hall. set_solver.
Qed.

Lemma find_key_from_Some (k : string) (i j : nat) (l : list (Packed T)) :
  find_key_from renderer k i l = Some j ->
  i <= j /\ exists x, l !! (j - i) = Some x /\ key (value x) = k /\
  forall m y, m < j - i -> l !! m = Some y -> key (value y) <> k.
Proof.
  revert i. induction l as [|y l IH]; intros i; simpl; [done|].
  destruct (String.eqb_spec (key (value y)) k) as [Heq|Hne].
  - intros [= <-]. split; [lia|]. rewrite Nat.sub_diag. exists y.
    split_and!; try done. intros m z Hm. lia.
  - intros Hf. destruct (IH _ Hf) as (Hle & x & Hx & Hk & Hbefore).
    split; [lia|]. exists x.
    replace (j - i) with (S (j - S i)) by lia. split_and!; try done.
    intros m z Hm Hz. destruct m as [|m]; simpl in Hz.
    + by simplify_eq.
    + apply (Hbefore m z); [lia|done].
Qed.

(** The scan for the target at index [i] answers an index not below [i]
    whose record has the key, the first such; it does not depend on the
    records before [i]. *)
Lemma scan_Some (item : T) (i j : nat) (l : list (Packed T)) :
  scan renderer item i l = Some j ->
  i <= j /\ exists x, l !! j = Some x /\ key (value x) = key item /\
  forall m y, i <= m < j -> l !! m = Some y -> key (value y) <> key item.
Proof.
  unfold scan. intros H. apply find_key_from_Some in H as (Hle & x & Hx & Hk & Hb).
  split; [done|]. exists x. rewrite lookup_drop in Hx.
  replace (i + (j - i)) with j in Hx by lia. split_and!; try done.
  intros m y Hm Hy. apply (Hb (m - i) y); [lia|].
  rewrite lookup_drop. by replace (i + (m - i)) with m by lia.
Qed.

Lemma scan_None (item : T) (i : nat) (l : list (Packed T)) :
  scan renderer item i l = None <->
  forall j x, i <= j -> l !! j = Some x -> key (value x) <> key item.
Proof.
  unfold scan. rewrite find_key_from_None. split.
  - intros Hall j x Hij Hx. apply Hall.
    apply list_elem_of_lookup. exists (j - i). rewrite lookup_drop.
    by replace (i + (j - i)) with j by lia.
  - intros Hall x Hx. apply list_elem_of_lookup in Hx as [m Hm].
    rewrite lookup_drop in Hm. apply (Hall (i + m) x); [lia|done].
Qed.

Lemma scan_ignores_prefix (item : T) (i : nat) (l l' : list (Packed T)) :
  drop i l = drop i l' -> scan renderer item i l = scan renderer item i l'.
Proof. unfold scan. by intros ->. Qed.

End Turns.

(** ** appendUnique *)

Section Unique.
Context {T : Type} `{EqDecision T}.
Variables (fuel : nat) (renderer : ListRenderer T) (n : string) (root : DynamicRange).

Local Abbreviation key := (extractKey renderer).

Lemma keep_unique_spec (v : list T) (l : list (Packed T)) (x : T) :
  In x (keep_unique renderer v l) <->
  In x v /\ forall y, In y l -> key (value y) <> key x.
Proof.
  unfold keep_unique. rewrite filter_In, forallb_forall.
  split; intros [Hx Hall]; (split; [done|]); intros y Hy.
  - specialize (Hall y Hy). apply negb_true_iff in Hall.
    by apply String.eqb_neq in Hall.
  - apply negb_true_iff, String.eqb_neq. by apply Hall.
Qed.

Lemma keep_unique_nil (v : list T) (l : list (Packed T)) :
  (forall x, In x v -> exists y, In y l /\ key (value y) = key x) ->
  keep_unique renderer v l = [].
Proof.
  intros Hall. destruct (keep_unique renderer v l) as [|x r] eqn:E; [done|].
  assert (Hx : In x (keep_unique renderer v l)) by (rewrite E; by left).
  apply keep_unique_spec in Hx as [Hx Hno].
  destruct (Hall x Hx) as (y & Hy & Hk). by destruct (Hno y Hy).
Qed.

(** Whatever the outcome, the loop of [appendData] only adds records at
    the tail, for a prefix of the values, in their order. *)
Lemma push_all_data (v : list T) :
  forall st : lstate T,
    exists recs,
      data (snd (push_all fuel renderer n root v st)) = data st ++ recs /\
      arrays (snd (push_all fuel renderer n root v st)) = arrays st /\
      map value recs `prefix_of` v /\
      (fst (push_all fuel renderer n root v st) = Ok tt -> map value recs = v).
Proof.
  induction v as [|item v IH]; intros st; simpl push_all.
  - exists []. by rewrite app_nil_r.
  - destruct (insertAt fuel renderer n item (end_ root) (world st))
      as [o d1] eqn:Hins.
    destruct o as [rg|e| |].
    + set (st1 := MkLState d1 (data st ++ [MkPacked rg item]) (arrays st)).
      assert (E : (rg <- liftD (insertAt fuel renderer n item (end_ root)) ;
                   set_data (fun l => l ++ [MkPacked rg item]) ;;
                   push_all fuel renderer n root v) st =
                  push_all fuel renderer n root v st1).
      { rewrite (bind_Ok _ _ _ _ _ (liftD_Ok _ _ _ _ Hins)).
        by erewrite (bind_Ok (set_data _)) by reflexivity. }
      rewrite E. destruct (IH st1) as (recs & H1 & H2 & H3 & H4).
      exists (MkPacked rg item :: recs). split_and!.
      * rewrite H1. simpl. by rewrite <- app_assoc.
      * by rewrite H2.
      * simpl. by apply prefix_cons.
      * intros Hok. simpl. f_equal. by apply H4.
    + exists []. unfold bind, liftD. rewrite Hins. simpl.
      rewrite app_nil_r. split_and!; try done. apply prefix_nil.
    + exists []. unfold bind, liftD. rewrite Hins. simpl.
      rewrite app_nil_r. split_and!; try done. apply prefix_nil.
    + exists []. unfold bind, liftD. rewrite Hins. simpl.
      rewrite app_nil_r. split_and!; try done. apply prefix_nil.
Qed.

(** With text renderings, in a list whose root end marker is in place,
    the loop completes. *)
Lemma push_all_text (f : nat) (v : list T) :
  fuel = S f ->
  (forall x, In x v -> exists s, primitive_image (render renderer x) = Some s) ->
  forall (st : lstate T) (p : nat) (l1 l2 : list nat) (kp : node_kind),
    kids (world st) p = l1 ++ end_ root :: l2 ->
    NoDup (kids (world st) p) ->
    (forall x, x ∈ kids (world st) p -> parent_of (world st) x = Some p) ->
    kind_of (world st) p = Some kp -> is_container kp = true ->
    fresh_from (world st) ->
    exists d' recs mid,
      push_all fuel renderer n root v st =
        (Ok tt, MkLState d' (data st ++ recs) (arrays st)) /\
      map value recs = v /\
      kids d' p = l1 ++ mid ++ end_ root :: l2 /\
      (forall x, x ∈ mid -> next_id (world st) <= x).
Proof.
  intros -> Hprim. induction v as [|item v IH];
    intros st p l1 l2 kp Hk Hnd Hpar Hkp Hc Hfresh; simpl.
  - exists (world st), [], []. rewrite app_nil_r. split_and!; try done.
    + by destruct st.
    + set_solver.
  - destruct (Hprim item) as [s Hs]; [by left|].
    destruct (insertAt_primitive renderer n f item s (end_ root) p l1 l2 (world st) kp)
      as (d1 & Hins & Q & Hnd1 & Hpar1 & Hkp1 & Hfresh1 & N1 & _); try done.
    rewrite (bind_Ok _ _ _ _ _ (liftD_Ok _ _ _ _ Hins)).
    erewrite (bind_Ok (set_data _)) by reflexivity. simpl.
    set (a := next_id (world st)) in *.
    destruct (IH (fun x Hx => Hprim x (or_intror Hx))
                 (MkLState d1 (data st ++ [MkPacked (MkDynamicRange a (a + 1)) item])
                           (arrays st))
                 p (l1 ++ [a; a + 3; a + 1]) l2 kp)
      as (d' & recs & mid & Hrun & Hval & Hk' & Hmid); simpl; try done.
    { rewrite Q. by list_norm. }
    exists d', (MkPacked (MkDynamicRange a (a + 1)) item :: recs),
           ([a; a + 3; a + 1] ++ mid).
    split_and!.
    + rewrite Hrun. simpl. by rewrite <- app_assoc.
    + simpl. by rewrite Hval.
    + rewrite Hk'. by list_norm.
    + intros x Hx. simpl in Hmid. rewrite N1 in Hmid.
      apply elem_of_app in Hx as [Hx|Hx]; [set_solver by lia|].
      specialize (Hmid x Hx). lia.
Qed.

End Unique.

(** ** The arrays handed out *)

Section Snapshots.
Context {T : Type} `{EqDecision T}.
Variables (fuel : nat) (renderer : ListRenderer T) (n : string) (root : DynamicRange).

(** C10. Reading [data] answers a new array (a location no array had)
    holding the current values; the records, the document and the arrays
    handed out before are as they were; whatever the caller then does to
    that array, the records and the document stay as they were; the array
    a function-valued action is called with is such a new array too. *)
Theorem data_getter_is_a_snapshot (st : lstate T) :
  let loc := length (arrays st) in
  let st1 := snd (get_data st) in
  fst (get_data st) = Ok loc /\
  arrays st !! loc = None /\
  arrays st1 !! loc = Some (map value (data st)) /\
  data st1 = data st /\
  world st1 = world st /\
  (forall l a, arrays st !! l = Some a -> arrays st1 !! l = Some a) /\
  (forall g,
      let st2 := snd (array_update loc g st1) in
      fst (array_update loc g st1) = Ok tt /\
      arrays st2 !! loc = Some (g (map value (data st))) /\
      data st2 = data st /\
      world st2 = world st /\
      map value (data st2) = map value (data st)) /\
  (forall fn,
      processList fuel renderer n root (LFunction fn) st = (Ok [fn (map value (data st))], st1)).
Proof.
  simpl. split_and!; try done.
  - apply lookup_ge_None. lia.
  - rewrite lookup_app_r by lia. by rewrite Nat.sub_diag.
  - intros l a Hl. by apply lookup_app_l_Some.
  - intros g. unfold array_update, modify. simpl.
    rewrite lookup_app_r by lia. rewrite Nat.sub_diag. simpl.
    split_and!; try done.
    rewrite list_lookup_insert_eq; [done|]. rewrite length_app. simpl. lia.
  - intros fn. unfold processList, bind, get_data, get, ret. simpl.
    rewrite lookup_app_r by lia. by rewrite Nat.sub_diag.
Qed.

(** [eval] applies none of the actions it is given. *)
Lemma eval_applies_nothing (f : nat) (rest : list (ListAction T)) (st : lstate T) :
  fuel = S f -> eval fuel renderer n root rest st = (Ok tt, st).
Proof. intros Hf. destruct st. unfold eval. by rewrite Hf. Qed.
End Snapshots.

Example abc_is_rendered : mounted [item_A; item_B; item_C] = (Ok todo_root, abc_state).
Proof. vm_compute. reflexivity. Qed.

Example ab_is_rendered : mounted [item_A; item_B] = (Ok todo_root, ab_state).
Proof. vm_compute. reflexivity. Qed.

(** ** The theorems at the todo list *)

Lemma in_place_of_root (d : dom) (p : nat) (xs : list nat) :
  parent_of d p = None ->
  Forall (fun x => kind_of d x <> Some DocumentFragment /\ x <> p) xs ->
  forall x, x ∈ xs -> kind_of d x <> Some DocumentFragment /\ ~ above d p x.
Proof.
  intros Hp Hall x Hx. rewrite Forall_forall in Hall.
  destruct (Hall x Hx) as [Hk Hne]. split; [done|].
  intros Ha. by apply above_root in Ha.
Qed.

Lemma assign_rotation_keeps_spans_witness :
  exists d',
    assign 1 todo_renderer todo_name todo_root [item_C; item_A; item_B] abc_state
    = (Ok tt, MkLState d' [rec_C; rec_A; rec_B] []) /\
    kids d' 0 = [1] ++ [12; 15; 13] ++ [4; 7; 5] ++ [8; 11; 9] ++ [2] /\
    (forall x, kind_of d' x = Some Comment <-> kind_of abc_dom x = Some Comment) /\
    (forall x, parent_of d' x = parent_of abc_dom x) /\
    next_id d' = 17 /\
    kind_of d' 16 = Some DocumentFragment.
Proof.
  apply (assign_rotation_keeps_spans 1 todo_renderer todo_name todo_root
           item_A item_B item_C
           (MkDynamicRange 4 5) (MkDynamicRange 8 9) (MkDynamicRange 12 13)
           0 [1] [7] [11] [15] [2] abc_dom [] Element).
  - discriminate.
  - discriminate.
  - reflexivity.
  - decide_it.
  - apply Forall_forall. decide_it.
  - reflexivity.
  - reflexivity.
  - apply in_place_of_root; [reflexivity|]. decide_it.
  - reflexivity.
Defined.

Lemma ab_dom_in_place :
  NoDup (kids ab_dom 0) /\
  (forall x, x ∈ kids ab_dom 0 -> parent_of ab_dom x = Some 0) /\
  fresh_from ab_dom.
Proof.
  split_and!.
  - decide_it.
  - apply Forall_forall. decide_it.
  - apply ids_below_fresh. reflexivity.
Defined.


Lemma primitive_replaces_content_witness :
  (exists d',
      mutate 1 0 (VNumber "42") demo_dom = (Ok tt, d') /\
      kids d' 0 = [5] /\
      (forall x, x ∈ [1; 2; 3; 4] -> parent_of d' x = None) /\
      ("42" <> "" -> kind_of d' 5 = Some Text /\ chardata_of d' 5 = Some "42" /\
                     parent_of d' 5 = Some 0)) /\
  (exists d',
      mutateRange 1 demo_span (VNumber "42") demo_dom = (Ok tt, d') /\
      attached d' demo_span 0 [] [5] [] /\
      Span.childNodes demo_span d' = Ok [5] /\
      kind_of d' 5 = Some Text /\
      chardata_of d' 5 = Some "42" /\
      (forall x, x ∈ [2; 3] -> parent_of d' x = None)).
Proof.
  assert (Hun : unused demo_dom (next_id demo_dom))
    by (apply ids_below_unused; [reflexivity|simpl; lia]).
  destruct (primitive_replaces_content 0 (VNumber "42") "42" demo_dom eq_refl Hun)
    as (_ & H2 & _ & H4).
  split.
  - apply (H2 0 Element); try reflexivity.
    + decide_it.
    + apply Forall_forall. decide_it.
  - apply (H4 demo_span 0 [] [2; 3] [] Element); try reflexivity.
    split; [reflexivity|decide_it|apply Forall_forall; decide_it].
Defined.

(** The same calls, evaluated. *)
Example appendUnique_A_C :
  let st := snd (appendUnique 1 todo_renderer todo_name todo_root [item_A; item_C] ab_state) in
  map value (data st) = [item_A; item_B; item_C] /\
  Span.childNodes todo_root (world st) = Ok [4; 7; 5; 8; 11; 9; 12; 15; 13].
Proof. vm_compute. split; reflexivity. Qed.

Example appendUnique_A_B_is_noop :
  appendUnique 1 todo_renderer todo_name todo_root [item_A'; item_B] ab_state = (Ok tt, ab_state).
Proof. reflexivity. Qed.

Example assign_with_a_repeated_key :
  let st := snd (assign 1 todo_renderer todo_name todo_root [item_A; item_A'] ab_state) in
  map value (data st) = [item_A; item_A'] /\
  map range (data st) = [MkDynamicRange 4 5; MkDynamicRange 12 13].
Proof. vm_compute. split; reflexivity. Qed.

(** ** delete and replace of a span in place *)

Lemma attached_markers (d : dom) (r : DynamicRange) (p : nat)
      (pre content post : list nat) :
  attached d r p pre content post ->
  parent_of d (start r) = Some p /\ parent_of d (end_ r) = Some p /\
  start r <> end_ r /\ (start r ∉ pre) /\ (end_ r ∉ pre) /\
  (start r ∉ content) /\ (end_ r ∉ content) /\ (start r ∉ post) /\ (end_ r ∉ post) /\
  NoDup pre /\ NoDup content /\ NoDup post /\
  (forall x, x ∈ pre -> (x ∉ content) /\ (x ∉ post)) /\
  (forall x, x ∈ content -> x ∉ post).
Proof.
  intros [Hk Hnd Hpar]. rewrite Hk in Hnd.
  apply NoDup_app in Hnd as (Hn0 & Hn1 & Hn2).
  apply NoDup_cons in Hn2 as (Hs & Hn2).
  apply NoDup_app in Hn2 as (Hc & Hn3 & Hn4).
  apply NoDup_cons in Hn4 as (He & Hpost).
  split_and!; try done; try (apply Hpar; rewrite Hk; set_solver).
  - intros Heq. apply Hs. rewrite Heq. set_solver.
  - intros Hin. apply (Hn1 _ Hin). set_solver.
  - intros Hin. apply (Hn1 _ Hin). set_solver.
  - set_solver.
  - intros Hin. apply (Hn3 _ Hin). set_solver.
  - set_solver.
  - intros x Hx. split; intros Hx'; apply (Hn1 _ Hx); set_solver.
  - intros x Hx Hx'. apply (Hn3 _ Hx). set_solver.
Qed.

Lemma delete_in_place (d : dom) (r : DynamicRange) (p : nat)
      (pre content post : list nat) :
  attached d r p pre content post ->
  exists d',
    Span.delete r d = (Ok tt, d') /\
    kids d' p = pre ++ post /\
    (forall q, q <> p -> kids d' q = kids d q) /\
    (forall x, parent_of d' x =
               if decide (x ∈ span_nodes r content) then None else parent_of d x) /\
    moved d d'.
Proof.
  intros Hatt.
  destruct (attached_markers _ _ _ _ _ _ Hatt)
    as (Hps & Hpe & Hse & Hs1 & He1 & Hs2 & He2 & Hs3 & He3 & _).
  destruct (deleteContents_in_place d r p pre content post Hatt)
    as (d1 & Hdel & Hatt1 & Hq1 & Hp1 & Hmv1).
  pose proof Hatt1 as [Hk1 Hnd1 Hpar1].
  destruct (remove_run p [start r; end_ r] d1 pre post)
    as (d' & Hrun & Hk' & Hq' & Hp' & Hmv'); try done.
  { intros x Hx. apply Hpar1. rewrite Hk1. set_solver. }
  exists d'. split_and!.
  - unfold Span.delete, bind at 1, get, Span.parentNode. rewrite Hps.
    unfold empty_range in Hdel.
    rewrite <- (bind_assoc (Span.static r) Range_deleteContents).
    rewrite (bind_Ok _ _ _ _ _ Hdel).
    assert (Hps1 : parent_of d1 (start r) = Some p) by (apply Hpar1; rewrite Hk1; set_solver).
    rewrite (bind_Ok _ _ _ _ _ (Node_removeChild_ok p (start r) d1 Hps1)).
    assert (Hpe1 : parent_of (remove_node (start r) d1) (end_ r) = Some p).
    { rewrite parent_of_remove_node, decide_False by done.
      apply Hpar1. rewrite Hk1. set_solver. }
    rewrite (bind_Ok _ _ _ _ _ (Node_removeChild_ok p (end_ r) _ Hpe1)).
    simpl in Hrun. unfold bind, modify, ret in Hrun. by injection Hrun as <-.
  - done.
  - intros q Hq. by rewrite Hq', Hq1.
  - intros x. rewrite Hp', Hp1. unfold span_nodes.
    repeat case_decide; try done; set_solver.
  - by apply (moved_trans _ d1).
Qed.

(** A span whose start marker hangs nowhere: [firstChild] is null and
    [childNodes] dereferences null. *)
Lemma getters_of_parentless_span (d : dom) (r : DynamicRange) :
  parent_of d (start r) = None ->
  Span.firstChild r d = None /\ Span.childNodes r d = Throw TypeError.
Proof.
  intros Hp. unfold Span.firstChild, Span.childNodes.
  cbn [Span.childNodes_loop]. unfold nextSibling. by rewrite Hp.
Qed.

(** Unlinking nodes does not create ancestors. *)
Lemma ancestors_after_unlink (d d' : dom) (a : nat) :
  (forall x, parent_of d' x = parent_of d x \/ parent_of d' x = None) ->
  forall fuel n, inclusive_ancestor_fuel fuel d' a n = true -> above d n a.
Proof.
  intros Hp fuel. induction fuel as [|f IH]; intros n; simpl.
  - rewrite orb_false_r. intros ->%Nat.eqb_eq. apply above_self.
  - intros [->%Nat.eqb_eq|H]%orb_true_iff; [apply above_self|].
    destruct (parent_of d' n) as [q|] eqn:Hq; [|done].
    destruct (Hp n) as [Hsame|Hnone]; [|congruence].
    apply (above_parent d n q a); [congruence|by apply IH].
Qed.

Lemma replace_in_place (d : dom) (r : DynamicRange) (p n : nat)
      (pre content post : list nat) (kp : node_kind) :
  attached d r p pre content post ->
  kind_of d p = Some kp -> is_container kp = true ->
  loose d p n ->
  exists d',
    Span.replace r n d = (Ok tt, d') /\
    kids d' p = pre ++ n :: post /\
    (forall q, q <> p -> kids d' q = kids d q) /\
    (forall x, parent_of d' x =
               if decide (x = n) then Some p
               else if decide (x ∈ span_nodes r content) then None else parent_of d x) /\
    moved d d'.
Proof.
  intros Hatt Hkp Hc ((k & Hkn & Hnf) & Hpn & Hab).
  destruct (attached_markers _ _ _ _ _ _ Hatt)
    as (Hps & Hpe & Hse & Hs1 & He1 & Hs2 & He2 & Hs3 & He3 & Hnpre & _ & Hnpost & Hdis & _).
  pose proof Hatt as [Hk Hnd Hpar].
  assert (Hnk : n ∉ kids d p) by (intros Hin; apply Hpar in Hin; congruence).
  destruct (deleteContents_in_place d r p pre content post Hatt)
    as (d1 & Hdel & Hatt1 & Hq1 & Hp1 & Hmv1).
  pose proof Hatt1 as [Hk1 Hnd1 Hpar1].
  destruct (remove_run p [start r] d1 pre (end_ r :: post))
    as (d2 & Hrun2 & Hk2 & Hq2 & Hp2 & Hmv2); try done.
  { intros x Hx. apply Hpar1. rewrite Hk1. set_solver. }
  simpl in Hrun2. unfold bind, modify, ret in Hrun2. injection Hrun2 as Hd2.
  assert (Hnd2 : NoDup (kids d2 p)).
  { rewrite Hk2. rewrite Hk1 in Hnd1. apply NoDup_app in Hnd1 as (H1 & H2 & H3).
    apply NoDup_cons in H3 as (_ & H3). apply NoDup_app. split_and!; try done.
    intros x Hx Hx'. apply (H2 x Hx). set_solver. }
  assert (Hpe2 : parent_of d2 (end_ r) = Some p).
  { rewrite Hp2, decide_False by set_solver. apply Hpar1. rewrite Hk1. set_solver. }
  destruct (remove_run p [end_ r] d2 pre post)
    as (d3 & Hrun3 & Hk3 & Hq3 & Hp3 & Hmv3); try done.
  { intros x Hx. by apply list_elem_of_singleton in Hx as ->. }
  simpl in Hrun3. unfold bind, modify, ret in Hrun3. injection Hrun3 as Hd3.
  assert (Hmv12 : moved d d2) by (by apply (moved_trans _ d1)).
  assert (Hmv13 : moved d d3) by (by apply (moved_trans _ d2)).
  assert (Hpar2 : forall x, parent_of d2 x = parent_of d x \/ parent_of d2 x = None).
  { intros x. rewrite Hp2, Hp1. repeat case_decide; auto. }
  assert (Hanc : inclusive_ancestor d2 n p = false).
  { destruct (inclusive_ancestor d2 n p) eqn:Ha; [|done].
    exfalso. apply Hab. by apply (ancestors_after_unlink d d2 n Hpar2 _ p Ha). }
  assert (Hkp2 : kind_of d2 p = Some kp) by (destruct Hmv12 as [Mk _ _ _ _]; by rewrite Mk).
  assert (Hkn2 : kind_of d2 n = Some k) by (destruct Hmv12 as [Mk _ _ _ _]; by rewrite Mk).
  assert (Hkp3 : kind_of d3 p = Some kp) by (destruct Hmv13 as [Mk _ _ _ _]; by rewrite Mk).
  assert (Hkn3 : kind_of d3 n = Some k) by (destruct Hmv13 as [Mk _ _ _ _]; by rewrite Mk).
  assert (Hpn3 : parent_of d3 n = None).
  { rewrite Hp3, Hp2, Hp1. repeat case_decide; done. }
  assert (Hnext : nextSibling d2 (end_ r) = head post).
  { apply (nextSibling_at d2 p (end_ r) pre post); done. }
  assert (Hnpostn : head post <> Some n).
  { intros Hh. apply Hnk. rewrite Hk. destruct post as [|c post']; [done|].
    injection Hh as ->. set_solver. }
  set (d4 := link_before p (head post) n d3).
  assert (Hk4 : kids d4 p = pre ++ n :: post).
  { unfold d4. rewrite kids_link_before by eauto. rewrite decide_True by done.
    rewrite kids_remove_node, Hpn3, decide_False by done. rewrite Hk3.
    destruct post as [|c post']; simpl.
    - by rewrite app_nil_r, list_ins_end.
    - apply list_ins_app. intros Hin. destruct (Hdis c Hin) as [_ Hc2]. set_solver. }
  exists d4. split_and!.
  - unfold Span.replace, bind at 1, get, Span.parentNode. rewrite Hps.
    unfold empty_range in Hdel.
    rewrite <- (bind_assoc (Span.static r) Range_deleteContents).
    rewrite (bind_Ok _ _ _ _ _ Hdel).
    assert (Hps1 : parent_of d1 (start r) = Some p) by (apply Hpar1; rewrite Hk1; set_solver).
    rewrite (bind_Ok _ _ _ _ _ (Node_removeChild_ok p (start r) d1 Hps1)).
    rewrite Hd2. unfold Node_replaceChild.
    assert (Hcheck : pre_insert_check p n (Some (end_ r)) d2 = (Ok tt, d2)).
    { apply (pre_insert_check_ok p n (Some (end_ r)) d2 kp); try done;
        first [by eexists|by intros c [= <-]]. }
    rewrite (bind_Ok _ _ _ _ _ Hcheck).
    unfold bind at 1, get. rewrite Hnext.
    rewrite (opt_eqb_neq (head post) (Some n)) by done.
    unfold bind, modify. rewrite Hd3. unfold dom_insert. rewrite Hkn3.
    by destruct k.
  - done.
  - intros q Hq. unfold d4. rewrite kids_link_before by eauto.
    rewrite decide_False by done. rewrite kids_remove_node, Hpn3.
    rewrite decide_False by done. by rewrite Hq3, Hq2, Hq1.
  - intros x. unfold d4. rewrite parent_of_link_before by eauto.
    case_decide; [done|]. rewrite Hp3, Hp2, Hp1. unfold span_nodes.
    repeat case_decide; try done; set_solver.
  - apply (moved_trans _ d3); [done|apply moved_link_before].
Qed.

(** ** Moving the children of a fragment to any place *)

Lemma list_ins_at (n : nat) (l1 l2 : list nat) :
  (forall c, head l2 = Some c -> c ∉ l1) ->
  list_ins n (head l2) (l1 ++ l2) = l1 ++ n :: l2.
Proof.
  intros Hc. destruct l2 as [|c l2]; simpl.
  - by rewrite app_nil_r, list_ins_end.
  - apply list_ins_app. by apply Hc.
Qed.

(** As [move_children_before], for a reference that may be null: the
    children [xs] of [f] are put in front of [l2], the part of the child
    list of [p] that starts with the reference. *)
Lemma move_children (p f : nat) (xs : list nat) :
  forall (d : dom) (l1 l2 : list nat),
    p <> f ->
    is_Some (kind_of d p) ->
    kids d p = l1 ++ l2 ->
    (forall c, head l2 = Some c -> c ∉ l1) ->
    kids d f = xs -> NoDup xs ->
    (forall x, x ∈ xs -> parent_of d x = Some f /\ head l2 <> Some x) ->
    let d' := fold_left (fun d' c => link_before p (head l2) c d') xs d in
    kids d' p = l1 ++ xs ++ l2 /\
    kids d' f = [] /\
    (forall q, q <> p -> q <> f -> kids d' q = kids d q) /\
    (forall x, parent_of d' x = if decide (x ∈ xs) then Some p else parent_of d x) /\
    moved d d'.
Proof.
  induction xs as [|x xs IH]; intros d l1 l2 Hpf Hkp Hk Href Hkf Hnd Hpar; simpl.
  - split_and!; try done.
    all: intros x; case_decide; [set_solver|done].
  - destruct (Hpar x) as [Hx Hxref]; [set_solver|].
    apply NoDup_cons in Hnd as [HxS Hnd].
    set (d2 := link_before p (head l2) x d).
    assert (Hk2 : kids d2 p = (l1 ++ [x]) ++ l2).
    { unfold d2. rewrite kids_link_before by done. rewrite decide_True by done.
      rewrite kids_remove_node, decide_False by congruence.
      rewrite Hk, list_ins_at by done. by rewrite <- app_assoc. }
    assert (Hf2 : kids d2 f = xs).
    { unfold d2. rewrite kids_link_before by done.
      rewrite decide_False by congruence.
      rewrite kids_remove_node, decide_True by done.
      rewrite Hkf. simpl. by rewrite Nat.eqb_refl. }
    assert (Hp2 : forall y, parent_of d2 y = if decide (y = x) then Some p else parent_of d y).
    { intros y. unfold d2. apply parent_of_link_before. by eapply parent_of_kind. }
    destruct (IH d2 (l1 ++ [x]) l2) as (H1 & H2 & H3 & H4 & H5); try done.
    + unfold d2. by rewrite kind_of_link_before.
    + intros c Hc. apply not_elem_of_app. split; [by apply Href|].
      intros ->%list_elem_of_singleton. congruence.
    + intros y Hy. rewrite Hp2. rewrite decide_False by set_solver.
      apply Hpar. set_solver.
    + split_and!.
      * rewrite H1. by rewrite <- app_assoc.
      * exact H2.
      * intros q Hq Hqf. rewrite (H3 q Hq Hqf). unfold d2.
        rewrite kids_link_before by done. rewrite decide_False by done.
        rewrite kids_remove_node, decide_False; [done|]. rewrite Hx. congruence.
      * intros y. rewrite H4, Hp2.
        repeat case_decide; try done; set_solver.
      * apply (moved_trans _ d2); [apply moved_link_before|done].
Qed.

(** [p.insertBefore(f, ref)] for a fragment [f] whose children hang
    nowhere else, [ref] being null or a child of [p]. *)
Lemma insert_fragment (p f : nat) (xs l1 l2 : list nat) (d : dom) (kp : node_kind) :
  kind_of d p = Some kp -> is_container kp = true ->
  kind_of d f = Some DocumentFragment ->
  parent_of d f = None ->
  inclusive_ancestor d f p = false ->
  kids d p = l1 ++ l2 ->
  NoDup (kids d p) ->
  (forall x, x ∈ kids d p -> parent_of d x = Some p) ->
  kids d f = xs -> NoDup xs ->
  (forall x, x ∈ xs -> parent_of d x = Some f) ->
  exists d',
    Node_insertBefore p f (head l2) d = (Ok tt, d') /\
    kids d' p = l1 ++ xs ++ l2 /\
    kids d' f = [] /\
    (forall q, q <> p -> q <> f -> kids d' q = kids d q) /\
    (forall x, parent_of d' x = if decide (x ∈ xs) then Some p else parent_of d x) /\
    moved d d'.
Proof.
  intros Hkp Hc Hkf Hpfn Hanc Hk Hnd Hpar Hxs Hndx Hparx.
  assert (Hpf : p <> f).
  { intros ->. unfold inclusive_ancestor in Hanc.
    destruct (size (nodes d)); simpl in Hanc; by rewrite Nat.eqb_refl in Hanc. }
  assert (Hhead : forall c, head l2 = Some c -> c ∈ kids d p /\ c ∉ l1).
  { intros c Hh. destruct l2 as [|c' l2]; [done|]. injection Hh as ->.
    split; [rewrite Hk; set_solver|].
    rewrite Hk in Hnd. apply NoDup_app in Hnd as (_ & Hn & _).
    intros Hin. apply (Hn _ Hin). set_solver. }
  destruct (move_children p f xs d l1 l2) as (H1 & H2 & H3 & H4 & H5);
    try done; eauto.
  { intros c Hh. by apply Hhead. }
  { intros x Hx. split; [by apply Hparx|]. intros Hh.
    destruct (Hhead x Hh) as [Hin _]. apply Hpar in Hin.
    rewrite (Hparx x Hx) in Hin. congruence. }
  eexists. split_and!; try done.
  rewrite (Node_insertBefore_fragment p f (head l2) d kp); try done.
  - by rewrite Hxs.
  - intros c Hh. apply Hpar. by apply Hhead.
  - intros Hh. destruct (Hhead f Hh) as [Hin _]. apply Hpar in Hin. congruence.
Qed.

(** ** The Span: what its methods do to a span in place *)

(** X1 (range.ts, delete).  [delete()] on a span in place unlinks the two
    markers and everything between them and leaves the other children of
    the parent in their order; nothing else changes.  Afterwards the span
    has no parent: a second [delete()] changes nothing, [firstChild] is
    null and [childNodes] throws a TypeError. *)
Theorem delete_unlinks_the_whole_span (d : dom) (r : DynamicRange) (p : nat)
        (pre content post : list nat) :
  attached d r p pre content post ->
  exists d',
    Span.delete r d = (Ok tt, d') /\
    kids d' p = pre ++ post /\
    (forall q, q <> p -> kids d' q = kids d q) /\
    (forall x, parent_of d' x =
               if decide (x ∈ span_nodes r content) then None else parent_of d x) /\
    moved d d' /\
    Span.delete r d' = (Ok tt, d') /\
    Span.firstChild r d' = None /\
    Span.childNodes r d' = Throw TypeError.
Proof.
  intros Hatt.
  destruct (delete_in_place d r p pre content post Hatt) as (d' & Hdel & Hk & Hq & Hp & Hmv).
  assert (Hs : parent_of d' (start r) = None).
  { rewrite Hp, decide_True; [done|]. unfold span_nodes. set_solver. }
  exists d'. split_and!; try done.
  - unfold Span.delete, bind, get, Span.parentNode. by rewrite Hs.
  - by apply getters_of_parentless_span.
  - by apply getters_of_parentless_span.
Qed.

(** X2 (range.ts, replace).  [replace(node)] on a span in place, for a node
    that hangs nowhere: the node takes the place of the span among the
    children of the parent, the markers and the content are unlinked, and
    nothing else changes. *)
Theorem replace_puts_the_node_in_place_of_the_span
        (d : dom) (r : DynamicRange) (p n : nat)
        (pre content post : list nat) (kp : node_kind) :
  attached d r p pre content post ->
  kind_of d p = Some kp -> is_container kp = true ->
  loose d p n ->
  exists d',
    Span.replace r n d = (Ok tt, d') /\
    kids d' p = pre ++ n :: post /\
    (forall q, q <> p -> kids d' q = kids d q) /\
    (forall x, parent_of d' x =
               if decide (x = n) then Some p
               else if decide (x ∈ span_nodes r content) then None else parent_of d x) /\
    moved d d' /\
    Span.parentNode r d' = None.
Proof.
  intros Hatt Hkp Hc Hn.
  destruct (replace_in_place d r p n pre content post kp Hatt Hkp Hc Hn)
    as (d' & Hrep & Hk & Hq & Hp & Hmv).
  exists d'. split_and!; try done.
  unfold Span.parentNode. rewrite Hp.
  assert (Hns : n <> start r).
  { intros ->. destruct Hn as (_ & Hpn & _).
    destruct (attached_markers _ _ _ _ _ _ Hatt) as (Hps & _). congruence. }
  rewrite decide_False by done. rewrite decide_True; [done|].
  unfold span_nodes. set_solver.
Qed.

(** X3 (range.ts, detach).  [detach()] on a span in place makes one new
    fragment and moves the start marker, the content and the end marker
    into it, in this order: the span is in place in the fragment with the
    same content, and the parent keeps its other children. *)
Theorem detach_carries_the_span_into_a_new_fragment
        (d : dom) (r : DynamicRange) (p : nat) (pre content post : list nat) :
  attached d r p pre content post ->
  (forall x, x ∈ span_nodes r content -> kind_of d x <> Some DocumentFragment) ->
  unused d (next_id d) ->
  exists d',
    Span.detach r d = (Ok (next_id d), d') /\
    kind_of d' (next_id d) = Some DocumentFragment /\
    parent_of d' (next_id d) = None /\
    attached d' r (next_id d) [] content [] /\
    Span.childNodes r d' = Ok content /\
    kids d' p = pre ++ post /\
    (forall q, q <> p -> q <> next_id d -> kids d' q = kids d q) /\
    (forall x, x ∉ span_nodes r content -> parent_of d' x = parent_of d x) /\
    next_id d' = S (next_id d).
Proof.
  intros Hatt Hnf Hun.
  destruct (detach_spec r p pre content post d Hatt Hnf Hun)
    as (d' & Hdet & H1 & H2 & H3 & H4 & H5 & H6 & H7 & H8).
  destruct (attached_markers _ _ _ _ _ _ Hatt)
    as (Hps & Hpe & Hse & Hs1 & He1 & Hs2 & He2 & Hs3 & He3 & Hnpre & Hnc & Hnpost & Hdis & _).
  assert (Hfs : next_id d ∉ span_nodes r content).
  { intros Hin. destruct Hun as [Hfree _].
    assert (Hin' : next_id d ∈ kids d p).
    { destruct Hatt as [Hk _ _]. rewrite Hk. unfold span_nodes in Hin. set_solver. }
    destruct Hatt as [_ _ Hpar]. apply Hpar in Hin'.
    unfold parent_of in Hin'. by rewrite Hfree in Hin'. }
  assert (Hatt' : attached d' r (next_id d) [] content []).
  { split.
    - rewrite H2. unfold span_nodes. done.
    - rewrite H2. unfold span_nodes. apply NoDup_cons. split; [set_solver|].
      apply NoDup_app. split_and!; [done| |apply NoDup_singleton].
      intros x Hx ->%list_elem_of_singleton. done.
    - intros x Hx. rewrite H2 in Hx. rewrite H4. by rewrite decide_True. }
  exists d'. split_and!; try done.
  - rewrite H5. by rewrite decide_True.
  - rewrite H4. rewrite decide_False by done. destruct Hun as [Hfree _].
    unfold parent_of. by rewrite Hfree.
  - by apply (childNodes_between d' r (next_id d) [] content []).
  - intros x Hx. rewrite H4. by rewrite decide_False.
Qed.

(** X4 (range.ts, detach).  A round trip: detaching a span in place and
    inserting the fragment back before the node that followed the span (or
    at the end, when none did) restores the child list of the parent and
    every parent pointer. *)
Theorem detach_then_insert_back_restores_the_children
        (d : dom) (r : DynamicRange) (p : nat) (pre content post : list nat)
        (kp : node_kind) :
  attached d r p pre content post ->
  kind_of d p = Some kp -> is_container kp = true ->
  (forall x, x ∈ span_nodes r content ->
             kind_of d x <> Some DocumentFragment /\ ~ above d p x) ->
  unused d (next_id d) ->
  exists d',
    (cached <- Span.detach r ; Node_insertBefore p cached (head post)) d = (Ok tt, d') /\
    kids d' p = kids d p /\
    attached d' r p pre content post /\
    (forall q, q <> next_id d -> kids d' q = kids d q) /\
    (forall x, parent_of d' x = parent_of d x) /\
    kids d' (next_id d) = [].
Proof.
  intros Hatt Hkp Hc Hspan Hun.
  pose proof Hatt as [Hk Hnd Hpar].
  destruct (detach_spec r p pre content post d)
    as (d1 & Hdet & H1 & H2 & H3 & H4 & H5 & H6 & H7 & H8); try done.
  { intros x Hx. by apply Hspan. }
  set (f := next_id d) in *.
  destruct (attached_markers _ _ _ _ _ _ Hatt)
    as (Hps & Hpe & Hse & Hs1 & He1 & Hs2 & He2 & Hs3 & He3 & Hnpre & Hnc & Hnpost & Hdis & Hdis2).
  assert (Hfp : f <> p).
  { intros Heq. destruct Hun as [Hfree _]. fold f in Hfree.
    unfold kids in Hk. rewrite <- Heq, Hfree in Hk. by destruct pre. }
  assert (Hinspan : forall x, x ∈ span_nodes r content -> x ∈ kids d p).
  { intros x Hx. rewrite Hk. unfold span_nodes in Hx. set_solver. }
  assert (Hndspan : NoDup (span_nodes r content)).
  { unfold span_nodes. apply NoDup_cons. split; [set_solver|].
    apply NoDup_app. split_and!; [done| |apply NoDup_singleton].
    intros x Hx ->%list_elem_of_singleton. done. }
  assert (Hout : forall x, x ∈ pre ++ post -> x ∉ span_nodes r content).
  { intros x Hx Hx'. unfold span_nodes in Hx'.
    apply elem_of_app in Hx as [Hx|Hx].
    - destruct (Hdis x Hx) as [Hd1 Hd2]. set_solver.
    - apply elem_of_cons in Hx' as [->|Hx']; [done|].
      apply elem_of_app in Hx' as [Hx'|Hx']; [by apply (Hdis2 x Hx')|].
      apply list_elem_of_singleton in Hx' as ->. done. }
  destruct (insert_fragment p f (span_nodes r content) pre post d1 kp)
    as (d2 & Hins & I1 & I2 & I3 & I4 & I5); try done.
  - rewrite H5. by rewrite decide_False.
  - rewrite H5. by rewrite decide_True.
  - rewrite H4. rewrite decide_False.
    + destruct Hun as [Hfree _]. unfold parent_of. by rewrite Hfree.
    + intros Hin. apply Hinspan, Hpar in Hin. destruct Hun as [Hfree _].
      unfold parent_of in Hin. fold f in Hfree. by rewrite Hfree in Hin.
  - unfold inclusive_ancestor. apply (not_above_frame d d1).
    + intros x Hx. rewrite H4. rewrite decide_False; [done|].
      intros Hin. by apply (Hspan x Hin).
    + intros Ha. apply above_childless in Ha; [done|]. by destruct Hun.
  - rewrite H1. rewrite Hk in Hnd.
    apply NoDup_app in Hnd as (Hn0 & Hn1 & Hn2).
    apply NoDup_app. split_and!; try done.
    intros x Hx Hx'. apply (Hn1 x Hx). set_solver.
  - intros x Hx. rewrite H1 in Hx. rewrite H4, decide_False by (by apply Hout).
    apply Hpar. rewrite Hk. set_solver.
  - intros x Hx. rewrite H4. by rewrite decide_True.
  - assert (Hk2 : kids d2 p = kids d p).
    { rewrite I1, Hk. unfold span_nodes. by list_norm. }
    assert (Hp2 : forall x, parent_of d2 x = parent_of d x).
    { intros x. rewrite I4, H4. case_decide; [|done].
      symmetry. apply Hpar. by apply Hinspan. }
    exists d2. split_and!.
    + unfold bind. by rewrite Hdet.
    + done.
    + split; [by rewrite Hk2|by rewrite Hk2|].
      intros x Hx. rewrite Hk2 in Hx. rewrite Hp2. by apply Hpar.
    + intros q Hq. destruct (decide (q = p)) as [->|Hqp]; [done|].
      by rewrite I3, H3.
    + done.
    + done.
Qed.

(** X5 (range.ts, insertBefore).  On a span in place, a node that hangs
    nowhere is inserted right before the reference child when the
    reference is a node of the content, and after the content, as
    [appendChild] does, when the reference is null. *)
Theorem insertBefore_places_the_node_in_the_content
        (d : dom) (r : DynamicRange) (p x : nat)
        (pre content post : list nat) (kp : node_kind) :
  attached d r p pre content post ->
  kind_of d p = Some kp -> is_container kp = true ->
  loose d p x ->
  (forall c1 c c2,
      content = c1 ++ c :: c2 ->
      exists d',
        Span.insertBefore r x (Some c) d = (Ok tt, d') /\
        attached d' r p pre (c1 ++ x :: c :: c2) post /\
        moved d d') /\
  (exists d',
      Span.insertBefore r x None d = (Ok tt, d') /\
      Span.appendChild r x d = (Ok tt, d') /\
      attached d' r p pre (content ++ [x]) post /\
      moved d d').
Proof.
  intros Hatt Hkp Hc Hx. pose proof Hatt as [Hk Hnd Hpar].
  assert (Hps : Span.parentNode r d = Some p).
  { unfold Span.parentNode. apply Hpar. rewrite Hk. set_solver. }
  split.
  - intros c1 c c2 ->.
    assert (Hcp : parent_of d c = Some p) by (apply Hpar; rewrite Hk; set_solver).
    destruct (insert_loose_before p x c (pre ++ start r :: c1) (c2 ++ end_ r :: post) d kp)
      as (d' & Hins & Hk' & Hnd' & Hpar' & Hmv); try done.
    { rewrite Hk. by list_norm. }
    exists d'. split_and!; [|split; try done; rewrite Hk'; by list_norm|done].
    unfold Span.insertBefore, bind at 1, get. rewrite Hps, Hcp, opt_eqb_refl.
    rewrite (bind_Ok _ _ _ _ _ (static_in_place d r p pre _ post Hatt)).
    unfold bind at 1, Range_intersectsNode. simpl container.
    rewrite Hcp, opt_eqb_refl.
    rewrite (index_of_content d r p pre c1 c2 post c Hatt). simpl.
    rewrite length_app. simpl.
    destruct (Nat.ltb_spec (S (length pre + length c1))
                           (S (length pre + (length c1 + S (length c2))))); [|lia].
    destruct (Nat.ltb_spec (S (length pre)) (S (S (length pre + length c1)))); [|lia].
    done.
  - destruct (insert_loose_before p x (end_ r) (pre ++ start r :: content) post d kp)
      as (d' & Hins & Hk' & Hnd' & Hpar' & Hmv); try done.
    { rewrite Hk. by list_norm. }
    exists d'. split_and!; try done.
    + unfold Span.insertBefore, bind, get. by rewrite Hps.
    + unfold Span.appendChild, bind, get. by rewrite Hps.
    + split; try done. rewrite Hk'. by list_norm.
Qed.

(** X6 (range.ts, insertBefore).  A reference child that is not a node of
    the content is ignored without an error: whether it is one of the two
    markers, a sibling outside the span or a node of another parent,
    [insertBefore] changes nothing. *)
Theorem insertBefore_ignores_a_reference_outside_the_content
        (d : dom) (r : DynamicRange) (p x c : nat) (pre content post : list nat) :
  attached d r p pre content post ->
  c ∉ content ->
  (parent_of d c = Some p -> c ∈ kids d p) ->
  Span.insertBefore r x (Some c) d = (Ok tt, d).
Proof.
  intros Hatt Hc Hwf. pose proof Hatt as [Hk Hnd Hpar].
  destruct (attached_markers _ _ _ _ _ _ Hatt)
    as (Hps & Hpe & Hse & Hs1 & He1 & Hs2 & He2 & Hs3 & He3 & Hnpre & Hnc & Hnpost & Hdis & Hdis2).
  unfold Span.insertBefore, bind at 1, get, Span.parentNode. rewrite Hps.
  destruct (opt_eqb (parent_of d c) (Some p)) eqn:Hcp; [|done].
  apply opt_eqb_eq in Hcp.
  rewrite (bind_Ok _ _ _ _ _ (static_in_place d r p pre _ post Hatt)).
  unfold bind at 1, Range_intersectsNode. simpl container.
  rewrite Hcp, opt_eqb_refl.
  assert (Hidx : exists i, index_of c (kids d p) = Some i /\
                           (i <= length pre \/ S (length pre + length content) <= i)).
  { specialize (Hwf Hcp). rewrite Hk in Hwf |- *.
    apply elem_of_app in Hwf as [Hin|Hin].
    - apply list_elem_of_split in Hin as (a & b & ->).
      exists (length a). split; [|left; rewrite length_app; lia].
      rewrite <- app_assoc. simpl. apply index_of_app.
      apply NoDup_app in Hnpre as (_ & Hn & _). intros Hin. apply (Hn _ Hin). set_solver.
    - apply elem_of_cons in Hin as [->|Hin].
      { exists (length pre). split; [by apply index_of_app|lia]. }
      apply elem_of_app in Hin as [Hin|Hin]; [done|].
      apply elem_of_cons in Hin as [->|Hin].
      { exists (S (length pre + length content)). split; [|lia].
        replace (pre ++ start r :: content ++ end_ r :: post)
          with ((pre ++ start r :: content) ++ end_ r :: post) by (by list_norm).
        rewrite index_of_app.
        - rewrite length_app. simpl. f_equal. lia.
        - set_solver. }
      apply list_elem_of_split in Hin as (a & b & ->).
      exists (S (S (length pre + length content + length a))). split; [|lia].
      replace (pre ++ start r :: content ++ end_ r :: a ++ c :: b)
        with ((pre ++ start r :: content ++ end_ r :: a) ++ c :: b) by (by list_norm).
      rewrite index_of_app.
      + rewrite length_app. simpl. rewrite length_app. simpl. f_equal. lia.
      + apply NoDup_app in Hnpost as (_ & Hn & _).
        assert (c ∉ a) by (intros Hin; apply (Hn _ Hin); set_solver).
        assert (c ∉ pre) by (intros Hin; destruct (Hdis c Hin) as [_ Hd2]; set_solver).
        assert (c <> start r) by (intros ->; set_solver).
        assert (c <> end_ r) by (intros ->; set_solver).
        set_solver. }
  destruct Hidx as (i & -> & Hi). simpl.
  destruct (Nat.ltb_spec i (S (length pre + length content)));
    destruct (Nat.ltb_spec (S (length pre)) (S i)); simpl; try done; lia.
Qed.

(** ** What the range resolver never does *)

Lemma keeps_ret {A} (a : A) : keeps (ret a).
Proof. intros d o d' [= <- <-]. split; [lia|done]. Qed.

Lemma keeps_throw {A} (e : exn) : keeps (throw (A:=A) e).
Proof. intros d o d' [= <- <-]. split; [lia|done]. Qed.

Lemma keeps_diverge {A} : keeps (diverge (A:=A)).
Proof. intros d o d' [= <- <-]. split; [lia|done]. Qed.

Lemma keeps_get : keeps (get (S:=dom)).
Proof. intros d o d' [= <- <-]. split; [lia|done]. Qed.

Lemma keeps_bind {A B} (m : M dom A) (k : A -> M dom B) :
  keeps m -> (forall a, keeps (k a)) -> keeps (bind m k).
Proof.
  intros Hm Hk d o d' Hrun. unfold bind in Hrun.
  destruct (m d) as [[a| | |] d1] eqn:Hmd;
    try (injection Hrun as <- <-; by apply (Hm _ _ _ Hmd)).
  destruct (Hm _ _ _ Hmd) as [Hn1 Hx1].
  destruct (Hk a _ _ _ Hrun) as [Hn2 Hx2].
  split; [lia|]. intros x Hx.
  destruct (Hx1 x Hx) as [H1 H2]. destruct (Hx2 x) as [H3 H4]; [lia|].
  split; congruence.
Qed.

Lemma keeps_for_each {A} (body : A -> M dom unit) (l : list A) :
  (forall x, x ∈ l -> keeps (body x)) -> keeps (for_each body l).
Proof.
  induction l as [|x l IH]; intros Hb; simpl.
  - apply keeps_ret.
  - apply keeps_bind; [apply Hb; set_solver|]. intros _. apply IH.
    intros y Hy. apply Hb. set_solver.
Qed.

Lemma keeps_moved {A} (m : M dom A) :
  (forall d o d', m d = (o, d') -> moved d d') -> keeps m.
Proof.
  intros Hm d o d' Hrun. destruct (Hm _ _ _ Hrun) as [Mk Mc Mn _ _].
  split; [lia|]. intros x _. by rewrite Mk, Mc.
Qed.

Lemma moved_fold_link (p : nat) (ref : option nat) (xs : list nat) :
  forall d, moved d (fold_left (fun d' c => link_before p ref c d') xs d).
Proof.
  induction xs as [|x xs IH]; intros d; simpl; [apply moved_refl|].
  apply (moved_trans _ (link_before p ref x d)); [apply moved_link_before|apply IH].
Qed.

Lemma keeps_pre_insert_check (p n : nat) (child : option nat) :
  keeps (pre_insert_check p n child).
Proof.
  apply keeps_moved. intros d o d' Hrun. unfold pre_insert_check in Hrun.
  repeat match type of Hrun with
         | context [match ?x with _ => _ end] => destruct x
         end; injection Hrun as <- <-; apply moved_refl.
Qed.

Lemma keeps_dom_insert (p n : nat) (ref : option nat) : keeps (dom_insert p n ref).
Proof.
  apply keeps_moved. intros d o d' Hrun. unfold dom_insert in Hrun.
  destruct (kind_of d n) as [[]|]; injection Hrun as <- <-;
    try apply moved_link_before. apply moved_fold_link.
Qed.

Lemma keeps_Node_insertBefore (p n : nat) (child : option nat) :
  keeps (Node_insertBefore p n child).
Proof.
  unfold Node_insertBefore. apply keeps_bind; [apply keeps_pre_insert_check|].
  intros _. apply keeps_bind; [apply keeps_get|]. intros d. apply keeps_dom_insert.
Qed.

Lemma keeps_Node_removeChild (p c : nat) : keeps (Node_removeChild p c).
Proof.
  apply keeps_moved. intros d o d' Hrun. unfold Node_removeChild in Hrun.
  destruct (opt_eqb _ _); injection Hrun as <- <-;
    [apply moved_remove_node|apply moved_refl].
Qed.

Lemma keeps_modify_remove (c : nat) : keeps (modify (remove_node c)).
Proof.
  apply keeps_moved. intros d o d' [= <- <-]. apply moved_remove_node.
Qed.

Lemma keeps_create (k : node_kind) (s : string) : keeps (create k s).
Proof.
  intros d o d' [= <- <-]. simpl. split; [lia|]. intros x Hx.
  unfold kind_of, chardata_of. simpl.
  rewrite lookup_insert_ne by lia. done.
Qed.

Lemma keeps_console_error (x : diagnostic) : keeps (console_error x).
Proof. intros d o d' [= <- <-]. simpl. split; [lia|done]. Qed.

Lemma keeps_catch_console (task : M dom unit) : keeps task -> keeps (catch_console task).
Proof.
  intros Ht d o d' Hrun. unfold catch_console in Hrun.
  destruct (task d) as [[[]| e | |] d1] eqn:Htd;
    injection Hrun as <- <-; by apply (Ht _ _ _ Htd).
Qed.

Lemma keeps_static (r : DynamicRange) : keeps (Span.static r).
Proof.
  apply keeps_moved. intros d o d' Hrun. unfold Span.static in Hrun.
  repeat match type of Hrun with
         | context [match ?x with _ => _ end] => destruct x
         | context [if ?x then _ else _] => destruct x
         end; injection Hrun as <- <-; apply moved_refl.
Qed.

Lemma keeps_deleteContents (rg : Range) : keeps (Range_deleteContents rg).
Proof.
  unfold Range_deleteContents. apply keeps_bind; [apply keeps_get|].
  intros d. apply keeps_for_each. intros c _. apply keeps_modify_remove.
Qed.

Lemma keeps_insert_before_end (ctx : DynamicRange) (n : nat) :
  keeps (insert_before_end ctx n).
Proof.
  unfold insert_before_end. apply keeps_bind; [apply keeps_get|]. intros d.
  destruct (parent_of d (end_ ctx)); [apply keeps_Node_insertBefore|apply keeps_throw].
Qed.

(** The range resolver, whatever it is given and however it ends, leaves
    the kind and the character data of every existing node as they are. *)
Lemma keeps_mutateRange (fuel : nat) :
  forall (ctx : DynamicRange) (v : MutateAction), keeps (mutateRange fuel ctx v).
Proof.
  induction fuel as [|f IH]; intros ctx v; [apply keeps_diverge|].
  assert (Htext : forall s,
    keeps (rg <- Span.static ctx ;
           Range_deleteContents rg ;;
           d <- get ;
           match parent_of d (end_ ctx) with
           | Some p => t <- createTextNode s ; Node_insertBefore p t (Some (end_ ctx))
           | None => throw TypeError
           end)).
  { intros s. apply keeps_bind; [apply keeps_static|]. intros rg.
    apply keeps_bind; [apply keeps_deleteContents|]. intros _.
    apply keeps_bind; [apply keeps_get|]. intros d.
    destruct (parent_of d (end_ ctx)); [|apply keeps_throw].
    apply keeps_bind; [apply keeps_create|]. intros t. apply keeps_Node_insertBefore. }
  destruct v as [| |b|s|s|s|x|call iter aiter thn]; simpl;
    try apply keeps_ret; try apply Htext.
  - apply keeps_insert_before_end.
  - destruct iter as [items|].
    { apply keeps_for_each. intros x _. apply IH. }
    destruct aiter as [items|].
    { apply keeps_for_each. intros x _. apply IH. }
    destruct thn as [[settled|]|], call as [fn|];
      try apply IH; try apply keeps_console_error;
      apply keeps_bind; try apply keeps_get; intros d; apply IH.
Qed.

Lemma keeps_namedRange (fuel : nat) (nm : string) (rest : list MutateAction) :
  keeps (namedRange fuel nm rest).
Proof.
  unfold namedRange.
  apply keeps_bind; [apply keeps_create|]. intros s.
  apply keeps_bind; [apply keeps_create|]. intros e.
  apply keeps_bind; [apply keeps_create|]. intros frag.
  apply keeps_bind; [apply keeps_Node_insertBefore|]. intros _.
  apply keeps_bind; [apply keeps_Node_insertBefore|]. intros _.
  apply keeps_bind; [|intros _; apply keeps_ret].
  apply keeps_catch_console, keeps_for_each. intros v _. apply keeps_mutateRange.
Qed.

Lemma keeps_insertAt {T} (fuel : nat) (renderer : ListRenderer T) (n : string)
      (item : T) (point : nat) :
  keeps (insertAt fuel renderer n item point).
Proof.
  unfold insertAt. apply keeps_bind; [apply keeps_namedRange|]. intros nrange.
  apply keeps_bind; [|intros _; apply keeps_ret].
  unfold insert_at_point. apply keeps_bind; [apply keeps_get|]. intros d.
  destruct (parent_of d point); [apply keeps_Node_insertBefore|apply keeps_throw].
Qed.

(** X7 (actions.ts, mutateRange).  What the range resolver never does:
    whatever value it is given, however deep the resolution goes and
    however it ends (normally, with an exception or out of fuel), every
    node that existed before has the kind and the character data it had;
    the resolver only unlinks, links and creates nodes. *)
Theorem range_resolver_never_rewrites_an_existing_node
        (fuel : nat) (ctx : DynamicRange) (v : MutateAction) (d : dom) :
  next_id d <= next_id (snd (mutateRange fuel ctx v d)) /\
  forall x, x < next_id d ->
            kind_of (snd (mutateRange fuel ctx v d)) x = kind_of d x /\
            chardata_of (snd (mutateRange fuel ctx v d)) x = chardata_of d x.
Proof.
  destruct (mutateRange fuel ctx v d) as [o d'] eqn:Hrun.
  exact (keeps_mutateRange fuel ctx v d o d' Hrun).
Qed.

(** ** mutate and mount *)

(** A chain of ancestors that a change leaves alone has no new members. *)
Lemma not_above_after (d d' : dom) (n a : nat) :
  (forall x, above d n x -> parent_of d' x = parent_of d x) ->
  ~ above d n a -> ~ above d' n a.
Proof.
  intros Hsame Hab [fuel Hf].
  by rewrite (not_above_frame d d' a fuel n Hsame Hab) in Hf.
Qed.

(** [p.appendChild(x)] for a node that can be inserted under [p]. *)
Lemma append_loose (p x : nat) (d : dom) (kp : node_kind) :
  kind_of d p = Some kp -> is_container kp = true ->
  loose d p x ->
  exists d',
    Node_appendChild p x d = (Ok tt, d') /\
    (forall q, kids d' q = if decide (q = p) then kids d p ++ [x] else kids d q) /\
    (forall y, parent_of d' y = if decide (y = x) then Some p else parent_of d y) /\
    (forall y, ~ above d p y -> ~ above d' p y) /\
    moved d d'.
Proof.
  intros Hkp Hc ((k & Hk & Hkf) & Hpx & Hab).
  assert (Hpar : forall y, parent_of (link_before p None x d) y =
                           if decide (y = x) then Some p else parent_of d y).
  { intros y. by rewrite parent_of_link_before by eauto. }
  exists (link_before p None x d). split_and!.
  - unfold Node_appendChild.
    apply (Node_insertBefore_one p x None d kp k); try done.
    by apply not_above_inclusive.
  - intros q. rewrite kids_link_before by eauto. case_decide as Hq.
    + subst q. rewrite kids_remove_node, Hpx, decide_False by done.
      by rewrite list_ins_end.
    + rewrite kids_remove_node, Hpx. by rewrite decide_False by done.
  - done.
  - intros y Hy. apply (not_above_after d); [|done].
    intros z Hz. rewrite Hpar. rewrite decide_False; [done|]. intros ->. done.
  - apply moved_link_before.
Qed.

Lemma mutate_nodes (f p : nat) (kp : node_kind) (xs : list nat) :
  forall (d : dom),
    kind_of d p = Some kp -> is_container kp = true ->
    NoDup xs ->
    (forall x, x ∈ xs -> loose d p x) ->
    exists d',
      for_each (mutate (S f) p) (map VNode xs) d = (Ok tt, d') /\
      (forall q, kids d' q = if decide (q = p) then kids d p ++ xs else kids d q) /\
      (forall y, parent_of d' y = if decide (y ∈ xs) then Some p else parent_of d y) /\
      moved d d'.
Proof.
  induction xs as [|x xs IH]; intros d Hkp Hc Hnd Hxs.
  - exists d. split_and!; [done| | |apply moved_refl].
    + intros q. case_decide; [subst; by rewrite app_nil_r|done].
    + intros y. rewrite decide_False; [done|set_solver].
  - apply NoDup_cons in Hnd as [Hx Hnd].
    destruct (append_loose p x d kp Hkp Hc) as (d1 & Hrun & Hkids & Hpar & Habove & Hmv).
    { apply Hxs. set_solver. }
    pose proof Hmv as [Mk _ _ _ _].
    destruct (IH d1) as (d' & Hrest & Hkids' & Hpar' & Hmv'); [by rewrite Mk|done|done| |].
    + intros y Hy. destruct (Hxs y) as ((ky & Hky & Hkyf) & Hpy & Hab); [set_solver|].
      split_and!.
      * exists ky. by rewrite Mk.
      * rewrite Hpar. rewrite decide_False; [done|]. intros ->. done.
      * by apply Habove.
    + exists d'. split_and!.
      * simpl. change (mutate (S f) p (VNode x)) with (Node_appendChild p x).
        by rewrite (bind_Ok _ _ _ _ _ Hrun).
      * intros q. rewrite Hkids', !Hkids. case_decide; [|done].
        rewrite decide_True by done. by list_norm.
      * intros y. rewrite Hpar', Hpar. repeat case_decide; try done; set_solver.
      * by apply (moved_trans _ d1).
Qed.

(** X9 (mutable.ts, mount and mutate).  [mount(host, ...nodes)] with nodes
    that hang nowhere appends them to the host in the order given, after
    the children the host has, and answers the host; no node is created or
    changed. *)
Theorem mount_appends_the_nodes_in_order
        (f host : nat) (kh : node_kind) (xs : list nat) (d : dom) :
  kind_of d host = Some kh -> is_container kh = true ->
  NoDup xs ->
  (forall x, x ∈ xs -> loose d host x) ->
  exists d',
    Mutable.mount (S (S f)) host (map VNode xs) d = (Ok host, d') /\
    kids d' host = kids d host ++ xs /\
    (forall q, q <> host -> kids d' q = kids d q) /\
    (forall y, parent_of d' y = if decide (y ∈ xs) then Some host else parent_of d y) /\
    moved d d'.
Proof.
  intros Hk Hc Hnd Hxs.
  destruct (mutate_nodes f host kh xs d Hk Hc Hnd Hxs) as (d' & Hrun & Hkids & Hpar & Hmv).
  exists d'. split_and!; try done.
  - unfold Mutable.mount. cbn [mutate]. by rewrite (bind_Ok _ _ _ _ _ Hrun).
  - rewrite Hkids. by rewrite decide_True.
  - intros q Hq. rewrite Hkids. by rewrite decide_False.
Qed.

(** ** What mutate never does *)

Lemma keeps_keeps_but {A} (t : nat) (m : M dom A) : keeps m -> keeps_but t m.
Proof.
  intros Hm d o d' Hrun. destruct (Hm d o d' Hrun) as [Hn Hx].
  split; [done|]. intros x Hlt. destruct (Hx x Hlt) as [H1 H2]. by split.
Qed.

Lemma keeps_but_bind {A B} (t : nat) (m : M dom A) (k : A -> M dom B) :
  keeps_but t m -> (forall a, keeps_but t (k a)) -> keeps_but t (bind m k).
Proof.
  intros Hm Hk d o d' Hrun. unfold bind in Hrun.
  destruct (m d) as [[a| | |] d1] eqn:Hmd;
    try (injection Hrun as <- <-; by apply (Hm _ _ _ Hmd)).
  destruct (Hm _ _ _ Hmd) as [Hn1 Hx1].
  destruct (Hk a _ _ _ Hrun) as [Hn2 Hx2].
  split; [lia|]. intros x Hx.
  destruct (Hx1 x Hx) as [H1 H2]. destruct (Hx2 x) as [H3 H4]; [lia|].
  split; [congruence|]. intros Hne. rewrite H4, H2 by done. done.
Qed.

Lemma keeps_but_for_each {A} (t : nat) (body : A -> M dom unit) (l : list A) :
  (forall x, x ∈ l -> keeps_but t (body x)) -> keeps_but t (for_each body l).
Proof.
  induction l as [|x l IH]; intros Hb; simpl.
  - apply keeps_keeps_but, keeps_ret.
  - apply keeps_but_bind; [apply Hb; set_solver|]. intros _. apply IH.
    intros y Hy. apply Hb. set_solver.
Qed.

Lemma keeps_unmodelled {A} : keeps (unmodelled (S:=dom) (A:=A)).
Proof. intros d o d' [= <- <-]. split; [lia|done]. Qed.

(** [node.textContent = s] rewrites the character data of the node when
    it is a Text or Comment node, and of no other node. *)
Lemma keeps_but_set_textContent (t : nat) (s : string) : keeps_but t (set_textContent t s).
Proof.
  unfold set_textContent. apply keeps_but_bind; [apply keeps_keeps_but, keeps_get|].
  intros d0.
  assert (Hcontainer : keeps
    (t0 <- (if String.eqb s "" then ret None
            else (x <- createTextNode s ; ret (Some x))) ;
     d' <- get ;
     for_each (fun c => modify (remove_node c)) (kids d' t) ;;
     match t0 with
     | Some x => dom_insert t x None
     | None => ret tt
     end)).
  { apply keeps_bind.
    - destruct (String.eqb s ""); [apply keeps_ret|].
      apply keeps_bind; [apply keeps_create|]. intros x. apply keeps_ret.
    - intros t0. apply keeps_bind; [apply keeps_get|]. intros d'.
      apply keeps_bind.
      + apply keeps_for_each. intros c _. apply keeps_modify_remove.
      + intros _. destruct t0; [apply keeps_dom_insert|apply keeps_ret]. }
  assert (Hdata : keeps_but t (modify (set_nodes (alter (with_data s) t)))).
  { intros d o d' [= <- <-]. simpl. split; [lia|]. intros x _.
    unfold kind_of, chardata_of. simpl. split.
    - destruct (decide (x = t)) as [->|Hne].
      + rewrite lookup_alter_eq. by destruct (nodes d !! t).
      + by rewrite lookup_alter_ne.
    - intros Hne. by rewrite lookup_alter_ne. }
  destruct (kind_of d0 t) as [[| | |]|];
    [by apply keeps_keeps_but|done|done|by apply keeps_keeps_but|
      apply keeps_keeps_but, keeps_unmodelled].
Qed.

Lemma keeps_but_mutate (fuel : nat) :
  forall (t : nat) (v : MutateAction), keeps_but t (mutate fuel t v).
Proof.
  induction fuel as [|f IH]; intros t v; [apply keeps_keeps_but, keeps_diverge|].
  destruct v as [| |b|s|s|s|x|call iter aiter thn]; simpl;
    try (apply keeps_keeps_but, keeps_ret); try apply keeps_but_set_textContent.
  - apply keeps_keeps_but. unfold Node_appendChild. apply keeps_Node_insertBefore.
  - destruct iter as [items|].
    { apply keeps_but_for_each. intros x _. apply IH. }
    destruct aiter as [items|].
    { apply keeps_but_for_each. intros x _. apply IH. }
    destruct thn as [thn|]; [apply IH|].
    destruct call as [fn|]; [|apply keeps_keeps_but, keeps_console_error].
    apply keeps_but_bind; [apply keeps_keeps_but, keeps_get|]. intros d. apply IH.
Qed.

(** X8 (mutable.ts, mutate).  What [mutate] never does: whatever value it is
    given and however the resolution ends, every node that existed before
    keeps its kind, and every node but the target keeps its character data;
    the other nodes are only unlinked or linked. *)
Theorem mutate_rewrites_no_node_but_its_target
        (fuel target : nat) (v : MutateAction) (d : dom) :
  next_id d <= next_id (snd (mutate fuel target v d)) /\
  forall x, x < next_id d ->
            kind_of (snd (mutate fuel target v d)) x = kind_of d x /\
            (x <> target ->
             chardata_of (snd (mutate fuel target v d)) x = chardata_of d x).
Proof.
  destruct (mutate fuel target v d) as [o d'] eqn:Hrun.
  exact (keeps_but_mutate fuel target v d o d' Hrun).
Qed.

(** ** Arrays of arrays *)

Lemma bind_ext {S A B} (m : M S A) (k1 k2 : A -> M S B) (s : S) :
  (forall a s', k1 a s' = k2 a s') -> bind m k1 s = bind m k2 s.
Proof. intros Hk. unfold bind. by destruct (m s) as [[a| | |] s1]. Qed.

Lemma for_each_app {S A} (body : A -> M S unit) (l1 l2 : list A) (s : S) :
  for_each body (l1 ++ l2) s = (for_each body l1 ;; for_each body l2) s.
Proof.
  revert s. induction l1 as [|x l1 IH]; intros s; simpl; [done|].
  rewrite bind_assoc. apply bind_ext. intros _ s'. apply IH.
Qed.

Lemma for_each_concat {S A B} (body : B -> M S unit) (inner : A -> M S unit)
      (wrap : list B -> A) (xss : list (list B)) :
  (forall xs s, inner (wrap xs) s = for_each body xs s) ->
  forall s, for_each inner (map wrap xss) s = for_each body (concat xss) s.
Proof.
  intros Hinner. induction xss as [|xs xss IH]; intros s; simpl; [done|].
  rewrite for_each_app. unfold bind. rewrite Hinner.
  destruct (for_each body xs s) as [[[]| | |] s1]; first [done|apply IH].
Qed.

(** X10 (mutable.ts, mutate; actions.ts, mutateRange).  An array of arrays is
    resolved as the one array of their members: both resolvers treat
    nested arrays as their concatenation, whatever the members are and
    however the resolution ends. *)
Theorem nested_arrays_resolve_as_their_concatenation
        (f : nat) (xss : list (list MutateAction)) (d : dom) :
  (forall target,
      mutate (S (S f)) target (VArray (map VArray xss)) d =
      mutate (S f) target (VArray (concat xss)) d) /\
  (forall ctx,
      mutateRange (S (S f)) ctx (VArray (map VArray xss)) d =
      mutateRange (S f) ctx (VArray (concat xss)) d).
Proof.
  split.
  - intros target.
    exact (for_each_concat (mutate f target) (mutate (S f) target) VArray xss
             (fun xs s => eq_refl) d).
  - intros ctx.
    exact (for_each_concat (mutateRange f ctx) (mutateRange (S f) ctx) VArray xss
             (fun xs s => eq_refl) d).
Qed.

(** ** text *)

(** [node.textContent = s] on a Text or Comment node. *)
Lemma set_textContent_data (t : nat) (s : string) (d : dom) (k : node_kind) :
  kind_of d t = Some k -> is_container k = false ->
  exists d',
    set_textContent t s d = (Ok tt, d') /\
    chardata_of d' t = Some s /\
    (forall x, kind_of d' x = kind_of d x) /\
    (forall x, x <> t -> nodes d' !! x = nodes d !! x) /\
    next_id d' = next_id d /\
    console d' = console d.
Proof.
  intros Hk Hc. exists (set_nodes (alter (with_data s) t) d). split_and!.
  - unfold set_textContent, bind, get. rewrite Hk. by destruct k.
  - unfold chardata_of, kind_of in *. simpl. rewrite lookup_alter_eq.
    by destruct (nodes d !! t).
  - intros x. unfold kind_of. simpl. destruct (decide (x = t)) as [->|Hne].
    + rewrite lookup_alter_eq. by destruct (nodes d !! t).
    + by rewrite lookup_alter_ne.
  - intros x Hne. simpl. by rewrite lookup_alter_ne.
  - done.
  - done.
Qed.

Lemma mutate_strings (f t : nat) (k : node_kind) (ss : list string) :
  forall (d : dom) (s0 : string),
    kind_of d t = Some k -> is_container k = false ->
    chardata_of d t = Some s0 ->
    exists d',
      for_each (mutate (S f) t) (map VString ss) d = (Ok tt, d') /\
      chardata_of d' t = last (s0 :: ss) /\
      (forall x, kind_of d' x = kind_of d x) /\
      (forall x, x <> t -> nodes d' !! x = nodes d !! x) /\
      next_id d' = next_id d /\
      console d' = console d.
Proof.
  induction ss as [|s ss IH]; intros d s0 Hk Hc Hs0.
  - by exists d.
  - destruct (set_textContent_data t s d k Hk Hc) as (d1 & Hrun & Hd1 & Hk1 & Hn1 & Hi1 & Ho1).
    destruct (IH d1 s) as (d' & Hrest & Hd' & Hk' & Hn' & Hi' & Ho'); [by rewrite Hk1|done..|].
    exists d'. split_and!.
    + simpl. change (mutate (S f) t (VString s)) with (set_textContent t s).
      by rewrite (bind_Ok _ _ _ _ _ Hrun).
    + by rewrite Hd', last_cons_cons.
    + intros x. by rewrite Hk', Hk1.
    + intros x Hx. by rewrite Hn', Hn1.
    + by rewrite Hi', Hi1.
    + by rewrite Ho', Ho1.
Qed.

(** X11 (mutable.ts, text).  [text(s, ...ss)] with strings answers a new Text
    node that holds [s], the first string; the task it leaves then sets the
    other strings one after the other, so that the node holds the last in
    the end.  No other node is touched and nothing is reported. *)
Theorem text_holds_the_first_string_then_the_last
        (f : nat) (s : string) (ss : list string) (d : dom) :
  nodes d !! next_id d = None ->
  exists later d1 d2,
    Mutable.text (S f) (map VString (s :: ss)) d = (Ok (next_id d, later), d1) /\
    kind_of d1 (next_id d) = Some Text /\
    chardata_of d1 (next_id d) = Some s /\
    later d1 = (Ok tt, d2) /\
    kind_of d2 (next_id d) = Some Text /\
    chardata_of d2 (next_id d) = last (s :: ss) /\
    (forall x, x <> next_id d -> nodes d2 !! x = nodes d !! x) /\
    console d2 = console d.
Proof.
  intros Hfree.
  set (d0 := snd (createTextNode "" d)).
  assert (Hk0 : kind_of d0 (next_id d) = Some Text).
  { unfold d0, createTextNode. rewrite kind_of_create by done. by rewrite decide_True. }
  assert (Hn0 : forall x, x <> next_id d -> nodes d0 !! x = nodes d !! x).
  { intros x Hx. unfold d0. simpl. by rewrite lookup_insert_ne. }
  destruct (set_textContent_data (next_id d) s d0 Text Hk0 eq_refl)
    as (d1 & Hrun & Hd1 & Hk1 & Hn1 & Hi1 & Ho1).
  destruct (mutate_strings f (next_id d) Text ss d1 s) as (d2 & Hrest & Hd2 & Hk2 & Hn2 & _ & Ho2);
    [by rewrite Hk1|done..|].
  exists (catch_console (ret tt ;; for_each (mutate (S f) (next_id d)) (map VString ss))), d1, d2.
  split_and!.
  - unfold Mutable.text.
    rewrite (bind_Ok _ _ _ _ _ (create_result Text "" d)).
    fold createTextNode. fold d0.
    unfold bind at 1, launch. rewrite map_cons. cbn [mutate_now].
    by rewrite (bind_Ok _ _ _ _ _ Hrun).
  - by rewrite Hk1.
  - done.
  - unfold catch_console, bind, ret. by rewrite Hrest.
  - by rewrite Hk2, Hk1.
  - done.
  - intros x Hx. by rewrite Hn2, Hn1, Hn0.
  - by rewrite Ho2, Ho1.
Qed.

(** X12 (mutable.ts, text and mutate).  A node given to [text] is rejected,
    and what follows it is dropped: the Text node is answered empty, the
    HierarchyRequestError of [appendChild] is reported on the console when
    the task goes on, and none of the later values is applied. *)
Theorem text_rejects_a_node_and_drops_the_rest
        (f x : nat) (rest : list MutateAction) (d : dom) :
  nodes d !! next_id d = None ->
  is_Some (kind_of d x) ->
  exists later d1,
    Mutable.text (S f) (VNode x :: rest) d = (Ok (next_id d, later), d1) /\
    d1 = snd (createTextNode "" d) /\
    kind_of d1 (next_id d) = Some Text /\
    chardata_of d1 (next_id d) = Some "" /\
    later d1 =
      (Ok tt, Dom (nodes d1) (next_id d1) (console d ++ [Caught HierarchyRequestError])).
Proof.
  intros Hfree [k Hk].
  set (d0 := snd (createTextNode "" d)).
  assert (Hk0 : kind_of d0 (next_id d) = Some Text).
  { unfold d0, createTextNode. rewrite kind_of_create by done. by rewrite decide_True. }
  assert (Hkx : kind_of d0 x = Some k).
  { unfold d0, createTextNode. rewrite kind_of_create by done.
    rewrite decide_False; [done|]. intros ->. apply kind_of_None in Hfree. congruence. }
  assert (Hrej : mutate_now (S f) (next_id d) (VNode x) d0
                 = (Throw HierarchyRequestError, d0)).
  { cbn [mutate_now].
    unfold Node_appendChild, Node_insertBefore, bind, pre_insert_check.
    by rewrite Hk0, Hkx. }
  exists (console_error (Caught HierarchyRequestError)), d0. split_and!.
  - unfold Mutable.text.
    rewrite (bind_Ok _ _ _ _ _ (create_result Text "" d)).
    change (snd (create Text "" d)) with d0.
    unfold bind at 1, launch. by rewrite Hrej.
  - done.
  - done.
  - unfold d0, createTextNode. rewrite chardata_of_create by done. by rewrite decide_True.
  - done.
Qed.

(** ** Fragments of nodes, appended and prepended *)

(** Nodes that hang nowhere, appended one by one to a container that hangs
    nowhere. *)
Lemma append_nodes_to_orphan (f F : nat) (kF : node_kind) (xs : list nat) :
  forall (d : dom),
    kind_of d F = Some kF -> is_container kF = true -> parent_of d F = None ->
    NoDup xs ->
    (forall x, x ∈ xs ->
               (exists k, kind_of d x = Some k /\ k <> DocumentFragment) /\
               parent_of d x = None /\ x <> F) ->
    exists d',
      for_each (mutate (S f) F) (map VNode xs) d = (Ok tt, d') /\
      kids d' F = kids d F ++ xs /\
      (forall q, q <> F -> kids d' q = kids d q) /\
      (forall x, parent_of d' x = if decide (x ∈ xs) then Some F else parent_of d x) /\
      moved d d'.
Proof.
  induction xs as [|x xs IH]; intros d HkF Hc HpF Hnd Hxs.
  - exists d. split_and!; try done; try apply moved_refl; try (by rewrite app_nil_r).
    all: intros x; rewrite decide_False; [done|set_solver].
  - apply NoDup_cons in Hnd as [Hx Hnd].
    destruct (Hxs x) as ((k & Hk & Hkf) & Hpx & HxF); [set_solver|].
    destruct (appendChild_orphan F x d kF k) as (d1 & Hrun & Hkids & Hpar & Hmv); try done.
    pose proof Hmv as [Mk _ _ _ _].
    destruct (IH d1) as (d' & Hrest & Hkids' & Hq' & Hpar' & Hmv');
      [by rewrite Mk|done|by rewrite Hpar, decide_False by done|done| |].
    + intros y Hy. destruct (Hxs y) as ((ky & Hky & Hkyf) & Hpy & HyF); [set_solver|].
      split_and!; try done.
      * exists ky. by rewrite Mk.
      * rewrite Hpar. rewrite decide_False; [done|]. intros ->. done.
    + exists d'. split_and!.
      * simpl. change (mutate (S f) F (VNode x)) with (Node_appendChild F x).
        by rewrite (bind_Ok _ _ _ _ _ Hrun).
      * rewrite Hkids', Hkids. rewrite decide_True by done. by list_norm.
      * intros q Hq. rewrite Hq' by done. rewrite Hkids. by rewrite decide_False.
      * intros y. rewrite Hpar', Hpar. repeat case_decide; try done; set_solver.
      * by apply (moved_trans _ d1).
Qed.

(** [fragment(x, ...xs)] for nodes that hang nowhere: when it answers, the
    fragment holds [x]; the rest of the task is left. *)
Lemma fragment_of_nodes (f x : nat) (xs : list nat) (d : dom) :
  unused d (next_id d) ->
  (exists k, kind_of d x = Some k /\ k <> DocumentFragment) ->
  parent_of d x = None ->
  exists d1,
    Mutable.fragment (S f) (map VNode (x :: xs)) d =
      (Ok (next_id d,
           catch_console (ret tt ;; for_each (mutate (S f) (next_id d)) (map VNode xs))),
       d1) /\
    kind_of d1 (next_id d) = Some DocumentFragment /\
    parent_of d1 (next_id d) = None /\
    (forall q, kids d1 q = if decide (q = next_id d) then [x] else kids d q) /\
    (forall y, parent_of d1 y = if decide (y = x) then Some (next_id d) else parent_of d y) /\
    (forall y, y <> next_id d -> kind_of d1 y = kind_of d y) /\
    (forall y, y <> next_id d -> chardata_of d1 y = chardata_of d y) /\
    next_id d1 = S (next_id d) /\
    console d1 = console d /\
    size (nodes d1) = S (size (nodes d)).
Proof.
  intros [Hfree Hnop] (k & Hk & Hkf) Hpx.
  set (F := next_id d).
  set (d0 := snd (createDocumentFragment d)).
  assert (HxF : x <> F).
  { intros ->. apply kind_of_None in Hfree. unfold F in Hk. congruence. }
  assert (HkF0 : kind_of d0 F = Some DocumentFragment).
  { unfold d0, createDocumentFragment. rewrite kind_of_create by done. by rewrite decide_True. }
  assert (HpF0 : parent_of d0 F = None).
  { unfold d0, createDocumentFragment. rewrite parent_of_create by done.
    unfold parent_of, F. by rewrite Hfree. }
  assert (Hkx0 : kind_of d0 x = Some k).
  { unfold d0, createDocumentFragment. rewrite kind_of_create by done. by rewrite decide_False. }
  assert (Hpx0 : parent_of d0 x = None).
  { unfold d0, createDocumentFragment. by rewrite parent_of_create by done. }
  destruct (appendChild_orphan F x d0 DocumentFragment k)
    as (d1 & Hrun & Hkids & Hpar & Hmv); try done.
  pose proof Hmv as [Mk Mc Mn Mo Ms].
  exists d1. split_and!.
  - unfold Mutable.fragment.
    rewrite (bind_Ok _ _ _ _ _ (create_result DocumentFragment "" d)).
    fold F. fold createDocumentFragment. fold d0.
    unfold bind at 1, launch. rewrite map_cons.
    cbn [mutate_now]. by rewrite (bind_Ok _ _ _ _ _ Hrun).
  - by rewrite Mk.
  - rewrite Hpar. by rewrite decide_False by done.
  - intros q. rewrite Hkids. unfold d0, createDocumentFragment.
    rewrite !kids_create by done. case_decide; [|done].
    unfold kids, F. by rewrite Hfree.
  - intros y. rewrite Hpar. unfold d0, createDocumentFragment. by rewrite parent_of_create by done.
  - intros y Hy. rewrite Mk. unfold d0, createDocumentFragment.
    rewrite kind_of_create by done. by rewrite decide_False.
  - intros y Hy. rewrite Mc. unfold d0, createDocumentFragment.
    rewrite chardata_of_create by done. by rewrite decide_False.
  - by rewrite Mn.
  - by rewrite Mo.
  - rewrite Ms. unfold d0, createDocumentFragment. by rewrite size_create by done.
Qed.

(** [fragment(x, ...xs)] and the insertion of the fragment it answers
    under [p], before the head of [l2]: [x] arrives; what is left of the
    task puts the other nodes into the fragment, which by then is empty and
    hangs nowhere. *)
Lemma fragment_inserted (f p x : nat) (xs l1 l2 : list nat) (d : dom) (kp : node_kind) :
  kind_of d p = Some kp -> is_container kp = true ->
  kids d p = l1 ++ l2 ->
  NoDup (kids d p) ->
  (forall y, y ∈ kids d p -> parent_of d y = Some p) ->
  fresh_from d ->
  NoDup (x :: xs) ->
  (forall y, y ∈ x :: xs -> loose d p y) ->
  exists later dF d1 d2,
    Mutable.fragment (S f) (map VNode (x :: xs)) d = (Ok (next_id d, later), dF) /\
    (forall q, q <> next_id d -> kids dF q = kids d q) /\
    (forall y, y <> x -> parent_of dF y = parent_of d y) /\
    Node_insertBefore p (next_id d) (head l2) dF = (Ok tt, d1) /\
    kids d1 p = l1 ++ x :: l2 /\
    (forall y, parent_of d1 y = if decide (y = x) then Some p else parent_of d y) /\
    later d1 = (Ok tt, d2) /\
    kids d2 p = l1 ++ x :: l2 /\
    kids d2 (next_id d) = xs /\
    parent_of d2 (next_id d) = None /\
    (forall q, q <> p -> q <> next_id d -> kids d2 q = kids d q) /\
    (forall y, parent_of d2 y =
               if decide (y = x) then Some p
               else if decide (y ∈ xs) then Some (next_id d) else parent_of d y) /\
    (forall y, y <> next_id d -> kind_of d2 y = kind_of d y) /\
    console d2 = console d.
Proof.
  intros Hkp Hc Hk Hnd Hpar Hfresh Hndx Hloose.
  assert (Hun : unused d (next_id d)) by (by apply Hfresh).
  destruct (Hloose x) as ((k & Hkx & Hkf) & Hpx & Hab); [set_solver|].
  apply NoDup_cons in Hndx as [Hx Hndxs].
  assert (HpF : p <> (next_id d)).
  { intros Heq. destruct Hun as [Hfree _]. apply kind_of_None in Hfree.
    rewrite <- Heq in Hfree. congruence. }
  assert (Hplt : p < next_id d) by (apply fresh_from_lt; [done|by eexists]).
  destruct (fragment_of_nodes f x xs d Hun (ex_intro _ k (conj Hkx Hkf)) Hpx)
    as (dF & Hfrag & HkF & HpFn & HkidsF & HparF & HkindF & _ & _ & HconF & _).
  assert (Hxk : x ∉ kids d p) by (intros Hin; apply Hpar in Hin; congruence).
  assert (Hanc : inclusive_ancestor dF (next_id d) p = false).
  { apply (not_above_frame d).
    - intros y Hy. rewrite HparF. rewrite decide_False; [done|]. intros ->. done.
    - intros Ha. apply (above_lt d p (next_id d) Hfresh Hplt) in Ha.  lia. }
  destruct (insert_fragment p (next_id d) [x] l1 l2 dF kp)
    as (d1 & Hins & Hk1 & HkF1 & Hq1 & Hp1 & Hmv1); try done.
  { by rewrite HkindF. }
  { rewrite HkidsF. by rewrite decide_False. }
  { rewrite HkidsF. by rewrite decide_False. }
  { intros y Hy. rewrite HkidsF, decide_False in Hy by done.
    rewrite HparF. rewrite decide_False; [by apply Hpar|]. intros ->. done. }
  { rewrite HkidsF. by rewrite decide_True. }
  { apply NoDup_singleton. }
  { intros y Hy. apply list_elem_of_singleton in Hy as ->.
    rewrite HparF. by rewrite decide_True. }
  pose proof Hmv1 as [Mk1 _ _ Mo1 _].
  destruct (append_nodes_to_orphan f (next_id d) DocumentFragment xs d1)
    as (d2 & Hlater & HkF2 & Hq2 & Hp2 & Hmv2); try done.
  { by rewrite Mk1. }
  { rewrite Hp1. rewrite decide_False; [done|]. intros Hin.
    apply list_elem_of_singleton in Hin. destruct Hun as [Hfree _].
    apply kind_of_None in Hfree.  congruence. }
  { intros y Hy. destruct (Hloose y) as ((ky & Hky & Hkyf) & Hpy & _); [set_solver|].
    assert (HyF : y <> (next_id d)).
    { intros ->. destruct Hun as [Hfree _]. apply kind_of_None in Hfree. congruence. }
    assert (Hyx : y <> x) by (intros ->; done).
    split_and!; try done.
    - exists ky. rewrite Mk1, HkindF by done. done.
    - rewrite Hp1. rewrite decide_False by set_solver.
      rewrite HparF. by rewrite decide_False. }
  pose proof Hmv2 as [Mk2 _ _ Mo2 _].
  exists (catch_console (ret tt ;; for_each (mutate (S f) (next_id d)) (map VNode xs))), dF, d1, d2.
  split_and!.
  - done.
  - intros q Hq. rewrite HkidsF. by rewrite decide_False.
  - intros y Hy. rewrite HparF. by rewrite decide_False.
  - done.
  - by rewrite Hk1.
  - intros y. rewrite Hp1, HparF. destruct (decide (y = x)) as [->|Hyx].
    + by rewrite decide_True by set_solver.
    + by rewrite decide_False by set_solver.
  - unfold catch_console, bind, ret. by rewrite Hlater.
  - rewrite Hq2 by done. by rewrite Hk1.
  - by rewrite HkF2, HkF1.
  - rewrite Hp2. rewrite decide_False.
    + rewrite Hp1. rewrite decide_False; [done|]. intros Hin.
      apply list_elem_of_singleton in Hin. destruct Hun as [Hfree _].
      apply kind_of_None in Hfree.  congruence.
    + intros Hin. destruct (Hloose (next_id d)) as ((ky & Hky & _) & _); [set_solver|].
      destruct Hun as [Hfree _]. apply kind_of_None in Hfree. congruence.
  - intros q Hqp HqF. rewrite Hq2, Hq1 by done. rewrite HkidsF. by rewrite decide_False.
  - intros y. rewrite Hp2, Hp1, HparF.
    destruct (decide (y = x)) as [->|Hyx].
    + rewrite decide_False by done. rewrite decide_True by set_solver. done.
    + rewrite (decide_False (P := y ∈ [x])) by set_solver. done.
  - intros y Hy. by rewrite Mk2, Mk1, HkindF.
  - by rewrite Mo2, Mo1.
Qed.

(** X13 (actions.ts, append and prepend; mutable.ts, fragment).  [append] and
    [prepend] called with several nodes on an element deliver only the
    first: when the call answers, the first node is the last (the first)
    child of the element; the task of the fragment then goes on and puts
    the other nodes into the fragment, which was emptied into the element
    and hangs nowhere.  The element never gets them. *)
Theorem append_and_prepend_deliver_only_the_first_node
        (f p x : nat) (xs : list nat) (d : dom) (kp : node_kind) :
  kind_of d p = Some kp -> is_container kp = true ->
  NoDup (kids d p) ->
  (forall y, y ∈ kids d p -> parent_of d y = Some p) ->
  fresh_from d ->
  NoDup (x :: xs) ->
  (forall y, y ∈ x :: xs -> loose d p y) ->
  (exists later d1 d2,
      NodeActions.append (S f) (map VNode (x :: xs)) (OnNode p) d = (Ok later, d1) /\
      kids d1 p = kids d p ++ [x] /\
      later d1 = (Ok tt, d2) /\
      kids d2 p = kids d p ++ [x] /\
      kids d2 (next_id d) = xs /\
      parent_of d2 (next_id d) = None /\
      (forall y, y ∈ xs -> parent_of d2 y = Some (next_id d)) /\
      console d2 = console d) /\
  (exists later d1 d2,
      NodeActions.prepend (S f) (map VNode (x :: xs)) (OnNode p) d = (Ok later, d1) /\
      kids d1 p = x :: kids d p /\
      later d1 = (Ok tt, d2) /\
      kids d2 p = x :: kids d p /\
      kids d2 (next_id d) = xs /\
      parent_of d2 (next_id d) = None /\
      (forall y, y ∈ xs -> parent_of d2 y = Some (next_id d)) /\
      console d2 = console d).
Proof.
  intros Hkp Hc Hnd Hpar Hfresh Hndx Hloose.
  assert (HpF : p <> next_id d).
  { intros Heq. destruct (Hfresh (next_id d)) as [Hfree _]; [lia|].
    apply kind_of_None in Hfree. rewrite <- Heq in Hfree. congruence. }
  assert (Hother : forall d2,
    (forall y, parent_of d2 y =
               if decide (y = x) then Some p
               else if decide (y ∈ xs) then Some (next_id d) else parent_of d y) ->
    forall y, y ∈ xs -> parent_of d2 y = Some (next_id d)).
  { intros d2 Hp2 y Hy. rewrite Hp2. apply NoDup_cons in Hndx as [Hx _].
    rewrite decide_False by (intros ->; done). by rewrite decide_True. }
  split.
  - destruct (fragment_inserted f p x xs (kids d p) [] d kp)
      as (later & dF & d1 & d2 & Hfrag & HkF & _ & Hins & Hk1 & _ & Hlater & Hk2 & HkF2
          & HpF2 & _ & Hp2 & _ & Hcon); try done.
    { by rewrite app_nil_r. }
    exists later, d1, d2. split_and!; try done; [|by eapply Hother].
    unfold NodeActions.append. rewrite (bind_Ok _ _ _ _ _ Hfrag). simpl fst. simpl snd.
    unfold Node_appendChild. simpl in Hins. by rewrite (bind_Ok _ _ _ _ _ Hins).
  - destruct (fragment_inserted f p x xs [] (kids d p) d kp)
      as (later & dF & d1 & d2 & Hfrag & HkF & _ & Hins & Hk1 & _ & Hlater & Hk2 & HkF2
          & HpF2 & _ & Hp2 & _ & Hcon); try done.
    exists later, d1, d2. split_and!; try done; [|by eapply Hother].
    unfold NodeActions.prepend. rewrite (bind_Ok _ _ _ _ _ Hfrag). simpl fst. simpl snd.
    unfold bind at 1, get. rewrite HkF by done.
    by rewrite (bind_Ok _ _ _ _ _ Hins).
Qed.

(** X14 (actions.ts, append and prepend; range.ts).  On a span in place
    [append] puts the first of several nodes after the content and
    [prepend] puts it before the content; the span stays in place between
    the same neighbours.  The other nodes end in the fragment and never
    reach the span. *)
Theorem span_append_and_prepend_deliver_only_the_first_node
        (f p x : nat) (xs : list nat) (d : dom) (kp : node_kind)
        (r : DynamicRange) (pre content post : list nat) :
  attached d r p pre content post ->
  kind_of d p = Some kp -> is_container kp = true ->
  fresh_from d ->
  NoDup (x :: xs) ->
  (forall y, y ∈ x :: xs -> loose d p y) ->
  (exists later d1 d2,
      NodeActions.append (S f) (map VNode (x :: xs)) (OnRange r) d = (Ok later, d1) /\
      attached d1 r p pre (content ++ [x]) post /\
      later d1 = (Ok tt, d2) /\
      Span.childNodes r d2 = Ok (content ++ [x]) /\
      kids d2 (next_id d) = xs /\
      parent_of d2 (next_id d) = None) /\
  (exists later d1 d2,
      NodeActions.prepend (S f) (map VNode (x :: xs)) (OnRange r) d = (Ok later, d1) /\
      attached d1 r p pre (x :: content) post /\
      later d1 = (Ok tt, d2) /\
      Span.childNodes r d2 = Ok (x :: content) /\
      kids d2 (next_id d) = xs /\
      parent_of d2 (next_id d) = None).
Proof.
  intros Hatt Hkp Hc Hfresh Hndx Hloose.
  pose proof Hatt as [Hk Hnd Hpar].
  destruct (attached_markers _ _ _ _ _ _ Hatt) as (Hps & Hpe & _).
  destruct (Hloose x) as (_ & Hpx & _); [set_solver|].
  assert (Hxk : x ∉ kids d p) by (intros Hin; apply Hpar in Hin; congruence).
  assert (HpF : p <> next_id d).
  { intros Heq. destruct (Hfresh (next_id d)) as [Hfree _]; [lia|].
    apply kind_of_None in Hfree. rewrite <- Heq in Hfree. congruence. }
  assert (Hsx : start r <> x) by (intros Heq; congruence).
  (* the span in place after an insertion of [x] *)
  assert (Hplace : forall l1 l2 content' d1 d2,
    kids d p = l1 ++ l2 ->
    pre ++ start r :: content' ++ end_ r :: post = l1 ++ x :: l2 ->
    kids d1 p = l1 ++ x :: l2 ->
    (forall y, parent_of d1 y = if decide (y = x) then Some p else parent_of d y) ->
    kids d2 p = l1 ++ x :: l2 ->
    (forall y, parent_of d2 y =
               if decide (y = x) then Some p
               else if decide (y ∈ xs) then Some (next_id d) else parent_of d y) ->
    attached d1 r p pre content' post /\ Span.childNodes r d2 = Ok content').
  { intros l1 l2 content' d1 d2 Hsplit Heq Hk1 Hp1 Hk2 Hp2.
    assert (Hnd' : NoDup (l1 ++ x :: l2)).
    { rewrite Hsplit in Hnd, Hxk. apply NoDup_app in Hnd as (H1 & H2 & H3).
      apply NoDup_app. split_and!; [done| |].
      - intros y Hy [->|Hy']%elem_of_cons; [set_solver|by apply (H2 y)].
      - apply NoDup_cons. split; [set_solver|done]. }
    assert (Hin : forall y, y ∈ l1 ++ x :: l2 -> y = x \/ y ∈ kids d p).
    { intros y Hy. rewrite Hsplit. set_solver. }
    split.
    - split; [by rewrite Hk1|by rewrite Hk1|].
      intros y Hy. rewrite Hk1 in Hy. rewrite Hp1. case_decide; [done|].
      destruct (Hin y Hy) as [->|Hy']; [done|by apply Hpar].
    - apply (childNodes_between d2 r p pre content' post).
      split; [by rewrite Hk2|by rewrite Hk2|].
      intros y Hy. rewrite Hk2 in Hy. rewrite Hp2. case_decide; [done|].
      destruct (Hin y Hy) as [->|Hy']; [done|].
      rewrite decide_False; [by apply Hpar|].
      intros Hxs. destruct (Hloose y) as (_ & Hpy & _); [set_solver|].
      apply Hpar in Hy'. congruence. }
  split.
  - destruct (fragment_inserted f p x xs (pre ++ start r :: content) (end_ r :: post) d kp)
      as (later & dF & d1 & d2 & Hfrag & HkF & HpdF & Hins & Hk1 & Hp1 & Hlater & Hk2 & HkF2
          & HpF2 & _ & Hp2 & _ & Hcon); try done.
    { rewrite Hk. by list_norm. }
    destruct (Hplace (pre ++ start r :: content) (end_ r :: post) (content ++ [x]) d1 d2)
      as [Hatt1 Hcn2]; try done.
    { rewrite Hk. by list_norm. }
    { by list_norm. }
    exists later, d1, d2. split_and!; try done.
    assert (Happ : Span.appendChild r (next_id d) dF = (Ok tt, d1)).
    { unfold Span.appendChild, bind, get, Span.parentNode.
      rewrite HpdF, Hps by done. exact Hins. }
    unfold NodeActions.append. rewrite (bind_Ok _ _ _ _ _ Hfrag). simpl fst. simpl snd.
    by rewrite (bind_Ok _ _ _ _ _ Happ).
  - destruct (fragment_inserted f p x xs (pre ++ [start r]) (content ++ end_ r :: post) d kp)
      as (later & dF & d1 & d2 & Hfrag & HkF & HpdF & Hins & Hk1 & Hp1 & Hlater & Hk2 & HkF2
          & HpF2 & _ & Hp2 & _ & Hcon); try done.
    { rewrite Hk. by list_norm. }
    destruct (Hplace (pre ++ [start r]) (content ++ end_ r :: post) (x :: content) d1 d2)
      as [Hatt1 Hcn2]; try done.
    { rewrite Hk. by list_norm. }
    { by list_norm. }
    exists later, d1, d2. split_and!; try done.
    assert (HattF : attached dF r p pre content post).
    { split; [by rewrite HkF|by rewrite HkF|].
      intros y Hy. rewrite HkF in Hy by done. rewrite HpdF; [by apply Hpar|].
      intros ->. done. }
    assert (Hpre : Span.insertBefore r (next_id d) (head content) dF = (Ok tt, d1)).
    { unfold Span.insertBefore, bind at 1, get, Span.parentNode.
      rewrite HpdF, Hps by done.
      destruct content as [|c content]; [exact Hins|].
      change (head (c :: content)) with (Some c). cbv beta iota.
      change (head ((c :: content) ++ end_ r :: post)) with (Some c) in Hins.
      assert (Hcp : parent_of dF c = Some p).
      { destruct HattF as [HkF' _ HparF']. apply HparF'. rewrite HkF'. set_solver. }
      rewrite Hcp, opt_eqb_refl.
      rewrite (bind_Ok _ _ _ _ _ (static_in_place dF r p pre _ post HattF)).
      unfold bind at 1, Range_intersectsNode. simpl container.
      rewrite Hcp, opt_eqb_refl.
      rewrite (index_of_content dF r p pre [] content post c HattF). simpl.
      destruct (Nat.ltb_spec (S (length pre + 0)) (S (length pre + S (length content))));
        [|lia].
      destruct (Nat.ltb_spec (S (length pre)) (S (S (length pre + 0)))); [|lia].
      exact Hins. }
    unfold NodeActions.prepend. rewrite (bind_Ok _ _ _ _ _ Hfrag). simpl fst. simpl snd.
    unfold bind at 1, get.
    destruct (firstChild_in_place dF r p pre content post HattF) as (_ & _ & ->).
    by rewrite (bind_Ok _ _ _ _ _ Hpre).
Qed.

(** ** empty *)

Lemma empty_loop_spec (p : nat) (l : list nat) :
  forall (d : dom) (fuel : nat),
    kids d p = l -> NoDup l ->
    (forall y, y ∈ l -> parent_of d y = Some p) ->
    length l < fuel ->
    exists d',
      NodeActions.empty_loop fuel p d = (Ok tt, d') /\
      kids d' p = [] /\
      (forall q, q <> p -> kids d' q = kids d q) /\
      (forall y, parent_of d' y = if decide (y ∈ l) then None else parent_of d y) /\
      moved d d'.
Proof.
  induction l as [|c l IH]; intros d fuel Hk Hnd Hpar Hfuel.
  - destruct fuel as [|fuel]; [simpl in Hfuel; lia|].
    exists d. split_and!;
      [simpl; unfold bind, get; by rewrite Hk|done|done| |apply moved_refl].
    intros y. rewrite decide_False; [done|set_solver].
  - destruct fuel as [|fuel]; [simpl in Hfuel; lia|].
    apply NoDup_cons in Hnd as [Hc Hnd].
    assert (Hcp : parent_of d c = Some p) by (apply Hpar; set_solver).
    destruct (IH (remove_node c d) fuel) as (d' & Hrun & Hk' & Hq' & Hp' & Hmv').
    + rewrite kids_remove_node, decide_True by done. rewrite Hk. simpl.
      by rewrite Nat.eqb_refl.
    + done.
    + intros y Hy. rewrite parent_of_remove_node.
      rewrite decide_False by (intros ->; done). apply Hpar. set_solver.
    + simpl in Hfuel. lia.
    + exists d'. split_and!.
      * simpl. unfold bind at 1, get. rewrite Hk. simpl.
        by rewrite (bind_Ok _ _ _ _ _ (Node_removeChild_ok p c d Hcp)).
      * done.
      * intros q Hq. rewrite Hq' by done. rewrite kids_remove_node.
        rewrite decide_False; [done|]. intros Heq. rewrite Hcp in Heq. congruence.
      * intros y. rewrite Hp', parent_of_remove_node.
        repeat case_decide; try done; set_solver.
      * apply (moved_trans _ (remove_node c d)); [apply moved_remove_node|done].
Qed.

(** X15 (actions.ts, empty).  For a span in place under [p]: [empty()] on
    [p] unlinks every child of [p], the markers of the span among them, so
    that the span has no parent afterwards; [empty()] on the span unlinks
    the nodes between the markers, which stay where they are.  In both
    cases no other child list changes and no node is created or changed. *)
Theorem empty_unlinks_every_child
        (d : dom) (r : DynamicRange) (p : nat) (pre content post : list nat) :
  attached d r p pre content post ->
  (exists d',
      NodeActions.empty (OnNode p) d = (Ok tt, d') /\
      kids d' p = [] /\
      (forall q, q <> p -> kids d' q = kids d q) /\
      (forall y, parent_of d' y = if decide (y ∈ kids d p) then None else parent_of d y) /\
      moved d d' /\
      Span.parentNode r d' = None) /\
  (exists d',
      NodeActions.empty (OnRange r) d = (Ok tt, d') /\
      attached d' r p pre [] post /\
      (forall q, q <> p -> kids d' q = kids d q) /\
      (forall y, parent_of d' y = if decide (y ∈ content) then None else parent_of d y) /\
      moved d d').
Proof.
  intros Hatt. pose proof Hatt as [Hk Hnd Hpar]. split.
  - destruct (empty_loop_spec p (kids d p) d (S (size (nodes d))))
      as (d' & Hrun & Hk' & Hq' & Hp' & Hmv'); try done.
    { pose proof (kids_length_size d p Hnd Hpar). lia. }
    exists d'. split_and!; try done.
    unfold Span.parentNode. rewrite Hp'. rewrite decide_True; [done|].
    rewrite Hk. set_solver.
  - exact (deleteContents_in_place d r p pre content post Hatt).
Qed.

(** ** Blocks *)

Lemma flat_app (l1 l2 : list (DynamicRange * list nat)) : flat (l1 ++ l2) = flat l1 ++ flat l2.
Proof. unfold flat. apply flat_map_app. Qed.

Lemma flat_cons (b : DynamicRange * list nat) (l : list (DynamicRange * list nat)) :
  flat (b :: l) = span_nodes (fst b) (snd b) ++ flat l.
Proof. done. Qed.

Lemma flat_middle (bs : list (DynamicRange * list nat)) (j : nat) (b : DynamicRange * list nat) :
  bs !! j = Some b ->
  flat bs = flat (take j bs) ++ span_nodes (fst b) (snd b) ++ flat (drop (S j) bs).
Proof.
  intros Hj. rewrite <- (take_drop_middle bs j b Hj) at 1.
  by rewrite flat_app, flat_cons.
Qed.

Lemma elem_of_flat (bs : list (DynamicRange * list nat)) (x : nat) :
  x ∈ flat bs <-> exists b, b ∈ bs /\ x ∈ span_nodes (fst b) (snd b).
Proof.
  unfold flat. rewrite list_elem_of_In, in_flat_map. split.
  - intros (b & Hb & Hx). exists b. by rewrite !list_elem_of_In.
  - intros (b & Hb & Hx). exists b. by rewrite <- !list_elem_of_In.
Qed.

Lemma flat_sub (l bs : list (DynamicRange * list nat)) (x : nat) :
  (forall b, b ∈ l -> b ∈ bs) -> x ∈ flat l -> x ∈ flat bs.
Proof. rewrite !elem_of_flat. intros Hsub (b & Hb & Hx). eauto. Qed.

(** The child list of the parent, cut at the pivot of index [i]. *)
Lemma pivot_split (root : DynamicRange) (bs : list (DynamicRange * list nat)) (post : list nat) (i : nat) :
  exists l2,
    flat (drop i bs) ++ end_ root :: post = pivot_of root bs i :: l2.
Proof.
  unfold pivot_of. destruct (bs !! i) as [b|] eqn:Hb.
  - rewrite (drop_S bs b i Hb), flat_cons. unfold span_nodes. simpl. eauto.
  - apply lookup_ge_None in Hb. rewrite drop_ge by done. simpl. eauto.
Qed.

Section Layout.
Variables (root : DynamicRange) (p : nat) (pre post : list nat).

Lemma laid_out_kids (d : dom) (bs : list (DynamicRange * list nat)) (i : nat) :
  laid_out d root p pre post bs ->
  kids d p = (pre ++ start root :: flat (take i bs)) ++
             flat (drop i bs) ++ end_ root :: post.
Proof.
  intros [[Hk _ _] _ _ _]. rewrite Hk.
  rewrite <- (take_drop i bs) at 1. rewrite flat_app. by list_norm.
Qed.

(** The span of the block at [j] is in place. *)
Lemma laid_out_block (d : dom) (bs : list (DynamicRange * list nat)) (j : nat) (r : DynamicRange)
      (c : list nat) :
  laid_out d root p pre post bs ->
  bs !! j = Some (r, c) ->
  attached d r p (pre ++ start root :: flat (take j bs)) c
           (flat (drop (S j) bs) ++ end_ root :: post).
Proof.
  intros [[Hk Hnd Hpar] _ _ _] Hj. split; [|done|done].
  rewrite Hk, (flat_middle bs j (r, c) Hj). unfold span_nodes. simpl. by list_norm.
Qed.

Lemma laid_out_old (d : dom) (bs : list (DynamicRange * list nat)) (x : nat) :
  laid_out d root p pre post bs ->
  x ∈ kids d p -> x < next_id d.
Proof.
  intros [[Hk Hnd Hpar] _ Hfr _] Hx.
  apply (fresh_from_lt d x Hfr). eapply parent_of_kind. by apply Hpar.
Qed.

Lemma laid_out_parent_old (d : dom) (bs : list (DynamicRange * list nat)) :
  laid_out d root p pre post bs -> p < next_id d.
Proof.
  intros [_ (kp & Hkp & _) Hfr _]. apply (fresh_from_lt d p Hfr). eauto.
Qed.

Lemma flat_in_kids (d : dom) (bs : list (DynamicRange * list nat)) (x : nat) :
  laid_out d root p pre post bs -> x ∈ flat bs -> x ∈ kids d p.
Proof. intros [[Hk _ _] _ _ _] Hx. rewrite Hk. set_solver. Qed.

End Layout.

(** What is not above [p] stays so when the parent pointers of the
    ancestors of [p] are kept. *)
Lemma not_above_kept (d d' : dom) (p a : nat) :
  (forall x, above d p x -> parent_of d' x = parent_of d x) ->
  ~ above d p a -> ~ above d' p a.
Proof.
  intros Hsame Hn [fuel Hf].
  by rewrite (not_above_frame d d' a fuel p Hsame Hn) in Hf.
Qed.

Lemma not_above_unused (d : dom) (p i : nat) :
  fresh_from d -> p < next_id d -> next_id d <= i -> ~ above d p i.
Proof. intros Hfr Hp Hi Ha. apply (above_lt d p i Hfr Hp) in Ha. lia. Qed.

Lemma perm_move {A} (l1 xs ys l3 k k' : list A) :
  k = (l1 ++ ys) ++ xs ++ l3 ->
  k' = l1 ++ xs ++ ys ++ l3 ->
  k' ≡ₚ k.
Proof.
  intros -> ->. rewrite <- app_assoc. apply Permutation_app_head.
  rewrite !app_assoc. apply Permutation_app_tail, Permutation_app_comm.
Qed.

Lemma laid_out_fresh_lt (root : DynamicRange) (p : nat) (pre post : list nat)
      (d : dom) (bs : list (DynamicRange * list nat)) :
  laid_out d root p pre post bs -> unused d (next_id d).
Proof. intros [_ _ Hfr _]. by apply Hfr. Qed.

(** ** The steps of the list, on the layout *)

Section Steps.
Context {T : Type} `{EqDecision T}.
Variables (renderer : ListRenderer T) (n : string).
Variables (root : DynamicRange) (p : nat) (pre post : list nat).

(** [insertAt(item, pivot)], the pivot being that of index [i]: a block of
    one text node is added at [i]. *)
Lemma insert_block (f : nat) (item : T) (s : string) (i : nat) (d : dom)
      (bs : list (DynamicRange * list nat)) :
  primitive_image (render renderer item) = Some s ->
  laid_out d root p pre post bs ->
  let a := next_id d in
  exists d',
    insertAt (S f) renderer n item (pivot_of root bs i) d =
      (Ok (MkDynamicRange a (a + 1)), d') /\
    laid_out d' root p pre post
             (take i bs ++ (MkDynamicRange a (a + 1), [a + 3]) :: drop i bs) /\
    chardata_of d' (a + 3) = Some s /\
    kind_of d' (a + 3) = Some Text /\
    console d' = console d /\
    next_id d' = a + 4 /\
    (forall x, x < a -> kind_of d' x = kind_of d x /\ chardata_of d' x = chardata_of d x).
Proof.
  intros Hs Hlo a. pose proof Hlo as [[Hk Hnd Hpar] (kp & Hkp & Hc) Hfr Hlv].
  destruct (pivot_split root bs post i) as (l2 & Hl2).
  pose proof (laid_out_kids root p pre post d bs i Hlo) as Hki. rewrite Hl2 in Hki.
  destruct (insertAt_primitive renderer n f item s (pivot_of root bs i) p
              (pre ++ start root :: flat (take i bs)) l2 d kp)
    as (d' & Hrun & Hk' & Hnd' & Hpar' & Hkp' & Hfr' & Hnext & Hq & Hpo & Hko & Hka & Hka1
        & Hka3 & Hcd & Hcon); try done.
  fold a in Hrun, Hk', Hnext, Hq, Hpo, Hko, Hka, Hka1, Hka3, Hcd.
  assert (Hpold : p < a) by (by eapply laid_out_parent_old).
  assert (Hkeep : forall x, above d p x -> parent_of d' x = parent_of d x).
  { intros x Hx. apply Hpo. by apply (above_lt d p x). }
  assert (Hk'' : kids d' p =
                 pre ++ start root ::
                 flat (take i bs ++ (MkDynamicRange a (a + 1), [a + 3]) :: drop i bs) ++
                 end_ root :: post).
  { rewrite Hk', <- Hl2. rewrite flat_app, flat_cons. unfold span_nodes. simpl.
    by list_norm. }
  exists d'. split_and!; try done.
  2: { intros x Hx. by apply (keeps_insertAt (S f) renderer n item _ d _ d' Hrun). }
  split.
  - done.
  - eauto.
  - done.
  - intros x Hx. rewrite flat_app, flat_cons in Hx. simpl in Hx.
    assert (Hcases : x ∈ flat bs \/ x ∈ [a; a + 3; a + 1]).
    { rewrite <- (take_drop i bs) at 1. rewrite flat_app. unfold span_nodes in Hx.
      simpl in Hx. set_solver. }
    destruct Hcases as [Hold|Hnew].
    + destruct (Hlv x Hold) as [Hkx Hax].
      assert (x < a).
      { apply (laid_out_old root p pre post d bs x Hlo).
        by apply (flat_in_kids root p pre post d bs). }
      split; [by rewrite Hko|]. by apply (not_above_kept d d').
    + split.
      * repeat (apply elem_of_cons in Hnew as [->|Hnew]); try congruence.
        by apply elem_of_nil in Hnew.
      * apply (not_above_kept d d'); [done|].
        apply not_above_unused; try done.
        repeat (apply elem_of_cons in Hnew as [->|Hnew]); try (unfold a; lia).
        by apply elem_of_nil in Hnew.
Qed.

(** [delete()] of the span of the block at [j]. *)
Lemma delete_block (j : nat) (r : DynamicRange) (c : list nat) (d : dom)
      (bs : list (DynamicRange * list nat)) :
  laid_out d root p pre post bs ->
  bs !! j = Some (r, c) ->
  exists d',
    Span.delete r d = (Ok tt, d') /\
    laid_out d' root p pre post (take j bs ++ drop (S j) bs) /\
    moved d d'.
Proof.
  intros Hlo Hj. pose proof Hlo as [[Hk Hnd Hpar] (kp & Hkp & Hc) Hfr Hlv].
  pose proof (laid_out_block root p pre post d bs j r c Hlo Hj) as Hatt.
  destruct (delete_in_place d r p _ c _ Hatt) as (d' & Hdel & Hk' & Hq' & Hp' & Hmv).
  pose proof Hmv as [Mk Mc Mn Mco Ms].
  assert (Hsub : forall x, x ∈ flat (take j bs ++ drop (S j) bs) -> x ∈ flat bs).
  { intros x. rewrite (flat_middle bs j (r, c) Hj), flat_app. set_solver. }
  assert (Hk'' : kids d' p =
                 pre ++ start root :: flat (take j bs ++ drop (S j) bs) ++ end_ root :: post).
  { rewrite Hk', flat_app. by list_norm. }
  assert (Hsl : kids d' p `sublist_of` kids d p).
  { rewrite Hk'. destruct Hatt as [Hka _ _]. rewrite Hka.
    apply sublist_app; [done|]. apply sublist_cons_r. left.
    apply sublist_inserts_l. apply sublist_cons_r. by left. }
  assert (Hnd' : NoDup (kids d' p)) by (by apply (sublist_NoDup _ _ Hnd Hsl)).
  assert (Hout : forall x, x ∈ kids d' p -> x ∉ span_nodes r c).
  { intros x Hx Hx'. rewrite Hk' in Hx.
    destruct (attached_markers _ _ _ _ _ _ Hatt)
      as (_ & _ & _ & Hs1 & He1 & _ & _ & Hs3 & He3 & _ & _ & _ & Hdis & Hdis2).
    unfold span_nodes in Hx'.
    apply elem_of_app in Hx as [Hx|Hx].
    - destruct (Hdis x Hx) as [Hd1 Hd2]. set_solver.
    - apply elem_of_cons in Hx' as [->|Hx']; [done|].
      apply elem_of_app in Hx' as [Hx'|Hx']; [by apply (Hdis2 x Hx')|].
      apply list_elem_of_singleton in Hx' as ->. done. }
  exists d'. split_and!; try done.
  split.
  - split; [done|done|].
    intros x Hx. rewrite Hp', decide_False by (by apply Hout).
    apply Hpar. by apply (elem_of_sublist _ _ _ Hx Hsl).
  - exists kp. by rewrite Mk.
  - intros i Hi. rewrite Mn in Hi. apply (unused_after_move d d' i (Hfr i Hi)).
    + intros x. by rewrite Mk.
    + intros x. rewrite Hp'. case_decide; auto.
  - intros x Hx. apply Hsub in Hx. destruct (Hlv x Hx) as [Hkx Hax].
    split; [by rewrite Mk|].
    apply (not_above_kept d d'); [|done].
    intros y Hy. rewrite Hp'. rewrite decide_False; [done|].
    intros Hin. apply (Hlv y); [|done].
    rewrite (flat_middle bs j (r, c) Hj). set_solver.
Qed.

(** The resolution of a primitive in the span of the block at [j]. *)
Lemma update_block (f : nat) (v : MutateAction) (s : string) (j : nat)
      (r : DynamicRange) (c : list nat) (d : dom) (bs : list (DynamicRange * list nat)) :
  primitive_image v = Some s ->
  laid_out d root p pre post bs ->
  bs !! j = Some (r, c) ->
  exists d',
    mutateRange (S f) r v d = (Ok tt, d') /\
    laid_out d' root p pre post (<[j := (r, [next_id d])]> bs) /\
    kind_of d' (next_id d) = Some Text /\
    chardata_of d' (next_id d) = Some s /\
    console d' = console d /\
    next_id d' = S (next_id d) /\
    (forall x, x <> next_id d ->
               kind_of d' x = kind_of d x /\ chardata_of d' x = chardata_of d x).
Proof.
  intros Hs Hlo Hj. pose proof Hlo as [[Hk Hnd Hpar] (kp & Hkp & Hc) Hfr Hlv].
  pose proof (laid_out_block root p pre post d bs j r c Hlo Hj) as Hatt.
  assert (Hun : unused d (next_id d)) by (by apply Hfr).
  destruct (mutateRange_primitive_in_place f r v s d p _ c _ kp Hs Hatt Hkp Hc Hun)
    as (d' & Hrun & Hatt' & Hq' & Hp' & Hk' & Hcd' & Hn' & Hco').
  pose proof Hatt' as [Hka' Hnd' Hpar'].
  assert (Hpold : p < next_id d) by (by eapply laid_out_parent_old).
  assert (Hjlt : j < length bs) by (by apply lookup_lt_Some in Hj).
  assert (Hflat : flat (<[j := (r, [next_id d])]> bs) =
                  flat (take j bs) ++ span_nodes r [next_id d] ++ flat (drop (S j) bs)).
  { rewrite insert_take_drop by done. by rewrite flat_app, flat_cons. }
  assert (Hcin : forall x, x ∈ c -> x ∈ flat bs).
  { intros x Hx. rewrite (flat_middle bs j (r, c) Hj). unfold span_nodes. set_solver. }
  assert (Hkeep : forall y, above d p y -> parent_of d' y = parent_of d y).
  { intros y Hy. rewrite Hp'.
    rewrite decide_False.
    - rewrite decide_False; [done|]. intros Hin. by apply (Hlv y (Hcin y Hin)).
    - intros ->. apply (above_lt d p _ Hfr Hpold) in Hy. lia. }
  exists d'. split_and!; try done.
  - split.
    + split; [|done|done]. rewrite Hka', Hflat. unfold span_nodes. by list_norm.
    + exists kp. rewrite Hk'. rewrite decide_False by lia. done.
    + intros i Hi. rewrite Hn' in Hi. split.
      * apply kind_of_None. rewrite Hk', decide_False by lia.
        apply kind_of_None. apply Hfr. lia.
      * intros x. rewrite Hp'. repeat case_decide; try done.
        -- intros [= ->]. lia.
        -- apply Hfr. lia.
    + intros x Hx. rewrite Hflat in Hx.
      destruct (decide (x = next_id d)) as [->|Hne].
      * split; [rewrite Hk', decide_True by done; done|].
        apply (not_above_kept d d'); [done|]. by apply not_above_unused.
      * assert (Hold : x ∈ flat bs).
        { rewrite (flat_middle bs j (r, c) Hj). unfold span_nodes in *. set_solver. }
        destruct (Hlv x Hold) as [Hkx Hax].
        split; [by rewrite Hk', decide_False|]. by apply (not_above_kept d d').
  - rewrite Hk'. by rewrite decide_True.
  - rewrite Hcd'. by rewrite decide_True.
  - intros x Hx. by rewrite Hk', Hcd', !decide_False.
Qed.

(** The relocation of the block at [j] in front of the block at [i],
    [i < j]. *)
Lemma relocate_block (i j : nat) (r : DynamicRange) (c : list nat) (d : dom)
      (bs : list (DynamicRange * list nat)) :
  laid_out d root p pre post bs ->
  bs !! j = Some (r, c) ->
  i < j ->
  exists d',
    (cached <- Span.detach r ; insert_at_point cached (pivot_of root bs i)) d = (Ok tt, d') /\
    laid_out d' root p pre post (splice_in i [(r, c)] (splice_out j bs)) /\
    console d' = console d /\
    next_id d' = S (next_id d) /\
    (forall x, x <> next_id d ->
               kind_of d' x = kind_of d x /\ chardata_of d' x = chardata_of d x).
Proof.
  intros Hlo Hj Hij. pose proof Hlo as [[Hk Hnd Hpar] (kp & Hkp & Hc) Hfr Hlv].
  pose proof (laid_out_block root p pre post d bs j r c Hlo Hj) as Hatt.
  assert (Hjlt : j < length bs) by (by apply lookup_lt_Some in Hj).
  destruct (bs !! i) as [bi|] eqn:Hbi; [|apply lookup_ge_None in Hbi; lia].
  assert (Hpv : pivot_of root bs i = start (fst bi)) by (unfold pivot_of; by rewrite Hbi).
  (* the blocks from [i] to [j] start with the pivot *)
  assert (Hmid : exists l2, flat (take j bs) = flat (take i bs) ++ start (fst bi) :: l2).
  { rewrite <- (take_drop i (take j bs)). rewrite take_take, Nat.min_l by lia.
    rewrite flat_app.
    assert (Hd : drop i (take j bs) !! 0 = Some bi).
    { rewrite lookup_drop, Nat.add_0_r, lookup_take_lt by lia. done. }
    destruct (drop i (take j bs)) as [|b0 rest] eqn:Hdr; [done|].
    injection Hd as ->. rewrite flat_cons. unfold span_nodes. simpl. eauto. }
  destruct Hmid as (l2 & Hmid).
  assert (Hatt2 : attached d r p ((pre ++ start root :: flat (take i bs)) ++
                                  start (fst bi) :: l2) c
                           (flat (drop (S j) bs) ++ end_ root :: post)).
  { destruct Hatt as [Hka Hna Hpa]. split; [|done|done].
    rewrite Hka, Hmid. by list_norm. }
  assert (Hsp : forall x, x ∈ span_nodes r c -> x ∈ flat bs).
  { intros x Hx. rewrite (flat_middle bs j (r, c) Hj). set_solver. }
  destruct (relocate_spec r p (start (fst bi)) (pre ++ start root :: flat (take i bs)) l2 c
              (flat (drop (S j) bs) ++ end_ root :: post) d kp)
    as (d' & Hrun & Hk' & Hq' & Hp' & Hkd' & Hcd' & Hn' & Hco'); try done.
  { intros x Hx. apply Hlv. by apply Hsp. }
  { by apply Hfr. }
  assert (Hbs' : splice_in i [(r, c)] (splice_out j bs) =
                 take i bs ++ (r, c) :: drop i (take j bs) ++ drop (S j) bs).
  { unfold splice_in, splice_out.
    rewrite take_app_le by (rewrite length_take; lia).
    rewrite take_take, Nat.min_l by lia.
    rewrite drop_app_le by (rewrite length_take; lia). done. }
  assert (Hflat' : flat (splice_in i [(r, c)] (splice_out j bs)) =
                   flat (take i bs) ++ span_nodes r c ++ (start (fst bi) :: l2) ++
                   flat (drop (S j) bs)).
  { rewrite Hbs', flat_app, flat_cons, flat_app. simpl fst. simpl snd.
    do 2 f_equal.
    assert (Htj : flat (take j bs) = flat (take i bs) ++ flat (drop i (take j bs))).
    { rewrite <- (take_drop i (take j bs)) at 1.
      rewrite take_take, Nat.min_l by lia. by rewrite flat_app. }
    rewrite Htj in Hmid. apply app_inv_head in Hmid. by rewrite Hmid. }
  assert (Hk'' : kids d' p =
                 pre ++ start root :: flat (splice_in i [(r, c)] (splice_out j bs)) ++
                 end_ root :: post).
  { rewrite Hk', Hflat'. by list_norm. }
  assert (Hperm : kids d' p ≡ₚ kids d p).
  { destruct Hatt2 as [Hka _ _].
    apply (perm_move (pre ++ start root :: flat (take i bs)) (span_nodes r c)
             (start (fst bi) :: l2) (flat (drop (S j) bs) ++ end_ root :: post)).
    - rewrite Hka. unfold span_nodes. by list_norm.
    - rewrite Hk'. by list_norm. }
  assert (Hpold : p < next_id d) by (by eapply laid_out_parent_old).
  assert (Hsame : forall x, x ∈ flat (splice_in i [(r, c)] (splice_out j bs)) <-> x ∈ flat bs).
  { intros x. rewrite Hflat', (flat_middle bs j (r, c) Hj), Hmid. set_solver. }
  rewrite Hpv. exists d'. split_and!; try done.
  2: { intros x Hx. split; [rewrite Hkd'; by rewrite decide_False|by apply Hcd']. }
  split.
  - split; [done| |].
    + by rewrite Hperm.
    + intros x Hx. rewrite Hp'. apply Hpar. by rewrite <- Hperm.
  - exists kp. rewrite Hkd'. rewrite decide_False by lia. done.
  - intros k Hk0. rewrite Hn' in Hk0. split.
    + apply kind_of_None. rewrite Hkd', decide_False by lia.
      apply kind_of_None. apply Hfr. lia.
    + intros x. rewrite Hp'. apply Hfr. lia.
  - intros x Hx. apply Hsame in Hx. destruct (Hlv x Hx) as [Hkx Hax].
    assert (x < next_id d).
    { apply (laid_out_old root p pre post d bs x Hlo).
      by apply (flat_in_kids root p pre post d bs). }
    split; [rewrite Hkd', decide_False by lia; done|].
    apply (not_above_kept d d'); [|done]. intros y _. apply Hp'.
Qed.

(** [root.static.deleteContents()] *)
Lemma clear_blocks (d : dom) (bs : list (DynamicRange * list nat)) :
  laid_out d root p pre post bs ->
  exists d',
    empty_range root d = (Ok tt, d') /\
    laid_out d' root p pre post [] /\
    (forall x, x ∈ flat bs -> parent_of d' x = None) /\
    moved d d'.
Proof.
  intros Hlo. pose proof Hlo as [Hatt (kp & Hkp & Hc) Hfr Hlv].
  destruct (deleteContents_in_place d root p pre (flat bs) post Hatt)
    as (d' & Hrun & Hatt' & Hq' & Hp' & Hmv).
  pose proof Hmv as [Mk Mc Mn Mco Ms].
  exists d'. split_and!; try done.
  - split; try done.
    + exists kp. by rewrite Mk.
    + intros i Hi. rewrite Mn in Hi. apply (unused_after_move d d' i (Hfr i Hi)).
      * intros x. by rewrite Mk.
      * intros x. rewrite Hp'. case_decide; auto.
    + intros x Hx. simpl in Hx. by apply elem_of_nil in Hx.
  - intros x Hx. rewrite Hp'. by rewrite decide_True.
Qed.

End Steps.

(** ** Splices *)

Section Splices.
Context {A B : Type}.
Implicit Types (l xs : list A) (x y : A) (g : A -> B).

Lemma fmap_splice_in g (i : nat) xs l :
  map g (splice_in i xs l) = splice_in i (map g xs) (map g l).
Proof.
  unfold splice_in. rewrite !map_app.
  change (map g) with (fmap (M:=list) g). by rewrite fmap_take, fmap_drop.
Qed.

Lemma fmap_splice_out g (j : nat) l :
  map g (splice_out j l) = splice_out j (map g l).
Proof.
  unfold splice_out. rewrite !map_app.
  change (map g) with (fmap (M:=list) g). by rewrite fmap_take, fmap_drop.
Qed.

Lemma fmap_insert g (i : nat) x l :
  map g (<[i := x]> l) = <[i := g x]> (map g l).
Proof. change (map g) with (fmap (M:=list) g). apply list_fmap_insert. Qed.

Lemma lookup_map g (i : nat) l : map g l !! i = g <$> l !! i.
Proof. change (map g) with (fmap (M:=list) g). apply list_lookup_fmap. Qed.

Lemma map_take g (i : nat) l : map g (take i l) = take i (map g l).
Proof. change (map g) with (fmap (M:=list) g). apply fmap_take. Qed.

Lemma map_drop g (i : nat) l : map g (drop i l) = drop i (map g l).
Proof. change (map g) with (fmap (M:=list) g). apply fmap_drop. Qed.

Lemma length_splice_out (j : nat) l :
  j < length l -> S (length (splice_out j l)) = length l.
Proof.
  intros Hj. unfold splice_out. rewrite length_app, length_take, length_drop. lia.
Qed.

Lemma take_splice_in (i : nat) xs l :
  i <= length l -> take i (splice_in i xs l) = take i l.
Proof.
  intros Hi. unfold splice_in. rewrite take_app_le by (rewrite length_take; lia).
  rewrite take_take. f_equal. lia.
Qed.

Lemma take_splice_out (i j : nat) l :
  i <= j -> take i (splice_out j l) = take i l.
Proof.
  intros Hij. unfold splice_out.
  destruct (decide (j <= length l)) as [Hj|Hj].
  - rewrite take_app_le by (rewrite length_take; lia).
    rewrite take_take. f_equal. lia.
  - rewrite (take_ge l j), (drop_ge l (S j)) by lia. by rewrite app_nil_r.
Qed.

Lemma lookup_splice_in (i : nat) x l :
  i <= length l -> splice_in i [x] l !! i = Some x.
Proof.
  intros Hi. unfold splice_in.
  rewrite lookup_app_r by (rewrite length_take; lia).
  rewrite length_take. by replace (i - i `min` length l) with 0 by lia.
Qed.

Lemma lookup_splice_in_after (i j : nat) x l :
  i <= j -> i <= length l -> splice_in i [x] l !! (S j) = l !! j.
Proof.
  intros Hij Hi. unfold splice_in.
  rewrite lookup_app_r by (rewrite length_take; lia).
  rewrite length_take. replace (S j - i `min` length l) with (S (j - i)) by lia.
  simpl. rewrite lookup_drop. f_equal. lia.
Qed.

Lemma insert_splice_in (i : nat) x y l :
  i <= length l -> <[i := y]> (splice_in i [x] l) = splice_in i [y] l.
Proof.
  intros Hi. unfold splice_in.
  rewrite insert_app_r_alt by (rewrite length_take; lia).
  rewrite length_take. by replace (i - i `min` length l) with 0 by lia.
Qed.

Lemma splice_out_insert (j : nat) y l : splice_out j (<[j := y]> l) = splice_out j l.
Proof.
  unfold splice_out. by rewrite take_insert_ge, drop_insert_lt by lia.
Qed.

Lemma splice_out_splice_in (i : nat) x l :
  i < length l -> splice_out (S i) (splice_in i [x] l) = <[i := x]> l.
Proof.
  intros Hi. unfold splice_out, splice_in.
  rewrite insert_take_drop by done.
  replace (take i l ++ [x] ++ drop i l) with ((take i l ++ [x]) ++ drop i l)
    by (by rewrite <- app_assoc).
  assert (Hlen : length (take i l ++ [x]) = S i)
    by (rewrite length_app, length_take; simpl; lia).
  rewrite take_app_length' by (by rewrite Hlen).
  rewrite drop_app, Hlen, (drop_ge (take i l ++ [x])) by lia.
  replace (S (S i) - S i) with 1 by lia.
  rewrite <- app_assoc. simpl. do 2 f_equal.
  rewrite drop_drop. f_equal. lia.
Qed.

Lemma splice_out_after_splice_in (i j : nat) x l :
  i <= j -> j < length l ->
  splice_out (S j) (splice_in i [x] l) = splice_in i [x] (splice_out j l).
Proof.
  intros Hij Hj. unfold splice_out, splice_in.
  rewrite (take_app_le (take j l)) by (rewrite length_take; lia).
  rewrite (drop_app_le (take j l)) by (rewrite length_take; lia).
  rewrite take_take, Nat.min_l by lia.
  replace (take i l ++ [x] ++ drop i l) with ((take i l ++ [x]) ++ drop i l)
    by (by rewrite <- app_assoc).
  assert (Hlen : length (take i l ++ [x]) = S i)
    by (rewrite length_app, length_take; simpl; lia).
  rewrite take_app, drop_app, Hlen.
  rewrite (take_ge (take i l ++ [x])), (drop_ge (take i l ++ [x])) by lia.
  replace (S j - S i) with (j - i) by lia.
  replace (S (S j) - S i) with (S (j - i)) by lia.
  rewrite drop_drop. replace (i + S (j - i)) with (S j) by lia.
  rewrite <- !app_assoc. simpl. do 2 f_equal. f_equal.
  rewrite take_drop_commute. f_equal. f_equal. lia.
Qed.

Lemma splice_in_middle (i : nat) x l :
  splice_in i [x] l = take i l ++ x :: drop i l.
Proof. done. Qed.

Lemma splice_in_splice_out (i : nat) x l :
  l !! i = Some x -> splice_in i [x] (splice_out i l) = l.
Proof.
  intros Hi. assert (i < length l) by (by apply lookup_lt_Some in Hi).
  unfold splice_in, splice_out.
  rewrite take_app_le, drop_app_le by (rewrite length_take; lia).
  rewrite take_take, Nat.min_l by lia.
  rewrite (drop_ge (take i l)) by (rewrite length_take; lia). simpl.
  by apply take_drop_middle.
Qed.

Lemma lookup_splice_in_splice_out (i j : nat) x l :
  i <= j -> j < length l -> splice_in i [x] (splice_out j l) !! i = Some x.
Proof.
  intros Hij Hj. apply lookup_splice_in.
  pose proof (length_splice_out j l Hj). lia.
Qed.

Lemma take_splice_in_splice_out (i j : nat) x l :
  i <= j -> j < length l -> take i (splice_in i [x] (splice_out j l)) = take i l.
Proof.
  intros Hij Hj. rewrite take_splice_in.
  - by apply take_splice_out.
  - pose proof (length_splice_out j l Hj). lia.
Qed.

End Splices.

(** ** The reconciler keeps the list rendered *)

Lemma set_data_run {T} (g : list (Packed T) -> list (Packed T)) (st : lstate T) :
  set_data g st = (Ok tt, MkLState (world st) (g (data st)) (arrays st)).
Proof. done. Qed.

Lemma catch_console_Ok (task : M dom unit) (d d' : dom) :
  task d = (Ok tt, d') -> catch_console task d = (Ok tt, d').
Proof. intros Ht. unfold catch_console. by rewrite Ht. Qed.

Lemma pivot_at_of {T} (root : DynamicRange) (l : list (Packed T))
      (bs : list (DynamicRange * list nat)) (i : nat) :
  map range l = map fst bs ->
  pivot_at root i l = pivot_of root bs i.
Proof.
  intros Heq. unfold pivot_at, pivot_of.
  assert (Hi : range <$> l !! i = fst <$> bs !! i)
    by (by rewrite <- !lookup_map, Heq).
  destruct (l !! i), (bs !! i); simpl in Hi; try done. by injection Hi as ->.
Qed.

Lemma block_of_record {T} (l : list (Packed T)) (bs : list (DynamicRange * list nat))
      (j : nat) (x : Packed T) :
  map range l = map fst bs ->
  l !! j = Some x ->
  exists c, bs !! j = Some (range x, c).
Proof.
  intros Heq Hj.
  assert (Hi : range <$> l !! j = fst <$> bs !! j)
    by (by rewrite <- !lookup_map, Heq).
  rewrite Hj in Hi. destruct (bs !! j) as [[r c]|]; simpl in Hi; [|done].
  injection Hi as ->. eauto.
Qed.

Lemma length_blocks {T} (l : list (Packed T)) (bs : list (DynamicRange * list nat)) :
  map range l = map fst bs -> length bs = length l.
Proof. intros Heq. by rewrite <- (length_map fst bs), <- Heq, length_map. Qed.

(** *** What the blocks show *)

Section Shows.
Context {T : Type}.
Variable renderer : ListRenderer T.
Implicit Types (l : list (Packed T)) (bs : list (DynamicRange * list nat)).

Lemma shows_splice_in (d : dom) (i : nat) l bs x b :
  shows renderer d l bs -> shows_item renderer d x b ->
  shows renderer d (splice_in i [x] l) (splice_in i [b] bs).
Proof.
  intros Hs Hx. unfold shows, splice_in.
  apply Forall2_app; [by apply Forall2_take|].
  apply Forall2_cons. split; [done|]. by apply Forall2_drop.
Qed.

Lemma shows_splice_out (d : dom) (j : nat) l bs :
  shows renderer d l bs -> shows renderer d (splice_out j l) (splice_out j bs).
Proof.
  intros Hs. unfold shows, splice_out.
  apply Forall2_app; [by apply Forall2_take|by apply Forall2_drop].
Qed.

Lemma shows_lookup (d : dom) (j : nat) l bs x b :
  shows renderer d l bs -> l !! j = Some x -> bs !! j = Some b ->
  shows_item renderer d x b.
Proof. intros Hs Hx Hb. by apply (Forall2_lookup_lr _ l bs j). Qed.

(** A step that leaves the nodes below [next_id] as they are leaves what
    the blocks show. *)
Lemma shows_frame (d d' : dom) (root : DynamicRange) (p : nat) (pre post : list nat) l bs :
  laid_out d root p pre post bs ->
  (forall x, x < next_id d ->
             kind_of d' x = kind_of d x /\ chardata_of d' x = chardata_of d x) ->
  shows renderer d l bs -> shows renderer d' l bs.
Proof.
  intros Hlo Hfr Hs.
  assert (Hold : forall b t, b ∈ bs -> t ∈ snd b -> t < next_id d).
  { intros b t Hb Ht. apply (laid_out_old root p pre post d bs t Hlo).
    apply (flat_in_kids root p pre post d bs t Hlo).
    apply elem_of_flat. exists b. split; [done|]. unfold span_nodes. set_solver. }
  unfold shows in *. clear Hlo. induction Hs as [|x b l bs Hx Hs IH].
  - constructor.
  - constructor.
    + destruct Hx as (t & s & Hb & Hi & Hk & Hc). exists t, s.
      destruct (Hfr t) as [-> ->]; [|done].
      apply (Hold b t); [set_solver|]. rewrite Hb. set_solver.
    + apply IH. intros b' t Hb' Ht. apply (Hold b' t); [set_solver|done].
Qed.

End Shows.

Section Reconciliation.
Context {T : Type} `{EqDecision T}.
Variables (f : nat) (renderer : ListRenderer T) (n : string).
Variables (root : DynamicRange) (p : nat) (pre post : list nat).

(** The renderer answers a primitive, when it renders and when it
    updates. *)
Hypothesis Hrender : forall x, is_Some (primitive_image (render renderer x)).
Hypothesis Hupdate :
  forall upd rg x old,
    update renderer = Some upd -> is_Some (primitive_image (upd rg x old)).

Lemma rendered_splice (i j : nat) (x : Packed T) (b : DynamicRange * list nat)
      (l : list (Packed T)) (bs : list (DynamicRange * list nat)) :
  map range l = map fst bs -> range x = fst b ->
  map range (splice_in i [x] (splice_out j l)) =
  map fst (splice_in i [b] (splice_out j bs)).
Proof.
  intros Hr Hx. rewrite !fmap_splice_in, !fmap_splice_out, Hr. simpl. by rewrite Hx.
Qed.

(** [replace(packed, item, point)], the record having been brought from
    [j] to [i] and the point being the pivot of [i]. *)
Lemma replace_rendered (i j : nat) (found : Packed T) (item : T) (d : dom)
      (arrs : list (list T)) (bs : list (DynamicRange * list nat))
      (l0 : list (Packed T)) :
  map range l0 = map fst bs ->
  l0 !! j = Some found ->
  laid_out d root p pre post bs ->
  i <= j ->
  exists d' b,
    replace (S f) renderer n i found item (pivot_of root bs i)
            (MkLState d (splice_in i [found] (splice_out j l0)) arrs)
      = (Ok tt, MkLState d' (splice_in i [MkPacked (fst b) item] (splice_out j l0)) arrs) /\
    laid_out d' root p pre post (splice_in i [b] (splice_out j bs)) /\
    console d' = console d /\
    shows_item renderer d' (MkPacked (fst b) item) b /\
    (forall x, x < next_id d ->
               kind_of d' x = kind_of d x /\ chardata_of d' x = chardata_of d x).
Proof.
  intros Hr Hj Hlo Hij.
  destruct (block_of_record _ _ _ _ Hr Hj) as (c & Hbj).
  destruct (Hrender item) as [s Hs].
  assert (Hjlt : j < length bs) by (by apply lookup_lt_Some in Hbj).
  assert (Hjlt0 : j < length l0) by (by apply lookup_lt_Some in Hj).
  destruct (insert_block renderer n root p pre post f item s i d bs Hs Hlo)
    as (d1 & Hins & Hlo1 & Hcd1 & Hk1 & Hco1 & Hn1 & Hfr1).
  set (a := next_id d) in *.
  set (b := (MkDynamicRange a (a + 1), [a + 3])).
  fold b in Hlo1.
  assert (Hj1 : (take i bs ++ b :: drop i bs) !! (S j) = Some (range found, c)).
  { change (take i bs ++ b :: drop i bs) with (splice_in i [b] bs).
    rewrite lookup_splice_in_after by lia. done. }
  destruct (delete_block root p pre post (S j) (range found) c d1 _ Hlo1 Hj1)
    as (d2 & Hdel & Hlo2 & Hmv2).
  pose proof Hmv2 as [Mk Mc Mn Mco Ms].
  exists d2, b. split_and!.
  - unfold replace.
    rewrite (bind_Ok _ _ _ _ _ (liftD_Ok _ (MkLState d _ arrs) _ _ Hins)).
    rewrite (bind_Ok (liftD (Span.delete (range found))) _ _
               (MkLState d2 (splice_in i [found] (splice_out j l0)) arrs) tt).
    + rewrite set_data_run. simpl. f_equal. f_equal.
      apply insert_splice_in. pose proof (length_splice_out j l0 Hjlt0). lia.
    + by apply (liftD_Ok _ (MkLState d1 _ arrs)).
  - change (take (S j) (take i bs ++ b :: drop i bs) ++
            drop (S (S j)) (take i bs ++ b :: drop i bs))
      with (splice_out (S j) (splice_in i [b] bs)) in Hlo2.
    by rewrite splice_out_after_splice_in in Hlo2 by lia.
  - by rewrite Mco.
  - exists (a + 3), s. simpl. split_and!; [done|done| |]; by rewrite ?Mk, ?Mc.
  - intros x Hx. rewrite Mk, Mc. by apply Hfr1.
Qed.

(** One turn of [assignData] at the index [i]: the turn completes, the
    list stays rendered, the values before [i] are kept and the value at
    [i] is the item; when [update] agrees with [render], the blocks go on
    showing the records. *)
Lemma assign_step_rendered (i : nat) (item : T) (st : lstate T)
      (bs : list (DynamicRange * list nat)) :
  rendered root p pre post bs st ->
  i <= length (data st) ->
  exists st' bs',
    assign_step (S f) renderer n root i item st = (Ok tt, st') /\
    rendered root p pre post bs' st' /\
    arrays st' = arrays st /\
    console (world st') = console (world st) /\
    take i (map value (data st')) = take i (map value (data st)) /\
    (map value (data st') !! i = Some item) /\
    (update_agrees renderer ->
     shows renderer (world st) (data st) bs ->
     shows renderer (world st') (data st') bs').
Proof.
  intros [Hr Hlo] Hi.
  pose proof (length_blocks _ _ Hr) as Hlen.
  pose proof (pivot_at_of root (data st) bs i Hr) as Hpv.
  pose proof (laid_out_fresh_lt root p pre post (world st) bs Hlo) as Hnid.
  unfold assign_step, bind at 1, get.
  destruct (scan renderer item i (data st)) as [j|] eqn:Hscan.
  - (* a record with the key is found at [j] *)
    destruct (scan_Some renderer item i j (data st) Hscan) as (Hij & found & Hj & Hkey & _).
    rewrite Hj.
    assert (Hjlt : j < length (data st)) by (by apply lookup_lt_Some in Hj).
    destruct (block_of_record _ _ _ _ Hr Hj) as (c & Hbj).
    destruct (Nat.eqb_spec j i) as [->|Hne].
    + destruct (decide (item = value found)) as [->|Hdiff].
      * exists st, bs. split_and!; try done.
        by rewrite lookup_map, Hj.
      * destruct (update renderer) as [upd|] eqn:Hupd.
        -- destruct (Hupdate upd (range found) item (value found) eq_refl) as [s Hs].
           destruct (update_block root p pre post f _ s i (range found) c (world st) bs
                       Hs Hlo Hbj) as (d' & Hrun & Hlo' & Hk' & Hcd' & Hco' & Hn' & Hfr').
           exists (MkLState d' (<[i := MkPacked (range found) item]> (data st)) (arrays st)),
                  (<[i := (range found, [next_id (world st)])]> bs).
           split_and!; try done.
           ++ rewrite (bind_Ok _ _ _ _ _ (set_data_run _ st)).
              unfold run_update.
              apply (liftD_Ok _ (MkLState (world st) _ (arrays st))).
              by apply catch_console_Ok.
           ++ split; [|done]. simpl. rewrite !fmap_insert. simpl. by rewrite Hr.
           ++ simpl. rewrite fmap_insert. by rewrite take_insert_ge by lia.
           ++ simpl. rewrite fmap_insert. apply list_lookup_insert_eq.
              by rewrite length_map.
           ++ intros Hag Hsh. simpl. apply Forall2_insert.
              ** apply (shows_frame renderer (world st) d' root p pre post _ bs Hlo);
                   [|done]. intros x Hx. apply Hfr'. lia.
              ** exists (next_id (world st)), s. simpl. split_and!; try done.
                 rewrite <- (Hag upd (range found) item (value found) Hupd). done.
        -- destruct (replace_rendered i i found item (world st) (arrays st) bs (data st)
                       Hr Hj Hlo Hij)
             as (d' & b & Hrun & Hlo' & Hco' & Hsb & Hfr').
           rewrite (splice_in_splice_out i found (data st) Hj) in Hrun.
           assert (Hpt : start (range found) = pivot_of root bs i)
             by (unfold pivot_of; by rewrite Hbj).
           rewrite Hpt.
           assert (Hrun' : replace (S f) renderer n i found item (pivot_of root bs i) st =
                           (Ok tt, MkLState d' (splice_in i [MkPacked (fst b) item]
                                                  (splice_out i (data st))) (arrays st)))
             by (destruct st; exact Hrun).
           rewrite Hrun'.
           eexists _, (splice_in i [b] (splice_out i bs)).
           split_and!; try done.
           ++ split; [|done]. simpl. by apply rendered_splice.
           ++ simpl. rewrite fmap_splice_in, fmap_splice_out.
              apply take_splice_in_splice_out; [lia|by rewrite length_map].
           ++ simpl. rewrite fmap_splice_in, fmap_splice_out.
              apply lookup_splice_in_splice_out; [lia|by rewrite length_map].
           ++ intros Hag Hsh. simpl. apply shows_splice_in; [|done].
              apply shows_splice_out.
              by apply (shows_frame renderer (world st) d' root p pre post _ bs Hlo).
    + (* the record is moved from [j] to [i] *)
      assert (Hlt : i < j) by lia.
      rewrite Hpv.
      set (l1 := splice_in i [found] (splice_out j (data st))).
      assert (Hl1v : take i (map value l1) = take i (map value (data st))).
      { unfold l1. rewrite fmap_splice_in, fmap_splice_out.
        apply take_splice_in_splice_out; [lia|by rewrite length_map]. }
      assert (Hl1i : map value l1 !! i = Some (value found)).
      { unfold l1. rewrite fmap_splice_in, fmap_splice_out.
        apply lookup_splice_in_splice_out; [lia|by rewrite length_map]. }
      assert (Hl1len : i < length l1).
      { apply lookup_lt_Some in Hl1i. by rewrite length_map in Hl1i. }
      assert (Hso : i <= length (splice_out j (data st))).
      { pose proof (length_splice_out j (data st) Hjlt). lia. }
      unfold bind at 1. rewrite set_data_run.
      unfold bind at 1. rewrite set_data_run. simpl data. simpl world. simpl arrays.
      fold l1.
      destruct (decide (item = value found)) as [->|Hdiff].
      * destruct (relocate_block root p pre post i j (range found) c (world st) bs
                    Hlo Hbj Hlt) as (d' & Hrun & Hlo' & Hco' & Hn' & Hfr').
        exists (MkLState d' l1 (arrays st)),
               (splice_in i [(range found, c)] (splice_out j bs)).
        split_and!; try done.
        -- rewrite liftD_bind.
           by apply (liftD_Ok _ (MkLState (world st) l1 (arrays st))).
        -- split; [|done]. simpl. unfold l1. by apply rendered_splice.
        -- intros Hag Hsh. simpl.
           assert (Hsh' : shows renderer d' (data st) bs).
           { apply (shows_frame renderer (world st) d' root p pre post _ bs Hlo); [|done].
             intros x Hx. apply Hfr'. lia. }
           unfold l1. apply shows_splice_in; [by apply shows_splice_out|].
           by apply (shows_lookup renderer d' j (data st) bs).
      * destruct (update renderer) as [upd|] eqn:Hupd.
        -- destruct (Hupdate upd (range found) item (value found) eq_refl) as [s Hs].
           destruct (update_block root p pre post f _ s j (range found) c (world st) bs
                       Hs Hlo Hbj) as (d1 & Hrun1 & Hlo1 & Hk1 & Hcd1 & Hco1 & Hn1 & Hfr1).
           set (c1 := [next_id (world st)]) in *.
           assert (Hbj1 : <[j := (range found, c1)]> bs !! j = Some (range found, c1)).
           { apply list_lookup_insert_eq. lia. }
           destruct (relocate_block root p pre post i j (range found) c1 d1 _
                       Hlo1 Hbj1 Hlt) as (d' & Hrun & Hlo' & Hco' & Hn' & Hfr').
           assert (Hpv1 : pivot_of root (<[j := (range found, c1)]> bs) i = pivot_of root bs i).
           { unfold pivot_of. rewrite list_lookup_insert_ne by lia. done. }
           rewrite Hpv1, splice_out_insert in *.
           exists (MkLState d' (<[i := MkPacked (range found) item]> l1) (arrays st)),
                  (splice_in i [(range found, c1)] (splice_out j bs)).
           assert (Hins : <[i := MkPacked (range found) item]> l1 =
                          splice_in i [MkPacked (range found) item] (splice_out j (data st)))
             by (by apply insert_splice_in).
           split_and!; try done.
           ++ rewrite (bind_Ok _ _ _ _ _ (set_data_run _ _)). simpl.
              unfold run_update.
              rewrite (bind_Ok (liftD (catch_console _)) _ _
                         (MkLState d1 (<[i := MkPacked (range found) item]> l1) (arrays st)) tt).
              ** rewrite liftD_bind.
                 by apply (liftD_Ok _ (MkLState d1 _ (arrays st))).
              ** apply (liftD_Ok _ (MkLState (world st) _ (arrays st))).
                 by apply catch_console_Ok.
           ++ split; [|done]. simpl. rewrite Hins. by apply rendered_splice.
           ++ simpl. congruence.
           ++ simpl. rewrite fmap_insert. rewrite take_insert_ge by lia. done.
           ++ simpl. rewrite fmap_insert. apply list_lookup_insert_eq.
              by rewrite length_map.
           ++ intros Hag Hsh. simpl. rewrite Hins.
              assert (Hkeep : forall x, x < next_id (world st) ->
                        kind_of d' x = kind_of (world st) x /\
                        chardata_of d' x = chardata_of (world st) x).
              { intros x Hx. destruct (Hfr' x) as [-> ->]; [lia|]. apply Hfr1. lia. }
              apply shows_splice_in.
              ** apply shows_splice_out.
                 by apply (shows_frame renderer (world st) d' root p pre post _ bs Hlo).
              ** exists (next_id (world st)), s. simpl.
                 destruct (Hfr' (next_id (world st))) as [-> ->]; [lia|].
                 split_and!; try done.
                 rewrite <- (Hag upd (range found) item (value found) Hupd). done.
        -- destruct (replace_rendered i j found item (world st) (arrays st) bs (data st)
                       Hr Hj Hlo Hij)
             as (d' & b & Hrun & Hlo' & Hco' & Hsb & Hfr').
           fold l1 in Hrun. rewrite Hrun.
           eexists _, (splice_in i [b] (splice_out j bs)).
           split_and!; try done.
           ++ split; [|done]. simpl. by apply rendered_splice.
           ++ simpl. rewrite fmap_splice_in, fmap_splice_out.
              apply take_splice_in_splice_out; [lia|by rewrite length_map].
           ++ simpl. rewrite fmap_splice_in, fmap_splice_out.
              apply lookup_splice_in_splice_out; [lia|by rewrite length_map].
           ++ intros Hag Hsh. simpl. apply shows_splice_in; [|done].
              apply shows_splice_out.
              by apply (shows_frame renderer (world st) d' root p pre post _ bs Hlo).
  - (* no record with the key from [i] on: a new one *)
    rewrite Hpv. destruct (Hrender item) as [s Hs].
    destruct (insert_block renderer n root p pre post f item s i (world st) bs Hs Hlo)
      as (d' & Hins & Hlo' & Hcd' & Hk' & Hco' & Hn' & Hfr').
    set (a := next_id (world st)) in *.
    exists (MkLState d' (splice_in i [MkPacked (MkDynamicRange a (a + 1)) item] (data st))
                     (arrays st)),
           (splice_in i [(MkDynamicRange a (a + 1), [a + 3])] bs).
    split_and!; try done.
    + by rewrite (bind_Ok _ _ _ _ _ (liftD_Ok _ st _ _ Hins)).
    + split; [|done]. simpl. by rewrite !fmap_splice_in, Hr.
    + simpl. rewrite fmap_splice_in. apply take_splice_in. by rewrite length_map.
    + simpl. rewrite fmap_splice_in. apply lookup_splice_in. by rewrite length_map.
    + intros Hag Hsh. simpl. apply shows_splice_in.
      * by apply (shows_frame renderer (world st) d' root p pre post _ bs Hlo).
      * exists (a + 3), s. by split_and!.
Qed.

End Reconciliation.

Section SpliceEnds.
Context {A : Type}.
Implicit Types (l xs : list A) (x : A).

Lemma splice_in_cons (k : nat) x xs l :
  splice_in (S k) xs (splice_in k [x] l) = splice_in k (x :: xs) l.
Proof.
  unfold splice_in.
  replace (take k l ++ [x] ++ drop k l) with ((take k l ++ [x]) ++ drop k l)
    by (by rewrite <- app_assoc).
  destruct (decide (k <= length l)) as [Hk|Hk].
  - assert (Hlen : length (take k l ++ [x]) = S k)
      by (rewrite length_app, length_take; simpl; lia).
    rewrite take_app_length', drop_app_length' by (by rewrite Hlen).
    by rewrite <- !app_assoc.
  - rewrite (take_ge l k), (drop_ge l k) by lia. rewrite !app_nil_r.
    rewrite take_ge, drop_ge by (rewrite length_app; simpl; lia).
    by rewrite <- !app_assoc, app_nil_r.
Qed.

Lemma splice_in_nil (k : nat) l : splice_in k [] l = l.
Proof. unfold splice_in. simpl. apply take_drop. Qed.

Lemma splice_in_end xs l : splice_in (length l) xs l = l ++ xs.
Proof.
  unfold splice_in. by rewrite take_ge, drop_ge, app_nil_r by lia.
Qed.

Lemma splice_in_0 xs l : splice_in 0 xs l = xs ++ l.
Proof. done. Qed.

End SpliceEnds.

Lemma fmap_splice_in_list {A B} (g : A -> B) (i : nat) (xs l : list A) :
  map g (splice_in i xs l) = splice_in i (map g xs) (map g l).
Proof. apply fmap_splice_in. Qed.

Lemma pivot_after_insert (root : DynamicRange) (bs : list (DynamicRange * list nat))
      (b : DynamicRange * list nat) (k : nat) :
  pivot_of root (splice_in k [b] bs) (S k) = pivot_of root bs k.
Proof.
  unfold pivot_of. destruct (decide (k <= length bs)) as [Hk|Hk].
  - by rewrite lookup_splice_in_after by lia.
  - unfold splice_in. rewrite (take_ge bs k), (drop_ge bs k) by lia.
    rewrite (lookup_ge_None_2 bs k) by lia.
    rewrite lookup_ge_None_2; [done|]. rewrite !length_app. simpl. lia.
Qed.

Lemma for_each_liftD {T A} (h : A -> M dom unit) (l : list A) :
  forall st : lstate T,
    for_each (fun x => liftD (h x)) l st = liftD (for_each h l) st.
Proof.
  induction l as [|x l IH]; intros st; simpl.
  - by destruct st.
  - unfold bind, liftD at 1 3. destruct (h x (world st)) as [[[]| | |] d1]; done.
Qed.

Lemma key_index_from_map {T} (renderer : ListRenderer T) (key : string)
      (l : list (Packed T)) :
  forall i, find_key_from renderer key i l = key_index_from renderer key i (map value l).
Proof.
  induction l as [|x l IH]; intros i; simpl; [done|].
  destruct (String.eqb _ _); [done|apply IH].
Qed.

Lemma anchor_map {T} (renderer : ListRenderer T) (ref : option string)
      (l : list (Packed T)) :
  anchor renderer ref l = key_anchor renderer ref (map value l).
Proof.
  unfold anchor, key_anchor, findIndex. destruct (truthy ref); [|done].
  apply key_index_from_map.
Qed.

Section ListSteps.
Context {T : Type}.
Variables (renderer : ListRenderer T) (root : DynamicRange) (p : nat) (pre post : list nat).

Lemma list_step_refl (st : lstate T) (bs : list (DynamicRange * list nat)) :
  rendered root p pre post bs st -> list_step renderer root p pre post st bs st bs.
Proof. intros Hr. by split_and!. Qed.

Lemma list_step_trans (st1 st2 st3 : lstate T) (bs1 bs2 bs3 : list (DynamicRange * list nat)) :
  list_step renderer root p pre post st1 bs1 st2 bs2 ->
  list_step renderer root p pre post st2 bs2 st3 bs3 ->
  list_step renderer root p pre post st1 bs1 st3 bs3.
Proof.
  intros (_ & Ha1 & Hs1) (Hr2 & Ha2 & Hs2). split_and!; [done|congruence|].
  intros Hag Hsh. by apply Hs2, Hs1.
Qed.

End ListSteps.

Section ListActions.
Context {T : Type} `{EqDecision T}.
Variables (f : nat) (renderer : ListRenderer T) (n : string).
Variables (root : DynamicRange) (p : nat) (pre post : list nat).

Hypothesis Hrender : forall x, is_Some (primitive_image (render renderer x)).
Hypothesis Hupdate :
  forall upd rg x old,
    update renderer = Some upd -> is_Some (primitive_image (upd rg x old)).

(** The outer loop of [assignData], from the index [i] on. *)
Lemma assign_loop_rendered (v : list T) :
  forall (i : nat) (st : lstate T) (bs : list (DynamicRange * list nat)),
    rendered root p pre post bs st ->
    i <= length (data st) ->
    exists st' bs',
      assign_loop (S f) renderer n root i v st = (Ok tt, st') /\
      list_step renderer root p pre post st bs st' bs' /\
      console (world st') = console (world st) /\
      take (i + length v) (map value (data st')) = take i (map value (data st)) ++ v.
Proof.
  induction v as [|item v IH]; intros i st bs Hr Hi; simpl.
  - exists st, bs.
    split_and!; [done|by apply list_step_refl|done|by rewrite Nat.add_0_r, app_nil_r].
  - destruct (assign_step_rendered f renderer n root p pre post Hrender Hupdate
                i item st bs Hr Hi)
      as (st1 & bs1 & Hrun1 & Hr1 & Ha1 & Hco1 & Ht1 & Hi1 & Hs1).
    assert (Hlt : i < length (data st1)).
    { apply lookup_lt_Some in Hi1. by rewrite length_map in Hi1. }
    destruct (IH (S i) st1 bs1 Hr1 Hlt)
      as (st2 & bs2 & Hrun2 & Hst2 & Hco2 & Ht2).
    exists st2, bs2. split_and!.
    + by rewrite (bind_Ok _ _ _ _ _ Hrun1).
    + apply (list_step_trans renderer root p pre post st st1 st2 bs bs1 bs2); [|done].
      by split_and!.
    + congruence.
    + replace (i + S (length v)) with (S i + length v) by lia.
      rewrite Ht2, (take_S_r _ _ _ Hi1), Ht1. by rewrite <- app_assoc.
Qed.

(** The spans of the records [rm], which are the last blocks, are
    deleted one after the other. *)
Lemma delete_records (rm : list (Packed T)) :
  forall (d : dom) (keep rmb : list (DynamicRange * list nat)),
    laid_out d root p pre post (keep ++ rmb) ->
    map range rm = map fst rmb ->
    exists d',
      for_each (fun x : Packed T => Span.delete (range x)) rm d = (Ok tt, d') /\
      laid_out d' root p pre post keep /\
      moved d d'.
Proof.
  induction rm as [|x rm IH]; intros d keep rmb Hlo Hr.
  - destruct rmb; [|done]. rewrite app_nil_r in Hlo.
    exists d. split_and!; [done|done|apply moved_refl].
  - destruct rmb as [|[r c] rmb]; [done|]. simpl in Hr.
    injection Hr as Hx Hr.
    assert (Hj : (keep ++ (r, c) :: rmb) !! length keep = Some (r, c))
      by apply list_lookup_middle, eq_refl.
    destruct (delete_block root p pre post (length keep) r c d _ Hlo Hj)
      as (d1 & Hdel & Hlo1 & Hmv1).
    rewrite take_app_length in Hlo1.
    replace (keep ++ (r, c) :: rmb) with ((keep ++ [(r, c)]) ++ rmb) in Hlo1
      by (by rewrite <- app_assoc).
    rewrite drop_app_length' in Hlo1 by (rewrite length_app; simpl; lia).
    destruct (IH d1 keep rmb Hlo1 Hr) as (d' & Hrun & Hlo' & Hmv').
    exists d'. split_and!; [|done|by apply (moved_trans _ d1)].
    simpl. rewrite Hx. by rewrite (bind_Ok _ _ _ _ _ Hdel).
Qed.

Lemma moved_keeps_below (d d' : dom) :
  moved d d' ->
  forall x, x < next_id d ->
            kind_of d' x = kind_of d x /\ chardata_of d' x = chardata_of d x.
Proof. intros [Mk Mc _ _ _] x _. by rewrite Mk, Mc. Qed.

(** [assignData(value)] *)
Lemma assignData_rendered (v : list T) (st : lstate T)
      (bs : list (DynamicRange * list nat)) :
  rendered root p pre post bs st ->
  exists st' bs',
    assignData (S f) renderer n root v st = (Ok tt, st') /\
    list_step renderer root p pre post st bs st' bs' /\
    console (world st') = console (world st) /\
    map value (data st') = v.
Proof.
  intros Hr.
  destruct (assign_loop_rendered v 0 st bs Hr) as (st1 & bs1 & Hrun1 & Hst1 & Hco1 & Ht1);
    [lia|].
  simpl in Ht1. destruct Hst1 as ([Hr1 Hlo1] & Ha1 & Hs1).
  set (k := length v) in *.
  assert (Hsplit : laid_out (world st1) root p pre post (take k bs1 ++ drop k bs1))
    by (by rewrite take_drop).
  assert (Hrm : map range (drop k (data st1)) = map fst (drop k bs1)).
  { by rewrite !map_drop, Hr1. }
  destruct (delete_records (drop k (data st1)) (world st1) _ _ Hsplit Hrm)
    as (d' & Hdel & Hlo' & Hmv').
  exists (MkLState d' (take k (data st1)) (arrays st1)), (take k bs1).
  split_and!.
  - unfold assignData. rewrite (bind_Ok _ _ _ _ _ Hrun1).
    unfold bind at 1, get. rewrite (bind_Ok _ _ _ _ _ (set_data_run _ st1)).
    rewrite for_each_liftD.
    by apply (liftD_Ok _ (MkLState (world st1) _ (arrays st1))).
  - split_and!; try done.
    + split; [|done]. simpl. by rewrite !map_take, Hr1.
    + intros Hag Hsh. simpl. apply Forall2_take.
      apply (shows_frame renderer (world st1) d' root p pre post _ bs1 Hlo1).
      * by apply moved_keeps_below.
      * by apply Hs1.
  - simpl. destruct Hmv' as [_ _ _ Mco _]. congruence.
  - simpl. rewrite map_take. exact Ht1.
Qed.

(** The loop of [appendData] and [prependData] that renders the values
    before a fixed pivot, the pivot of the index [k]. *)
Lemma render_all_blocks (v : list T) :
  forall (d : dom) (bs : list (DynamicRange * list nat)) (k : nat) (acc : list (Packed T)),
    laid_out d root p pre post bs ->
    exists d' recs nbs,
      render_all (S f) renderer n v (pivot_of root bs k) acc d = (Ok (acc ++ recs), d') /\
      map value recs = v /\
      map range recs = map fst nbs /\
      laid_out d' root p pre post (splice_in k nbs bs) /\
      console d' = console d /\
      shows renderer d' recs nbs /\
      next_id d <= next_id d' /\
      (forall x, x < next_id d ->
                 kind_of d' x = kind_of d x /\ chardata_of d' x = chardata_of d x).
Proof.
  induction v as [|item v IH]; intros d bs k acc Hlo; simpl.
  - exists d, [], []. rewrite app_nil_r, splice_in_nil.
    split_and!; try done. constructor.
  - destruct (Hrender item) as [s Hs].
    destruct (insert_block renderer n root p pre post f item s k d bs Hs Hlo)
      as (d1 & Hins & Hlo1 & Hcd1 & Hk1 & Hco1 & Hn1 & Hfr1).
    set (a := next_id d) in *.
    set (b := (MkDynamicRange a (a + 1), [a + 3])).
    change (take k bs ++ b :: drop k bs) with (splice_in k [b] bs) in Hlo1.
    destruct (IH d1 (splice_in k [b] bs) (S k)
                 (acc ++ [MkPacked (MkDynamicRange a (a + 1)) item]) Hlo1)
      as (d' & recs & nbs & Hrun & Hv & Hr & Hlo' & Hco' & Hsh' & Hn' & Hfr').
    rewrite pivot_after_insert in Hrun.
    exists d', (MkPacked (MkDynamicRange a (a + 1)) item :: recs), (b :: nbs).
    split_and!.
    + rewrite (bind_Ok _ _ _ _ _ Hins). rewrite Hrun. by rewrite <- app_assoc.
    + simpl. by rewrite Hv.
    + simpl. by rewrite Hr.
    + by rewrite splice_in_cons in Hlo'.
    + congruence.
    + constructor; [|done]. exists (a + 3), s. simpl.
      destruct (Hfr' (a + 3)) as [-> ->]; [lia|]. by split_and!.
    + lia.
    + intros x Hx. destruct (Hfr' x) as [-> ->]; [lia|]. by apply Hfr1.
Qed.

Lemma rendered_splice_in (k : nat) (recs l : list (Packed T))
      (nbs bs : list (DynamicRange * list nat)) :
  map range l = map fst bs -> map range recs = map fst nbs ->
  map range (splice_in k recs l) = map fst (splice_in k nbs bs).
Proof. intros Hl Hr. by rewrite !fmap_splice_in, Hl, Hr. Qed.

Lemma shows_splice_in_list (d : dom) (k : nat) (recs l : list (Packed T))
      (nbs bs : list (DynamicRange * list nat)) :
  shows renderer d l bs -> shows renderer d recs nbs ->
  shows renderer d (splice_in k recs l) (splice_in k nbs bs).
Proof.
  intros Hl Hr. unfold shows, splice_in.
  apply Forall2_app; [by apply Forall2_take|].
  apply Forall2_app; [done|by apply Forall2_drop].
Qed.

(** Rendering the values [v] at the index [k] and splicing the records
    in. *)
Lemma splice_rendered (v : list T) (k : nat) (st : lstate T)
      (bs : list (DynamicRange * list nat)) :
  rendered root p pre post bs st ->
  exists st' bs',
    (newlist <- liftD (render_all (S f) renderer n v (pivot_of root bs k) []) ;
     set_data (splice_in k newlist)) st = (Ok tt, st') /\
    list_step renderer root p pre post st bs st' bs' /\
    console (world st') = console (world st) /\
    map value (data st') = splice_in k v (map value (data st)).
Proof.
  intros [Hr Hlo].
  destruct (render_all_blocks v (world st) bs k [] Hlo)
    as (d' & recs & nbs & Hrun & Hv & Hrr & Hlo' & Hco' & Hsh' & Hn' & Hfr').
  exists (MkLState d' (splice_in k recs (data st)) (arrays st)), (splice_in k nbs bs).
  split_and!.
  - by rewrite (bind_Ok _ _ _ _ _ (liftD_Ok _ st _ _ Hrun)).
  - split_and!; try done.
    + split; [|done]. simpl. by apply rendered_splice_in.
    + intros Hag Hsh. simpl. apply shows_splice_in_list; [|done].
      by apply (shows_frame renderer (world st) d' root p pre post _ bs Hlo).
  - done.
  - simpl. by rewrite fmap_splice_in, Hv.
Qed.

(** The loop of [appendData] that renders at the end of the list. *)
Lemma push_all_rendered (v : list T) :
  forall (st : lstate T) (bs : list (DynamicRange * list nat)),
    rendered root p pre post bs st ->
    exists st' bs',
      push_all (S f) renderer n root v st = (Ok tt, st') /\
      list_step renderer root p pre post st bs st' bs' /\
      console (world st') = console (world st) /\
      map value (data st') = map value (data st) ++ v.
Proof.
  induction v as [|item v IH]; intros st bs Hrd; simpl.
  - exists st, bs.
    split_and!; [done|by apply list_step_refl|done|by rewrite app_nil_r].
  - pose proof Hrd as [Hr Hlo].
    destruct (Hrender item) as [s Hs].
    destruct (insert_block renderer n root p pre post f item s (length bs) (world st) bs
                Hs Hlo)
      as (d1 & Hins & Hlo1 & Hcd1 & Hk1 & Hco1 & Hn1 & Hfr1).
    set (a := next_id (world st)) in *.
    set (b := (MkDynamicRange a (a + 1), [a + 3])).
    rewrite take_ge, drop_ge in Hlo1 by lia.
    assert (Hend : pivot_of root bs (length bs) = end_ root).
    { unfold pivot_of. by rewrite lookup_ge_None_2 by lia. }
    rewrite Hend in Hins.
    set (st1 := MkLState d1 (data st ++ [MkPacked (MkDynamicRange a (a + 1)) item])
                         (arrays st)).
    assert (Hrd1 : rendered root p pre post (bs ++ [b]) st1).
    { split; [|done]. simpl. by rewrite !map_app, Hr. }
    destruct (IH st1 (bs ++ [b]) Hrd1) as (st2 & bs2 & Hrun2 & Hst2 & Hco2 & Hv2).
    exists st2, bs2. split_and!.
    + rewrite (bind_Ok _ _ _ _ _ (liftD_Ok _ st _ _ Hins)).
      rewrite (bind_Ok _ _ _ _ _ (set_data_run _ _)). exact Hrun2.
    + apply (list_step_trans renderer root p pre post st st1 st2 bs (bs ++ [b]) bs2);
        [|done].
      split_and!; try done. intros Hag Hsh. simpl. apply Forall2_app.
      * by apply (shows_frame renderer (world st) d1 root p pre post _ bs Hlo).
      * constructor; [|constructor]. exists (a + 3), s. by split_and!.
    + rewrite Hco2. done.
    + rewrite Hv2. simpl. rewrite map_app. simpl. by rewrite <- app_assoc.
Qed.

(** [appendData(value, ref)] *)
Lemma appendData_rendered (v : list T) (ref : option string) (st : lstate T)
      (bs : list (DynamicRange * list nat)) :
  rendered root p pre post bs st ->
  exists st' bs',
    appendData (S f) renderer n root v ref st = (Ok tt, st') /\
    list_step renderer root p pre post st bs st' bs' /\
    console (world st') = console (world st) /\
    map value (data st') = list_model renderer (ActAppend v ref) (map value (data st)).
Proof.
  intros Hrd. pose proof Hrd as [Hr Hlo].
  unfold appendData, bind at 1, get. simpl list_model.
  rewrite <- (anchor_map renderer ref (data st)).
  destruct (anchor renderer ref (data st)) as [idx|].
  - change (match data st !! S idx with
            | Some x => start (range x)
            | None => end_ root
            end) with (pivot_at root (S idx) (data st)).
    rewrite (pivot_at_of root (data st) bs (S idx) Hr).
    apply (splice_rendered v (S idx) st bs Hrd).
  - apply (push_all_rendered v st bs Hrd).
Qed.

(** [prependData(value, ref)] *)
Lemma prependData_rendered (v : list T) (ref : option string) (st : lstate T)
      (bs : list (DynamicRange * list nat)) :
  rendered root p pre post bs st ->
  exists st' bs',
    prependData (S f) renderer n root v ref st = (Ok tt, st') /\
    list_step renderer root p pre post st bs st' bs' /\
    console (world st') = console (world st) /\
    map value (data st') = list_model renderer (ActPrepend v ref) (map value (data st)).
Proof.
  intros Hrd. pose proof Hrd as [Hr Hlo].
  unfold prependData, bind at 1, get. simpl list_model.
  rewrite <- (anchor_map renderer ref (data st)).
  destruct (anchor renderer ref (data st)) as [idx|] eqn:Hanchor.
  - assert (Hx : exists x, data st !! idx = Some x).
    { unfold anchor in Hanchor. destruct (truthy ref) as [key|]; [|done].
      destruct (find_key_from_Some renderer key 0 idx (data st) Hanchor)
        as (_ & x & Hx & _).
      rewrite Nat.sub_0_r in Hx. eauto. }
    destruct Hx as (x & Hx). rewrite Hx.
    assert (Hpv : start (range x) = pivot_of root bs idx).
    { rewrite <- (pivot_at_of root (data st) bs idx Hr). unfold pivot_at. by rewrite Hx. }
    rewrite Hpv. apply (splice_rendered v idx st bs Hrd).
  - change (match data st !! 0 with
            | Some x => start (range x)
            | None => end_ root
            end) with (pivot_at root 0 (data st)).
    rewrite (pivot_at_of root (data st) bs 0 Hr).
    apply (splice_rendered v 0 st bs Hrd).
Qed.

(** [removeFromData(keys)] *)
Lemma removeFromData_rendered (keys : list string) :
  forall (st : lstate T) (bs : list (DynamicRange * list nat)),
    rendered root p pre post bs st ->
    exists st' bs',
      removeFromData renderer keys st = (Ok tt, st') /\
      list_step renderer root p pre post st bs st' bs' /\
      console (world st') = console (world st) /\
      map value (data st') = fold_left (remove_key renderer) keys (map value (data st)).
Proof.
  induction keys as [|key keys IH]; intros st bs Hrd; simpl.
  - exists st, bs. split_and!; [done|by apply list_step_refl|done|done].
  - pose proof Hrd as [Hr Hlo].
    unfold bind at 1. unfold bind at 1, get.
    unfold remove_key at 2. unfold findIndex.
    rewrite <- (key_index_from_map renderer key (data st) 0).
    destruct (find_key_from renderer key 0 (data st)) as [idx|] eqn:Hfind.
    + destruct (find_key_from_Some renderer key 0 idx (data st) Hfind)
        as (_ & x & Hx & _).
      rewrite Nat.sub_0_r in Hx. rewrite Hx.
      destruct (block_of_record _ _ _ _ Hr Hx) as (c & Hb).
      destruct (delete_block root p pre post idx (range x) c (world st) bs Hlo Hb)
        as (d1 & Hdel & Hlo1 & Hmv1).
      set (st1 := MkLState d1 (splice_out idx (data st)) (arrays st)).
      assert (Hrd1 : rendered root p pre post (splice_out idx bs) st1).
      { split; [|done]. simpl. by rewrite !fmap_splice_out, Hr. }
      destruct (IH st1 (splice_out idx bs) Hrd1) as (st2 & bs2 & Hrun2 & Hst2 & Hco2 & Hv2).
      exists st2, bs2. split_and!.
      * rewrite (bind_Ok _ _ _ _ _ (set_data_run _ st)).
        rewrite (liftD_Ok _ (MkLState (world st) _ (arrays st)) _ _ Hdel). exact Hrun2.
      * apply (list_step_trans renderer root p pre post st st1 st2 bs (splice_out idx bs) bs2);
          [|done].
        split_and!; try done. intros Hag Hsh. simpl. apply shows_splice_out.
        apply (shows_frame renderer (world st) d1 root p pre post _ bs Hlo); [|done].
        by apply moved_keeps_below.
      * rewrite Hco2. simpl. by destruct Hmv1.
      * rewrite Hv2. simpl. by rewrite fmap_splice_out.
    + apply (IH st bs Hrd).
Qed.

Lemma laid_out_console (d : dom) (c : list diagnostic)
      (bs : list (DynamicRange * list nat)) :
  laid_out d root p pre post bs ->
  laid_out (Dom (nodes d) (next_id d) c) root p pre post bs.
Proof.
  destruct d as [nd ni co]. intros [[Hk Hnd Hpar] Hkind Hfr Hlv].
  split; [split; [exact Hk|exact Hnd|exact Hpar]|exact Hkind|exact Hfr|].
  intros x Hx. destruct (Hlv x Hx) as [Hkx Hax]. split; [exact Hkx|].
  by apply (not_above_kept (Dom nd ni co)).
Qed.

Lemma shows_console (d : dom) (c : list diagnostic) (l : list (Packed T))
      (bs : list (DynamicRange * list nat)) :
  shows renderer d l bs -> shows renderer (Dom (nodes d) (next_id d) c) l bs.
Proof. destruct d as [nd ni co]. intros Hs. exact Hs. Qed.

(** [processAction(action)] *)
Lemma processAction_rendered (action : ListBasicAction T) (st : lstate T)
      (bs : list (DynamicRange * list nat)) :
  rendered root p pre post bs st ->
  exists st' bs',
    processAction (S f) renderer n root action st = (Ok tt, st') /\
    list_step renderer root p pre post st bs st' bs' /\
    (action <> ActOther -> console (world st') = console (world st)) /\
    map value (data st') = list_model renderer action (map value (data st)).
Proof.
  intros Hrd. pose proof Hrd as [Hr Hlo].
  destruct action as [v ref|v ref|v|keys| |]; simpl processAction.
  - destruct (appendData_rendered v ref st bs Hrd) as (st' & bs' & H1 & H2 & H3 & H4).
    exists st', bs'. by split_and!.
  - destruct (prependData_rendered v ref st bs Hrd) as (st' & bs' & H1 & H2 & H3 & H4).
    exists st', bs'. by split_and!.
  - destruct (assignData_rendered v st bs Hrd) as (st' & bs' & H1 & H2 & H3 & H4).
    exists st', bs'. by split_and!.
  - destruct (removeFromData_rendered keys st bs Hrd) as (st' & bs' & H1 & H2 & H3 & H4).
    exists st', bs'. by split_and!.
  - destruct (clear_blocks root p pre post (world st) bs Hlo)
      as (d' & Hrun & Hlo' & _ & Hmv).
    exists (MkLState d' [] (arrays st)), [].
    split_and!.
    + rewrite (bind_Ok _ _ _ _ _ (set_data_run _ st)).
      by apply (liftD_Ok _ (MkLState (world st) _ (arrays st))).
    + split_and!; try done. intros _ _. constructor.
    + intros _. simpl. by destruct Hmv.
    + done.
  - exists (MkLState (Dom (nodes (world st)) (next_id (world st))
                          (console (world st) ++ [InvalidAction]))
                     (data st) (arrays st)), bs.
    split; [done|]. split; [|split; [done|done]].
    unfold list_step. split; [|split; [done|]].
    + split; [done|]. by apply laid_out_console.
    + intros _ Hsh. by apply shows_console.
Qed.

(** A sequence of actions. *)
Lemma actions_rendered (actions : list (ListBasicAction T)) :
  forall (st : lstate T) (bs : list (DynamicRange * list nat)),
    rendered root p pre post bs st ->
    exists st' bs',
      for_each (processAction (S f) renderer n root) actions st = (Ok tt, st') /\
      list_step renderer root p pre post st bs st' bs' /\
      map value (data st') =
        fold_left (fun vals a => list_model renderer a vals) actions (map value (data st)).
Proof.
  induction actions as [|a actions IH]; intros st bs Hrd; simpl.
  - exists st, bs. split_and!; [done|by apply list_step_refl|done].
  - destruct (processAction_rendered a st bs Hrd) as (st1 & bs1 & Hrun1 & Hst1 & _ & Hv1).
    pose proof Hst1 as (Hrd1 & _).
    destruct (IH st1 bs1 Hrd1) as (st2 & bs2 & Hrun2 & Hst2 & Hv2).
    exists st2, bs2. split_and!.
    + by rewrite (bind_Ok _ _ _ _ _ Hrun1).
    + by apply (list_step_trans renderer root p pre post st st1 st2 bs bs1 bs2).
    + by rewrite Hv2, Hv1.
Qed.

End ListActions.

(** ** [namedRange] without actions, and [list] *)

Lemma namedRange_empty (fuel : nat) (nm : string) (d : dom) :
  fresh_from d ->
  let a := next_id d in
  exists d',
    namedRange fuel nm [] d = (Ok (a + 2, MkDynamicRange a (a + 1)), d') /\
    laid_out d' (MkDynamicRange a (a + 1)) (a + 2) [] [] [] /\
    kind_of d' a = Some Comment /\
    kind_of d' (a + 1) = Some Comment /\
    kind_of d' (a + 2) = Some DocumentFragment /\
    parent_of d' (a + 2) = None /\
    chardata_of d' a = Some ("range[" +:+ nm +:+ "] start") /\
    chardata_of d' (a + 1) = Some ("range[" +:+ nm +:+ "] end") /\
    console d' = console d /\
    next_id d' = a + 3 /\
    (forall x, x < a -> kind_of d' x = kind_of d x /\ chardata_of d' x = chardata_of d x /\
                        parent_of d' x = parent_of d x /\ kids d' x = kids d x).
Proof.
  intros Hfresh a.
  assert (Hfree : forall i, a <= i -> nodes d !! i = None)
    by (intros i Hi; by destruct (Hfresh i Hi)).
  assert (Hnopar : forall i x, a <= i -> parent_of d x <> Some i)
    by (intros i x Hi; destruct (Hfresh i Hi) as [_ Hn]; apply Hn).
  assert (Hpnone : forall i, a <= i -> parent_of d i = None)
    by (intros i Hi; unfold parent_of; by rewrite Hfree).
  assert (Hknone : forall i, a <= i -> kids d i = [])
    by (intros i Hi; unfold kids; by rewrite Hfree).
  set (d1 := snd (create Comment ("range[" +:+ nm +:+ "] start") d)).
  assert (F1 : nodes d !! next_id d = None) by (apply Hfree; unfold a; lia).
  assert (N1 : next_id d1 = a + 1) by (unfold d1; simpl; unfold a; lia).
  set (d2 := snd (create Comment ("range[" +:+ nm +:+ "] end") d1)).
  assert (F2 : nodes d1 !! next_id d1 = None).
  { rewrite N1. unfold d1. simpl. rewrite lookup_insert_ne by (unfold a; lia).
    apply Hfree. lia. }
  assert (N2 : next_id d2 = a + 2) by (unfold d2; simpl; lia).
  set (d3 := snd (create DocumentFragment "" d2)).
  assert (F3 : nodes d2 !! next_id d2 = None).
  { rewrite N2. unfold d2. simpl. rewrite lookup_insert_ne by (simpl; unfold a; lia).
    rewrite lookup_insert_ne by (unfold a; lia).
    apply Hfree. lia. }
  assert (N3 : next_id d3 = a + 3) by (unfold d3; simpl; lia).
  assert (K3 : forall x, kind_of d3 x =
                 if decide (x = a + 2) then Some DocumentFragment
                 else if decide (x = a + 1) then Some Comment
                 else if decide (x = a) then Some Comment else kind_of d x).
  { intros x. unfold d3. rewrite kind_of_create by done. rewrite N2.
    case_decide; [done|]. unfold d2. rewrite kind_of_create by done. rewrite N1.
    case_decide; [done|]. unfold d1. by rewrite kind_of_create by done. }
  assert (C3 : forall x, chardata_of d3 x =
                 if decide (x = a + 2) then Some ""
                 else if decide (x = a + 1) then Some ("range[" +:+ nm +:+ "] end")
                 else if decide (x = a) then Some ("range[" +:+ nm +:+ "] start")
                 else chardata_of d x).
  { intros x. unfold d3. rewrite chardata_of_create by done. rewrite N2.
    case_decide; [done|]. unfold d2. rewrite chardata_of_create by done. rewrite N1.
    case_decide; [done|]. unfold d1. by rewrite chardata_of_create by done. }
  assert (P3 : forall x, parent_of d3 x = parent_of d x).
  { intros x. unfold d3. rewrite parent_of_create by done.
    unfold d2. rewrite parent_of_create by done.
    unfold d1. by rewrite parent_of_create by done. }
  assert (Q3 : forall x, kids d3 x = kids d x).
  { intros x. unfold d3. rewrite kids_create by done.
    unfold d2. rewrite kids_create by done.
    unfold d1. by rewrite kids_create by done. }
  destruct (appendChild_orphan (a + 2) a d3 DocumentFragment Comment)
    as (d4 & Happ4 & Q4 & P4 & M4); try done.
  { rewrite K3. by rewrite decide_True. }
  { rewrite P3. apply Hpnone. lia. }
  { rewrite K3. rewrite !decide_False by lia. by rewrite decide_True. }
  { rewrite P3. apply Hpnone. lia. }
  { lia. }
  pose proof M4 as [Mk4 Mc4 Mn4 Mo4 _].
  destruct (appendChild_orphan (a + 2) (a + 1) d4 DocumentFragment Comment)
    as (d5 & Happ5 & Q5 & P5 & M5); try done.
  { rewrite Mk4, K3. by rewrite decide_True. }
  { rewrite P4, decide_False by lia. rewrite P3. apply Hpnone. lia. }
  { rewrite Mk4, K3. rewrite decide_False by lia. by rewrite decide_True. }
  { rewrite P4, decide_False by lia. rewrite P3. apply Hpnone. lia. }
  { lia. }
  pose proof M5 as [Mk5 Mc5 Mn5 Mo5 _].
  assert (Hk5 : kids d5 (a + 2) = [a; a + 1]).
  { rewrite Q5, decide_True by done. rewrite Q4, decide_True by done.
    rewrite Q3, Hknone by lia. done. }
  exists d5. split_and!.
  - unfold namedRange, createComment.
    rewrite (bind_Ok _ _ _ _ _ (create_result Comment _ d)). fold d1 a.
    rewrite (bind_Ok _ _ _ _ _ (create_result Comment _ d1)). fold d2. rewrite N1.
    unfold createDocumentFragment.
    rewrite (bind_Ok _ _ _ _ _ (create_result DocumentFragment _ d2)). fold d3. rewrite N2.
    by rewrite (bind_Ok _ _ _ _ _ Happ4), (bind_Ok _ _ _ _ _ Happ5).
  - split.
    + split; simpl.
      * done.
      * rewrite Hk5. apply NoDup_cons. split; [set_solver by lia|]. apply NoDup_singleton.
      * intros x. rewrite Hk5. intros Hx. rewrite P5, P4.
        repeat case_decide; try done. set_solver.
    + exists DocumentFragment. split; [|done]. rewrite Mk5, Mk4, K3. by rewrite decide_True.
    + intros i Hi. rewrite Mn5, Mn4, N3 in Hi. split.
      * apply kind_of_None. rewrite Mk5, Mk4, K3. rewrite !decide_False by lia.
        apply kind_of_None, Hfree. lia.
      * intros x. rewrite P5, P4, P3. repeat case_decide; try (intros [=]; lia).
        apply Hnopar. lia.
    + intros x Hx. simpl in Hx. by apply elem_of_nil in Hx.
  - rewrite Mk5, Mk4, K3. rewrite !decide_False by lia. by rewrite decide_True.
  - rewrite Mk5, Mk4, K3. rewrite decide_False by lia. by rewrite decide_True.
  - rewrite Mk5, Mk4, K3. by rewrite decide_True.
  - rewrite P5, P4, !decide_False by lia. rewrite P3. apply Hpnone. lia.
  - rewrite Mc5, Mc4, C3. rewrite !decide_False by lia. by rewrite decide_True.
  - rewrite Mc5, Mc4, C3. rewrite decide_False by lia. by rewrite decide_True.
  - by rewrite Mo5, Mo4.
  - by rewrite Mn5, Mn4, N3.
  - intros x Hx. split_and!.
    + rewrite Mk5, Mk4, K3. by rewrite !decide_False by lia.
    + rewrite Mc5, Mc4, C3. by rewrite !decide_False by lia.
    + rewrite P5, P4, !decide_False by lia. apply P3.
    + rewrite Q5, decide_False by lia. rewrite Q4, decide_False by lia. apply Q3.
Qed.

(** ** The search of a turn of assignData *)

Section Search.
Context {T : Type} `{EqDecision T}.
Variables (f : nat) (renderer : ListRenderer T) (n : string).
Variables (root : DynamicRange) (p : nat) (pre post : list nat).

Local Abbreviation key := (extractKey renderer).

(** The scan answers the first index not below [i] whose record has the
    key, and only that. *)
Lemma scan_first (item : T) (i j : nat) (l : list (Packed T)) :
  scan renderer item i l = Some j <->
  i <= j /\ (exists x, l !! j = Some x /\ key (value x) = key item) /\
  forall m y, i <= m < j -> l !! m = Some y -> key (value y) <> key item.
Proof.
  split.
  - intros Hs. apply scan_Some in Hs as (Hle & x & Hx & Hk & Hfirst). eauto.
  - intros (Hle & (x & Hx & Hk) & Hfirst).
    destruct (scan renderer item i l) as [j'|] eqn:Hs.
    + apply scan_Some in Hs as (Hle' & x' & Hx' & Hk' & Hfirst').
      destruct (Nat.lt_trichotomy j' j) as [Hlt|[->|Hgt]]; [|done|].
      * by destruct (Hfirst j' x' (conj Hle' Hlt) Hx').
      * by destruct (Hfirst' j x (conj Hle Hgt) Hx).
    + rewrite scan_None in Hs. by destruct (Hs j x Hle Hx).
Qed.

(** What is done to the document leaves the records as they are. *)
Lemma data_liftD {A} (m : M dom A) (st : lstate T) :
  data (snd (liftD m st)) = data st.
Proof. unfold liftD. by destruct (m (world st)) as [[a| | |] d']. Qed.

Lemma data_liftD_bind {A B} (m : M dom A) (k : A -> M (lstate T) B) (st : lstate T) :
  (forall a st', data (snd (k a st')) = data st') ->
  data (snd ((x <- liftD m ; k x) st)) = data st.
Proof.
  intros Hk. unfold bind, liftD.
  destruct (m (world st)) as [[a| | |] d']; try done. by rewrite Hk.
Qed.

Lemma data_relocate (rg : DynamicRange) (pivot : nat) (st : lstate T) :
  data (snd ((cached <- liftD (Span.detach rg) ;
              liftD (insert_at_point cached pivot)) st)) = data st.
Proof. apply data_liftD_bind. intros a st'. apply data_liftD. Qed.

Lemma insert_as_splice {A} (i : nat) (y : A) (l : list A) :
  i < length l -> <[i := y]> l = splice_in i [y] (splice_out i l).
Proof.
  intros Hi. rewrite <- (splice_out_insert i y l).
  symmetry. apply splice_in_splice_out. by apply list_lookup_insert_eq.
Qed.

End Search.

(** ** appendUnique and prependUnique: the values with new keys, in order *)

Section NewKeys.
Context {T : Type} `{EqDecision T}.
Variables (renderer : ListRenderer T) (n : string) (root : DynamicRange).

Local Abbreviation key := (extractKey renderer).

(** The filter of the code keeps the values with new keys, in order. *)
Lemma keep_unique_new_keys (v : list T) (l : list (Packed T)) :
  keep_unique renderer v l = with_new_keys key (map value l) v.
Proof.
  unfold keep_unique, with_new_keys.
  induction v as [|x v IH]; [done|].
  cbn [List.filter]. rewrite filter_cons, <- IH.
  destruct (forallb _ l) eqn:Hall.
  - rewrite decide_True; [done|].
    rewrite forallb_forall in Hall. apply Forall_forall. intros y Hy.
    apply list_elem_of_fmap in Hy as (z & -> & Hz). apply list_elem_of_In in Hz.
    specialize (Hall z Hz). apply negb_true_iff in Hall.
    by apply String.eqb_neq in Hall.
  - rewrite decide_False; [done|]. intros HF.
    assert (Hall' : forallb (fun y => negb (String.eqb (key (value y)) (key x))) l = true).
    { apply forallb_forall. intros z Hz. apply list_elem_of_In in Hz.
      apply negb_true_iff, String.eqb_neq.
      rewrite Forall_forall in HF. apply HF. apply list_elem_of_fmap. eauto. }
    congruence.
Qed.

Lemma with_new_keys_nil (held v : list T) :
  (forall x, In x v -> exists y, In y held /\ key y = key x) ->
  with_new_keys key held v = [].
Proof.
  intros Hall. unfold with_new_keys. induction v as [|x v IH]; [done|].
  rewrite filter_cons. rewrite decide_False.
  - apply IH. intros z Hz. apply Hall. by right.
  - intros HF. destruct (Hall x) as (y & Hy & Hk); [by left|].
    rewrite Forall_forall in HF. apply (HF y); [by apply list_elem_of_In|done].
Qed.

Section InPlace.
Variables (f : nat) (p : nat) (pre post : list nat).

(** The loop of [appendData] that renders at the end of the list: the
    blocks come after the blocks there are, in the order of the values. *)
Lemma push_all_blocks (v : list T) :
  Forall (fun x => is_Some (primitive_image (render renderer x))) v ->
  forall (st : lstate T) (bs : list (DynamicRange * list nat)),
    rendered root p pre post bs st ->
    exists st' recs nbs,
      push_all (S f) renderer n root v st = (Ok tt, st') /\
      data st' = data st ++ recs /\
      map value recs = v /\
      arrays st' = arrays st /\
      console (world st') = console (world st) /\
      rendered root p pre post (bs ++ nbs) st' /\
      shows renderer (world st') recs nbs /\
      next_id (world st) <= next_id (world st') /\
      (forall x, x < next_id (world st) ->
                 kind_of (world st') x = kind_of (world st) x /\
                 chardata_of (world st') x = chardata_of (world st) x).
Proof.
  induction 1 as [|item v [s Hs] _ IH]; intros st bs Hrd; simpl.
  - exists st, [], []. rewrite !app_nil_r. split_and!; try done. constructor.
  - pose proof Hrd as [Hr Hlo].
    destruct (insert_block renderer n root p pre post f item s (length bs) (world st) bs
                Hs Hlo)
      as (d1 & Hins & Hlo1 & Hcd1 & Hk1 & Hco1 & Hn1 & Hfr1).
    set (a := next_id (world st)) in *.
    set (b := (MkDynamicRange a (a + 1), [a + 3])).
    rewrite take_ge, drop_ge in Hlo1 by lia.
    assert (Hend : pivot_of root bs (length bs) = end_ root).
    { unfold pivot_of. by rewrite lookup_ge_None_2 by lia. }
    rewrite Hend in Hins.
    set (x := MkPacked (MkDynamicRange a (a + 1)) item).
    set (st1 := MkLState d1 (data st ++ [x]) (arrays st)).
    assert (Hrd1 : rendered root p pre post (bs ++ [b]) st1).
    { split; [|done]. simpl. by rewrite !map_app, Hr. }
    destruct (IH st1 (bs ++ [b]) Hrd1)
      as (st2 & recs & nbs & Hrun2 & Hd2 & Hv2 & Ha2 & Hco2 & Hrd2 & Hsh2 & Hn2 & Hfr2).
    simpl in Hn2, Hfr2, Hco2.
    exists st2, (x :: recs), (b :: nbs). split_and!.
    + rewrite (bind_Ok _ _ _ _ _ (liftD_Ok _ st _ _ Hins)).
      rewrite (bind_Ok _ _ _ _ _ (set_data_run _ _)). exact Hrun2.
    + rewrite Hd2. simpl. by rewrite <- app_assoc.
    + simpl. by rewrite Hv2.
    + by rewrite Ha2.
    + by rewrite Hco2.
    + by rewrite <- app_assoc in Hrd2.
    + constructor; [|done]. exists (a + 3), s. simpl.
      destruct (Hfr2 (a + 3)) as [-> ->]; [lia|]. by split_and!.
    + lia.
    + intros y Hy. destruct (Hfr2 y) as [-> ->]; [lia|]. by apply Hfr1.
Qed.

(** The loop of [prependData] that renders before a fixed pivot, that of
    the index [k]: the blocks come at [k], in the order of the values. *)
Lemma render_all_blocks_of (v : list T) :
  Forall (fun x => is_Some (primitive_image (render renderer x))) v ->
  forall (d : dom) (bs : list (DynamicRange * list nat)) (k : nat) (acc : list (Packed T)),
    laid_out d root p pre post bs ->
    exists d' recs nbs,
      render_all (S f) renderer n v (pivot_of root bs k) acc d = (Ok (acc ++ recs), d') /\
      map value recs = v /\
      map range recs = map fst nbs /\
      laid_out d' root p pre post (splice_in k nbs bs) /\
      console d' = console d /\
      shows renderer d' recs nbs /\
      next_id d <= next_id d' /\
      (forall x, x < next_id d ->
                 kind_of d' x = kind_of d x /\ chardata_of d' x = chardata_of d x).
Proof.
  induction 1 as [|item v [s Hs] _ IH]; intros d bs k acc Hlo; simpl.
  - exists d, [], []. rewrite app_nil_r, splice_in_nil.
    split_and!; try done. constructor.
  - destruct (insert_block renderer n root p pre post f item s k d bs Hs Hlo)
      as (d1 & Hins & Hlo1 & Hcd1 & Hk1 & Hco1 & Hn1 & Hfr1).
    set (a := next_id d) in *.
    set (b := (MkDynamicRange a (a + 1), [a + 3])).
    change (take k bs ++ b :: drop k bs) with (splice_in k [b] bs) in Hlo1.
    destruct (IH d1 (splice_in k [b] bs) (S k)
                 (acc ++ [MkPacked (MkDynamicRange a (a + 1)) item]) Hlo1)
      as (d' & recs & nbs & Hrun & Hv & Hr & Hlo' & Hco' & Hsh' & Hn' & Hfr').
    rewrite pivot_after_insert in Hrun.
    exists d', (MkPacked (MkDynamicRange a (a + 1)) item :: recs), (b :: nbs).
    split_and!.
    + rewrite (bind_Ok _ _ _ _ _ Hins). rewrite Hrun. by rewrite <- app_assoc.
    + simpl. by rewrite Hv.
    + simpl. by rewrite Hr.
    + by rewrite splice_in_cons in Hlo'.
    + congruence.
    + constructor; [|done]. exists (a + 3), s. simpl.
      destruct (Hfr' (a + 3)) as [-> ->]; [lia|]. by split_and!.
    + lia.
    + intros x Hx. destruct (Hfr' x) as [-> ->]; [lia|]. by apply Hfr1.
Qed.
End InPlace.

(** C9.  [appendUnique(values)] appends, at the tail and in input order,
    exactly the values whose key differs from the key of every record
    held, and leaves the records held as they are.  Whatever the outcome,
    records are only added at the tail, for a prefix of these values in
    their order, and for all of them when the call completes; a batch
    whose keys are all held changes nothing.  In a rendered list, with
    these values rendered as text, the call completes: the spans of the
    new records stand after the spans there were, in the order of the
    values, each holding the text of its value, and no node there was is
    changed. *)
Theorem appendUnique_appends_new_keys
        (fuel : nat) (v : list T) (st : lstate T) :
  let news := with_new_keys key (map value (data st)) v in
  (exists recs,
      data (snd (appendUnique fuel renderer n root v st)) = data st ++ recs /\
      map value recs `prefix_of` news /\
      (fst (appendUnique fuel renderer n root v st) = Ok tt -> map value recs = news)) /\
  ((forall x, In x v -> exists y, In y (data st) /\ key (value y) = key x) ->
   appendUnique fuel renderer n root v st = (Ok tt, st)) /\
  (forall f p pre post bs,
      fuel = S f ->
      rendered root p pre post bs st ->
      Forall (fun x => is_Some (primitive_image (render renderer x))) news ->
      exists st' recs nbs,
        appendUnique fuel renderer n root v st = (Ok tt, st') /\
        data st' = data st ++ recs /\
        map value recs = news /\
        arrays st' = arrays st /\
        console (world st') = console (world st) /\
        rendered root p pre post (bs ++ nbs) st' /\
        shows renderer (world st') recs nbs /\
        Span.childNodes root (world st') = Ok (flat bs ++ flat nbs) /\
        (forall x, x < next_id (world st) ->
                   kind_of (world st') x = kind_of (world st) x /\
                   chardata_of (world st') x = chardata_of (world st) x)).
Proof.
  intros news.
  assert (Hrun : appendUnique fuel renderer n root v st =
                 push_all fuel renderer n root news st).
  { unfold news. rewrite <- keep_unique_new_keys.
    unfold appendUnique, bind, get, processAction, appendData, bind, get. done. }
  split_and!.
  - destruct (push_all_data fuel renderer n root news st) as (recs & H1 & _ & H3 & H4).
    exists recs. rewrite Hrun. eauto.
  - intros Hall. rewrite Hrun. unfold news. rewrite with_new_keys_nil; [done|].
    intros x Hx. destruct (Hall x Hx) as (y & Hy & Hk).
    exists (value y). split; [|done]. by apply in_map.
  - intros f p pre post bs -> Hrd Hprim.
    destruct (push_all_blocks f p pre post news Hprim st bs Hrd)
      as (st' & recs & nbs & Hpush & Hd & Hv & Ha & Hco & Hrd' & Hsh & _ & Hfr).
    exists st', recs, nbs. split_and!; try done.
    + by rewrite Hrun.
    + destruct Hrd' as [_ [Hatt _ _ _]].
      rewrite (childNodes_between (world st') root p pre _ post Hatt).
      by rewrite flat_app.
Qed.

(** X21 (actions.ts, prependUnique).  [prependUnique(...value)] on a rendered
    list, the values with new keys being rendered as text: the values
    whose key differs from the key of every record held are put in front
    of the records held, in the order given; the spans of the new records
    stand before the spans there were, in that order, each holding the
    text of its value, and the records held keep their spans. *)
Theorem prependUnique_puts_new_keys_in_front
        (f p : nat) (pre post : list nat)
        (v : list T) (st : lstate T) (bs : list (DynamicRange * list nat)) :
  let news := with_new_keys key (map value (data st)) v in
  rendered root p pre post bs st ->
  Forall (fun x => is_Some (primitive_image (render renderer x))) news ->
  exists st' recs nbs,
    prependUnique (S f) renderer n root v st = (Ok tt, st') /\
    data st' = recs ++ data st /\
    map value recs = news /\
    arrays st' = arrays st /\
    console (world st') = console (world st) /\
    rendered root p pre post (nbs ++ bs) st' /\
    shows renderer (world st') recs nbs /\
    Span.childNodes root (world st') = Ok (flat nbs ++ flat bs) /\
    (forall x, x < next_id (world st) ->
               kind_of (world st') x = kind_of (world st) x /\
               chardata_of (world st') x = chardata_of (world st) x).
Proof.
  intros news [Hr Hlo] Hprim.
  destruct (render_all_blocks_of f p pre post news Hprim (world st) bs 0 [] Hlo)
    as (d' & recs & nbs & Hrun & Hv & Hrr & Hlo' & Hco & Hsh & _ & Hfr).
  rewrite splice_in_0 in Hlo'.
  exists (MkLState d' (recs ++ data st) (arrays st)), recs, nbs.
  split_and!; try done.
  - unfold prependUnique, bind at 1, get. rewrite keep_unique_new_keys. fold news.
    unfold processAction, prependData, bind at 1, get.
    change (anchor renderer None (data st)) with (@None nat). cbv beta iota.
    change (match data st !! 0 with
            | Some x => start (range x)
            | None => end_ root
            end) with (pivot_at root 0 (data st)).
    rewrite (pivot_at_of root (data st) bs 0 Hr).
    rewrite (bind_Ok _ _ _ _ _ (liftD_Ok _ st _ _ Hrun)).
    by rewrite set_data_run.
  - split; [|done]. simpl. by rewrite !map_app, Hrr, Hr.
  - destruct Hlo' as [Hatt _ _ _]. simpl.
    rewrite (childNodes_between d' root p pre _ post Hatt).
    by rewrite flat_app.
Qed.
End NewKeys.

(** ** The list: what its operations guarantee *)

Section ListTheorems.
Context {T : Type} `{EqDecision T}.
Variables (f : nat) (renderer : ListRenderer T) (n : string).
Variables (root : DynamicRange) (p : nat) (pre post : list nat).

(** X16 (actions.ts, assignData).  For a renderer that answers primitives,
    [assign(value)] on a rendered list completes, whatever the values
    given and the records held (keys repeated or not): afterwards the
    values held are exactly [value], in that order, the list is rendered
    again with the root between the same neighbours, the nodes between the
    root markers are the spans of the records in the order of the records,
    and nothing was reported on the console. *)
Theorem assign_leaves_exactly_the_given_values
        (v : list T) (st : lstate T) (bs : list (DynamicRange * list nat)) :
  (forall x, is_Some (primitive_image (render renderer x))) ->
  (forall upd rg x old,
      update renderer = Some upd -> is_Some (primitive_image (upd rg x old))) ->
  rendered root p pre post bs st ->
  exists st' bs',
    assign (S f) renderer n root v st = (Ok tt, st') /\
    map value (data st') = v /\
    rendered root p pre post bs' st' /\
    Span.childNodes root (world st') = Ok (flat bs') /\
    console (world st') = console (world st) /\
    arrays st' = arrays st.
Proof.
  intros Hrender Hupdate Hrd.
  destruct (assignData_rendered f renderer n root p pre post Hrender Hupdate v st bs Hrd)
    as (st' & bs' & Hrun & (Hrd' & Ha' & _) & Hco' & Hv').
  exists st', bs'. split_and!; try done.
  destruct Hrd' as [_ [Hatt _ _ _]].
  by apply (childNodes_between (world st') root p pre (flat bs') post).
Qed.

(** X17 (actions.ts, processAction, appendData, prependData, removeFromData).
    The list refines a machine on values: any sequence of actions on a
    rendered list completes, the values held afterwards are those the
    actions make of the values held before ([list_model]: an append or
    prepend goes next to the first record with the reference key and to
    the end or the front when there is none, a removal takes the first
    record with each key), and the document is in step: the list is
    rendered again and the content of the root is the spans of the
    records, in their order. *)
Theorem list_actions_refine_the_list_model
        (actions : list (ListBasicAction T)) (st : lstate T)
        (bs : list (DynamicRange * list nat)) :
  (forall x, is_Some (primitive_image (render renderer x))) ->
  (forall upd rg x old,
      update renderer = Some upd -> is_Some (primitive_image (upd rg x old))) ->
  rendered root p pre post bs st ->
  exists st' bs',
    for_each (processAction (S f) renderer n root) actions st = (Ok tt, st') /\
    map value (data st') =
      fold_left (fun vals a => list_model renderer a vals) actions (map value (data st)) /\
    rendered root p pre post bs' st' /\
    Span.childNodes root (world st') = Ok (flat bs') /\
    arrays st' = arrays st.
Proof.
  intros Hrender Hupdate Hrd.
  destruct (actions_rendered f renderer n root p pre post Hrender Hupdate actions st bs Hrd)
    as (st' & bs' & Hrun & (Hrd' & Ha' & _) & Hv').
  exists st', bs'. split_and!; try done.
  destruct Hrd' as [_ [Hatt _ _ _]].
  by apply (childNodes_between (world st') root p pre (flat bs') post).
Qed.

Lemma shows_block_texts (d : dom) (l : list (Packed T))
      (bs : list (DynamicRange * list nat)) :
  shows renderer d l bs ->
  block_texts d bs = map (fun x => primitive_image (render renderer x)) (map value l).
Proof.
  intros Hs. unfold shows in Hs. induction Hs as [|x b l bs Hx Hs IH]; [done|].
  simpl. rewrite <- IH. f_equal.
  destruct Hx as (t & s & -> & -> & _ & ->). done.
Qed.

(** X18 (actions.ts, list).  The document shows the data: when [update]
    answers what [render] answers for the new value, and every block shows
    its record (one Text node holding the rendering of the value), then
    after any sequence of actions every block shows its record again: the
    texts between the markers, in order, are the renderings of the values
    held. *)
Theorem list_shows_the_values_it_holds
        (actions : list (ListBasicAction T)) (st : lstate T)
        (bs : list (DynamicRange * list nat)) :
  (forall x, is_Some (primitive_image (render renderer x))) ->
  update_agrees renderer ->
  rendered root p pre post bs st ->
  shows renderer (world st) (data st) bs ->
  exists st' bs',
    for_each (processAction (S f) renderer n root) actions st = (Ok tt, st') /\
    rendered root p pre post bs' st' /\
    shows renderer (world st') (data st') bs' /\
    block_texts (world st') bs' =
      map (fun x => primitive_image (render renderer x)) (map value (data st')).
Proof.
  intros Hrender Hag Hrd Hsh.
  assert (Hupdate : forall upd rg x old,
             update renderer = Some upd -> is_Some (primitive_image (upd rg x old))).
  { intros upd rg x old Hupd. rewrite (Hag upd rg x old Hupd). apply Hrender. }
  destruct (actions_rendered f renderer n root p pre post Hrender Hupdate actions st bs Hrd)
    as (st' & bs' & Hrun & (Hrd' & Ha' & Hs') & Hv').
  exists st', bs'. split_and!; try done.
  - by apply Hs'.
  - apply shows_block_texts. by apply Hs'.
Qed.

(** X19 (actions.ts, removeFromData).  Removing keys none of which is held
    changes nothing: neither the records nor the document. *)
Theorem remove_of_absent_keys_changes_nothing (keys : list string) (st : lstate T) :
  (forall key x, key ∈ keys -> x ∈ data st -> extractKey renderer (value x) <> key) ->
  remove (S f) renderer n root keys st = (Ok tt, st).
Proof.
  unfold remove. simpl processAction. revert st.
  induction keys as [|key keys IH]; intros st Habs; simpl; [done|].
  unfold bind at 1. unfold bind at 1, get. unfold findIndex.
  assert (Hnone : find_key_from renderer key 0 (data st) = None).
  { apply find_key_from_None. intros x Hx. apply Habs; [set_solver|done]. }
  rewrite Hnone. simpl. apply IH. intros k x Hk Hx. apply Habs; [set_solver|done].
Qed.

(** X20 (actions.ts, processAction "clear").  [clear()] on a rendered list
    leaves no record and an empty root span in place; every node the
    blocks held hangs nowhere, and no node is created or changed. *)
Theorem clear_empties_the_list (st : lstate T) (bs : list (DynamicRange * list nat)) :
  rendered root p pre post bs st ->
  exists st',
    clear (S f) renderer n root st = (Ok tt, st') /\
    data st' = [] /\
    rendered root p pre post [] st' /\
    Span.childNodes root (world st') = Ok [] /\
    Span.firstChild root (world st') = None /\
    (forall x, x ∈ flat bs -> parent_of (world st') x = None) /\
    moved (world st) (world st').
Proof.
  intros [Hr Hlo].
  destruct (clear_blocks root p pre post (world st) bs Hlo)
    as (d' & Hrun & Hlo' & Hp' & Hmv).
  exists (MkLState d' [] (arrays st)).
  pose proof Hlo' as [Hatt _ _ _].
  split_and!; try done.
  - unfold clear. simpl processAction.
    rewrite (bind_Ok _ _ _ _ _ (set_data_run _ st)).
    by apply (liftD_Ok _ (MkLState (world st) _ (arrays st))).
  - by apply (childNodes_between d' root p pre [] post).
  - simpl. by destruct (firstChild_in_place d' root p pre [] post Hatt) as (_ & _ & ->).
Qed.

End ListTheorems.

(** X22 (actions.ts, list).  [list(renderer, initial)] in a document whose
    identities from [next_id] on are unused: it answers a new fragment
    holding the two root markers, the records hold the initial values in
    order, the list is rendered in the fragment, and every block shows its
    record. *)
Theorem list_renders_the_initial_values
        {T : Type} `{EqDecision T} (f : nat) (renderer : ListRenderer T) (rnd : string)
        (initial : list T) (d : dom) :
  (forall x, is_Some (primitive_image (render renderer x))) ->
  (forall upd rg x old,
      update renderer = Some upd -> is_Some (primitive_image (upd rg x old))) ->
  fresh_from d ->
  let a := next_id d in
  let root := MkDynamicRange a (a + 1) in
  exists st' bs',
    Actions.list (S f) renderer rnd (Some initial) d = (Ok (a + 2, root), st') /\
    map value (data st') = initial /\
    rendered root (a + 2) [] [] bs' st' /\
    kids (world st') (a + 2) = a :: flat bs' ++ [a + 1] /\
    (update_agrees renderer -> shows renderer (world st') (data st') bs') /\
    console (world st') = console d.
Proof.
  intros Hrender Hupdate Hfr a root.
  destruct (namedRange_empty (S f) (list_name renderer rnd) d Hfr)
    as (d1 & Hnr & Hlo1 & _ & _ & _ & _ & _ & _ & Hco1 & Hn1 & _).
  fold a in Hnr, Hlo1, Hn1. fold root in Hnr, Hlo1.
  set (st1 := MkLState d1 (@nil (Packed T)) (@nil (list T))).
  assert (Hrd1 : rendered root (a + 2) [] [] [] st1) by (by split).
  destruct (assignData_rendered f renderer (list_name renderer rnd) root (a + 2) [] []
              Hrender Hupdate initial st1 [] Hrd1)
    as (st' & bs' & Hrun & (Hrd' & Ha' & Hs') & Hco' & Hv').
  exists st', bs'. split_and!; try done.
  - unfold Actions.list.
    rewrite (bind_Ok _ _ _ _ _ (liftD_Ok _ (MkLState d [] []) _ _ Hnr)).
    simpl snd. fold st1. by rewrite (bind_Ok _ _ _ _ _ Hrun).
  - destruct Hrd' as [_ [[Hk _ _] _ _ _]]. exact Hk.
  - intros Hag. apply Hs'; [done|]. constructor.
  - rewrite Hco'. done.
Qed.

(** ** Reactors (src/utils.ts) *)

Ltac run_reactor :=
  cbv [Utils.push Utils.stop Utils.next Utils.return_ Utils.throw_
       Utils.buffered_push Utils.buffered_next Utils.settle_wait Utils.wait_promise
       Utils.Promise_resolve Utils.new_Resolver Utils.Resolver_resolve
       Utils.call_onExit Utils.set_promises Utils.set_done_flag Utils.set_wait
       Utils.set_queue Utils.set_onExit Utils.run_call bind get ret modify].

Section ReactorFacts.
Context {T : Type} (is_truthy : T -> bool).
Implicit Types (s : Utils.reactor T) (c : Utils.call T).

Lemma new_reactor_inv (on_exit : bool) : reactor_inv (Utils.new_reactor (T:=T) on_exit).
Proof.
  split; simpl; try lia; try done.
Qed.

Lemma lookup_snoc_pending {A} (l : list (option A)) (v : option A) (i : nat) :
  (l ++ [v]) !! i = Some None <->
  l !! i = Some None \/ (i = length l /\ v = None).
Proof.
  destruct (decide (i < length l)) as [Hlt|Hge].
  - rewrite lookup_app_l by done. split; [by left|]. intros [?|[? _]]; [done|lia].
  - rewrite lookup_app_r by lia.
    destruct (decide (i = length l)) as [->|Hne].
    + rewrite Nat.sub_diag. simpl. split.
      * intros [= ->]. by right.
      * intros [Hl|[_ ->]]; [|done].
        apply lookup_lt_Some in Hl. lia.
    + destruct (i - length l) as [|k] eqn:Hk; [lia|]. simpl. rewrite lookup_nil.
      split; [discriminate|]. intros [Hl|[? _]]; [|lia].
      apply lookup_lt_Some in Hl. lia.
Qed.

Lemma lookup_settle_pending {A} (l : list (option A)) (w : nat) (v : A) (i : nat) :
  l !! w = Some None ->
  <[w := Some v]> l !! i = Some None <-> (l !! i = Some None /\ i <> w).
Proof.
  intros Hw. destruct (decide (i = w)) as [->|Hne].
  - rewrite list_lookup_insert_eq by (by apply lookup_lt_Some in Hw).
    split; [discriminate|]. by intros [_ ?].
  - rewrite list_lookup_insert_ne by done. split; [by intros ?|by intros [? _]].
Qed.

(** Every call completes and keeps the invariant. *)
Lemma run_call_inv (buffered : bool) c s :
  reactor_inv s ->
  exists s', Utils.run_call is_truthy buffered c s = (Ok tt, s') /\ reactor_inv s'.
Proof.
  intros [Hp Hd He Hed].
  assert (Hw : forall w, Utils.wait s = Some w -> Utils.promises s !! w = Some None)
    by (intros w; apply Hp).
  assert (Hfresh : Utils.promises s !! length (Utils.promises s) <> Some None).
  { rewrite lookup_ge_None_2 by lia. discriminate. }
  destruct s as [ps dn w q ox ex]; simpl in *.
  destruct c, buffered, dn; run_reactor; simpl;
    try (specialize (Hd eq_refl); subst w);
    repeat match goal with
    | |- context [match ?w with Some _ => _ | None => _ end] =>
        match type of w with
        | option nat => let H := fresh "Hwait" in destruct w eqn:H
        | option T => destruct w
        end
    | H : forall w0, Some ?n = Some w0 -> _ |- _ =>
        let H' := fresh "Hpend" in
        pose proof (H n eq_refl) as H'; clear H; simpl; rewrite ?H'; simpl
    | |- context [if is_truthy ?v then _ else _] => destruct (is_truthy v)
    | |- context [if ox then _ else _] => destruct ox
    end; simpl;
    (eexists; split; [reflexivity|]);
    split; simpl; try done; try lia;
    try (intros _; lia);
    intros i; specialize (Hp i); simpl in *; subst;
    rewrite ?lookup_snoc_pending; rewrite ?lookup_settle_pending by done;
    rewrite ?Hp;
    intuition (try congruence; try discriminate; try lia; try (f_equal; lia)).
Qed.

Lemma run_calls_inv (buffered : bool) (calls : list (Utils.call T)) :
  forall s,
    reactor_inv s ->
    exists s', for_each (Utils.run_call is_truthy buffered) calls s = (Ok tt, s') /\
               reactor_inv s'.
Proof.
  induction calls as [|c calls IH]; intros s Hs; simpl.
  - by exists s.
  - destruct (run_call_inv buffered c s Hs) as (s1 & Hrun & Hs1).
    destruct (IH s1 Hs1) as (s2 & Hrest & Hs2).
    exists s2. split; [|done].
    by rewrite (bind_Ok _ _ _ _ _ Hrun).
Qed.

Lemma create_inv (buffered cleanup : bool) (during : list (Utils.call T)) s :
  reactor_inv s ->
  exists s', Utils.create is_truthy buffered during cleanup s = (Ok tt, s') /\
             reactor_inv s'.
Proof.
  intros Hs. destruct (run_calls_inv buffered during s Hs) as (s1 & Hrun & [Hp Hd He Hed]).
  unfold Utils.create. rewrite (bind_Ok _ _ _ _ _ Hrun).
  eexists. split; [reflexivity|]. by split.
Qed.

(** A finished reactor stays finished, and its [onExit] does not run. *)
Lemma run_call_done (buffered : bool) c s :
  Utils.done_flag s = true ->
  exists s', Utils.run_call is_truthy buffered c s = (Ok tt, s') /\
             Utils.done_flag s' = true /\ Utils.exits s' = Utils.exits s.
Proof.
  intros Hd. destruct s as [ps dn w q ox ex]; simpl in *; subst dn.
  destruct c, buffered; run_reactor; simpl;
    repeat match goal with
    | |- context [match ?w with Some _ => _ | None => _ end] => destruct w; simpl
    | |- context [if ?b then _ else _] => destruct b; simpl
    end; by eexists.
Qed.

Lemma run_calls_done (buffered : bool) (calls : list (Utils.call T)) :
  forall s,
    Utils.done_flag s = true ->
    exists s', for_each (Utils.run_call is_truthy buffered) calls s = (Ok tt, s') /\
               Utils.done_flag s' = true /\ Utils.exits s' = Utils.exits s.
Proof.
  induction calls as [|c calls IH]; intros s Hs; simpl.
  - by exists s.
  - destruct (run_call_done buffered c s Hs) as (s1 & Hrun & Hd1 & He1).
    destruct (IH s1 Hd1) as (s2 & Hrest & Hd2 & He2).
    exists s2. rewrite (bind_Ok _ _ _ _ _ Hrun). split_and!; [done|done|congruence].
Qed.

(** Pushes into a buffered reactor nobody waits on are queued. *)
Lemma buffered_pushes_queue (xs : list T) :
  forall s,
    Utils.done_flag s = false -> Utils.wait s = None ->
    for_each (Utils.run_call is_truthy true) (map Utils.CallPush xs) s =
    (Ok tt, Utils.MkReactor (Utils.promises s) false None (Utils.queue s ++ xs)
                            (Utils.onExit s) (Utils.exits s)).
Proof.
  induction xs as [|x xs IH]; intros [ps dn w q ox ex] Hd Hw; simpl in *; subst.
  - by rewrite app_nil_r.
  - unfold bind at 1. run_reactor. simpl.
    rewrite IH by done. simpl. by rewrite <- app_assoc.
Qed.

(** [next()] on a buffered reactor whose queue starts with truthy values
    answers them in order, each in a promise of its own. *)
Lemma buffered_nexts_deliver (xs : list T) :
  forall s (rest : list T),
    Utils.queue s = xs ++ rest ->
    Forall (fun x => is_truthy x = true) xs ->
    exists ids s',
      Utils.nexts is_truthy true (length xs) s = (Ok ids, s') /\
      settled s' ids = map (fun x => Some (Some (Yielded x))) xs /\
      Utils.queue s' = rest /\
      Utils.done_flag s' = Utils.done_flag s /\
      Utils.wait s' = Utils.wait s /\
      Utils.exits s' = Utils.exits s /\
      (forall i, i < length (Utils.promises s) ->
                 Utils.promises s' !! i = Utils.promises s !! i).
Proof.
  induction xs as [|x xs IH]; intros [ps dn w q ox ex] rest Hq Hall; simpl in *; subst.
  - exists [], (Utils.MkReactor ps dn w rest ox ex). by split_and!.
  - apply Forall_cons in Hall as [Hx Hall].
    unfold bind at 1. run_reactor. simpl. rewrite Hx. simpl.
    edestruct (IH (Utils.MkReactor (ps ++ [Some (Yielded x)]) dn w (xs ++ rest) ox ex) rest)
      as (ids & s' & Hrun & Hset & Hq' & Hd' & Hw' & He' & Hold); [done|done|].
    simpl in *. rewrite Hrun. simpl.
    exists (length ps :: ids), s'. split_and!; try done.
    + unfold settled in *. simpl. rewrite Hset. f_equal.
      rewrite Hold by (rewrite length_app; simpl; lia).
      by rewrite lookup_app_r, Nat.sub_diag by lia.
    + intros i Hi. rewrite Hold by (rewrite length_app; simpl; lia).
      by rewrite lookup_app_l by done.
Qed.

(** X24 (utils.ts).  [stop()] finishes a reactor without running [onExit],
    and nothing called afterwards runs it: the number of runs of [onExit]
    after [stop()] and any further calls is the number before. *)
Theorem reactor_stop_never_runs_onExit
        (buffered : bool) (calls : list (Utils.call T)) s :
  exists s',
    for_each (Utils.run_call is_truthy buffered) (Utils.CallStop :: calls) s = (Ok tt, s') /\
    Utils.done_flag s' = true /\
    Utils.exits s' = Utils.exits s.
Proof.
  assert (exists s1, Utils.run_call is_truthy buffered Utils.CallStop s = (Ok tt, s1) /\
                     Utils.done_flag s1 = true /\ Utils.exits s1 = Utils.exits s)
    as (s1 & Hstop & Hd1 & He1).
  { destruct s as [ps dn w q ox ex]. run_reactor. simpl.
    destruct dn; simpl; [by eexists|].
    destruct w as [w|]; simpl; [|by eexists].
    destruct (ps !! w) as [[?|]|]; by eexists. }
  destruct (run_calls_done buffered calls s1 Hd1) as (s' & Hrun & Hd' & He').
  exists s'. simpl. rewrite (bind_Ok _ _ _ _ _ Hstop). split_and!; [done|done|congruence].
Qed.

(** X25 (utils.ts).  After any sequence of calls on a new reactor the pending
    promises are exactly the one [wait] holds (so there is at most one), and
    once the reactor is finished no promise it handed out is pending. *)
Theorem reactor_leaves_no_promise_pending
        (buffered on_exit : bool) (calls : list (Utils.call T)) :
  exists s',
    for_each (Utils.run_call is_truthy buffered) calls (Utils.new_reactor on_exit)
      = (Ok tt, s') /\
    (forall i, Utils.promises s' !! i = Some None <-> Utils.wait s' = Some i) /\
    (Utils.done_flag s' = true -> forall i, Utils.promises s' !! i <> Some None).
Proof.
  destruct (run_calls_inv buffered calls _ (new_reactor_inv on_exit))
    as (s' & Hrun & [Hp Hd _ _]).
  exists s'. split_and!; [done|done|].
  intros Hdone i Hi. apply Hp in Hi. rewrite Hd in Hi by done. discriminate.
Qed.

(** X26 (utils.ts).  A buffered reactor is a queue: truthy values pushed
    while nobody waits are answered by the following calls of [next()] in
    the order they were pushed, each in a fulfilled promise, also when
    [stop()] was called in between. *)
Theorem buffered_reactor_delivers_in_order
        (xs : list T) (stopped : bool) s :
  Utils.done_flag s = false -> Utils.wait s = None -> Utils.queue s = [] ->
  Forall (fun x => is_truthy x = true) xs ->
  exists ids s',
    (for_each (Utils.run_call is_truthy true) (map Utils.CallPush xs) ;;
     (if stopped then Utils.stop else ret tt) ;;
     Utils.nexts is_truthy true (length xs)) s = (Ok ids, s') /\
    settled s' ids = map (fun x => Some (Some (Yielded x))) xs /\
    Utils.queue s' = [] /\
    Utils.done_flag s' = stopped.
Proof.
  intros Hd Hw Hq Hall.
  rewrite (bind_Ok _ _ _ _ _ (buffered_pushes_queue xs s Hd Hw)).
  rewrite Hq. simpl.
  set (s1 := Utils.MkReactor (Utils.promises s) stopped None xs
                             (Utils.onExit s) (Utils.exits s)).
  assert (Hstop : (if stopped then Utils.stop else ret tt)
                    (Utils.MkReactor (Utils.promises s) false None xs
                                     (Utils.onExit s) (Utils.exits s)) = (Ok tt, s1)).
  { by destruct stopped. }
  rewrite (bind_Ok _ _ _ _ _ Hstop).
  destruct (buffered_nexts_deliver xs s1 []) as (ids & s' & Hrun & Hset & Hq' & Hd' & _);
    [by rewrite app_nil_r|done|].
  exists ids, s'. by split_and!.
Qed.

(** X27 (utils.ts).  A plain reactor keeps nothing: a value pushed while no
    [next()] is pending is dropped, the reactor is as it was.  So is every
    value a handler pushes while [Reactor.create] runs. *)
Theorem reactor_push_without_waiter_is_dropped (xs : list T) s :
  Utils.wait s = None ->
  for_each (Utils.run_call is_truthy false) (map Utils.CallPush xs) s = (Ok tt, s) /\
  (forall cleanup,
      Utils.create is_truthy false (map Utils.CallPush xs) cleanup (Utils.new_reactor false)
      = (Ok tt, Utils.new_reactor cleanup)).
Proof.
  assert (Hdrop : forall s0 : Utils.reactor T,
             Utils.wait s0 = None ->
             for_each (Utils.run_call is_truthy false) (map Utils.CallPush xs) s0 = (Ok tt, s0)).
  { induction xs as [|x xs' IH]; intros [ps dn w q ox ex] Hw; simpl in *; subst; [done|].
    unfold bind at 1. run_reactor. simpl. destruct dn; simpl; by rewrite IH. }
  intros Hw. split; [by apply Hdrop|].
  intros cleanup. unfold Utils.create. by rewrite (bind_Ok _ _ _ _ _ (Hdrop (Utils.new_reactor false) eq_refl)).
Qed.

(** X28 (utils.ts).  A buffered reactor loses a falsy value: pushing one
    while the queue is empty and nobody waits, and then calling [next()],
    leaves the reactor as [next()] alone does, with the same answer. *)
Theorem buffered_reactor_loses_falsy_values (x : T) s :
  is_truthy x = false ->
  Utils.done_flag s = false -> Utils.wait s = None -> Utils.queue s = [] ->
  (Utils.buffered_push x ;; Utils.buffered_next is_truthy) s =
  Utils.buffered_next is_truthy s.
Proof.
  intros Hx Hd Hw Hq. destruct s as [ps dn w q ox ex]; simpl in *; subst.
  run_reactor. simpl. by rewrite Hx.
Qed.

(** X29 (utils.ts).  Two calls of [next()] with no push in between answer
    the same promise, and the next push fulfils it: both consumers get the
    one value. *)
Theorem reactor_pending_nexts_share_a_promise (x : T) s :
  reactor_inv s ->
  Utils.done_flag s = false ->
  exists w s',
    (p1 <- Utils.next ; p2 <- Utils.next ; ok <- Utils.push x ; ret (p1, p2, ok)) s
      = (Ok (w, w, true), s') /\
    Utils.promises s' !! w = Some (Some (Yielded x)) /\
    Utils.wait s' = None.
Proof.
  intros [Hp _ _ _] Hd. destruct s as [ps dn [w|] q ox ex]; simpl in *; subst.
  - pose proof (proj2 (Hp w) eq_refl) as Hw.
    exists w. run_reactor. simpl. rewrite Hw. simpl.
    eexists. split_and!; [reflexivity| |done]. simpl.
    apply list_lookup_insert_eq. by apply lookup_lt_Some in Hw.
  - exists (length ps). run_reactor. simpl.
    rewrite lookup_app_r, Nat.sub_diag by lia. simpl.
    eexists. split_and!; [reflexivity| |done]. simpl.
    rewrite list_lookup_insert_eq by (rewrite length_app; simpl; lia). done.
Qed.

End ReactorFacts.

(** ** Reactors whose onExit calls back *)

Section ReentrantFacts.
Context {T : Type} (is_truthy : T -> bool).
Implicit Types (s : Utils.reactor T) (c : Utils.call T).

(** A call other than [return()] and [throw()] completes, runs no callback
    and leaves a finished reactor finished. *)
Lemma run_call_no_exit (buffered : bool) c s :
  no_exit_call c ->
  exists s',
    Utils.run_call is_truthy buffered c s = (Ok tt, s') /\
    Utils.exits s' = Utils.exits s /\
    Utils.onExit s' = Utils.onExit s /\
    (Utils.done_flag s = true -> Utils.done_flag s' = true).
Proof.
  intros [Hr Ht]. destruct s as [ps dn w q ox ex].
  destruct c; try done; destruct buffered, dn; run_reactor; simpl;
    repeat match goal with
    | |- context [match ?x with Some _ => _ | None => _ end] => destruct x; simpl
    | |- context [if ?b then _ else _] => destruct b; simpl
    end; by eexists.
Qed.

(** With a callback that calls nothing, the reactor is the plain one. *)
Lemma run_call_with_nothing (f : nat) (buffered : bool) c s :
  Utils.run_call_with is_truthy (fun _ => []) (S f) buffered c s
  = Utils.run_call is_truthy buffered c s.
Proof.
  destruct s as [ps dn w q ox ex].
  destruct c; try done; simpl; run_reactor; simpl; destruct dn, ox, w as [w|]; simpl;
    try done; by destruct (ps !! w) as [[|]|].
Qed.

(** The end of [return()] and [throw()]. *)
Lemma finish_completes s :
  exists s',
    (Utils.set_done_flag true ;; Utils.settle_wait Finished ;;
     Utils.Promise_resolve Finished ;; ret tt) s = (Ok tt, s') /\
    Utils.exits s' = Utils.exits s /\ Utils.done_flag s' = true.
Proof.
  destruct s as [ps dn w q ox ex]. run_reactor. simpl.
  destruct w as [w|]; simpl; [destruct (ps !! w) as [[|]|]|]; simpl; by eexists.
Qed.

(** [return()] on a reactor that is not finished and has a callback: the
    callback is counted and what it calls is run before the reactor is
    finished. *)
Lemma return_runs_the_callback (inside : nat -> list (Utils.call T)) (f : nat)
      (buffered : bool) s :
  Utils.done_flag s = false -> Utils.onExit s = true ->
  Utils.run_call_with is_truthy inside (S f) buffered Utils.CallReturn s =
  (for_each (Utils.run_call_with is_truthy inside f buffered) (inside (Utils.exits s)) ;;
   Utils.set_done_flag true ;; Utils.settle_wait Finished ;;
   Utils.Promise_resolve Finished ;; ret tt)
    (Utils.MkReactor (Utils.promises s) false (Utils.wait s) (Utils.queue s) true
                     (S (Utils.exits s))).
Proof.
  intros Hd Ho. destruct s as [ps dn w q ox ex]. simpl in Hd, Ho. subst dn ox.
  cbn [Utils.run_call_with]. unfold bind at 1, get. cbn [Utils.done_flag Utils.onExit].
  rewrite bind_assoc. unfold bind at 1, Utils.call_onExit, modify. simpl.
  reflexivity.
Qed.

Section Quiet.
Variable inside : nat -> list (Utils.call T).
Hypothesis Hquiet : forall k, Forall no_exit_call (inside k).

Lemma run_calls_no_exit (f : nat) (buffered : bool) (calls : list (Utils.call T)) :
  Forall no_exit_call calls ->
  forall s,
    exists s',
      for_each (Utils.run_call_with is_truthy inside (S f) buffered) calls s = (Ok tt, s') /\
      Utils.exits s' = Utils.exits s /\
      Utils.onExit s' = Utils.onExit s /\
      (Utils.done_flag s = true -> Utils.done_flag s' = true).
Proof.
  induction 1 as [|c calls Hc _ IH]; intros s; cbn [for_each].
  - by exists s.
  - destruct (run_call_no_exit buffered c s Hc) as (s1 & Hrun & He1 & Ho1 & Hd1).
    destruct (IH s1) as (s2 & Hrest & He2 & Ho2 & Hd2).
    exists s2. split_and!; [|congruence|congruence|auto].
    assert (Hsame : Utils.run_call_with is_truthy inside (S f) buffered c s
                    = Utils.run_call is_truthy buffered c s)
      by (destruct Hc as [? ?]; by destruct c).
    unfold bind at 1. rewrite Hsame, Hrun. exact Hrest.
Qed.

(** One call on a reactor whose callback never calls [return()] or
    [throw()]: the callback runs at most once more, and only in a call that
    finishes the reactor. *)
Lemma run_call_with_quiet (f : nat) (buffered : bool) c s :
  exists s',
    Utils.run_call_with is_truthy inside (S (S f)) buffered c s = (Ok tt, s') /\
    Utils.exits s <= Utils.exits s' <= S (Utils.exits s) /\
    (Utils.done_flag s = true ->
     Utils.done_flag s' = true /\ Utils.exits s' = Utils.exits s) /\
    (Utils.exits s' = S (Utils.exits s) -> Utils.done_flag s' = true).
Proof.
  assert (Hcases : no_exit_call c \/ c = Utils.CallReturn \/ c = Utils.CallThrow).
  { destruct c; auto; left; by split. }
  destruct Hcases as [Hc|Hex].
  - destruct (run_call_no_exit buffered c s Hc) as (s1 & Hrun & He1 & Ho1 & Hd1).
    exists s1. split_and!; try lia.
    + destruct Hc as [? ?]. by destruct c.
    + intros Hd. by split; [apply Hd1|].
  - assert (Hbody : Utils.run_call_with is_truthy inside (S (S f)) buffered c s =
      (s0 <- get ;
       (if Utils.done_flag s0 then ret tt
        else if Utils.onExit s0
             then Utils.call_onExit ;;
                  for_each (Utils.run_call_with is_truthy inside (S f) buffered)
                           (inside (Utils.exits s0))
             else ret tt) ;;
       Utils.set_done_flag true ;;
       Utils.settle_wait Finished ;;
       Utils.Promise_resolve Finished ;;
       ret tt) s) by (by destruct Hex as [-> | ->]).
    rewrite Hbody. clear Hbody.
    pose proof finish_completes as Hend.
    unfold bind at 1, get.
    destruct (Utils.done_flag s) eqn:Hd.
    + destruct (Hend s) as (s' & Hrun & He & Hd').
      exists s'. unfold bind at 1, ret. split_and!; [done|lia|lia|done|lia].
    + destruct (Utils.onExit s) eqn:Ho.
      * set (s1 := Utils.MkReactor (Utils.promises s) (Utils.done_flag s) (Utils.wait s)
                                   (Utils.queue s) (Utils.onExit s) (S (Utils.exits s))).
        assert (Hcall : Utils.call_onExit s = (Ok tt, s1)).
        { unfold Utils.call_onExit, modify, s1. by rewrite Ho. }
        destruct (run_calls_no_exit f buffered (inside (Utils.exits s))
                    (Hquiet _) s1) as (s2 & Hrun2 & He2 & _ & _).
        destruct (Hend s2) as (s' & Hrun & He & Hd').
        exists s'. split_and!.
        -- unfold bind at 1. unfold bind at 1. rewrite Hcall. rewrite Hrun2. exact Hrun.
        -- rewrite He, He2. simpl. lia.
        -- rewrite He, He2. simpl. lia.
        -- done.
        -- done.
      * destruct (Hend s) as (s' & Hrun & He & Hd').
        exists s'. unfold bind at 1, ret. split_and!; [done|lia|lia|done|done].
Qed.

Lemma run_calls_with_quiet (f : nat) (buffered : bool) (calls : list (Utils.call T)) :
  forall s,
    Utils.exits s <= 1 -> (0 < Utils.exits s -> Utils.done_flag s = true) ->
    exists s',
      for_each (Utils.run_call_with is_truthy inside (S (S f)) buffered) calls s = (Ok tt, s') /\
      Utils.exits s' <= 1 /\
      (0 < Utils.exits s' -> Utils.done_flag s' = true).
Proof.
  induction calls as [|c calls IH]; intros s He Hd; cbn [for_each].
  - by exists s.
  - destruct (run_call_with_quiet f buffered c s) as (s1 & Hrun & Hb & Hdone & Hnew).
    destruct (IH s1) as (s2 & Hrest & He2 & Hd2).
    + destruct (Utils.done_flag s) eqn:Hds.
      * destruct (Hdone eq_refl) as [_ ->]. done.
      * assert (Utils.exits s = 0).
        { destruct (Nat.eq_dec (Utils.exits s) 0) as [|Hne]; [done|].
          assert (Hpos0 : 0 < Utils.exits s) by lia. by specialize (Hd Hpos0). }
        lia.
    + intros Hpos. destruct (Utils.done_flag s) eqn:Hds.
      * by destruct (Hdone eq_refl).
      * assert (Utils.exits s = 0).
        { destruct (Nat.eq_dec (Utils.exits s) 0) as [|Hne]; [done|].
          assert (Hpos0 : 0 < Utils.exits s) by lia. by specialize (Hd Hpos0). }
        apply Hnew. lia.
    + exists s2. split_and!; try done. unfold bind at 1. by rewrite Hrun.
Qed.
End Quiet.

(** A callback that calls [return()] on its first run is run again by that
    call: [done_flag] is still unset. *)
Lemma return_again (again : nat -> list (Utils.call T)) (f : nat) (buffered : bool) s :
  Utils.done_flag s = false -> Utils.onExit s = true ->
  again (Utils.exits s) = [Utils.CallReturn] ->
  Forall no_exit_call (again (S (Utils.exits s))) ->
  exists s',
    Utils.run_call_with is_truthy again (S (S (S f))) buffered Utils.CallReturn s = (Ok tt, s') /\
    Utils.exits s' = S (S (Utils.exits s)) /\
    Utils.done_flag s' = true.
Proof.
  intros Hd Ho Hfirst Hsecond.
  rewrite return_runs_the_callback by done. rewrite Hfirst.
  set (s1 := Utils.MkReactor _ _ _ _ _ _).
  assert (Hinner : exists s2,
    Utils.run_call_with is_truthy again (S (S f)) buffered Utils.CallReturn s1 = (Ok tt, s2) /\
    Utils.exits s2 = S (S (Utils.exits s))).
  { rewrite return_runs_the_callback by done.
    set (s1' := Utils.MkReactor _ _ _ _ _ _).
    destruct (run_calls_no_exit again f buffered (again (S (Utils.exits s))) Hsecond s1')
      as (s2 & Hrun2 & He2 & _ & _).
    destruct (finish_completes s2) as (s3 & Hrun3 & He3 & _).
    exists s3. split.
    - unfold bind at 1. simpl Utils.exits. rewrite Hrun2. exact Hrun3.
    - rewrite He3, He2. done. }
  destruct Hinner as (s2 & Hrun2 & He2).
  destruct (finish_completes s2) as (s3 & Hrun3 & He3 & Hd3).
  exists s3. split_and!.
  - cbn [for_each]. unfold bind at 1. unfold bind at 1. rewrite Hrun2.
    unfold ret at 1. exact Hrun3.
  - by rewrite He3.
  - done.
Qed.

(** A callback that calls [return()] at every run never returns. *)
Lemma return_forever (buffered : bool) (fuel : nat) :
  forall s,
    Utils.done_flag s = false -> Utils.onExit s = true ->
    fst (Utils.run_call_with is_truthy (fun _ => [Utils.CallReturn]) fuel buffered
                       Utils.CallReturn s) = Diverge.
Proof.
  induction fuel as [|f IH]; intros s Hd Ho; [done|].
  rewrite return_runs_the_callback by done.
  set (s1 := Utils.MkReactor _ _ _ _ _ _).
  specialize (IH s1 eq_refl eq_refl).
  cbn [for_each]. unfold bind at 1. unfold bind at 1.
  by destruct (Utils.run_call_with is_truthy _ f buffered Utils.CallReturn s1) as [[[]| | |] s2].
Qed.

End ReentrantFacts.

(** ** The property names of style *)

Section StyleNames.
Import Stdlib.Strings.Ascii Style.

Lemma toLowerCase_not_capital (c : ascii) :
  is_capital c = true -> is_capital (toLowerCase c) = false.
Proof.
  unfold is_capital, toLowerCase. intros [H1 H2]%andb_true_iff.
  apply Nat.leb_le in H1, H2.
  rewrite nat_ascii_embedding by lia.
  apply andb_false_iff. right. apply Nat.leb_gt. lia.
Qed.

Lemma replace_capitals_no_capital (s : string) :
  no_capital (replace_capitals s) = true.
Proof.
  induction s as [|c s IH]; simpl; [done|].
  destruct (is_capital c) eqn:Hc; simpl.
  - by rewrite (toLowerCase_not_capital c Hc), IH.
  - by rewrite Hc, IH.
Qed.

Lemma replace_capitals_fixed (s : string) :
  no_capital s = true -> replace_capitals s = s.
Proof.
  induction s as [|c s IH]; simpl; [done|].
  intros [Hc Hs]%andb_true_iff. apply negb_true_iff in Hc.
  rewrite Hc. by rewrite IH.
Qed.

Lemma replace_capitals_head (s : string) :
  match replace_capitals s with
  | String "$" _ => match s with String "$" _ => True | _ => False end
  | _ => True
  end.
Proof.
  destruct s as [|c s]; simpl; [done|].
  destruct (is_capital c) eqn:Hc; simpl; [done|].
  destruct c as [[] [] [] [] [] [] [] []]; try done.
Qed.

Lemma realKey_head (key : string) :
  replace_leading_dollar (realKey key) = realKey key.
Proof.
  unfold realKey.
  pose proof (replace_capitals_head (replace_leading_dollar key)) as Hh.
  destruct (replace_capitals (replace_leading_dollar key)) as [|c s] eqn:Heq; [done|].
  destruct c as [[] [] [] [] [] [] [] []]; try done.
  destruct key as [|c' key]; [done|].
  destruct c' as [[] [] [] [] [] [] [] []]; simpl in Hh; done.
Qed.

(** X30 (actions.ts, style).  The name [style] gives to [setProperty] and
    [removeProperty] has no ASCII capital letter, whatever the key;
    computing the name of a name changes nothing; and a key without
    capitals that does not begin with a dollar sign is its own name. *)
Theorem style_property_names_have_no_capitals (key : string) :
  no_capital (realKey key) = true /\
  realKey (realKey key) = realKey key /\
  (no_capital key = true -> replace_leading_dollar key = key -> realKey key = key).
Proof.
  split_and!.
  - apply replace_capitals_no_capital.
  - unfold realKey at 1. rewrite realKey_head.
    apply replace_capitals_fixed, replace_capitals_no_capital.
  - intros Hn Hd. unfold realKey. rewrite Hd. by apply replace_capitals_fixed.
Qed.

End StyleNames.

(** ** The theorems at work *)

Lemma page_dom_in_place :
  attached page_dom demo_span 0 [] [2; 3] [5] /\
  kind_of page_dom 0 = Some Element /\
  (forall y, y ∈ [6; 7] -> loose page_dom 0 y) /\
  fresh_from page_dom /\
  unused page_dom (next_id page_dom) /\
  (forall x, x ∈ span_nodes demo_span [2; 3] ->
             kind_of page_dom x <> Some DocumentFragment /\ ~ above page_dom 0 x).
Proof.
  split_and!.
  - split; [reflexivity|decide_it|apply Forall_forall; decide_it].
  - reflexivity.
  - intros y Hy. split_and!.
    + exists Text. split; [|done].
      repeat (apply elem_of_cons in Hy as [->|Hy]); [done..|by apply elem_of_nil in Hy].
    + repeat (apply elem_of_cons in Hy as [->|Hy]); [done..|by apply elem_of_nil in Hy].
    + intros Ha. apply above_root in Ha; [|done]. subst y.
      repeat (apply elem_of_cons in Hy as [Hy|Hy]); [done..|by apply elem_of_nil in Hy].
  - apply ids_below_fresh. reflexivity.
  - apply ids_below_unused; [reflexivity|simpl; lia].
  - apply in_place_of_root; [reflexivity|]. decide_it.
Qed.

Lemma delete_unlinks_the_whole_span_witness :
  exists d',
    Span.delete demo_span page_dom = (Ok tt, d') /\
    kids d' 0 = [] ++ [5] /\
    (forall q, q <> 0 -> kids d' q = kids page_dom q) /\
    (forall x, parent_of d' x =
               if decide (x ∈ span_nodes demo_span [2; 3]) then None
               else parent_of page_dom x) /\
    moved page_dom d' /\
    Span.delete demo_span d' = (Ok tt, d') /\
    Span.firstChild demo_span d' = None /\
    Span.childNodes demo_span d' = Throw TypeError.
Proof.
  destruct page_dom_in_place as (Hatt & _).
  exact (delete_unlinks_the_whole_span page_dom demo_span 0 [] [2; 3] [5] Hatt).
Defined.

Lemma replace_puts_the_node_in_place_of_the_span_witness :
  exists d',
    Span.replace demo_span 6 page_dom = (Ok tt, d') /\
    kids d' 0 = [] ++ 6 :: [5] /\
    (forall q, q <> 0 -> kids d' q = kids page_dom q) /\
    (forall x, parent_of d' x =
               if decide (x = 6) then Some 0
               else if decide (x ∈ span_nodes demo_span [2; 3]) then None
                    else parent_of page_dom x) /\
    moved page_dom d' /\
    Span.parentNode demo_span d' = None.
Proof.
  destruct page_dom_in_place as (Hatt & Hk & Hl & _).
  specialize (Hl 6 ltac:(set_solver)).
  exact (replace_puts_the_node_in_place_of_the_span page_dom demo_span 0 6 [] [2; 3] [5]
           Element Hatt Hk eq_refl Hl).
Defined.

Lemma detach_carries_the_span_into_a_new_fragment_witness :
  exists d',
    Span.detach demo_span page_dom = (Ok 8, d') /\
    kind_of d' 8 = Some DocumentFragment /\
    parent_of d' 8 = None /\
    attached d' demo_span 8 [] [2; 3] [] /\
    Span.childNodes demo_span d' = Ok [2; 3] /\
    kids d' 0 = [] ++ [5] /\
    (forall q, q <> 0 -> q <> 8 -> kids d' q = kids page_dom q) /\
    (forall x, x ∉ span_nodes demo_span [2; 3] -> parent_of d' x = parent_of page_dom x) /\
    next_id d' = 9.
Proof.
  destruct page_dom_in_place as (Hatt & _ & _ & _ & Hun & Hsp).
  apply (detach_carries_the_span_into_a_new_fragment page_dom demo_span 0 [] [2; 3] [5] Hatt);
    [|exact Hun].
  intros x Hx. by apply Hsp.
Defined.

Lemma detach_then_insert_back_restores_the_children_witness :
  exists d',
    (cached <- Span.detach demo_span ; Node_insertBefore 0 cached (head [5])) page_dom
      = (Ok tt, d') /\
    kids d' 0 = kids page_dom 0 /\
    attached d' demo_span 0 [] [2; 3] [5] /\
    (forall q, q <> 8 -> kids d' q = kids page_dom q) /\
    (forall x, parent_of d' x = parent_of page_dom x) /\
    kids d' 8 = [].
Proof.
  destruct page_dom_in_place as (Hatt & Hk & _ & _ & Hun & Hsp).
  exact (detach_then_insert_back_restores_the_children page_dom demo_span 0 [] [2; 3] [5]
           Element Hatt Hk eq_refl Hsp Hun).
Defined.

Lemma insertBefore_places_the_node_in_the_content_witness :
  (forall c1 c c2,
      [2; 3] = c1 ++ c :: c2 ->
      exists d',
        Span.insertBefore demo_span 6 (Some c) page_dom = (Ok tt, d') /\
        attached d' demo_span 0 [] (c1 ++ 6 :: c :: c2) [5] /\
        moved page_dom d') /\
  (exists d',
      Span.insertBefore demo_span 6 None page_dom = (Ok tt, d') /\
      Span.appendChild demo_span 6 page_dom = (Ok tt, d') /\
      attached d' demo_span 0 [] ([2; 3] ++ [6]) [5] /\
      moved page_dom d').
Proof.
  destruct page_dom_in_place as (Hatt & Hk & Hl & _).
  specialize (Hl 6 ltac:(set_solver)).
  exact (insertBefore_places_the_node_in_the_content page_dom demo_span 0 6 [] [2; 3] [5]
           Element Hatt Hk eq_refl Hl).
Defined.

Lemma insertBefore_ignores_a_reference_outside_the_content_witness :
  Span.insertBefore demo_span 6 (Some 4) page_dom = (Ok tt, page_dom) /\
  Span.insertBefore demo_span 6 (Some 5) page_dom = (Ok tt, page_dom).
Proof.
  destruct page_dom_in_place as (Hatt & _).
  split.
  - apply (insertBefore_ignores_a_reference_outside_the_content page_dom demo_span 0 6 4
             [] [2; 3] [5] Hatt); [decide_it|intros _; decide_it].
  - apply (insertBefore_ignores_a_reference_outside_the_content page_dom demo_span 0 6 5
             [] [2; 3] [5] Hatt); [decide_it|intros _; decide_it].
Defined.

Lemma append_and_prepend_deliver_only_the_first_node_witness :
  (exists later d1 d2,
      NodeActions.append 1 (map VNode [6; 7]) (OnNode 0) page_dom = (Ok later, d1) /\
      kids d1 0 = kids page_dom 0 ++ [6] /\
      later d1 = (Ok tt, d2) /\
      kids d2 0 = kids page_dom 0 ++ [6] /\
      kids d2 (next_id page_dom) = [7] /\
      parent_of d2 (next_id page_dom) = None /\
      (forall y, y ∈ [7] -> parent_of d2 y = Some (next_id page_dom)) /\
      console d2 = console page_dom) /\
  (exists later d1 d2,
      NodeActions.prepend 1 (map VNode [6; 7]) (OnNode 0) page_dom = (Ok later, d1) /\
      kids d1 0 = 6 :: kids page_dom 0 /\
      later d1 = (Ok tt, d2) /\
      kids d2 0 = 6 :: kids page_dom 0 /\
      kids d2 (next_id page_dom) = [7] /\
      parent_of d2 (next_id page_dom) = None /\
      (forall y, y ∈ [7] -> parent_of d2 y = Some (next_id page_dom)) /\
      console d2 = console page_dom).
Proof.
  destruct page_dom_in_place as ([_ Hnd Hpar] & Hk & Hl & Hfresh & _).
  apply (append_and_prepend_deliver_only_the_first_node 0 0 6 [7] page_dom Element);
    try done.
  decide_it.
Defined.

Lemma span_append_and_prepend_deliver_only_the_first_node_witness :
  (exists later d1 d2,
      NodeActions.append 1 (map VNode [6; 7]) (OnRange demo_span) page_dom
        = (Ok later, d1) /\
      attached d1 demo_span 0 [] ([2; 3] ++ [6]) [5] /\
      later d1 = (Ok tt, d2) /\
      Span.childNodes demo_span d2 = Ok ([2; 3] ++ [6]) /\
      kids d2 (next_id page_dom) = [7] /\
      parent_of d2 (next_id page_dom) = None) /\
  (exists later d1 d2,
      NodeActions.prepend 1 (map VNode [6; 7]) (OnRange demo_span) page_dom
        = (Ok later, d1) /\
      attached d1 demo_span 0 [] (6 :: [2; 3]) [5] /\
      later d1 = (Ok tt, d2) /\
      Span.childNodes demo_span d2 = Ok (6 :: [2; 3]) /\
      kids d2 (next_id page_dom) = [7] /\
      parent_of d2 (next_id page_dom) = None).
Proof.
  destruct page_dom_in_place as (Hatt & Hk & Hl & Hfresh & _).
  apply (span_append_and_prepend_deliver_only_the_first_node 0 0 6 [7] page_dom Element
           demo_span [] [2; 3] [5]); try done.
  decide_it.
Defined.

Lemma empty_unlinks_every_child_witness :
  (exists d',
      NodeActions.empty (OnNode 0) page_dom = (Ok tt, d') /\
      kids d' 0 = [] /\
      (forall q, q <> 0 -> kids d' q = kids page_dom q) /\
      (forall y, parent_of d' y =
                 if decide (y ∈ kids page_dom 0) then None else parent_of page_dom y) /\
      moved page_dom d' /\
      Span.parentNode demo_span d' = None) /\
  (exists d',
      NodeActions.empty (OnRange demo_span) page_dom = (Ok tt, d') /\
      attached d' demo_span 0 [] [] [5] /\
      (forall q, q <> 0 -> kids d' q = kids page_dom q) /\
      (forall y, parent_of d' y =
                 if decide (y ∈ [2; 3]) then None else parent_of page_dom y) /\
      moved page_dom d').
Proof.
  destruct page_dom_in_place as (Hatt & _).
  exact (empty_unlinks_every_child page_dom demo_span 0 [] [2; 3] [5] Hatt).
Defined.

Lemma mount_appends_the_nodes_in_order_witness :
  exists d',
    Mutable.mount 2 0 (map VNode [6; 7]) page_dom = (Ok 0, d') /\
    kids d' 0 = kids page_dom 0 ++ [6; 7] /\
    (forall q, q <> 0 -> kids d' q = kids page_dom q) /\
    (forall y, parent_of d' y =
               if decide (y ∈ [6; 7]) then Some 0 else parent_of page_dom y) /\
    moved page_dom d'.
Proof.
  destruct page_dom_in_place as (_ & Hk & Hl & _).
  apply (mount_appends_the_nodes_in_order 0 0 Element [6; 7] page_dom); try done.
  decide_it.
Defined.

Lemma text_holds_the_first_string_then_the_last_witness :
  exists later d1 d2,
    Mutable.text 1 (map VString ["a"; "b"; "c"]) page_dom
      = (Ok (next_id page_dom, later), d1) /\
    kind_of d1 (next_id page_dom) = Some Text /\
    chardata_of d1 (next_id page_dom) = Some "a" /\
    later d1 = (Ok tt, d2) /\
    kind_of d2 (next_id page_dom) = Some Text /\
    chardata_of d2 (next_id page_dom) = last ["a"; "b"; "c"] /\
    (forall x, x <> next_id page_dom -> nodes d2 !! x = nodes page_dom !! x) /\
    console d2 = console page_dom.
Proof.
  apply (text_holds_the_first_string_then_the_last 0 "a" ["b"; "c"] page_dom).
  reflexivity.
Defined.

Lemma text_rejects_a_node_and_drops_the_rest_witness :
  exists later d1,
    Mutable.text 1 [VNode 6; VString "never"] page_dom
      = (Ok (next_id page_dom, later), d1) /\
    d1 = snd (createTextNode "" page_dom) /\
    kind_of d1 (next_id page_dom) = Some Text /\
    chardata_of d1 (next_id page_dom) = Some "" /\
    later d1 =
      (Ok tt, Dom (nodes d1) (next_id d1)
                  (console page_dom ++ [Caught HierarchyRequestError])).
Proof.
  apply (text_rejects_a_node_and_drops_the_rest 0 6 [VString "never"] page_dom).
  - reflexivity.
  - by eexists.
Defined.

(** The todo list of [ab_state] is rendered and shows its records. *)
Lemma todo_renderer_answers_text :
  (forall x, is_Some (primitive_image (render todo_renderer x))) /\
  (forall upd rg x old,
      update todo_renderer = Some upd -> is_Some (primitive_image (upd rg x old))) /\
  update_agrees todo_renderer.
Proof.
  split_and!.
  - intros x. by eexists.
  - intros upd rg x old [= <-]. by eexists.
  - intros upd rg x old [= <-]. done.
Qed.

Lemma ab_state_rendered :
  rendered todo_root 0 [] [] ab_blocks ab_state /\
  shows todo_renderer (world ab_state) (data ab_state) ab_blocks.
Proof.
  destruct ab_dom_in_place as (Hnd & Hpar & Hfresh).
  split.
  - split; [reflexivity|]. split.
    + by split.
    + exists Element. by split.
    + done.
    + apply in_place_of_root; [reflexivity|]. decide_it.
  - repeat constructor.
    + exists 7, "first". by split_and!.
    + exists 11, "second". by split_and!.
Qed.

Lemma assign_leaves_exactly_the_given_values_witness :
  exists st' bs',
    assign 1 todo_renderer todo_name todo_root [item_C; item_A'; item_B] ab_state
      = (Ok tt, st') /\
    map value (data st') = [item_C; item_A'; item_B] /\
    rendered todo_root 0 [] [] bs' st' /\
    Span.childNodes todo_root (world st') = Ok (flat bs') /\
    console (world st') = console (world ab_state) /\
    arrays st' = arrays ab_state.
Proof.
  destruct todo_renderer_answers_text as (Hr & Hu & _).
  destruct ab_state_rendered as (Hrd & _).
  exact (assign_leaves_exactly_the_given_values 0 todo_renderer todo_name todo_root 0 [] []
           [item_C; item_A'; item_B] ab_state ab_blocks Hr Hu Hrd).
Defined.

Lemma list_actions_refine_the_list_model_witness :
  exists st' bs',
    for_each (processAction 1 todo_renderer todo_name todo_root)
             [ActAppend [item_C] (Some "A"); ActRemove ["B"]; ActPrepend [item_B] None]
             ab_state = (Ok tt, st') /\
    map value (data st') =
      fold_left (fun vals a => list_model todo_renderer a vals)
                [ActAppend [item_C] (Some "A"); ActRemove ["B"]; ActPrepend [item_B] None]
                (map value (data ab_state)) /\
    rendered todo_root 0 [] [] bs' st' /\
    Span.childNodes todo_root (world st') = Ok (flat bs') /\
    arrays st' = arrays ab_state.
Proof.
  destruct todo_renderer_answers_text as (Hr & Hu & _).
  destruct ab_state_rendered as (Hrd & _).
  exact (list_actions_refine_the_list_model 0 todo_renderer todo_name todo_root 0 [] []
           _ ab_state ab_blocks Hr Hu Hrd).
Defined.

Lemma list_shows_the_values_it_holds_witness :
  exists st' bs',
    for_each (processAction 1 todo_renderer todo_name todo_root)
             [ActAssign [item_B; item_A']; ActAppend [item_C] None] ab_state = (Ok tt, st') /\
    rendered todo_root 0 [] [] bs' st' /\
    shows todo_renderer (world st') (data st') bs' /\
    block_texts (world st') bs' =
      map (fun x => primitive_image (render todo_renderer x)) (map value (data st')).
Proof.
  destruct todo_renderer_answers_text as (Hr & _ & Hag).
  destruct ab_state_rendered as (Hrd & Hsh).
  exact (list_shows_the_values_it_holds 0 todo_renderer todo_name todo_root 0 [] []
           _ ab_state ab_blocks Hr Hag Hrd Hsh).
Defined.

Lemma remove_of_absent_keys_changes_nothing_witness :
  remove 1 todo_renderer todo_name todo_root ["C"; "D"] ab_state = (Ok tt, ab_state).
Proof.
  apply (remove_of_absent_keys_changes_nothing 0 todo_renderer todo_name todo_root).
  intros key x Hk Hx. simpl in Hx.
  repeat (apply elem_of_cons in Hx as [->|Hx]);
    [| |by apply elem_of_nil in Hx];
    repeat (apply elem_of_cons in Hk as [->|Hk]); try discriminate;
    by apply elem_of_nil in Hk.
Defined.

Lemma clear_empties_the_list_witness :
  exists st',
    clear 1 todo_renderer todo_name todo_root ab_state = (Ok tt, st') /\
    data st' = [] /\
    rendered todo_root 0 [] [] [] st' /\
    Span.childNodes todo_root (world st') = Ok [] /\
    Span.firstChild todo_root (world st') = None /\
    (forall x, x ∈ flat ab_blocks -> parent_of (world st') x = None) /\
    moved (world ab_state) (world st').
Proof.
  destruct ab_state_rendered as (Hrd & _).
  exact (clear_empties_the_list 0 todo_renderer todo_name todo_root 0 [] []
           ab_state ab_blocks Hrd).
Defined.

Lemma list_renders_the_initial_values_witness :
  exists st' bs',
    Actions.list 1 todo_renderer "" (Some [item_A; item_B]) host_dom
      = (Ok (3, MkDynamicRange 1 2), st') /\
    map value (data st') = [item_A; item_B] /\
    rendered (MkDynamicRange 1 2) 3 [] [] bs' st' /\
    kids (world st') 3 = 1 :: flat bs' ++ [2] /\
    (update_agrees todo_renderer -> shows todo_renderer (world st') (data st') bs') /\
    console (world st') = console host_dom.
Proof.
  destruct todo_renderer_answers_text as (Hr & Hu & _).
  apply (list_renders_the_initial_values 0 todo_renderer "" [item_A; item_B] host_dom Hr Hu).
  apply ids_below_fresh. reflexivity.
Defined.

(** Reactors of numbers. *)

Lemma buffered_reactor_delivers_in_order_witness :
  exists ids s',
    (for_each (Utils.run_call number_is_truthy true) (map Utils.CallPush [1; 2; 3]) ;;
     (if true then Utils.stop else ret tt) ;;
     Utils.nexts number_is_truthy true (length [1; 2; 3])) (Utils.new_reactor true)
      = (Ok ids, s') /\
    settled s' ids = map (fun x => Some (Some (Yielded x))) [1; 2; 3] /\
    Utils.queue s' = [] /\
    Utils.done_flag s' = true.
Proof.
  apply (buffered_reactor_delivers_in_order number_is_truthy [1; 2; 3] true
           (Utils.new_reactor true)); try reflexivity.
  repeat constructor.
Defined.

Lemma reactor_push_without_waiter_is_dropped_witness :
  for_each (Utils.run_call number_is_truthy false) (map Utils.CallPush [1; 2; 3])
           (Utils.new_reactor true) = (Ok tt, Utils.new_reactor true) /\
  (forall cleanup,
      Utils.create number_is_truthy false (map Utils.CallPush [1; 2; 3]) cleanup
                   (Utils.new_reactor false)
      = (Ok tt, Utils.new_reactor cleanup)).
Proof.
  apply (reactor_push_without_waiter_is_dropped number_is_truthy [1; 2; 3]
           (Utils.new_reactor true)).
  reflexivity.
Defined.

Lemma buffered_reactor_loses_falsy_values_witness :
  (Utils.buffered_push 0 ;; Utils.buffered_next number_is_truthy) (Utils.new_reactor true) =
  Utils.buffered_next number_is_truthy (Utils.new_reactor true).
Proof.
  apply (buffered_reactor_loses_falsy_values number_is_truthy 0 (Utils.new_reactor true));
    reflexivity.
Defined.

Lemma reactor_pending_nexts_share_a_promise_witness :
  exists w s',
    (p1 <- Utils.next ; p2 <- Utils.next ; ok <- Utils.push 5 ; ret (p1, p2, ok))
      (Utils.new_reactor true) = (Ok (w, w, true), s') /\
    Utils.promises s' !! w = Some (Some (Yielded 5)) /\
    Utils.wait s' = None.
Proof.
  apply (reactor_pending_nexts_share_a_promise 5 (Utils.new_reactor true)).
  - apply new_reactor_inv.
  - reflexivity.
Defined.


Lemma appendUnique_appends_new_keys_witness :
  with_new_keys (extractKey todo_renderer) (map value (data ab_state)) [item_A; item_C]
    = [item_C] /\
  exists st' recs nbs,
    appendUnique 1 todo_renderer todo_name todo_root [item_A; item_C] ab_state
      = (Ok tt, st') /\
    data st' = data ab_state ++ recs /\
    map value recs = [item_C] /\
    map value (data st') = [item_A; item_B; item_C] /\
    rendered todo_root 0 [] [] (ab_blocks ++ nbs) st' /\
    shows todo_renderer (world st') recs nbs /\
    Span.childNodes todo_root (world st') = Ok (flat ab_blocks ++ flat nbs).
Proof.
  split; [reflexivity|].
  destruct ab_state_rendered as (Hrd & _).
  destruct (appendUnique_appends_new_keys todo_renderer todo_name todo_root 1
              [item_A; item_C] ab_state) as (_ & _ & H).
  destruct (H 0 0 [] [] ab_blocks eq_refl Hrd)
    as (st' & recs & nbs & Hrun & Hd & Hv & _ & _ & Hrd' & Hsh & Hcn & _).
  { repeat constructor. by eexists. }
  exists st', recs, nbs. split_and!; try done.
  rewrite Hd, map_app, Hv. reflexivity.
Defined.

Lemma prependUnique_puts_new_keys_in_front_witness :
  with_new_keys (extractKey todo_renderer) (map value (data ab_state)) [item_C; item_A']
    = [item_C] /\
  exists st' recs nbs,
    prependUnique 1 todo_renderer todo_name todo_root [item_C; item_A'] ab_state
      = (Ok tt, st') /\
    data st' = recs ++ data ab_state /\
    map value recs = [item_C] /\
    rendered todo_root 0 [] [] (nbs ++ ab_blocks) st' /\
    shows todo_renderer (world st') recs nbs /\
    Span.childNodes todo_root (world st') = Ok (flat nbs ++ flat ab_blocks).
Proof.
  split; [reflexivity|].
  destruct ab_state_rendered as (Hrd & _).
  destruct (prependUnique_puts_new_keys_in_front todo_renderer todo_name todo_root 0 0 [] []
              [item_C; item_A'] ab_state ab_blocks Hrd)
    as (st' & recs & nbs & Hrun & Hd & Hv & _ & _ & Hrd' & Hsh & Hcn & _).
  { repeat constructor. by eexists. }
  exists st', recs, nbs. by split_and!.
Defined.

